(** * TES3 Anthology Bloodmoon Converter: the grid translation engine

    A shallow embedding of the converter's translation engine
    ([ab_coord_processor.cpp], [ab_data_processor.cpp] and the parts of
    [tes3_ab_converter.cpp] that drive them) and the properties its
    specification states about it.

    Conventions of the embedding:
    - a C++ [int] is a [Z] kept in the 32-bit range by [Int32.wrap]
      (two's complement wrap-around, what the supported targets do);
    - a C++ [double] is an IEEE-754 binary64 value, a [spec_float] of the
      Standard Library with precision 53 and maximal exponent 1024, and the
      arithmetic is the correctly rounded one of [SpecFloat];
    - a [std::string] is a [string]; the regular-expression engine works on
      its list of characters;
    - [ordered_json] is the inductive [json]; an object is an association
      list in insertion order whose keys are looked up first-match;
    - a C++ exception is the [Throw] outcome of the monad [M]; the state of
      [M] carries what the passes mutate through references (the
      replacements flag, the list of updated script ids) and what they
      write to [std::cerr];
    - the text of the messages sent to [logMessage] is not modelled (the log
      is an output-only side channel); an exception raised while a message
      is built is. *)

From Stdlib Require Import ZArith Ascii String List Lia Bool.
From Stdlib Require Import Floats.SpecFloat.
From stdpp Require Import base decidable option list gmap strings.

Open Scope Z_scope.

(** ** 32-bit integers *)

Module Int32.

Definition min_int : Z := - 2 ^ 31.
Definition max_int : Z := 2 ^ 31 - 1.

Definition in_range (z : Z) : Prop := min_int <= z <= max_int.

Definition wrap (z : Z) : Z := (z + 2 ^ 31) mod 2 ^ 32 - 2 ^ 31.

Definition add (a b : Z) : Z := wrap (a + b).
Definition mul (a b : Z) : Z := wrap (a * b).

End Int32.

(** ** Program options ([ab_options.h]) *)

Record ProgramOptions := {
  batchMode : bool;
  silentMode : bool;
  inputFiles : list string;
  conversionType : Z
}.

(** ** Coordinate processor ([ab_coord_processor.cpp]) *)

Record GridOffset := { offsetX : Z; offsetY : Z }.

Definition getGridOffset (conversionType : Z) : GridOffset :=
  if conversionType =? 1 then {| offsetX := 7; offsetY := 6 |}
  else {| offsetX := -7; offsetY := -6 |}.

(** The reference dataset is an SQLite database the engine only reads.
    What [isCoordinateValid] observes of it is whether the query can be
    prepared (and the error message if not) and, for the two bound
    integers, what [sqlite3_step] returns. *)

Inductive sqlite_rc := SQLITE_OK | SQLITE_ERROR.
Inductive sqlite_step := SQLITE_ROW | SQLITE_DONE | SQLITE_BUSY.

Record Database := {
  db_prepare : sqlite_rc;
  db_errmsg : string;
  db_step : Z -> Z -> sqlite_step
}.

(** A database that works and whose table holds exactly the given rows. *)
Definition db_of_rows (rows : list (Z * Z)) : Database :=
  {| db_prepare := SQLITE_OK;
     db_errmsg := "not an error";
     db_step := fun x y =>
       if bool_decide ((x, y) ∈ rows) then SQLITE_ROW else SQLITE_DONE |}.

(** A database on which every query preparation fails. *)
Definition db_broken (msg : string) : Database :=
  {| db_prepare := SQLITE_ERROR;
     db_errmsg := msg;
     db_step := fun _ _ => SQLITE_DONE |}.

Definition sqlite_rc_eqb (a b : sqlite_rc) : bool :=
  match a, b with
  | SQLITE_OK, SQLITE_OK | SQLITE_ERROR, SQLITE_ERROR => true
  | _, _ => false
  end.

Definition sqlite_step_is_row (r : sqlite_step) : bool :=
  match r with SQLITE_ROW => true | _ => false end.

Definition newline : string := String (ascii_of_nat 10) EmptyString.

(** The cell the database is probed with. *)
Definition adjustedGrid (options : ProgramOptions) (gridX gridY : Z) : Z * Z :=
  let offset := getGridOffset (conversionType options) in
  if conversionType options =? 2
  then (Int32.add gridX (offsetX offset), Int32.add gridY (offsetY offset))
  else (gridX, gridY).

(** [isCoordinateValid]: the result and the lines written to [std::cerr]. *)
Definition isCoordinateValid (db : Database) (gridX gridY : Z)
    (customCoordinates : gset (Z * Z)) (options : ProgramOptions)
    : bool * list string :=
  let '(adjustedGridX, adjustedGridY) := adjustedGrid options gridX gridY in
  if negb (sqlite_rc_eqb (db_prepare db) SQLITE_OK) then
    (false, [("Error preparing database query: " +:+ db_errmsg db) +:+ newline])
  else
    let foundInDB := sqlite_step_is_row (db_step db adjustedGridX adjustedGridY) in
    if foundInDB then (true, [])
    else if bool_decide ((gridX, gridY) ∈ customCoordinates) then (true, [])
    else (false, []).

(** ** Doubles

    IEEE-754 binary64 with round-to-nearest-even, from [SpecFloat]. *)

Module Double.

Definition prec : Z := 53.
Definition emax : Z := 1024.

Definition double := spec_float.

Definition add : double -> double -> double := SFadd prec emax.
Definition sub : double -> double -> double := SFsub prec emax.
Definition mul : double -> double -> double := SFmul prec emax.
Definition div : double -> double -> double := SFdiv prec emax.

(** Conversion of an integer ([int], [int64_t], [uint64_t]) to [double]. *)
Definition of_Z (z : Z) : double := binary_normalize prec emax z 0 false.

(** The integer below a finite value; [None] on infinities and NaN. *)
Definition floor_Z (x : double) : option Z :=
  match x with
  | S754_zero _ => Some 0
  | S754_finite s m e => Some (Z.shiftl (cond_Zopp s (Zpos m)) e)
  | _ => None
  end.

(** [std::floor]. *)
Definition floor (x : double) : double :=
  match x with
  | S754_finite s m e =>
      binary_normalize prec emax (Z.shiftl (cond_Zopp s (Zpos m)) e) 0 s
  | _ => x
  end.

(** The integer a finite value truncates to (towards zero). *)
Definition trunc_Z (x : double) : option Z :=
  match x with
  | S754_zero _ => Some 0
  | S754_finite s m e => Some (cond_Zopp s (Z.shiftl (Zpos m) e))
  | _ => None
  end.

(** [static_cast<int>] of a double. Outside the range of [int], and on
    infinities and NaN, the conversion is what the x86-64 instruction
    yields: the smallest [int]. *)
Definition to_int (x : double) : Z :=
  match trunc_Z x with
  | Some z =>
      if (Int32.min_int <=? z) && (z <=? Int32.max_int) then z
      else Int32.min_int
  | None => Int32.min_int
  end.

(** Bit-for-bit equality (the two zeros differ). *)
Definition eqb (x y : double) : bool :=
  match x, y with
  | S754_zero s1, S754_zero s2 => Bool.eqb s1 s2
  | S754_infinity s1, S754_infinity s2 => Bool.eqb s1 s2
  | S754_nan, S754_nan => true
  | S754_finite s1 m1 e1, S754_finite s2 m2 e2 =>
      Bool.eqb s1 s2 && Pos.eqb m1 m2 && Z.eqb e1 e2
  | _, _ => false
  end.

End Double.

Abbreviation double := Double.double.

Definition CELL_SIZE : double := Double.of_Z 8192.

(** The cell of a world coordinate:
    [static_cast<int>(std::floor(coord / 8192.0))]. *)
Definition cellOf (coord : double) : Z :=
  Double.to_int (Double.floor (Double.div coord CELL_SIZE)).

(** The translated coordinate:
    [(newGrid * 8192.0) + (coord - (grid * 8192.0))] with
    [newGrid = grid + offset]. *)
Definition translateCoord (coord : double) (grid off : Z) : double :=
  let newGrid := Int32.add grid off in
  Double.add (Double.mul (Double.of_Z newGrid) CELL_SIZE)
             (Double.sub coord (Double.mul (Double.of_Z grid) CELL_SIZE)).

(** ** Exceptions, and the monad of the passes *)

Inductive exn :=
| json_type_error (id : Z)   (* nlohmann::json::type_error, with its id *)
| std_out_of_range           (* std::out_of_range, from std::stod *)
| std_invalid_argument       (* std::invalid_argument, from std::stod *)
| out_of_fuel.               (* not of the program: a modelled loop reached its bound *)

Inductive outcome (A : Type) :=
| Ok (a : A)
| Throw (e : exn).
Arguments Ok {A} a.
Arguments Throw {A} e.

(** What a pass changes besides the document. *)
Record pass_state := {
  replacementsFlag : Z;
  updatedScriptIDs : list string;
  cerr : list string
}.

Definition M (A : Type) : Type := pass_state -> outcome A * pass_state.

Definition ret {A} (a : A) : M A := fun st => (Ok a, st).

Definition bind {A B} (c : M A) (k : A -> M B) : M B :=
  fun st =>
    match c st with
    | (Ok a, st') => k a st'
    | (Throw e, st') => (Throw e, st')
    end.

Definition lift {A} (o : outcome A) : M A := fun st => (o, st).

Declare Scope pass_scope.
Delimit Scope pass_scope with pass.
Notation "x <- c ;; k" := (bind c (fun x => k))
  (at level 100, c at next level, right associativity) : pass_scope.
Notation "c ;;; k" := (bind c (fun _ => k))
  (at level 100, right associativity) : pass_scope.
Open Scope pass_scope.

Definition set_replacementsFlag (v : Z) : M unit :=
  fun st => (Ok tt, {| replacementsFlag := v;
                       updatedScriptIDs := updatedScriptIDs st;
                       cerr := cerr st |}).

Definition push_updatedScriptID (id : string) : M unit :=
  fun st => (Ok tt, {| replacementsFlag := replacementsFlag st;
                       updatedScriptIDs := updatedScriptIDs st ++ [id];
                       cerr := cerr st |}).

Definition write_cerr (lines : list string) : M unit :=
  fun st => (Ok tt, {| replacementsFlag := replacementsFlag st;
                       updatedScriptIDs := updatedScriptIDs st;
                       cerr := cerr st ++ lines |}).

Fixpoint mapM {A B} (f : A -> M B) (l : list A) : M (list B) :=
  match l with
  | [] => ret []
  | x :: l' => y <- f x ;; ys <- mapM f l' ;; ret (y :: ys)
  end.

(** [isCoordinateValid] as the passes call it. *)
Definition coordinateValid (db : Database) (gridX gridY : Z)
    (customCoordinates : gset (Z * Z)) (options : ProgramOptions) : M bool :=
  let '(valid, lines) := isCoordinateValid db gridX gridY customCoordinates options in
  write_cerr lines ;;; ret valid.

(** ** The document: [nlohmann::ordered_json] *)

#[local] Unset Elimination Schemes.
Inductive json :=
| JNull
| JBool (b : bool)
| JInt (z : Z)           (* number_integer and number_unsigned *)
| JFloat (d : double)    (* number_float *)
| JString (s : string)
| JArray (elems : list json)
| JObject (members : list (string * json)).
#[local] Set Elimination Schemes.

Fixpoint obj_lookup (key : string) (members : list (string * json)) : option json :=
  match members with
  | [] => None
  | (k, v) :: rest => if String.eqb k key then Some v else obj_lookup key rest
  end.

(** Assignment through [operator[]]: the first member with the key is
    replaced, a member is appended when there is none. *)
Fixpoint obj_set (key : string) (v : json) (members : list (string * json))
    : list (string * json) :=
  match members with
  | [] => [(key, v)]
  | (k, w) :: rest =>
      if String.eqb k key then (k, v) :: rest else (k, w) :: obj_set key v rest
  end.

(** [j.contains(key)]. *)
Definition contains (j : json) (key : string) : bool :=
  match j with
  | JObject members => bool_decide (is_Some (obj_lookup key members))
  | _ => false
  end.

(** [j[key]] on a mutable value, read. A missing key reads as null (the
    library inserts a null member). *)
Definition at_key (j : json) (key : string) : outcome json :=
  match j with
  | JObject members => Ok (default JNull (obj_lookup key members))
  | JNull => Ok JNull
  | _ => Throw (json_type_error 305)
  end.

(** [j[key] = v]. *)
Definition set_key (j : json) (key : string) (v : json) : outcome json :=
  match j with
  | JObject members => Ok (JObject (obj_set key v members))
  | JNull => Ok (JObject [(key, v)])
  | _ => Throw (json_type_error 305)
  end.

(** [j[i]] on a mutable value, read. An index past the end reads as null
    (the library fills the array up with nulls). *)
Definition at_idx (j : json) (i : nat) : outcome json :=
  match j with
  | JArray elems => Ok (default JNull (elems !! i))
  | JNull => Ok JNull
  | _ => Throw (json_type_error 305)
  end.

Definition list_set_fill (elems : list json) (i : nat) (v : json) : list json :=
  if bool_decide (i < length elems)%nat then <[i:=v]> elems
  else elems ++ replicate (i - length elems) JNull ++ [v].

(** [j[i] = v]. *)
Definition set_idx (j : json) (i : nat) (v : json) : outcome json :=
  match j with
  | JArray elems => Ok (JArray (list_set_fill elems i v))
  | JNull => Ok (JArray (list_set_fill [] i v))
  | _ => Throw (json_type_error 305)
  end.

Definition is_array (j : json) : bool :=
  match j with JArray _ => true | _ => false end.

(** [j.size()]. *)
Definition size (j : json) : nat :=
  match j with
  | JNull => 0
  | JArray elems => length elems
  | JObject members => length members
  | _ => 1
  end.

(** [j.empty()]. *)
Definition empty (j : json) : bool :=
  match size j with O => true | _ => false end.

(** [j == "text"]. *)
Definition is_string (j : json) (s : string) : bool :=
  match j with JString t => String.eqb t s | _ => false end.

(** [j.get<double>()]. *)
Definition get_double (j : json) : outcome double :=
  match j with
  | JInt z => Ok (Double.of_Z z)
  | JFloat d => Ok d
  | _ => Throw (json_type_error 302)
  end.

(** [j.get<int>()]. *)
Definition get_int (j : json) : outcome Z :=
  match j with
  | JInt z => Ok (Int32.wrap z)
  | JFloat d => Ok (Double.to_int d)
  | JBool b => Ok (if b then 1 else 0)
  | _ => Throw (json_type_error 302)
  end.

(** [j.get<std::string>()]. *)
Definition get_string (j : json) : outcome string :=
  match j with
  | JString s => Ok s
  | _ => Throw (json_type_error 302)
  end.

(** [j.get<bool>()]. *)
Definition get_bool (j : json) : outcome bool :=
  match j with
  | JBool b => Ok b
  | _ => Throw (json_type_error 302)
  end.

(** [j.value(key, def)] with a string default. *)
Definition value_string (j : json) (key def : string) : outcome string :=
  match j with
  | JObject members =>
      match obj_lookup key members with
      | Some v => get_string v
      | None => Ok def
      end
  | _ => Throw (json_type_error 306)
  end.

(** [for (auto& x : j) { x = f(x) }]: the elements of an array, the values
    of an object, a scalar itself once, nothing on null. *)
Definition for_each (f : json -> M json) (j : json) : M json :=
  match j with
  | JNull => ret JNull
  | JArray elems => elems' <- mapM f elems ;; ret (JArray elems')
  | JObject members =>
      members' <- mapM (fun kv => v <- f (snd kv) ;; ret (fst kv, v)) members ;;
      ret (JObject members')
  | _ => f j
  end.

(** [haystack.find(needle) != std::string::npos]. *)
Fixpoint has_substring (needle haystack : string) : bool :=
  if String.prefix needle haystack then true
  else match haystack with
       | EmptyString => false
       | String _ rest => has_substring needle rest
       end.

Definition key (j : json) (k : string) : M json := lift (at_key j k).
Definition idx (j : json) (i : nat) : M json := lift (at_idx j i).

(** [if (!options.silentMode) logMessage(... + reference.value("id", "Unknown ID"))]:
    the message is built, and may raise, only when not silent. *)
Definition log_reference_id (options : ProgramOptions) (reference : json) : M unit :=
  if silentMode options then ret tt
  else (_ <- lift (value_string reference "id" "Unknown ID") ;; ret tt).

(** ** Structured passes ([ab_data_processor.cpp]) *)

(** One iteration of the loop of [processTranslation]. *)
Definition processTranslation_reference (offset : GridOffset)
    (options : ProgramOptions) (reference : json) : M json :=
  deleted <- (if contains reference "deleted"
              then d <- key reference "deleted" ;; lift (get_bool d)
              else ret false) ;;
  if deleted then ret reference
  else
    movable <- (if contains reference "temporary" && contains reference "translation"
                then t <- key reference "translation" ;;
                     ret (is_array t && bool_decide (2 <= size t)%nat)
                else ret false) ;;
    if movable then
      log_reference_id options reference ;;;
      t <- key reference "translation" ;;
      x0 <- idx t 0 ;;
      originalX <- lift (get_double x0) ;;
      y0 <- idx t 1 ;;
      originalY <- lift (get_double y0) ;;
      t1 <- lift (set_idx t 0
              (JFloat (Double.add originalX
                         (Double.of_Z (Int32.mul (offsetX offset) 8192))))) ;;
      t2 <- lift (set_idx t1 1
              (JFloat (Double.add originalY
                         (Double.of_Z (Int32.mul (offsetY offset) 8192))))) ;;
      reference' <- lift (set_key reference "translation" t2) ;;
      set_replacementsFlag 1 ;;;
      ret reference'
    else
      log_reference_id options reference ;;;
      ret reference.

(** [processTranslation]: the references of one Cell record. *)
Definition processTranslation (jsonData : json) (offset : GridOffset)
    (options : ProgramOptions) : M json :=
  usable <- (if contains jsonData "references"
             then r <- key jsonData "references" ;; ret (is_array r)
             else ret false) ;;
  if negb usable then ret jsonData
  else
    references <- key jsonData "references" ;;
    references' <- for_each (processTranslation_reference offset options) references ;;
    lift (set_key jsonData "references" references').

Definition typeNames : list string := ["Cell"; "Landscape"; "PathGrid"].

(** One iteration of the loop of [processGridValues]. *)
Definition processGridValues_item (db : Database) (offset : GridOffset)
    (customCoordinates : gset (Z * Z)) (options : ProgramOptions)
    (item : json) : M json :=
  supported <- (if contains item "type"
                then t <- key item "type" ;;
                     name <- lift (get_string t) ;;
                     ret (bool_decide (name ∈ typeNames))
                else ret false) ;;
  if negb supported then ret item
  else
    t <- key item "type" ;;
    typeName <- lift (get_string t) ;;
    hasTopLevelGrid <- (if contains item "grid"
                        then g <- key item "grid" ;; ret (is_array g)
                        else ret false) ;;
    hasDataGrid <- (if contains item "data"
                    then d <- key item "data" ;;
                         if contains d "grid"
                         then g <- key d "grid" ;; ret (is_array g)
                         else ret false
                    else ret false) ;;
    if negb hasTopLevelGrid && negb hasDataGrid then ret item
    else
      grid <- (if hasTopLevelGrid then key item "grid"
               else d <- key item "data" ;; key d "grid") ;;
      g0 <- idx grid 0 ;;
      gridX <- lift (get_int g0) ;;
      g1 <- idx grid 1 ;;
      gridY <- lift (get_int g1) ;;
      valid <- coordinateValid db gridX gridY customCoordinates options ;;
      if valid then
        let newGridX := Int32.add gridX (offsetX offset) in
        let newGridY := Int32.add gridY (offsetY offset) in
        grid1 <- lift (set_idx grid 0 (JInt newGridX)) ;;
        grid2 <- lift (set_idx grid1 1 (JInt newGridY)) ;;
        item1 <- (if hasTopLevelGrid then lift (set_key item "grid" grid2)
                  else d <- key item "data" ;;
                       d' <- lift (set_key d "grid" grid2) ;;
                       lift (set_key item "data" d')) ;;
        item2 <- (if String.eqb typeName "Cell"
                  then processTranslation item1 offset options
                  else ret item1) ;;
        set_replacementsFlag 1 ;;;
        ret item2
      else ret item.

(** [processGridValues]: the grid of every Cell, Landscape and PathGrid. *)
Definition processGridValues (db : Database) (inputData : json)
    (offset : GridOffset) (customCoordinates : gset (Z * Z))
    (options : ProgramOptions) : M json :=
  for_each (processGridValues_item db offset customCoordinates options) inputData.

(** The two components of a translation array read, checked and moved:
    the body shared by the interior-door and the travel-destination
    passes. *)
Definition translate_pair (db : Database) (offset : GridOffset)
    (customCoordinates : gset (Z * Z)) (options : ProgramOptions)
    (translation : json) : M json :=
  x0 <- idx translation 0 ;;
  destX <- lift (get_double x0) ;;
  y0 <- idx translation 1 ;;
  destY <- lift (get_double y0) ;;
  let gridX := cellOf destX in
  let gridY := cellOf destY in
  valid <- coordinateValid db gridX gridY customCoordinates options ;;
  if valid then
    let newDestX := translateCoord destX gridX (offsetX offset) in
    let newDestY := translateCoord destY gridY (offsetY offset) in
    set_replacementsFlag 1 ;;;
    t1 <- lift (set_idx translation 0 (JFloat newDestX)) ;;
    lift (set_idx t1 1 (JFloat newDestY))
  else ret translation.

Definition processInteriorDoors_reference (db : Database) (offset : GridOffset)
    (customCoordinates : gset (Z * Z)) (options : ProgramOptions)
    (reference : json) : M json :=
  door <- (if contains reference "translation"
           then t <- key reference "translation" ;;
                if is_array t && contains reference "destination"
                then d <- key reference "destination" ;;
                     if contains d "translation"
                     then dt <- key d "translation" ;; ret (is_array dt)
                     else ret false
                else ret false
           else ret false) ;;
  if door then
    d <- key reference "destination" ;;
    dt <- key d "translation" ;;
    dt' <- translate_pair db offset customCoordinates options dt ;;
    d' <- lift (set_key d "translation" dt') ;;
    lift (set_key reference "destination" d')
  else ret reference.

Definition processInteriorDoors_cell (db : Database) (offset : GridOffset)
    (customCoordinates : gset (Z * Z)) (options : ProgramOptions)
    (cell : json) : M json :=
  isCell <- (if contains cell "type"
             then t <- key cell "type" ;; ret (is_string t "Cell")
             else ret false) ;;
  if negb isCell then ret cell
  else
    interior <- (if contains cell "data"
                 then d <- key cell "data" ;;
                      if contains d "flags"
                      then f <- key d "flags" ;;
                           flags <- lift (get_string f) ;;
                           ret (has_substring "IS_INTERIOR" flags)
                      else ret false
                 else ret false) ;;
    if negb interior then ret cell
    else
      hasRefs <- (if contains cell "references"
                  then r <- key cell "references" ;; ret (is_array r)
                  else ret false) ;;
      if negb hasRefs then ret cell
      else
        references <- key cell "references" ;;
        references' <- for_each
          (processInteriorDoors_reference db offset customCoordinates options)
          references ;;
        lift (set_key cell "references" references').

(** [processInteriorDoorsTranslation]. *)
Definition processInteriorDoorsTranslation (db : Database) (inputData : json)
    (offset : GridOffset) (customCoordinates : gset (Z * Z))
    (options : ProgramOptions) : M json :=
  for_each (processInteriorDoors_cell db offset customCoordinates options) inputData.

Definition processNpcTravel_destination (db : Database) (offset : GridOffset)
    (customCoordinates : gset (Z * Z)) (options : ProgramOptions)
    (destination : json) : M json :=
  hasTranslation <- (if contains destination "translation"
                     then t <- key destination "translation" ;; ret (is_array t)
                     else ret false) ;;
  if hasTranslation then
    t <- key destination "translation" ;;
    t' <- translate_pair db offset customCoordinates options t ;;
    lift (set_key destination "translation" t')
  else ret destination.

Definition processNpcTravel_npc (db : Database) (offset : GridOffset)
    (customCoordinates : gset (Z * Z)) (options : ProgramOptions)
    (npc : json) : M json :=
  isNpc <- (if contains npc "type"
            then t <- key npc "type" ;; ret (is_string t "Npc")
            else ret false) ;;
  if negb isNpc then ret npc
  else
    hasDestinations <- (if contains npc "travel_destinations"
                        then r <- key npc "travel_destinations" ;; ret (is_array r)
                        else ret false) ;;
    if negb hasDestinations then ret npc
    else
      destinations <- key npc "travel_destinations" ;;
      destinations' <- for_each
        (processNpcTravel_destination db offset customCoordinates options)
        destinations ;;
      lift (set_key npc "travel_destinations" destinations').

(** [processNpcTravelDestinations]. *)
Definition processNpcTravelDestinations (db : Database) (inputData : json)
    (offset : GridOffset) (customCoordinates : gset (Z * Z))
    (options : ProgramOptions) : M json :=
  for_each (processNpcTravel_npc db offset customCoordinates options) inputData.

(** ** Characters and numerals *)

Definition dquote : ascii := ascii_of_nat 34.

Definition code (c : ascii) : nat := nat_of_ascii c.

(** [isspace], [isdigit] and [tolower] in the "C" locale. *)
Definition isspace (c : ascii) : bool :=
  Nat.eqb (code c) 32 || (Nat.leb 9 (code c) && Nat.leb (code c) 13).

Definition isdigit (c : ascii) : bool :=
  Nat.leb 48 (code c) && Nat.leb (code c) 57.

Definition tolower (c : ascii) : ascii :=
  if Nat.leb 65 (code c) && Nat.leb (code c) 90
  then ascii_of_nat (code c + 32) else c.

Definition digit_val (c : ascii) : Z := Z.of_nat (code c) - 48.

Fixpoint digits_val (acc : Z) (l : list ascii) : Z :=
  match l with
  | [] => acc
  | c :: l' => digits_val (10 * acc + digit_val c) l'
  end.

Definition digit_char (d : Z) : ascii := ascii_of_nat (Z.to_nat d + 48).

Fixpoint dec_go (fuel : nat) (n : Z) (acc : list ascii) : list ascii :=
  match fuel with
  | O => acc
  | S fuel' =>
      let acc' := digit_char (n mod 10) :: acc in
      if n <? 10 then acc' else dec_go fuel' (n / 10) acc'
  end.

(** The decimal digits of a natural number. *)
Definition dec (n : Z) : list ascii := dec_go (S (Z.to_nat (Z.log2 n))) n [].

(** *** [std::stod]

    Only on the numerals the patterns of the engine capture: an optional
    minus sign, digits, and optionally a point and digits. The value is
    the binary64 nearest to the decimal (ties to even). A value too large
    raises [std::out_of_range], as does a non-zero value that rounds
    inexactly into the subnormal range or to zero. *)

(** The longest prefix of digits, and what follows it. *)
Fixpoint span_digits (l : list ascii) : list ascii * list ascii :=
  match l with
  | c :: l' =>
      if isdigit c then let '(ds, rest) := span_digits l' in (c :: ds, rest)
      else ([], l)
  | [] => ([], [])
  end.

Definition split_numeral (l : list ascii)
    : option (bool * list ascii * list ascii) :=
  let '(neg, body) :=
    match l with
    | c :: r => if Ascii.eqb c "-" then (true, r) else (false, l)
    | [] => (false, l)
    end in
  let '(int_part, rest) := span_digits body in
  match int_part, rest with
  | [], _ => None
  | _, [] => Some (neg, int_part, [])
  | _, c :: frac =>
      if Ascii.eqb c "." && forallb isdigit frac && negb (bool_decide (frac = []))
      then Some (neg, int_part, frac) else None
  end.

(** The binary64 nearest to [num / den], for [num >= 0] and [den > 0]. *)
Definition nearest_double (neg : bool) (num den : Z) : double :=
  if num =? 0 then S754_zero neg
  else
    let '(q, e, loc) := SFdiv_core_binary Double.prec Double.emax num 0 den 0 in
    binary_round_aux Double.prec Double.emax neg q e loc.

(** Whether a finite double [m * 2^e] is exactly [num / den]. *)
Definition exactly (m : positive) (e : Z) (num den : Z) : bool :=
  if 0 <=? e then Zpos m * 2 ^ e * den =? num
  else Zpos m * den =? num * 2 ^ (- e).

Definition stod_list (l : list ascii) : outcome double :=
  match split_numeral l with
  | None => Throw std_invalid_argument
  | Some (neg, int_part, frac) =>
      let num := digits_val 0 (int_part ++ frac) in
      let den := 10 ^ Z.of_nat (length frac) in
      match nearest_double neg num den with
      | S754_infinity _ => Throw std_out_of_range
      | S754_nan => Throw std_out_of_range
      | S754_zero s => if num =? 0 then Ok (S754_zero s) else Throw std_out_of_range
      | S754_finite s m e =>
          if (Zpos (digits2_pos m) <? Double.prec) && negb (exactly m e num den)
          then Throw std_out_of_range
          else Ok (S754_finite s m e)
      end
  end.

Definition stod (s : string) : outcome double := stod_list (list_ascii_of_string s).

(** *** [std::fixed << std::setprecision(p) << x] *)

Definition round_half_even (num den : Z) : Z :=
  let q := num / den in
  let r := num mod den in
  match (2 * r ?= den) with
  | Lt => q
  | Gt => q + 1
  | Eq => if Z.even q then q else q + 1
  end.

Fixpoint pad_zeros (width : nat) (l : list ascii) : list ascii :=
  if bool_decide (length l < width)%nat
  then match width with
       | O => l
       | S w => "0"%char :: pad_zeros w l
       end
  else l.

(** [scaled] is the value times [10^p], rounded to an integer. *)
Definition fixed_of_scaled (p : nat) (scaled : Z) : list ascii :=
  let unit := 10 ^ Z.of_nat p in
  dec (scaled / unit) ++
  match p with
  | O => []
  | S _ => "."%char :: pad_zeros p (dec (scaled mod unit))
  end.

Definition sign_chars (s : bool) : list ascii := if s then ["-"%char] else [].

Definition fixed_list (p : nat) (x : double) : list ascii :=
  match x with
  | S754_nan => list_ascii_of_string "nan"
  | S754_infinity s => sign_chars s ++ list_ascii_of_string "inf"
  | S754_zero s => sign_chars s ++ fixed_of_scaled p 0
  | S754_finite s m e =>
      let unit := 10 ^ Z.of_nat p in
      let scaled := if 0 <=? e then Zpos m * 2 ^ e * unit
                    else round_half_even (Zpos m * unit) (2 ^ (- e)) in
      sign_chars s ++ fixed_of_scaled p scaled
  end.

Definition fixed (p : nat) (x : double) : string :=
  string_of_list_ascii (fixed_list p x).

(** ** Regular expressions

    The fragment of the ECMAScript grammar of [std::regex] the engine's
    patterns are written in, matched the way [std::regex_search] matches
    it under [std::regex_constants::icase]: leftmost, by backtracking,
    alternatives in order, quantifiers greedy. *)

Inductive char_class :=
| CSpace                 (* \s *)
| CNotSpace              (* \S *)
| CDigit                 (* \d *)
| CNot (c : ascii).      (* [^c] *)

Inductive regex :=
| REmpty
| RChar (c : ascii)
| RClass (cl : char_class)
| RSeq (r1 r2 : regex)
| RAlt (r1 r2 : regex)
| RStar (r : regex)
| RGroup (n : nat) (r : regex).

(** [r+], [r?] and a literal word. *)
Definition RPlus (r : regex) : regex := RSeq r (RStar r).
Definition ROpt (r : regex) : regex := RAlt r REmpty.

Fixpoint RWord (w : list ascii) : regex :=
  match w with
  | [] => REmpty
  | c :: w' => RSeq (RChar c) (RWord w')
  end.

Fixpoint RSeqs (rs : list regex) : regex :=
  match rs with
  | [] => REmpty
  | r :: rs' => RSeq r (RSeqs rs')
  end.

Definition class_mem (cl : char_class) (x : ascii) : bool :=
  match cl with
  | CSpace => isspace x
  | CNotSpace => negb (isspace x)
  | CDigit => isdigit x
  | CNot c => negb (Ascii.eqb (tolower x) (tolower c))
  end.

(** The sub-matches: group number and captured text, latest first. *)
Definition captures := list (nat * list ascii).

Fixpoint capture (n : nat) (caps : captures) : option (list ascii) :=
  match caps with
  | [] => None
  | (m, text) :: rest => if Nat.eqb m n then Some text else capture n rest
  end.

(** [rmatch r s caps k]: match [r] at the front of [s], then continue
    with [k] on what is left; on failure of [k], backtrack. An iteration
    of a star that consumes nothing is refused. *)
Fixpoint rmatch {R : Type} (r : regex) (s : list ascii) (caps : captures)
    (k : list ascii -> captures -> option R) {struct r} : option R :=
  match r with
  | REmpty => k s caps
  | RChar c =>
      match s with
      | x :: s' => if Ascii.eqb (tolower x) (tolower c) then k s' caps else None
      | [] => None
      end
  | RClass cl =>
      match s with
      | x :: s' => if class_mem cl x then k s' caps else None
      | [] => None
      end
  | RSeq r1 r2 => rmatch r1 s caps (fun s' caps' => rmatch r2 s' caps' k)
  | RAlt r1 r2 =>
      match rmatch r1 s caps k with
      | Some x => Some x
      | None => rmatch r2 s caps k
      end
  | RStar r1 =>
      (fix star (fuel : nat) (s : list ascii) (caps : captures) : option R :=
         match fuel with
         | O => k s caps
         | S fuel' =>
             match rmatch r1 s caps
                     (fun s' caps' =>
                        if bool_decide (length s' < length s)%nat
                        then star fuel' s' caps' else None) with
             | Some x => Some x
             | None => k s caps
             end
         end) (length s) s caps
  | RGroup n r1 =>
      rmatch r1 s caps
        (fun s' caps' => k s' ((n, take (length s - length s') s) :: caps'))
  end.

(** A match: the text before it, the matched text, the text after it and
    the sub-matches. *)
Record smatch := {
  m_prefix : list ascii;
  m_str : list ascii;
  m_suffix : list ascii;
  m_caps : captures
}.

Definition match_here (r : regex) (s : list ascii) : option (list ascii * captures) :=
  rmatch r s [] (fun s' caps => Some (s', caps)).

(** [std::regex_search]: the first position at which the pattern matches. *)
Fixpoint regex_search_from (r : regex) (before : list ascii) (s : list ascii)
    : option smatch :=
  match match_here r s with
  | Some (s', caps) =>
      Some {| m_prefix := rev before;
              m_str := take (length s - length s') s;
              m_suffix := s';
              m_caps := caps |}
  | None =>
      match s with
      | [] => None
      | x :: s' => regex_search_from r (x :: before) s'
      end
  end.

Definition regex_search (r : regex) (s : list ascii) : option smatch :=
  regex_search_from r [] s.

(** [match[n].str()]: empty when the group did not take part. *)
Definition sub_str (m : smatch) (n : nat) : list ascii :=
  default [] (capture n (m_caps m)).

(** *** The pieces of the patterns *)

(** [\s*,?\s*] *)
Definition sep : regex :=
  RSeqs [RStar (RClass CSpace); ROpt (RChar ","); RStar (RClass CSpace)].

(** [((?:Q[^Q]+Q)|\S+)], where [Q] stands for the double quote. *)
Definition idG (n : nat) : regex :=
  RGroup n (RAlt (RSeqs [RChar dquote; RPlus (RClass (CNot dquote)); RChar dquote])
                 (RPlus (RClass CNotSpace))).

(** [(-?\d+(?:\.\d+)?)] *)
Definition numG (n : nat) : regex :=
  RGroup n (RSeqs [ROpt (RChar "-"); RPlus (RClass CDigit);
                   ROpt (RSeq (RChar ".") (RPlus (RClass CDigit)))]).

(** [(\d+)] *)
Definition intG (n : nat) : regex := RGroup n (RPlus (RClass CDigit)).

(** [(Keyword)] *)
Definition kwG (w : string) : regex := RGroup 1 (RWord (list_ascii_of_string w)).

(** ** Embedded commands

    The eighteen rewriting passes of [ab_data_processor.cpp] are nine
    commands, each applied to the text of Script records and to the
    result text of DialogueInfo records. The passes of one kind of record
    differ in the pattern, in the sub-matches copied verbatim before the
    coordinates and in what follows the coordinates. *)

Inductive tail :=
| TailReset (n : nat)                  (* an optional reset flag, copied *)
| TailRotation (n : nat)               (* a rotation *)
| TailRotationCell (n cell : nat).     (* a rotation and a cell id *)

Record command := {
  cmd_keyword : string;      (* the keyword, as the pattern spells it *)
  cmd_operands : list regex; (* the pattern after the keyword *)
  cmd_verbatim : list nat;   (* sub-matches copied before the coordinates *)
  cmd_x : nat;               (* sub-match of x; y and z are the next two *)
  cmd_tail : tail
}.

(** The pattern of a command: [(Keyword)] and its operands. *)
Definition cmd_regex (cmd : command) : regex :=
  RSeqs (kwG (cmd_keyword cmd) :: cmd_operands cmd).

Definition AiEscort : command :=
  {| cmd_keyword := "AiEscort";
     cmd_operands := [sep; idG 2; sep; intG 3; sep; numG 4; sep; numG 5; sep; numG 6;
                      ROpt (RSeqs [sep; intG 7])];
     cmd_verbatim := [2; 3]%nat; cmd_x := 4%nat; cmd_tail := TailReset 7 |}.

Definition AiEscortCell : command :=
  {| cmd_keyword := "AiEscortCell";
     cmd_operands := [sep; idG 2; sep; idG 3; sep; intG 4; sep;
                      numG 5; sep; numG 6; sep; numG 7;
                      ROpt (RSeqs [sep; intG 8])];
     cmd_verbatim := [2; 3; 4]%nat; cmd_x := 5%nat; cmd_tail := TailReset 8 |}.

Definition AiFollow : command :=
  {| cmd_keyword := "AiFollow";
     cmd_operands := [sep; idG 2; sep; intG 3; sep; numG 4; sep; numG 5; sep; numG 6;
                      ROpt (RSeqs [sep; intG 7])];
     cmd_verbatim := [2; 3]%nat; cmd_x := 4%nat; cmd_tail := TailReset 7 |}.

Definition AiFollowCell : command :=
  {| cmd_keyword := "AIFollowCell";
     cmd_operands := [sep; idG 2; sep; idG 3; sep; intG 4; sep;
                      numG 5; sep; numG 6; sep; numG 7;
                      ROpt (RSeqs [sep; intG 8])];
     cmd_verbatim := [2; 3; 4]%nat; cmd_x := 5%nat; cmd_tail := TailReset 8 |}.

Definition AiTravel : command :=
  {| cmd_keyword := "AiTravel";
     cmd_operands := [sep; numG 2; sep; numG 3; sep; numG 4;
                      ROpt (RSeqs [sep; intG 5])];
     cmd_verbatim := []; cmd_x := 2%nat; cmd_tail := TailReset 5 |}.

Definition Position : command :=
  {| cmd_keyword := "Position";
     cmd_operands := [sep; numG 2; sep; numG 3; sep; numG 4; sep; numG 5];
     cmd_verbatim := []; cmd_x := 2%nat; cmd_tail := TailRotation 5 |}.

Definition PositionCell : command :=
  {| cmd_keyword := "PositionCell";
     cmd_operands := [sep; numG 2; sep; numG 3; sep; numG 4; sep; numG 5; sep; idG 6];
     cmd_verbatim := []; cmd_x := 2%nat; cmd_tail := TailRotationCell 5 6 |}.

Definition PlaceItem : command :=
  {| cmd_keyword := "PlaceItem";
     cmd_operands := [sep; idG 2; sep; numG 3; sep; numG 4; sep; numG 5; sep; numG 6];
     cmd_verbatim := [2]%nat; cmd_x := 3%nat; cmd_tail := TailRotation 6 |}.

Definition PlaceItemCell : command :=
  {| cmd_keyword := "PlaceItemCell";
     cmd_operands := [sep; idG 2; sep; idG 3; sep; numG 4; sep; numG 5; sep; numG 6;
                      sep; numG 7];
     cmd_verbatim := [2; 3]%nat; cmd_x := 4%nat; cmd_tail := TailRotation 7 |}.

Definition commands : list command :=
  [AiEscort; AiEscortCell; AiFollow; AiFollowCell; AiTravel;
   Position; PositionCell; PlaceItem; PlaceItemCell].

(** The fields of a command, written out separated by [", "]. *)
Definition comma_space : list ascii := [","%char; " "%char].

Fixpoint join_fields (fields : list (list ascii)) : list ascii :=
  match fields with
  | [] => []
  | [f] => f
  | f :: rest => f ++ comma_space ++ join_fields rest
  end.

(** What the [tail] of a matched command is re-emitted as. The rotation is
    parsed before the validity of the cell is known. *)
Definition tail_fields (t : tail) (m : smatch) : M (list (list ascii)) :=
  match t with
  | TailReset n =>
      let resetValue := sub_str m n in
      ret (if bool_decide (resetValue = []) then [] else [resetValue])
  | TailRotation n =>
      zRot <- lift (stod_list (sub_str m n)) ;;
      ret [fixed_list 0 zRot]
  | TailRotationCell n cell =>
      zRot <- lift (stod_list (sub_str m n)) ;;
      ret [fixed_list 0 zRot; sub_str m cell]
  end.

(** The body of the [while] loop for one match: the text the command is
    replaced by, and whether it was translated. *)
Definition rewrite_match (cmd : command) (db : Database) (offset : GridOffset)
    (customCoordinates : gset (Z * Z)) (options : ProgramOptions)
    (m : smatch) : M (list ascii * bool) :=
  let commandType := sub_str m 1 in
  let verbatim := map (sub_str m) (cmd_verbatim cmd) in
  destX <- lift (stod_list (sub_str m (cmd_x cmd))) ;;
  destY <- lift (stod_list (sub_str m (S (cmd_x cmd)))) ;;
  destZ <- lift (stod_list (sub_str m (S (S (cmd_x cmd))))) ;;
  after <- tail_fields (cmd_tail cmd) m ;;
  let gridX := cellOf destX in
  let gridY := cellOf destY in
  valid <- coordinateValid db gridX gridY customCoordinates options ;;
  if valid then
    let newDestX := translateCoord destX gridX (offsetX offset) in
    let newDestY := translateCoord destY gridY (offsetY offset) in
    set_replacementsFlag 1 ;;;
    ret (join_fields ([commandType] ++ verbatim ++
                      [fixed_list 3 newDestX; fixed_list 3 newDestY;
                       fixed_list 3 destZ] ++ after),
         true)
  else ret (m_str m, false).

(** The [while (std::regex_search(...))] loop. [searchStart] is the text
    still to search, [updatedText] the text produced so far. The loop of
    the program has no bound; the fuel of the model is one more than the
    length of the text, and running out of it is the outcome
    [Throw out_of_fuel] ([rewrite_text_fuel] shows that this never
    happens). *)
Fixpoint rewrite_loop (cmd : command) (db : Database) (offset : GridOffset)
    (customCoordinates : gset (Z * Z)) (options : ProgramOptions)
    (fuel : nat) (searchStart updatedText : list ascii) (scriptUpdated : bool)
    : M (list ascii * bool) :=
  match fuel with
  | O => lift (Throw out_of_fuel)
  | S fuel' =>
      match regex_search (cmd_regex cmd) searchStart with
      | None => ret (updatedText ++ searchStart, scriptUpdated)
      | Some m =>
          r <- rewrite_match cmd db offset customCoordinates options m ;;
          rewrite_loop cmd db offset customCoordinates options fuel'
            (m_suffix m) (updatedText ++ m_prefix m ++ fst r)
            (scriptUpdated || snd r)
      end
  end.

Definition rewrite_text (cmd : command) (db : Database) (offset : GridOffset)
    (customCoordinates : gset (Z * Z)) (options : ProgramOptions)
    (scriptText : string) : M (string * bool) :=
  let text := list_ascii_of_string scriptText in
  r <- rewrite_loop cmd db offset customCoordinates options
         (S (length text)) text [] false ;;
  ret (string_of_list_ascii (fst r), snd r).

(** One iteration of the loop over the records, for a Script. *)
Definition processScript_record (cmd : command) (db : Database)
    (offset : GridOffset) (customCoordinates : gset (Z * Z))
    (options : ProgramOptions) (script : json) : M json :=
  isScript <- (if contains script "type"
               then t <- key script "type" ;; ret (is_string t "Script")
               else ret false) ;;
  if isScript && contains script "text" then
    t <- key script "text" ;;
    scriptText <- lift (get_string t) ;;
    scriptID <- (if contains script "id"
                 then i <- key script "id" ;; lift (get_string i)
                 else ret "Unknown") ;;
    r <- rewrite_text cmd db offset customCoordinates options scriptText ;;
    script' <- lift (set_key script "text" (JString (fst r))) ;;
    (if snd r then push_updatedScriptID scriptID else ret tt) ;;;
    ret script'
  else ret script.

(** One iteration of the loop over the records, for a DialogueInfo. *)
Definition processDialogue_record (cmd : command) (db : Database)
    (offset : GridOffset) (customCoordinates : gset (Z * Z))
    (options : ProgramOptions) (dialogueInfo : json) : M json :=
  isDialogue <- (if contains dialogueInfo "type"
                 then t <- key dialogueInfo "type" ;; ret (is_string t "DialogueInfo")
                 else ret false) ;;
  if isDialogue && contains dialogueInfo "script_text" then
    t <- key dialogueInfo "script_text" ;;
    scriptText <- lift (get_string t) ;;
    r <- rewrite_text cmd db offset customCoordinates options scriptText ;;
    lift (set_key dialogueInfo "script_text" (JString (fst r)))
  else ret dialogueInfo.

Definition processScript (cmd : command) (db : Database) (inputData : json)
    (offset : GridOffset) (customCoordinates : gset (Z * Z))
    (options : ProgramOptions) : M json :=
  for_each (processScript_record cmd db offset customCoordinates options) inputData.

Definition processDialogue (cmd : command) (db : Database) (inputData : json)
    (offset : GridOffset) (customCoordinates : gset (Z * Z))
    (options : ProgramOptions) : M json :=
  for_each (processDialogue_record cmd db offset customCoordinates options) inputData.

Definition processScriptAiEscortTranslation := processScript AiEscort.
Definition processDialogueAiEscortTranslation := processDialogue AiEscort.
Definition processScriptAiEscortCellTranslation := processScript AiEscortCell.
Definition processDialogueAiEscortCellTranslation := processDialogue AiEscortCell.
Definition processScriptAiFollowTranslation := processScript AiFollow.
Definition processDialogueAiFollowTranslation := processDialogue AiFollow.
Definition processScriptAiFollowCellTranslation := processScript AiFollowCell.
Definition processDialogueAiFollowCellTranslation := processDialogue AiFollowCell.
Definition processScriptAiTravelTranslation := processScript AiTravel.
Definition processDialogueAiTravelTranslation := processDialogue AiTravel.
Definition processScriptPositionTranslation := processScript Position.
Definition processDialoguePositionTranslation := processDialogue Position.
Definition processScriptPositionCellTranslation := processScript PositionCell.
Definition processDialoguePositionCellTranslation := processDialogue PositionCell.
Definition processScriptPlaceItemTranslation := processScript PlaceItem.
Definition processDialoguePlaceItemTranslation := processDialogue PlaceItem.
Definition processScriptPlaceItemCellTranslation := processScript PlaceItemCell.
Definition processDialoguePlaceItemCellTranslation := processDialogue PlaceItemCell.

(** [logUpdatedScriptIDs]: the lines logged, each id once, in order. *)
Fixpoint uniqueIDs (seenIDs : gset string) (ids : list string) : list string :=
  match ids with
  | [] => []
  | id :: rest =>
      if bool_decide (id ∈ seenIDs) then uniqueIDs seenIDs rest
      else id :: uniqueIDs ({[id]} ∪ seenIDs) rest
  end.

Definition logUpdatedScriptIDs (updatedScriptIDs : list string) : list string :=
  match updatedScriptIDs with
  | [] => ["No scripts were updated..."]
  | _ => "Updated scripts list:" ::
         map (fun id => "- Script ID: " +:+ id) (uniqueIDs ∅ updatedScriptIDs)
  end.

(** ** Dependency order ([checkDependencyOrder], [tes3_ab_converter.cpp]) *)

(** What a range-based [for] over a constant document visits. *)
Definition elements (j : json) : list json :=
  match j with
  | JNull => []
  | JArray elems => elems
  | JObject members => map snd members
  | _ => [j]
  end.

(** [j[key]] on a constant value, for a key that [contains] found. *)
Definition const_at_key (j : json) (key : string) : json :=
  match j with
  | JObject members => default JNull (obj_lookup key members)
  | _ => JNull
  end.

Definition is_header (item : json) : bool :=
  contains item "type" && is_string (const_at_key item "type") "Header".

(** [j[i]] on a constant value, for [i] below [j.size()]: only an array
    can be indexed. *)
Definition const_at_idx (j : json) (i : nat) : outcome json :=
  match j with
  | JArray elems => Ok (default JNull (elems !! i))
  | _ => Throw (json_type_error 305)
  end.

Record master_positions := {
  mwPos : option nat;
  tPos : option nat;
  bPos : option nat
}.

(** The body of the loop over the masters, at index [i]. *)
Definition note_master (masters : json) (i : nat) (p : master_positions)
    : outcome master_positions :=
  match const_at_idx masters i with
  | Throw e => Throw e
  | Ok entry =>
      if is_array entry && negb (empty entry) then
        match const_at_idx entry 0 with
        | Throw e => Throw e
        | Ok first =>
            match get_string first with
            | Throw e => Throw e
            | Ok masterName =>
                Ok (if String.eqb masterName "Morrowind.esm"
                    then {| mwPos := Some i; tPos := tPos p; bPos := bPos p |}
                    else if String.eqb masterName "Tribunal.esm"
                    then {| mwPos := mwPos p; tPos := Some i; bPos := bPos p |}
                    else if String.eqb masterName "Bloodmoon.esm"
                    then {| mwPos := mwPos p; tPos := tPos p; bPos := Some i |}
                    else p)
            end
        end
      else Ok p
  end.

(** The loop [for (size_t i = 0; i < masters.size(); ++i)], from [i] on,
    with [n] iterations to go. *)
Fixpoint scan_masters (masters : json) (n i : nat) (p : master_positions)
    : outcome master_positions :=
  match n with
  | O => Ok p
  | S n' =>
      match note_master masters i p with
      | Throw e => Throw e
      | Ok p' => scan_masters masters n' (S i) p'
      end
  end.

(** [checkDependencyOrder]. The second component of the pair the program
    returns is always the empty set. *)
Definition checkDependencyOrder (inputData : json) : outcome (bool * gset Z) :=
  match List.find is_header (elements inputData) with
  | None => Ok (false, ∅)
  | Some header =>
      if negb (contains header "masters") then Ok (false, ∅)
      else
        let masters := const_at_key header "masters" in
        match scan_masters masters (size masters) 0
                {| mwPos := None; tPos := None; bPos := None |} with
        | Throw e => Throw e
        | Ok p =>
            match mwPos p with
            | None => Ok (false, ∅)
            | Some mw =>
                match tPos p, bPos p with
                | Some t, Some b =>
                    if bool_decide (mw < t)%nat && bool_decide (t < b)%nat
                    then Ok (true, ∅) else Ok (false, ∅)
                | _, Some b =>
                    if bool_decide (mw < b)%nat then Ok (true, ∅) else Ok (false, ∅)
                | _, None => Ok (false, ∅)
                end
            end
        end
  end.

(** ** The batch loop ([main], [tes3_ab_converter.cpp])

    What [main] does for each input file, once the log, the database, the
    custom coordinates and the conversion type are set up. The file
    system, the external converter and the functions of
    [ab_file_processor] are the environment of the loop. *)

(** What the loop does to the world, in order. Of the log, the lines
    [main] writes about the fate of a file are recorded (not the lines of
    the passes, nor the timing lines). *)
Inductive event :=
| RunTes3conv (source target : string)   (* std::system(tes3conv source target) *)
| Remove (path : string)                 (* std::filesystem::remove *)
| SaveJson (path : string) (doc : json)  (* saveJsonToFile *)
| Backup (path : string)                 (* createBackup *)
| JsonToEsp (jsonPath espPath : string)  (* convertJsonToEsp *)
| Log (message : string)                 (* logMessage *)
| Cerr (line : string).                  (* std::cerr *)

(** What reading the converted file yields. *)
Inductive read_result :=
| CannotOpen
| ParseError (what : string)
| Discarded
| Parsed (doc : json).

Section Main.

(** The functions of [ab_file_processor], which the sources at hand only
    call. *)
Variable hasConversionTag : json -> string -> bool.
Variable addConversionTag : json -> string -> ProgramOptions -> option json.
Variable saveJsonToFile : string -> json -> bool.
Variable createBackup : string -> bool.
Variable convertJsonToEsp : string -> string -> bool.

(** The environment: the external converter, the file read back, the
    two paths derived from the path of the plugin, and the text of an
    exception. *)
Variable tes3conv : string -> string -> bool.
Variable read_json : string -> read_result.
Variable jsonImportPath_of : string -> string.
Variable jsonExportPath_of : string -> string.
Variable what : exn -> string.

Variable db : Database.
Variable customCoordinates : gset (Z * Z).
Variable options : ProgramOptions.

(** The lines after a skipped conversion. *)
Definition log_deleted (jsonImportPath : string) : list event :=
  if silentMode options then [Log EmptyString]
  else [Log (("Temporary .JSON file deleted: " +:+ jsonImportPath) +:+ newline)].

(** The processing passes, in the order [main] runs them. *)
Definition all_passes (inputData : json) (offset : GridOffset) : M json :=
  d <- processGridValues db inputData offset customCoordinates options ;;
  d <- processInteriorDoorsTranslation db d offset customCoordinates options ;;
  d <- processNpcTravelDestinations db d offset customCoordinates options ;;
  d <- processScriptAiEscortTranslation db d offset customCoordinates options ;;
  d <- processScriptAiEscortCellTranslation db d offset customCoordinates options ;;
  d <- processScriptAiFollowTranslation db d offset customCoordinates options ;;
  d <- processScriptAiFollowCellTranslation db d offset customCoordinates options ;;
  d <- processScriptAiTravelTranslation db d offset customCoordinates options ;;
  d <- processScriptPositionTranslation db d offset customCoordinates options ;;
  d <- processScriptPositionCellTranslation db d offset customCoordinates options ;;
  d <- processScriptPlaceItemTranslation db d offset customCoordinates options ;;
  d <- processScriptPlaceItemCellTranslation db d offset customCoordinates options ;;
  d <- processDialogueAiEscortTranslation db d offset customCoordinates options ;;
  d <- processDialogueAiEscortCellTranslation db d offset customCoordinates options ;;
  d <- processDialogueAiFollowTranslation db d offset customCoordinates options ;;
  d <- processDialogueAiFollowCellTranslation db d offset customCoordinates options ;;
  d <- processDialogueAiTravelTranslation db d offset customCoordinates options ;;
  d <- processDialoguePositionTranslation db d offset customCoordinates options ;;
  d <- processDialoguePositionCellTranslation db d offset customCoordinates options ;;
  d <- processDialoguePlaceItemTranslation db d offset customCoordinates options ;;
  processDialoguePlaceItemCellTranslation db d offset customCoordinates options.

(** The [catch] clause of the loop body. *)
Definition caught (pluginImportPath : string) (e : exn) : list event :=
  [Log (((("ERROR - failed to process file " +:+ pluginImportPath) +:+ ": ")
           +:+ what e) +:+ newline)].

(** What follows a scan that made replacements: the write-back. *)
Definition write_back (pluginImportPath jsonImportPath : string)
    (inputData : json) (updatedScriptIDs : list string) : list event :=
  map Log (logUpdatedScriptIDs updatedScriptIDs) ++
  let convPrefix := if conversionType options =? 1 then "BM->AB" else "AB->BM" in
  match addConversionTag inputData convPrefix options with
  | None => [Log ("ERROR - could not find or modify header description" +:+ newline)]
  | Some tagged =>
      let jsonExportPath := jsonExportPath_of pluginImportPath in
      SaveJson jsonExportPath tagged ::
      if negb (saveJsonToFile jsonExportPath tagged) then
        [Log (("ERROR - failed to save modified data to .JSON file: "
                 +:+ jsonExportPath) +:+ newline)]
      else
        Backup pluginImportPath ::
        if negb (createBackup pluginImportPath) then
          Remove jsonImportPath ::
          (if silentMode options then []
           else [Log ("Temporary .JSON file deleted: " +:+ jsonImportPath)])
        else
          JsonToEsp jsonExportPath pluginImportPath ::
          if negb (convertJsonToEsp jsonExportPath pluginImportPath) then
            [Log (("ERROR - failed to convert .JSON back to .ESP|ESM: "
                     +:+ pluginImportPath) +:+ newline)]
          else
            [Remove jsonImportPath; Remove jsonExportPath] ++
            (if silentMode options then []
             else [Log ((("Temporary .JSON files deleted: " +:+ jsonImportPath)
                           +:+ newline) +:+
                        ("                          and: " +:+ jsonExportPath))])
  end.

(** The part of the loop body that follows a successful parse. *)
Definition process_document (pluginImportPath jsonImportPath : string)
    (inputData : json) : list event :=
  if hasConversionTag inputData pluginImportPath then
    Remove jsonImportPath ::
    Log (("ERROR - file " +:+ pluginImportPath)
           +:+ " was already converted - conversion skipped...") ::
    log_deleted jsonImportPath
  else
    match checkDependencyOrder inputData with
    | Throw e => caught pluginImportPath e
    | Ok (isValid, _) =>
        if negb isValid then
          Remove jsonImportPath ::
          Log (("ERROR - required Parent Masters not found for file: "
                  +:+ pluginImportPath) +:+ " - conversion skipped...") ::
          log_deleted jsonImportPath
        else
          let offset := getGridOffset (conversionType options) in
          match all_passes inputData offset
                  {| replacementsFlag := 0; updatedScriptIDs := []; cerr := [] |} with
          | (Throw e, st) => map Cerr (cerr st) ++ caught pluginImportPath e
          | (Ok inputData', st) =>
              map Cerr (cerr st) ++
              if replacementsFlag st =? 0 then
                Remove jsonImportPath ::
                Log (("No replacements found for file: " +:+ pluginImportPath)
                       +:+ " - conversion skipped...") ::
                log_deleted jsonImportPath
              else
                write_back pluginImportPath jsonImportPath inputData'
                  (updatedScriptIDs st)
          end
    end.

(** One iteration of the loop over the input files. *)
Definition process_file (pluginImportPath : string) : list event :=
  Log ("Processing file: " +:+ pluginImportPath) ::
  let jsonImportPath := jsonImportPath_of pluginImportPath in
  RunTes3conv pluginImportPath jsonImportPath ::
  if negb (tes3conv pluginImportPath jsonImportPath) then
    [Log (("ERROR - converting to .JSON failed for file: " +:+ pluginImportPath)
            +:+ newline)]
  else
    (if silentMode options then []
     else [Log ("Conversion to .JSON successful: " +:+ jsonImportPath)]) ++
    match read_json jsonImportPath with
    | CannotOpen =>
        [Log (("ERROR - failed to open JSON file: " +:+ jsonImportPath) +:+ newline)]
    | Discarded =>
        [Log (("ERROR - parsed JSON is invalid or empty: " +:+ jsonImportPath)
                +:+ newline)]
    | ParseError msg =>
        [Log (((("ERROR - failed to parse JSON (" +:+ jsonImportPath) +:+ "): ")
                 +:+ msg) +:+ newline)]
    | Parsed inputData => process_document pluginImportPath jsonImportPath inputData
    end.

(** The loop [for (const auto& pluginImportPath : inputPaths)]. Every
    exit of the body, [continue] or the end, goes on with the next
    file. *)
Fixpoint main_loop (inputPaths : list string) : list event :=
  match inputPaths with
  | [] => []
  | pluginImportPath :: rest => process_file pluginImportPath ++ main_loop rest
  end.

End Main.

(** ** Command line ([ab_options.cpp]) *)

(** [std::transform(..., ::tolower)] on a string. *)
Definition lowercase (s : string) : string :=
  string_of_list_ascii (map tolower (list_ascii_of_string s)).

(** What [parseArguments] ends in: the options, or, on a help flag, the
    help text on [std::cout] (not modelled) and [std::exit(EXIT_SUCCESS)]. *)
Inductive parsed_arguments :=
| Options (options : ProgramOptions)
| HelpExit.

(** The loop over [argv[1]], ..., [argv[argc - 1]]. *)
Fixpoint parseArguments_loop (args : list string) (options : ProgramOptions)
    : parsed_arguments :=
  match args with
  | [] => Options options
  | arg :: rest =>
      let argLower := lowercase arg in
      if String.eqb argLower "--batch" || String.eqb argLower "-b" then
        parseArguments_loop rest
          {| batchMode := true; silentMode := silentMode options;
             inputFiles := inputFiles options;
             conversionType := conversionType options |}
      else if String.eqb argLower "--silent" || String.eqb argLower "-s" then
        parseArguments_loop rest
          {| batchMode := batchMode options; silentMode := true;
             inputFiles := inputFiles options;
             conversionType := conversionType options |}
      else if String.eqb argLower "--bm-to-ab" || String.eqb argLower "-1" then
        parseArguments_loop rest
          {| batchMode := batchMode options; silentMode := silentMode options;
             inputFiles := inputFiles options; conversionType := 1 |}
      else if String.eqb argLower "--ab-to-bm" || String.eqb argLower "-2" then
        parseArguments_loop rest
          {| batchMode := batchMode options; silentMode := silentMode options;
             inputFiles := inputFiles options; conversionType := 2 |}
      else if String.eqb argLower "--help" || String.eqb argLower "-h" then
        HelpExit
      else
        parseArguments_loop rest
          {| batchMode := batchMode options; silentMode := silentMode options;
             inputFiles := inputFiles options ++ [arg];
             conversionType := conversionType options |}
  end.

(** [parseArguments(argc, argv)], [argv] given as the list of its [argc]
    strings. *)
Definition parseArguments (argv : list string) : parsed_arguments :=
  parseArguments_loop (List.tl argv)
    {| batchMode := false; silentMode := false; inputFiles := [];
       conversionType := 0 |}.

(** ** Custom grid coordinates ([loadCustomGridCoordinates],
    [ab_coord_processor.cpp]) *)

Definition LF : ascii := ascii_of_nat 10.
Definition CR : ascii := ascii_of_nat 13.
Definition TAB : ascii := ascii_of_nat 9.

(** The strings [while (std::getline(stream, s, delim))] reads from a
    text: the text between the delimiters, and the text after the last
    one if there is any. *)
Fixpoint getline_all (delim : ascii) (text : list ascii) : list (list ascii) :=
  match text with
  | [] => []
  | c :: rest =>
      if Ascii.eqb c delim then [] :: getline_all delim rest
      else match getline_all delim rest with
           | [] => [[c]]
           | line :: lines => (c :: line) :: lines
           end
  end.

(** [while (std::getline(file, line))]: the lines of a text. *)
Definition getlines (text : list ascii) : list (list ascii) := getline_all LF text.

Fixpoint skip_while (p : ascii -> bool) (l : list ascii) : list ascii :=
  match l with
  | c :: l' => if p c then skip_while p l' else l
  | [] => []
  end.

(** The characters trimmed from both ends of a line: space, tab, carriage
    return and line feed. *)
Definition is_blank (c : ascii) : bool :=
  Ascii.eqb c " " || Ascii.eqb c TAB || Ascii.eqb c CR || Ascii.eqb c LF.

(** [line.erase(0, line.find_first_not_of(...))] and
    [line.erase(line.find_last_not_of(...) + 1)]. *)
Definition trim_blank (line : list ascii) : list ascii :=
  rev (skip_while is_blank (rev (skip_while is_blank line))).

(** [line.find("//") == 0]. *)
Definition is_comment (line : list ascii) : bool :=
  match line with
  | c1 :: c2 :: _ => Ascii.eqb c1 "/" && Ascii.eqb c2 "/"
  | _ => false
  end.

(** [stream >> n] for an [int n], on what is left of the stream: white
    space is skipped, then an optional sign and decimal digits are read;
    the extraction fails ([None]) without a digit and on a value outside
    the range of [int]. *)
Definition extract_int (s : list ascii) : option (Z * list ascii) :=
  let s1 := skip_while isspace s in
  let '(neg, s2) :=
    match s1 with
    | c :: r => if Ascii.eqb c "-" then (true, r)
                else if Ascii.eqb c "+" then (false, r) else (false, s1)
    | [] => (false, s1)
    end in
  let '(digits, rest) := span_digits s2 in
  match digits with
  | [] => None
  | _ =>
      let z := if neg then - digits_val 0 digits else digits_val 0 digits in
      if (Int32.min_int <=? z) && (z <=? Int32.max_int) then Some (z, rest) else None
  end.

(** [stream >> c] for a [char c]: white space is skipped, then one
    character is read; the extraction fails at the end of the stream. *)
Definition extract_char (s : list ascii) : option (ascii * list ascii) :=
  match skip_while isspace s with
  | c :: r => Some (c, r)
  | [] => None
  end.

(** [lineStream >> x >> comma >> y && comma == ','] *)
Definition parse_coordinate (line : list ascii) : option (Z * Z) :=
  match extract_int line with
  | Some (x, s1) =>
      match extract_char s1 with
      | Some (comma, s2) =>
          match extract_int s2 with
          | Some (y, _) => if Ascii.eqb comma "," then Some (x, y) else None
          | None => None
          end
      | None => None
      end
  | None => None
  end.

(** [std::to_string] of an [int]. *)
Definition to_string (z : Z) : list ascii :=
  if z <? 0 then "-"%char :: dec (- z) else dec z.

(** The variables of the loop: the set, the messages given to
    [logMessage], and the flag. *)
Record load_state := {
  loaded : gset (Z * Z);
  messages : list string;
  hasAnyParsableLines : bool
}.

(** The body of the loop over the lines. *)
Definition load_line (st : load_state) (raw : list ascii) : load_state :=
  let line := trim_blank raw in
  if bool_decide (line = []) || is_comment line then st
  else
    let messages1 :=
      if hasAnyParsableLines st then messages st
      else messages st ++ ["Loading custom grid coordinates:"] in
    match parse_coordinate line with
    | Some (x, y) =>
        {| loaded := {[ (x, y) ]} ∪ loaded st;
           messages := messages1 ++
             ["- Coordinate: " +:+ string_of_list_ascii (to_string x) +:+ ","
                +:+ string_of_list_ascii (to_string y)];
           hasAnyParsableLines := true |}
    | None =>
        {| loaded := loaded st;
           messages := messages1 ++
             ["WARNING - invalid coordinate format: " +:+ string_of_list_ascii line];
           hasAnyParsableLines := true |}
    end.

(** [loadCustomGridCoordinates]: [file] is the text of the file, [None]
    if it cannot be opened; the result is the set and the messages given
    to [logMessage]. *)
Definition loadCustomGridCoordinates (filePath : string) (file : option string)
    (customCoordinates : gset (Z * Z)) : gset (Z * Z) * list string :=
  match file with
  | None =>
      (customCoordinates,
       ["ERROR - failed to open custom grid coordinates file: " +:+ filePath])
  | Some text =>
      let st := fold_left load_line (getlines (list_ascii_of_string text))
                  {| loaded := customCoordinates; messages := [];
                     hasAnyParsableLines := false |} in
      (loaded st, messages st)
  end.

(** ** The prompts ([ab_user_interaction.cpp])

    [std::cin] is the text still to be read and whether the stream is
    good. What is printed on [std::cout] is left out. *)

Record istream := {
  buffer : list ascii;
  good : bool
}.

(** The text up to the first line feed, and the text after it if there
    is one. *)
Fixpoint until_LF (text : list ascii) : list ascii * option (list ascii) :=
  match text with
  | [] => ([], None)
  | c :: rest =>
      if Ascii.eqb c LF then ([], Some rest)
      else let '(line, after) := until_LF rest in (c :: line, after)
  end.

(** [std::getline(stream, input)]: on a stream that is not good, [input]
    is left as it is; otherwise it becomes the text up to the line feed,
    which is consumed. Reaching the end of the text leaves the stream not
    good. *)
Definition getline (stream : istream) (input : list ascii) : istream * list ascii :=
  if good stream then
    match until_LF (buffer stream) with
    | (line, Some rest) => ({| buffer := rest; good := true |}, line)
    | (line, None) => ({| buffer := []; good := false |}, line)
    end
  else (stream, input).

(** [std::stoi]: white space, an optional sign, digits; what follows the
    digits is ignored. *)
Definition stoi (s : list ascii) : outcome Z :=
  let s1 := skip_while isspace s in
  let '(neg, s2) :=
    match s1 with
    | c :: r => if Ascii.eqb c "-" then (true, r)
                else if Ascii.eqb c "+" then (false, r) else (false, s1)
    | [] => (false, s1)
    end in
  let '(digits, _) := span_digits s2 in
  match digits with
  | [] => Throw std_invalid_argument
  | _ =>
      let z := if neg then - digits_val 0 digits else digits_val 0 digits in
      if (Int32.min_int <=? z) && (z <=? Int32.max_int) then Ok z
      else Throw std_out_of_range
  end.

(** A loop [while (true)] run for at most [n] rounds: the body either
    goes on with a new state or leaves the loop with a result. *)
Fixpoint rounds {S R : Type} (body : S -> S + R) (n : nat) (st : S) : S + R :=
  match n with
  | O => inl st
  | Datatypes.S n' =>
      match body st with
      | inl st' => rounds body n' st'
      | inr r => inr r
      end
  end.

(** One round of the loop of [getUserChoice]; its state is the stream
    and the variable [input], which is declared outside the loop. *)
Definition getUserChoice_round (validChoices : gset string)
    (st : istream * list ascii) : (istream * list ascii) + (outcome Z * istream) :=
  let '(cin, input) := getline (fst st) (snd st) in
  if bool_decide (string_of_list_ascii input ∈ validChoices)
  then inr (stoi input, cin)
  else inl (cin, input).

Definition getUserChoice (validChoices : gset string) (cin : istream) (n : nat)
    : (istream * list ascii) + (outcome Z * istream) :=
  rounds (getUserChoice_round validChoices) n (cin, []).

Definition getUserConversionChoice (cin : istream) (n : nat)
    : (istream * list ascii) + (outcome Z * istream) :=
  getUserChoice {[ "1"; "2" ]} cin n.

(** [main], lines 86 to 89: the conversion type is asked for only when
    the arguments gave none. *)
Definition conversion_choice (options : ProgramOptions) (cin : istream) (n : nat)
    : (istream * list ascii) + (outcome ProgramOptions * istream) :=
  if conversionType options =? 0 then
    match getUserConversionChoice cin n with
    | inl st => inl st
    | inr (Ok choice, cin') =>
        inr (Ok {| batchMode := batchMode options; silentMode := silentMode options;
                   inputFiles := inputFiles options; conversionType := choice |}, cin')
    | inr (Throw e, cin') => inr (Throw e, cin')
    end
  else inr (Ok options, cin).

(** *** The paths of the input files *)

Definition is_space_or_tab (c : ascii) : bool := Ascii.eqb c " " || Ascii.eqb c TAB.

(** The lambda [normalizePathStr]: the double quotes removed, then the
    spaces and tabs at the end, then those at the start. *)
Definition normalizePathStr (pathStr : list ascii) : list ascii :=
  let unquoted := List.filter (fun c => negb (Ascii.eqb c dquote)) pathStr in
  let trimmed := rev (skip_while is_space_or_tab (rev unquoted)) in
  skip_while is_space_or_tab trimmed.

(** The lambda [parseUserInput]: the pieces between semicolons,
    normalized, the empty ones dropped. *)
Definition parseUserInput (input : list ascii) : list (list ascii) :=
  List.filter (fun pathStr => negb (bool_decide (pathStr = [])))
    (map normalizePathStr (getline_all ";" input)).

(** The answer of a call into [std::filesystem], which can throw. *)
Inductive fs_answer (A : Type) :=
| Answer (a : A)
| FsError (what : string).
Arguments Answer {A} a.
Arguments FsError {A} what.

Section InputFiles.

(** [path::extension().string()], [std::filesystem::exists],
    [std::filesystem::is_directory], and the entries a
    [recursive_directory_iterator] visits, each with the answer of
    [is_regular_file], together with the exception that ended the
    iteration, if one did. *)
Variable extension : string -> string.
Variable fs_exists : string -> fs_answer bool.
Variable fs_is_directory : string -> fs_answer bool.
Variable fs_walk : string -> list (string * bool) * option string.

Variable options : ProgramOptions.

(** The lambda [isValidModFile]. *)
Definition isValidModFile (path : string) : bool :=
  let ext := lowercase (extension path) in
  String.eqb ext ".esp" || String.eqb ext ".esm".

Definition path_error (path what : string) : string :=
  "ERROR processing path " +:+ path +:+ ": " +:+ what.

(** The lambda [tryAddFile], on the vector [result] and the messages
    given to [logMessage]. *)
Definition tryAddFile (path : string) (st : list string * list string)
    : list string * list string :=
  let '(result, log) := st in
  match fs_exists path with
  | FsError what => (result, log ++ [path_error path what])
  | Answer true =>
      match fs_is_directory path with
      | FsError what => (result, log ++ [path_error path what])
      | Answer true =>
          let log1 := log ++ [newline +:+ "Processing directory: " +:+ path] in
          let '(entries, failure) := fs_walk path in
          let result1 :=
            result ++ map fst (List.filter (fun entry => snd entry && isValidModFile (fst entry))
                                 entries) in
          match failure with
          | Some what => (result1, log1 ++ [path_error path what])
          | None => (result1, log1)
          end
      | Answer false =>
          if isValidModFile path then (result ++ [path], log)
          else if negb (silentMode options)
          then (result, log ++ ["WARNING - input file has invalid extension: " +:+ path])
          else (result, log)
      end
  | Answer false =>
      if negb (silentMode options)
      then (result, log ++ ["WARNING - input path not found: " +:+ path])
      else (result, log)
  end.

(** The lambda [logResults]. *)
Definition logResults (result : list string) (log : list string) : list string :=
  (if negb (silentMode options) && negb (bool_decide (result = []))
   then log ++
        ["Found " +:+ string_of_list_ascii (dec (Z.of_nat (length result)))
           +:+ " valid input files:"] ++
        map (fun file => "  " +:+ file) result
   else log) ++ [""].

(** One round of the loop of the batch mode; the state of the loops is
    the stream and the messages logged so far. *)
Definition batch_round (st : istream * list string)
    : (istream * list string) + (fs_answer (list string) * list string * istream) :=
  let '(cin, input) := getline (fst st) [] in
  let '(result, log) :=
    fold_left (fun acc pathStr => tryAddFile (string_of_list_ascii pathStr) acc)
      (parseUserInput input) ([], snd st) in
  if negb (bool_decide (result = []))
  then inr (Answer result, logResults result log, cin)
  else inl (cin, log).

(** One round of the loop of the single-file mode. *)
Definition single_round (st : istream * list string)
    : (istream * list string) + (fs_answer (list string) * list string * istream) :=
  let '(cin, input) := getline (fst st) [] in
  let filePath := string_of_list_ascii (normalizePathStr input) in
  match fs_exists filePath with
  | FsError what => inr (FsError what, snd st, cin)
  | Answer found =>
      if found && isValidModFile filePath
      then inr (Answer [filePath],
                snd st ++ [newline +:+ "Input file found: " +:+ filePath], cin)
      else inl (cin, snd st)
  end.

(** [getInputFilePaths], its loops run for at most [n] rounds. *)
Definition getInputFilePaths (cin : istream) (log : list string) (n : nat)
    : (istream * list string) + (fs_answer (list string) * list string * istream) :=
  if negb (bool_decide (inputFiles options = [])) then
    let '(result, log1) :=
      fold_left (fun acc path => tryAddFile path acc) (inputFiles options)
        ([], log ++ [newline +:+ "Using files from command line arguments"]) in
    inr (Answer result, logResults result log1, cin)
  else if batchMode options then rounds batch_round n (cin, log)
  else rounds single_round n (cin, log).

End InputFiles.

(** ** Paths

    [std::filesystem::path] in the generic format, with [/] as the only
    separator and no root name, as on Linux: the decomposition
    ([filename], [stem], [extension], [parent_path]) and [operator/]. A
    path is the text [string()] returns. *)

Module Path.

(** The text before the last occurrence of a character and the text
    after it. *)
Fixpoint split_last (sep : ascii) (p : list ascii)
    : option (list ascii * list ascii) :=
  match p with
  | [] => None
  | c :: r =>
      match split_last sep r with
      | Some (before, after) => Some (c :: before, after)
      | None => if Ascii.eqb c sep then Some ([], r) else None
      end
  end.

(** [filename()]: what follows the last separator. *)
Definition filename (p : list ascii) : list ascii :=
  match split_last "/" p with
  | Some (_, after) => after
  | None => p
  end.

(** The file name cut at its extension: no extension for a name of one
    or two characters that starts with a period ([.] and [..]), for a
    name without a period, and when the last period is the first
    character; otherwise the extension starts at the last period. *)
Definition split_extension (name : list ascii) : list ascii * list ascii :=
  match name with
  | [] => ([], [])
  | first :: _ =>
      if (length name <=? 2)%nat && Ascii.eqb first "." then (name, [])
      else
        match split_last "." name with
        | Some ([], _) => (name, [])
        | Some (before, after) => (before, "."%char :: after)
        | None => (name, [])
        end
  end.

Definition stem (p : list ascii) : list ascii := fst (split_extension (filename p)).

Definition extension (p : list ascii) : list ascii :=
  snd (split_extension (filename p)).

Definition strip_separators (p : list ascii) : list ascii :=
  rev (skip_while (fun c => Ascii.eqb c "/") (rev p)).

(** [parent_path()]: the path up to the end of the component before
    the last one; the path itself when it has no relative part. *)
Definition parent_path (p : list ascii) : list ascii :=
  match split_last "/" p with
  | None => []
  | Some (before, after) =>
      match strip_separators before with
      | [] => match after with
              | [] => p
              | _ => ["/"%char]
              end
      | parent => parent
      end
  end.

(** [operator/]: an absolute right side replaces the left one; a
    separator is added when the left side ends with a file name. *)
Definition append (p q : list ascii) : list ascii :=
  match q with
  | c :: _ => if Ascii.eqb c "/" then q
              else match filename p with
                   | [] => p ++ q
                   | _ => p ++ "/"%char :: q
                   end
  | [] => match filename p with
          | [] => p
          | _ => p ++ ["/"%char]
          end
  end.

End Path.

(** [main], line 115:
    [pluginImportPath.parent_path() / (pluginImportPath.stem().string() + ".json")]. *)
Definition jsonImportPath (pluginImportPath : string) : string :=
  let p := list_ascii_of_string pluginImportPath in
  string_of_list_ascii
    (Path.append (Path.parent_path p) (Path.stem p ++ list_ascii_of_string ".json")).

(** [main], lines 241 and 242:
    [pluginImportPath.parent_path() / std::format("TEMP_{}{}", stem, ".json")]. *)
Definition jsonExportPath (pluginImportPath : string) : string :=
  let p := list_ascii_of_string pluginImportPath in
  string_of_list_ascii
    (Path.append (Path.parent_path p)
       (list_ascii_of_string "TEMP_" ++ Path.stem p ++ list_ascii_of_string ".json")).

(** [path.extension().string()] in this format. *)
Definition path_extension (path : string) : string :=
  string_of_list_ascii (Path.extension (list_ascii_of_string path)).

(** ** The specification's words, and sample inputs

    Definitions that follow the wording of the specification, to compare
    the program with, and the inputs the examples run on. *)

Definition forward_options : ProgramOptions :=
  {| batchMode := false; silentMode := true; inputFiles := []; conversionType := 1 |}.

Definition reverse_options : ProgramOptions :=
  {| batchMode := false; silentMode := true; inputFiles := []; conversionType := 2 |}.

Definition verbose_options : ProgramOptions :=
  {| batchMode := false; silentMode := false; inputFiles := []; conversionType := 1 |}.

Definition fresh_state : pass_state :=
  {| replacementsFlag := 0; updatedScriptIDs := []; cerr := [] |}.

(** The state once a replacement has been made. *)
Definition flagged (st : pass_state) : pass_state :=
  {| replacementsFlag := 1;
     updatedScriptIDs := updatedScriptIDs st;
     cerr := cerr st |}.

(** *** The reference-translation sub-pass (section 4.6) *)

(** A reference marked deleted. *)
Definition marked_deleted (reference : json) : bool :=
  match reference with
  | JObject members =>
      match obj_lookup "deleted" members with
      | Some (JBool true) => true
      | _ => false
      end
  | _ => false
  end.

(** The two leading numeric components of the translation of a reference
    that carries a temporary marker and a translation array, and the
    components that follow them. *)
Definition movable_translation (reference : json)
    : option (double * double * list json) :=
  match reference with
  | JObject members =>
      match obj_lookup "temporary" members, obj_lookup "translation" members with
      | Some _, Some (JArray (x :: y :: rest)) =>
          match get_double x, get_double y with
          | Ok dx, Ok dy => Some (dx, dy, rest)
          | _, _ => None
          end
      | _, _ => None
      end
  | _ => None
  end.

(** A reference shifted by [offset * 8192], unless marked deleted or
    without a temporary marker and a translation. *)
Definition shifted_reference (offset : GridOffset) (reference : json) : json :=
  if marked_deleted reference then reference
  else
    match reference, movable_translation reference with
    | JObject members, Some (dx, dy, rest) =>
        JObject (obj_set "translation"
                   (JArray (JFloat (Double.add dx (Double.of_Z (Int32.mul (offsetX offset) 8192)))
                            :: JFloat (Double.add dy (Double.of_Z (Int32.mul (offsetY offset) 8192)))
                            :: rest))
                   members)
    | _, _ => reference
    end.

(** Whether the sub-pass moves the reference. *)
Definition moved (reference : json) : bool :=
  negb (marked_deleted reference) &&
  bool_decide (is_Some (movable_translation reference)).

Definition is_number (j : json) : bool :=
  match j with JInt _ | JFloat _ => true | _ => false end.

(** A reference the sub-pass reads without an exception: an object whose
    deleted mark, if any, is a boolean, whose translation, if it is to be
    moved, starts with two numbers, and whose id, if it is to be logged,
    is a string. Anything but an object is passed over in silent mode. *)
Definition reference_ok (options : ProgramOptions) (reference : json) : bool :=
  match reference with
  | JObject members =>
      match obj_lookup "deleted" members with
      | None | Some (JBool false) =>
          match obj_lookup "temporary" members, obj_lookup "translation" members with
          | Some _, Some (JArray (x :: y :: _)) => is_number x && is_number y
          | _, _ => true
          end &&
          (silentMode options ||
           match obj_lookup "id" members with
           | None | Some (JString _) => true
           | _ => false
           end)
      | Some (JBool true) => true
      | _ => false
      end
  | _ => silentMode options
  end.

(** A Cell record with three references: one deleted, one to move, one
    without a temporary marker. *)
Definition sample_references : list json :=
  [JObject [("id", JString "crate"); ("deleted", JBool true);
            ("temporary", JBool true);
            ("translation", JArray [JInt 83000; JInt 33500; JInt 12])];
   JObject [("id", JString "barrel"); ("temporary", JBool true);
            ("translation", JArray [JInt 83000; JInt 33500; JInt 12])];
   JObject [("id", JString "door");
            ("translation", JArray [JInt 1; JInt 2; JInt 3])]].

Definition sample_cell_members : list (string * json) :=
  [("type", JString "Cell");
   ("grid", JArray [JInt 10; JInt 4]);
   ("references", JArray sample_references)].

Definition sample_cell : json := JObject sample_cell_members.

(** The state after lines were written to [std::cerr]. *)
Definition with_cerr (lines : list string) (st : pass_state) : pass_state :=
  {| replacementsFlag := replacementsFlag st;
     updatedScriptIDs := updatedScriptIDs st;
     cerr := cerr st ++ lines |}.

(** A Landscape record with a grid at the top level and another one under
    its data. *)
Definition sample_landscape_members : list (string * json) :=
  [("type", JString "Landscape");
   ("grid", JArray [JInt 10; JInt 4]);
   ("data", JObject [("grid", JArray [JInt 1; JInt 2])])].

(** *** The dependency order (section 4.7) *)

(** The name an entry of the masters list carries: the first element of a
    non-empty array; an entry of another shape carries none. *)
Inductive entry_named : json -> option string -> Prop :=
| entry_with_name (name : string) (others : list json) :
    entry_named (JArray (JString name :: others)) (Some name)
| entry_without_name (entry : json) :
    is_array entry && negb (empty entry) = false ->
    entry_named entry None.

(** The master is in the list. *)
Definition present (name : string) (names : list (option string)) : Prop :=
  Some name ∈ names.

(** The place of the master in the list: of its last entry, should it
    have several. *)
Definition placed (name : string) (names : list (option string)) (i : nat) : Prop :=
  names !! i = Some (Some name) /\
  forall j, (i < j)%nat -> names !! j <> Some (Some name).

(** The first master precedes the second one. *)
Definition precedes (a b : string) (names : list (option string)) : Prop :=
  exists i j, placed a names i /\ placed b names j /\ (i < j)%nat.

(** The configurations the check accepts, in the words of the
    specification. *)
Definition dependency_order (names : list (option string)) : Prop :=
  present "Morrowind.esm" names /\
  ((present "Tribunal.esm" names /\ present "Bloodmoon.esm" names /\
    precedes "Morrowind.esm" "Tribunal.esm" names /\
    precedes "Tribunal.esm" "Bloodmoon.esm" names) \/
   (present "Bloodmoon.esm" names /\ ~ present "Tribunal.esm" names /\
    precedes "Morrowind.esm" "Bloodmoon.esm" names)).

(** What a scanned position knows of a master. *)
Definition tracks (pos : option nat) (name : string) (names : list (option string)) : Prop :=
  match pos with
  | Some i => placed name names i
  | None => ~ present name names
  end.

Record all_tracked (p : master_positions) (names : list (option string)) : Prop := {
  tracked_mw : tracks (mwPos p) "Morrowind.esm" names;
  tracked_t : tracks (tPos p) "Tribunal.esm" names;
  tracked_b : tracks (bPos p) "Bloodmoon.esm" names
}.

(** The events that write a converted document back. *)
Definition is_write_back (ev : event) : bool :=
  match ev with
  | SaveJson _ _ | Backup _ | JsonToEsp _ _ => true
  | _ => false
  end.

Definition sample_header (masters : list string) : json :=
  JObject [("type", JString "Header");
           ("masters", JArray (map (fun name => JArray [JString name; JInt 0]) masters))].

(** An environment in which the functions of [ab_file_processor] and the
    external converter succeed, and the document read back is [doc]. *)
Definition sample_batch (doc : json) (db : Database)
    (customCoordinates : gset (Z * Z)) (options : ProgramOptions)
    (inputPaths : list string) : list event :=
  main_loop (fun _ _ => false) (fun d _ _ => Some d) (fun _ _ => true)
    (fun _ => true) (fun _ _ => true) (fun _ _ => true) (fun _ => Parsed doc)
    (fun p => p +:+ ".json") (fun p => "TEMP_" +:+ p +:+ ".json")
    (fun _ => "exception") db customCoordinates options inputPaths.

Definition sample_masters : list string :=
  ["Morrowind.esm"; "Tribunal.esm"; "Bloodmoon.esm"].

(** *** The rewriting of commands (section 4.4) *)

(** The text after a word at the front of a text, letter case aside. *)
Fixpoint strip_icase (w s : list ascii) : option (list ascii) :=
  match w with
  | [] => Some s
  | c :: w' =>
      match s with
      | x :: s' => if Ascii.eqb (tolower x) (tolower c) then strip_icase w' s' else None
      | [] => None
      end
  end.

(** The word occurs in the text, letter case aside. *)
Fixpoint occurs_icase (w s : list ascii) : bool :=
  match strip_icase w s with
  | Some _ => true
  | None =>
      match s with
      | [] => false
      | _ :: s' => occurs_icase w s'
      end
  end.

Definition keyword_chars (cmd : command) : list ascii :=
  list_ascii_of_string (cmd_keyword cmd).

(** The state with the same flag and script ids. *)
Definition same_marks (st st' : pass_state) : Prop :=
  replacementsFlag st' = replacementsFlag st /\
  updatedScriptIDs st' = updatedScriptIDs st.



(** The example of section 8: an escort command, the actor quoted. *)
Definition sample_escort : string :=
  "AiEscort, " +:+ String dquote "actor1" +:+ String dquote ", 5, 1000.0, 2000.0, 0.0".


(** A text without a command. *)
Definition sample_plain : string := "begin script  short done  end".

(** The matches the loop of a pass finds in a text, one after the other:
    each search starts where the match before it ended. *)
Fixpoint searched (cmd : command) (fuel : nat) (searchStart : list ascii)
    : list smatch :=
  match fuel with
  | O => []
  | S fuel' =>
      match regex_search (cmd_regex cmd) searchStart with
      | None => []
      | Some m => m :: searched cmd fuel' (m_suffix m)
      end
  end.

Definition matches_of (cmd : command) (scriptText : string) : list smatch :=
  let text := list_ascii_of_string scriptText in
  searched cmd (S (length text)) text.

(** A matched command whose cell, derived from its x and y operands, is
    not valid: neither in the database nor in the override set. *)
Definition cell_not_valid (cmd : command) (db : Database)
    (customCoordinates : gset (Z * Z)) (options : ProgramOptions)
    (m : smatch) : Prop :=
  forall destX destY,
    stod_list (sub_str m (cmd_x cmd)) = Ok destX ->
    stod_list (sub_str m (S (cmd_x cmd))) = Ok destY ->
    fst (isCoordinateValid db (cellOf destX) (cellOf destY)
           customCoordinates options) = false.

(** The text a record stores under a key. *)
Definition stored_text (key : string) (record : json) : option string :=
  match record with
  | JObject members =>
      match obj_lookup key members with
      | Some (JString text) => Some text
      | _ => None
      end
  | _ => None
  end.

(** A Script record with the escort command of section 8. *)
Definition sample_escort_script : json :=
  JObject [("type", JString "Script"); ("id", JString "escort");
           ("text", JString sample_escort)].

(** A document with a header and a script, and nothing to translate. *)
Definition sample_document : json :=
  JArray [sample_header sample_masters;
          JObject [("type", JString "Script"); ("id", JString "idle");
                   ("text", JString sample_plain)]].

(** ** Coordinates in binary64 *)

(** The value [z * 2^e], counted in units of [2^-200]: a grid fine enough
    for every exponent in use. *)
Definition val (z e : Z) : Z := z * 2 ^ (e + 200).

(** The double that is exactly [z * 2^e]. *)
Definition dbl (z e : Z) : double := binary_normalize Double.prec Double.emax z e false.

(** A finite double in normal form. *)
Definition normal (M : positive) (E : Z) : Prop :=
  Zpos (digits2_pos M) = 53 /\ -200 <= E <= 971.

(** The round trip of one coordinate: forward by [o] from its own cell,
    then back by [- o] from the cell it landed in. *)
Definition round_trip (x : double) (o : Z) : double :=
  let x' := translateCoord x (cellOf x) o in
  translateCoord x' (cellOf x') (- o).

(** The remainder of a coordinate within a cell. *)
Definition remainder (x : double) (c : Z) : double :=
  Double.sub x (Double.mul (Double.of_Z c) CELL_SIZE).

(** A coordinate just below zero, [- 2^-70]. *)
Definition tiny : double := dbl (-1) (-70).

(** A coordinate with ten binary places, [83000.5048828125]. *)
Definition sample_coordinate : double := dbl 84992517 (-10).

(** The double nearest to [1000.1]: no short binary expansion. *)
Definition sample_decimal : double := S754_finite false 8796972631510221 (-43).

(** *** Values

    The value of a finite double, counted in units of [2^-1100]: every
    binary64 number is a whole number of them. *)
Definition scaled (x : double) : Z :=
  match x with
  | S754_finite s m e => cond_Zopp s (Zpos m) * 2 ^ (e + 1100)
  | _ => 0
  end.

(** One, and the size of a cell, counted in the same units. *)
Definition ONE : Z := 2 ^ 1100.
Definition CELL : Z := 8192 * 2 ^ 1100.

Definition is_finite (x : double) : bool :=
  match x with
  | S754_zero _ | S754_finite _ _ _ => true
  | _ => false
  end.

(** A binary64 number: finite, with mantissa and exponent in the
    canonical form of the format. *)
Definition binary64 (x : double) : Prop :=
  is_finite x = true /\ valid_binary Double.prec Double.emax x = true.

(** ** Statements about the passes as a whole *)

(** A step that either left its value and the marks as they were, or
    raised the replacements flag, which takes a database that answers. *)
Definition unchanged_or_flagged (db : Database) {A : Type} (x y : A)
    (st st' : pass_state) : Prop :=
  (y = x /\ same_marks st st') \/
  (replacementsFlag st' = 1 /\ db_prepare db = SQLITE_OK).

(** A computation that leaves the state of the passes as it found it. *)
Definition state_kept {A : Type} (c : M A) : Prop :=
  forall st r st', c st = (r, st') -> st' = st.

(** The paths the loop removes. *)
Definition removed (events : list event) : list string :=
  omap (fun ev => match ev with Remove path => Some path | _ => None end) events.

(** A document with a header and an exterior cell. *)
Definition sample_world : json := JArray [sample_header sample_masters; sample_cell].

(** The loop body in the environment of [sample_batch]. *)
Definition sample_file (doc : json) (db : Database)
    (customCoordinates : gset (Z * Z)) (options : ProgramOptions)
    (pluginImportPath : string) : list event :=
  process_file (fun _ _ => false) (fun d _ _ => Some d) (fun _ _ => true)
    (fun _ => true) (fun _ _ => true) (fun _ _ => true) (fun _ => Parsed doc)
    (fun p => p +:+ ".json") (fun p => "TEMP_" +:+ p +:+ ".json")
    (fun _ => "exception") db customCoordinates options pluginImportPath.

(** ** There and back *)

(** A number with at most [K] binary places, below [2^31] in magnitude,
    held as a float. *)
Definition dyadic_number (K : Z) (j : json) : Prop :=
  exists n, Z.abs n < 2 ^ (31 + K) /\ j = JFloat (dbl n (- K)).

(** A reference whose translation, if the sub-pass is to move it, starts
    with two such numbers. *)
Definition exact_reference (K : Z) (reference : json) : Prop :=
  forall members x y rest,
    reference = JObject members ->
    marked_deleted reference = false ->
    is_Some (obj_lookup "temporary" members) ->
    obj_lookup "translation" members = Some (JArray (x :: y :: rest)) ->
    dyadic_number K x /\ dyadic_number K y.

(** The references of a record, if it has an array of them. *)
Definition references_of (members : list (string * json)) : list json :=
  match obj_lookup "references" members with
  | Some (JArray references) => references
  | _ => []
  end.

(** A Cell record whose reference holds floats with ten binary places. *)
Definition sample_exact_references : list json :=
  [JObject [("id", JString "barrel"); ("temporary", JBool true);
            ("translation",
             JArray [JFloat (dbl 84992517 (-10)); JFloat (dbl 34304000 (-10));
                     JFloat (dbl 12 0)])]].

Definition sample_exact_cell_members : list (string * json) :=
  [("type", JString "Cell");
   ("grid", JArray [JInt 10; JInt 4]);
   ("references", JArray sample_exact_references)].

(** A translation array the passes can read: it starts with two numbers. *)
Definition starts_with_two_numbers (elems : list json) : Prop :=
  exists x y rest, elems = x :: y :: rest /\ is_number x = true /\ is_number y = true.

(** A document with a travel destination whose translation is empty. *)
Definition sample_stranded : json :=
  JArray [sample_header sample_masters;
          JObject [("type", JString "Npc");
                   ("travel_destinations",
                    JArray [JObject [("translation", JArray [])]])]].

(** ** The command line *)

(** An argument that is one of two spellings, letter case aside. *)
Definition is_flag (long short arg : string) : bool :=
  String.eqb (lowercase arg) long || String.eqb (lowercase arg) short.

Definition is_batch : string -> bool := is_flag "--batch" "-b".
Definition is_silent : string -> bool := is_flag "--silent" "-s".
Definition is_forward : string -> bool := is_flag "--bm-to-ab" "-1".
Definition is_reverse : string -> bool := is_flag "--ab-to-bm" "-2".
Definition is_help : string -> bool := is_flag "--help" "-h".

(** An argument that is no flag: an input file. *)
Definition is_file (arg : string) : bool :=
  negb (is_batch arg || is_silent arg || is_forward arg || is_reverse arg ||
        is_help arg).

(** The conversion type the last direction flag asks for, [start] if
    there is none. *)
Fixpoint last_conversion (start : Z) (args : list string) : Z :=
  match args with
  | [] => start
  | arg :: rest =>
      last_conversion (if is_forward arg then 1
                       else if is_reverse arg then 2 else start) rest
  end.

(** ** Custom grid coordinates *)

(** The text the function logs for a coordinate after ["- Coordinate: "]. *)
Definition coordinate_text (c : Z * Z) : list ascii :=
  to_string (fst c) ++ ","%char :: to_string (snd c).

(** A file with one such line per coordinate, each ended by a line feed. *)
Definition coordinate_file (cs : list (Z * Z)) : string :=
  string_of_list_ascii (concat (map (fun c => coordinate_text c ++ [LF]) cs)).

Definition coordinate_message (c : Z * Z) : string :=
  "- Coordinate: " +:+ string_of_list_ascii (coordinate_text c).

Definition in_int_range (c : Z * Z) : Prop :=
  Int32.in_range (fst c) /\ Int32.in_range (snd c).

(** A line the loop skips: blank, or a comment. *)
Definition ignored_line (raw : list ascii) : bool :=
  bool_decide (trim_blank raw = []) || is_comment (trim_blank raw).

(** A text that does not go on with a digit. *)
Definition no_digit_ahead (s : list ascii) : Prop :=
  match s with
  | c :: _ => isdigit c = false
  | [] => True
  end.

(** The messages of a state once the header has been logged. *)
Definition header_added (st : load_state) : list string :=
  if hasAnyParsableLines st then messages st
  else messages st ++ ["Loading custom grid coordinates:"].

(** The coordinates of the lines of a text that can be read. *)
Definition parsed_lines (text : string) : list (Z * Z) :=
  omap (fun raw => parse_coordinate (trim_blank raw))
       (getlines (list_ascii_of_string text)).

Definition no_line_feed (line : list ascii) : bool :=
  forallb (fun c => negb (Ascii.eqb c LF)) line.

(** The second half of the trimming: the blanks at the end removed. *)
Definition trim_end (l : list ascii) : list ascii :=
  rev (skip_while is_blank (rev l)).

(** ** The prompts *)

(** A text made of lines, each ended by a line feed. *)
Definition lines_text (ls : list (list ascii)) : list ascii :=
  concat (map (fun l => l ++ [LF]) ls).

(** The two answers the conversion prompt accepts. *)
Definition choice_of (line : list ascii) : option Z :=
  if String.eqb (string_of_list_ascii line) "1" then Some 1
  else if String.eqb (string_of_list_ascii line) "2" then Some 2
  else None.

(** A path string as [parseUserInput] hands it on. *)
Definition clean_path (p : list ascii) : Prop :=
  p <> [] /\
  Forall (fun c => c <> dquote /\ c <> ";"%char) p /\
  (forall c, head p = Some c -> is_space_or_tab c = false) /\
  (forall c, last p = Some c -> is_space_or_tab c = false).

(** What a call of [getInputFilePaths] comes to, the messages aside. *)
Definition without_log
    (r : (istream * list string) + (fs_answer (list string) * list string * istream))
    : istream + (fs_answer (list string) * istream) :=
  match r with
  | inl (cin, _) => inl cin
  | inr (answer, _, cin) => inr (answer, cin)
  end.

(** A sample file system: a directory with a plugin, a text file and a
    directory named like a plugin; beside it a master file and a text
    file. The extension is the text from the last period on. *)
Fixpoint from_last_period (s : list ascii) : option (list ascii) :=
  match s with
  | [] => None
  | c :: r =>
      match from_last_period r with
      | Some e => Some e
      | None => if Ascii.eqb c "." then Some s else None
      end
  end.

Definition sample_extension (path : string) : string :=
  string_of_list_ascii (default [] (from_last_period (list_ascii_of_string path))).

Definition sample_exists (path : string) : fs_answer bool :=
  Answer (existsb (String.eqb path)
            ["Data Files"; "Data Files/a.esp"; "b.ESM"; "notes.txt"]).

Definition sample_is_directory (path : string) : fs_answer bool :=
  Answer (String.eqb path "Data Files").

Definition sample_walk (path : string) : list (string * bool) * option string :=
  ([("Data Files/a.esp", true); ("Data Files/readme.txt", true);
    ("Data Files/old.esp", false)], None).

Definition sample_batch_options (silent : bool) : ProgramOptions :=
  {| batchMode := true; silentMode := silent; inputFiles := []; conversionType := 1 |}.

(** Two lines of input: a path that is not found, then a quoted
    directory, a master file and a text file. *)
Definition sample_cin : istream :=
  {| buffer := list_ascii_of_string "missing.esp" ++ LF ::
               (" "%char :: dquote :: list_ascii_of_string "Data Files" ++
                  dquote :: list_ascii_of_string " ; b.ESM;notes.txt") ++ [LF];
     good := true |}.

(** ** The paths of the temporary files *)

Definition dot_json : list ascii := list_ascii_of_string ".json".
Definition temp_prefix : list ascii := list_ascii_of_string "TEMP_".

(** A converted plugin in a directory: what [tes3conv] produced reads as
    the sample document with something to translate. *)
Definition sample_paths_run (pluginImportPath : string) : list event :=
  main_loop (fun _ _ => false) (fun d _ _ => Some d)
    (fun _ _ => true) (fun _ => true) (fun _ _ => true) (fun _ _ => true)
    (fun _ => Parsed sample_world) jsonImportPath jsonExportPath
    (fun _ => "exception") (db_of_rows [(10, 4)]) ∅ forward_options
    [pluginImportPath].

(** * Properties *)

(** ** 32-bit integers *)

Module Int32Facts.
Import Int32.

Lemma wrap_in_range z : in_range (wrap z).
Proof.
  unfold in_range, wrap, min_int, max_int.
  pose proof (Z.mod_pos_bound (z + 2 ^ 31) (2 ^ 32) ltac:(lia)). lia.
Qed.

Lemma wrap_id z : in_range z -> wrap z = z.
Proof.
  unfold in_range, wrap, min_int, max_int. intros H.
  rewrite Z.mod_small by lia. lia.
Qed.

Lemma add_exact a b : in_range (a + b) -> add a b = a + b.
Proof. apply wrap_id. Qed.

Lemma mul_exact a b : in_range (a * b) -> mul a b = a * b.
Proof. apply wrap_id. Qed.

End Int32Facts.

(** ** The coordinate validator *)

Section Validator.

Variables (db : Database) (customCoordinates : gset (Z * Z)).
Variable options : ProgramOptions.

Lemma isCoordinateValid_prepared gridX gridY :
  db_prepare db = SQLITE_OK ->
  isCoordinateValid db gridX gridY customCoordinates options =
    let '(x, y) := adjustedGrid options gridX gridY in
    (sqlite_step_is_row (db_step db x y)
       || bool_decide ((gridX, gridY) ∈ customCoordinates), []).
Proof.
  intros Hok. unfold isCoordinateValid.
  destruct (adjustedGrid options gridX gridY) as [x y].
  rewrite Hok. simpl.
  destruct (sqlite_step_is_row (db_step db x y)); [reflexivity|].
  simpl. destruct (bool_decide _); reflexivity.
Qed.

Lemma isCoordinateValid_failed gridX gridY :
  db_prepare db <> SQLITE_OK ->
  isCoordinateValid db gridX gridY customCoordinates options =
    (false, [("Error preparing database query: " +:+ db_errmsg db) +:+ newline]).
Proof.
  intros Hko. unfold isCoordinateValid.
  destruct (adjustedGrid options gridX gridY) as [x y].
  destruct (db_prepare db); [congruence | reflexivity].
Qed.

Lemma step_is_row x y :
  sqlite_step_is_row (db_step db x y) = true <-> db_step db x y = SQLITE_ROW.
Proof. destruct (db_step db x y); simpl; split; congruence. Qed.

End Validator.

(** C1, as amended. When the query can be prepared, [isCoordinateValid]
    holds exactly when the database has a row for the probed cell or the
    cell as given is in the override set; the probed cell is the cell as
    given for the forward direction and the cell moved by the reverse
    offset [(-7, -6)], in [int] arithmetic, for the reverse direction. *)
Theorem C1_valid_iff_found_or_override
    (db : Database) (customCoordinates : gset (Z * Z))
    (options : ProgramOptions) (gx gy : Z) :
  db_prepare db = SQLITE_OK ->
  (conversionType options = 2 ->
     getGridOffset (conversionType options) = {| offsetX := -7; offsetY := -6 |} /\
     (fst (isCoordinateValid db gx gy customCoordinates options) = true <->
      db_step db (Int32.add gx (-7)) (Int32.add gy (-6)) = SQLITE_ROW \/
      (gx, gy) ∈ customCoordinates)) /\
  (conversionType options = 1 ->
     (fst (isCoordinateValid db gx gy customCoordinates options) = true <->
      db_step db gx gy = SQLITE_ROW \/ (gx, gy) ∈ customCoordinates)).
Proof.
  intros Hok.
  rewrite (isCoordinateValid_prepared _ _ _ _ _ Hok).
  unfold adjustedGrid.
  split; intros Hdir; rewrite Hdir; simpl.
  - split; [reflexivity|].
    rewrite orb_true_iff, step_is_row, bool_decide_eq_true. reflexivity.
  - rewrite orb_true_iff, step_is_row, bool_decide_eq_true. reflexivity.
Qed.

Lemma C1_valid_iff_found_or_override_witness :
  db_prepare (db_of_rows [(3, 4)]) = SQLITE_OK /\
  fst (isCoordinateValid (db_of_rows [(3, 4)]) 10 10 ∅ reverse_options) = true.
Proof.
  split; [reflexivity|].
  apply (proj1 (C1_valid_iff_found_or_override (db_of_rows [(3, 4)]) ∅
                  reverse_options 10 10 eq_refl)); [reflexivity|].
  left. reflexivity.
Defined.

(** C1 as stated fails when the query cannot be prepared: the cell is in
    the override set and yet is not valid. *)
Lemma C1_counterexample :
  ~ (fst (isCoordinateValid (db_broken "no such table") 0 0 {[ (0, 0) ]}
            forward_options) = true <->
     db_step (db_broken "no such table") 0 0 = SQLITE_ROW \/
     (0, 0) ∈ ({[ (0, 0) ]} : gset (Z * Z))).
Proof.
  intros [_ H].
  assert (Hin : (0, 0) ∈ ({[ (0, 0) ]} : gset (Z * Z))) by set_solver.
  specialize (H (or_intror Hin)). vm_compute in H. discriminate.
Qed.

(** C3. When the query cannot be prepared, [isCoordinateValid] writes the
    error to [std::cerr] and answers false, whatever the cell, the
    override set and the direction. *)
Theorem C3_fail_closed
    (db : Database) (customCoordinates : gset (Z * Z))
    (options : ProgramOptions) (gx gy : Z) :
  db_prepare db <> SQLITE_OK ->
  isCoordinateValid db gx gy customCoordinates options =
    (false, [("Error preparing database query: " +:+ db_errmsg db) +:+ newline]).
Proof. apply isCoordinateValid_failed. Qed.

Lemma C3_fail_closed_witness :
  db_prepare (db_broken "no such table") <> SQLITE_OK /\
  isCoordinateValid (db_broken "no such table") 10 4 ∅ forward_options =
    (false, [("Error preparing database query: " +:+ "no such table") +:+ newline]).
Proof.
  split; [discriminate|].
  apply (C3_fail_closed (db_broken "no such table") ∅ forward_options 10 4).
  discriminate.
Defined.

(** C9. When the query cannot be prepared, a cell of the override set is
    not valid: the override set is not consulted. *)
Theorem C9_override_ignored_on_failure
    (db : Database) (customCoordinates : gset (Z * Z))
    (options : ProgramOptions) (gx gy : Z) :
  db_prepare db <> SQLITE_OK ->
  (gx, gy) ∈ customCoordinates ->
  fst (isCoordinateValid db gx gy customCoordinates options) = false.
Proof.
  intros Hko _. rewrite isCoordinateValid_failed by assumption. reflexivity.
Qed.

Lemma C9_override_ignored_on_failure_witness :
  fst (isCoordinateValid (db_broken "no such table") 12 (-3) {[ (12, -3) ]}
         reverse_options) = false.
Proof.
  apply (C9_override_ignored_on_failure (db_broken "no such table")
           {[ (12, -3) ]} reverse_options 12 (-3)).
  - discriminate.
  - set_solver.
Defined.

(** ** The document *)

Lemma obj_lookup_set_eq key v members :
  obj_lookup key (obj_set key v members) = Some v.
Proof.
  induction members as [|[k w] members IH]; simpl.
  - rewrite String.eqb_refl. reflexivity.
  - destruct (String.eqb k key) eqn:E; simpl; rewrite E; [reflexivity | exact IH].
Qed.

Lemma obj_lookup_set_ne key key' v members :
  key <> key' ->
  obj_lookup key' (obj_set key v members) = obj_lookup key' members.
Proof.
  intros Hne. induction members as [|[k w] members IH]; simpl.
  - destruct (String.eqb key key') eqn:E; [|reflexivity].
    apply String.eqb_eq in E. contradiction.
  - destruct (String.eqb k key) eqn:E; simpl.
    + apply String.eqb_eq in E. subst k.
      destruct (String.eqb key key') eqn:E'; [|reflexivity].
      apply String.eqb_eq in E'. contradiction.
    + destruct (String.eqb k key'); [reflexivity | exact IH].
Qed.

Lemma obj_set_same key v members :
  obj_lookup key members = Some v -> obj_set key v members = members.
Proof.
  induction members as [|[k w] members IH]; simpl; [discriminate|].
  destruct (String.eqb k key) eqn:E.
  - intros [= ->]. reflexivity.
  - intros H. rewrite (IH H). reflexivity.
Qed.

Lemma contains_lookup members key :
  contains (JObject members) key = true <-> is_Some (obj_lookup key members).
Proof. simpl. apply bool_decide_eq_true. Qed.

Lemma contains_some members key v :
  obj_lookup key members = Some v -> contains (JObject members) key = true.
Proof. intros H. apply contains_lookup. rewrite H. eauto. Qed.

Lemma contains_none members key :
  obj_lookup key members = None -> contains (JObject members) key = false.
Proof.
  intros H. simpl. apply bool_decide_eq_false. rewrite H. intros [? ?]. discriminate.
Qed.

(** ** The passes: steps of the monad *)

Lemma bind_ok {A B} (c : M A) (k : A -> M B) st a st' :
  c st = (Ok a, st') -> bind c k st = k a st'.
Proof. intros H. unfold bind. rewrite H. reflexivity. Qed.

Lemma bind_throw {A B} (c : M A) (k : A -> M B) st e st' :
  c st = (Throw e, st') -> bind c k st = (Throw e, st').
Proof. intros H. unfold bind. rewrite H. reflexivity. Qed.

Lemma mapM_ok {A B} (f : A -> M B) (g : A -> B) (upd : A -> bool)
    (touch : pass_state -> pass_state) (l : list A) :
  (forall st, touch (touch st) = touch st) ->
  (forall x st, x ∈ l -> f x st = (Ok (g x), if upd x then touch st else st)) ->
  forall st, mapM f l st = (Ok (map g l), if existsb upd l then touch st else st).
Proof.
  intros Hidem. induction l as [|x l IH]; intros Hf st; simpl; [reflexivity|].
  rewrite (bind_ok _ _ _ _ _ (Hf x st ltac:(left))).
  assert (Hl : forall x st, x ∈ l ->
            f x st = (Ok (g x), if upd x then touch st else st)).
  { intros y st'' Hy. apply Hf. right. exact Hy. }
  rewrite (bind_ok _ _ _ _ _ (IH Hl _)). unfold ret.
  destruct (upd x), (existsb upd l); simpl; rewrite ?Hidem; reflexivity.
Qed.

Lemma flagged_idem st : flagged (flagged st) = flagged st.
Proof. reflexivity. Qed.

Lemma set_replacementsFlag_flagged st :
  set_replacementsFlag 1 st = (Ok tt, flagged st).
Proof. reflexivity. Qed.

(** ** The reference-translation sub-pass *)


(** ** The reference-translation sub-pass *)

Lemma processTranslation_reference_ok offset options reference st :
  reference_ok options reference = true ->
  processTranslation_reference offset options reference st =
    (Ok (shifted_reference offset reference),
     if moved reference then flagged st else st).
Proof.
  intros Hok. destruct reference as [| | | | | |members];
    try (simpl in Hok; unfold processTranslation_reference, log_reference_id;
         simpl; rewrite Hok; reflexivity).
  unfold reference_ok in Hok.
  unfold processTranslation_reference, shifted_reference, moved, marked_deleted,
    movable_translation, log_reference_id, value_string.
  unfold contains, key, idx, lift, ret, bind, at_key.
  destruct (obj_lookup "deleted" members) as [d|] eqn:Hd;
  destruct (obj_lookup "temporary" members) as [tm|] eqn:Htm;
  destruct (obj_lookup "translation" members) as [tr|] eqn:Htr;
  destruct (obj_lookup "id" members) as [id|] eqn:Hid;
  simpl in *.
  all: try (destruct d as [|[|]| | | | |]; try discriminate; simpl in *).
  all: try reflexivity.
  all: try (destruct tr as [| | | | |[|x [|y rest]]|]; simpl in *).
  all: try (destruct (silentMode options) eqn:Hs; simpl in *).
  all: try (rewrite ?andb_true_r in Hok).
  all: try (destruct id; try discriminate; simpl in *).
  all: try reflexivity.
  all: try (destruct x; try discriminate; destruct y; try discriminate; simpl in *).
  all: reflexivity.
Qed.

Lemma shifted_reference_deleted offset reference :
  marked_deleted reference = true -> shifted_reference offset reference = reference.
Proof. intros H. unfold shifted_reference. rewrite H. reflexivity. Qed.

(** C6. [processTranslation] takes a Cell record, an offset and the
    options, and no database or override set. On a record whose
    references are an array, it replaces every reference by its shifted
    version: one marked deleted is left as it is, one that is not and
    has a temporary marker and a translation array starting with two
    numbers has [offsetX * 8192] and [offsetY * 8192] added to them,
    any other is left as it is; the replacements flag is raised when a
    reference moved. *)
Theorem C6_processTranslation_shifts
    (offset : GridOffset) (options : ProgramOptions)
    (members : list (string * json)) (references : list json)
    (st : pass_state) :
  obj_lookup "references" members = Some (JArray references) ->
  forallb (reference_ok options) references = true ->
  processTranslation (JObject members) offset options st =
    (Ok (JObject (obj_set "references"
                    (JArray (map (shifted_reference offset) references)) members)),
     if existsb moved references then flagged st else st).
Proof.
  intros Hrefs Hok.
  unfold processTranslation.
  rewrite (contains_some _ _ _ Hrefs).
  unfold key, at_key. rewrite Hrefs. simpl default.
  unfold for_each.
  assert (Hmap : mapM (processTranslation_reference offset options) references st =
            (Ok (map (shifted_reference offset) references),
             if existsb moved references then flagged st else st)).
  { apply (mapM_ok (processTranslation_reference offset options)
                 (shifted_reference offset) moved flagged references flagged_idem).
    intros x st' Hx. apply processTranslation_reference_ok.
    rewrite forallb_forall in Hok. apply Hok.
    apply list_elem_of_In. exact Hx. }
  unfold bind, lift, ret. simpl. rewrite Hmap. reflexivity.
Qed.

Lemma C6_processTranslation_shifts_witness :
  processTranslation sample_cell (getGridOffset 1) verbose_options fresh_state =
    (Ok (JObject
           [("type", JString "Cell");
            ("grid", JArray [JInt 10; JInt 4]);
            ("references",
             JArray [JObject [("id", JString "crate"); ("deleted", JBool true);
                              ("temporary", JBool true);
                              ("translation", JArray [JInt 83000; JInt 33500; JInt 12])];
                     JObject [("id", JString "barrel"); ("temporary", JBool true);
                              ("translation",
                               JArray [JFloat (Double.of_Z (83000 + 7 * 8192));
                                       JFloat (Double.of_Z (33500 + 6 * 8192));
                                       JInt 12])];
                     JObject [("id", JString "door");
                              ("translation", JArray [JInt 1; JInt 2; JInt 3])]])]),
     flagged fresh_state).
Proof.
  exact (C6_processTranslation_shifts (getGridOffset 1) verbose_options
           sample_cell_members sample_references fresh_state eq_refl eq_refl).
Defined.

(** ** The grid of a record *)

Lemma processTranslation_frame members offset options st item' st' :
  processTranslation (JObject members) offset options st = (Ok item', st') ->
  forall k, k <> "references" ->
    const_at_key item' k = const_at_key (JObject members) k.
Proof.
  unfold processTranslation. intros H k Hk.
  destruct (contains (JObject members) "references") eqn:Hc.
  - unfold key, at_key, bind, lift, ret in H. simpl in H.
    destruct (is_array (default JNull (obj_lookup "references" members))); simpl in H.
    + destruct (for_each _ _ st) as [[refs'|e] st1]; [|discriminate].
      inversion H; subst. simpl. f_equal.
      apply obj_lookup_set_ne. congruence.
    + inversion H; subst. reflexivity.
  - unfold bind, ret in H. simpl in H. inversion H; subst. reflexivity.
Qed.

(** C10. On a Cell, Landscape or PathGrid record that has a grid array
    both at its top level and under its data, [processGridValues] reads
    the cell from the top-level grid and, when the cell is valid, writes
    the moved cell to the top-level grid; the data of the record, and so
    the grid under it, is as before. The pass ends without an exception
    unless the record is a Cell and the reference sub-pass raises one. *)
Theorem C10_top_level_grid_only
    (db : Database) (offset : GridOffset) (customCoordinates : gset (Z * Z))
    (options : ProgramOptions) (members : list (string * json))
    (typeName : string) (g0 g1 : json) (rest : list json) (gridX gridY : Z)
    (data : json) (st : pass_state) :
  obj_lookup "type" members = Some (JString typeName) ->
  typeName ∈ typeNames ->
  obj_lookup "grid" members = Some (JArray (g0 :: g1 :: rest)) ->
  get_int g0 = Ok gridX ->
  get_int g1 = Ok gridY ->
  obj_lookup "data" members = Some data ->
  contains data "grid" = true ->
  is_array (const_at_key data "grid") = true ->
  let valid := fst (isCoordinateValid db gridX gridY customCoordinates options) in
  match processGridValues_item db offset customCoordinates options
          (JObject members) st with
  | (Ok item', st') =>
      const_at_key item' "data" = data /\
      const_at_key item' "grid" =
        (if valid
         then JArray (JInt (Int32.add gridX (offsetX offset)) ::
                      JInt (Int32.add gridY (offsetY offset)) :: rest)
         else JArray (g0 :: g1 :: rest)) /\
      (valid = false -> item' = JObject members)
  | (Throw _, _) => typeName = "Cell" /\ valid = true
  end.
Proof.
  intros Htype Hsup Hgrid Hg0 Hg1 Hdata Hdg Hdga valid.
  unfold processGridValues_item.
  rewrite (contains_some _ _ _ Htype), (contains_some _ _ _ Hgrid),
    (contains_some _ _ _ Hdata).
  unfold key, at_key, idx, at_idx. rewrite Htype, Hgrid, Hdata. simpl default.
  unfold bind, lift, ret. simpl get_string. cbv iota beta.
  rewrite (bool_decide_eq_true_2 _ Hsup). simpl negb. cbv iota.
  simpl is_array. cbv iota.
  destruct data as [| | | | | |dm]; try discriminate.
  simpl in Hdga. rewrite Hdg. simpl.
  rewrite Hg0, Hg1.
  unfold coordinateValid, write_cerr, bind, ret.
  subst valid.
  destruct (isCoordinateValid db gridX gridY customCoordinates options)
    as [valid lines]. simpl fst.
  destruct valid.
  - simpl.
    destruct (String.eqb typeName "Cell") eqn:Hcell.
    + match goal with
      | |- context [processTranslation ?j ?o ?p ?s] =>
          destruct (processTranslation j o p s) as [[item2|e] st2] eqn:Hpt
      end.
      * pose proof (processTranslation_frame _ _ _ _ _ _ Hpt) as Hframe.
        simpl. split; [|split].
        -- rewrite (Hframe "data") by discriminate. simpl.
           rewrite obj_lookup_set_ne by discriminate. rewrite Hdata. reflexivity.
        -- rewrite (Hframe "grid") by discriminate. simpl.
           rewrite obj_lookup_set_eq. reflexivity.
        -- discriminate.
      * apply String.eqb_eq in Hcell. split; [assumption | reflexivity].
    + simpl. split; [|split].
      * rewrite obj_lookup_set_ne by discriminate. rewrite Hdata. reflexivity.
      * rewrite obj_lookup_set_eq. reflexivity.
      * discriminate.
  - simpl. rewrite Hdata, Hgrid. simpl. auto.
Qed.

Lemma C10_top_level_grid_only_witness :
  match processGridValues_item (db_of_rows [(10, 4)]) (getGridOffset 1) ∅
          forward_options (JObject sample_landscape_members) fresh_state with
  | (Ok item', st') =>
      const_at_key item' "data" = JObject [("grid", JArray [JInt 1; JInt 2])] /\
      const_at_key item' "grid" = JArray [JInt 17; JInt 10] /\
      (true = false -> item' = JObject sample_landscape_members)
  | (Throw _, _) => "Landscape" = "Cell" /\ true = true
  end.
Proof.
  apply (C10_top_level_grid_only (db_of_rows [(10, 4)]) (getGridOffset 1) ∅
           forward_options sample_landscape_members "Landscape"
           (JInt 10) (JInt 4) [] 10 4
           (JObject [("grid", JArray [JInt 1; JInt 2])]) fresh_state);
    try reflexivity.
  unfold typeNames. set_solver.
Defined.

(** The sibling case: without a top-level grid the grid under the data is
    the one read and written. *)
Example processGridValues_data_grid :
  processGridValues_item (db_of_rows [(1, 2)]) (getGridOffset 1) ∅ forward_options
    (JObject [("type", JString "Landscape");
              ("data", JObject [("grid", JArray [JInt 1; JInt 2])])]) fresh_state =
  (Ok (JObject [("type", JString "Landscape");
                ("data", JObject [("grid", JArray [JInt 8; JInt 8])])]),
   flagged fresh_state).
Proof. vm_compute. reflexivity. Qed.

(** ** The dependency order *)

Lemma placed_unique name names i j :
  placed name names i -> placed name names j -> i = j.
Proof.
  intros [Hi Hi'] [Hj Hj'].
  destruct (Nat.lt_trichotomy i j) as [H|[H|H]]; [|assumption|].
  - exfalso. exact (Hi' j H Hj).
  - exfalso. exact (Hj' i H Hi).
Qed.

Lemma placed_present name names i : placed name names i -> present name names.
Proof. intros [H _]. unfold present. eapply list_elem_of_lookup_2. exact H. Qed.

Lemma tracks_snoc_same name names :
  tracks (Some (length names)) name (names ++ [Some name]).
Proof.
  split.
  - rewrite lookup_app_r by lia. rewrite Nat.sub_diag. reflexivity.
  - intros j Hj. rewrite lookup_ge_None_2; [discriminate|].
    rewrite length_app. simpl. lia.
Qed.

Lemma tracks_snoc_other pos name names x :
  x <> Some name ->
  tracks pos name names -> tracks pos name (names ++ [x]).
Proof.
  intros Hx. destruct pos as [i|]; simpl.
  - intros [Hi Hlast]. split.
    + apply lookup_app_l_Some. exact Hi.
    + intros j Hj Hl.
      destruct (decide (j < length names)%nat) as [Hlt|Hge].
      * rewrite lookup_app_l in Hl by assumption. exact (Hlast j Hj Hl).
      * rewrite lookup_app_r in Hl by lia.
        destruct (j - length names)%nat; simpl in Hl; [|discriminate].
        congruence.
  - unfold present. intros Hn Hin. apply elem_of_app in Hin as [Hin|Hin].
    + exact (Hn Hin).
    + apply list_elem_of_singleton in Hin. congruence.
Qed.

Lemma note_master_tracks entries entry name names p :
  entries !! length names = Some entry ->
  entry_named entry name ->
  all_tracked p names ->
  exists p', note_master (JArray entries) (length names) p = Ok p' /\
             all_tracked p' (names ++ [name]).
Proof.
  intros Hentry Hnamed [Hmw Ht Hb].
  unfold note_master, const_at_idx. rewrite Hentry. simpl default.
  destruct Hnamed as [name others|entry Hshape].
  - simpl.
    destruct (String.eqb name "Morrowind.esm") eqn:E1;
      [apply String.eqb_eq in E1; subst name|apply String.eqb_neq in E1].
    { eexists; split; [reflexivity|]. split; simpl.
      - apply tracks_snoc_same.
      - apply tracks_snoc_other; [discriminate|assumption].
      - apply tracks_snoc_other; [discriminate|assumption]. }
    destruct (String.eqb name "Tribunal.esm") eqn:E2;
      [apply String.eqb_eq in E2; subst name|apply String.eqb_neq in E2].
    { eexists; split; [reflexivity|]. split; simpl.
      - apply tracks_snoc_other; [discriminate|assumption].
      - apply tracks_snoc_same.
      - apply tracks_snoc_other; [discriminate|assumption]. }
    destruct (String.eqb name "Bloodmoon.esm") eqn:E3;
      [apply String.eqb_eq in E3; subst name|apply String.eqb_neq in E3].
    { eexists; split; [reflexivity|]. split; simpl.
      - apply tracks_snoc_other; [discriminate|assumption].
      - apply tracks_snoc_other; [discriminate|assumption].
      - apply tracks_snoc_same. }
    eexists; split; [reflexivity|].
    split; apply tracks_snoc_other; try assumption; congruence.
  - rewrite Hshape. eexists; split; [reflexivity|].
    split; apply tracks_snoc_other; try assumption; discriminate.
Qed.

Lemma scan_masters_tracks entries :
  forall todo names_todo names_done p,
    Forall2 entry_named todo names_todo ->
    drop (length names_done) entries = todo ->
    all_tracked p names_done ->
    exists p', scan_masters (JArray entries) (length todo) (length names_done) p = Ok p' /\
               all_tracked p' (names_done ++ names_todo).
Proof.
  induction todo as [|entry todo IH]; intros names_todo names_done p Hnamed Hdrop Htr.
  - inversion Hnamed; subst. simpl. exists p. rewrite app_nil_r. auto.
  - inversion Hnamed as [|? name ? names_todo' Hn Hrest]; subst. simpl.
    assert (Hentry : entries !! length names_done = Some entry).
    { rewrite <- (Nat.add_0_r (length names_done)), <- lookup_drop, Hdrop. reflexivity. }
    destruct (note_master_tracks entries entry name names_done p Hentry Hn Htr)
      as (p1 & Hp1 & Htr1).
    rewrite Hp1.
    specialize (IH names_todo' (names_done ++ [name]) p1 Hrest).
    rewrite length_app in IH. simpl in IH. rewrite Nat.add_1_r in IH.
    destruct IH as (p' & Hp' & Htr').
    + replace (S (length names_done)) with (length names_done + 1)%nat by lia.
      rewrite <- drop_drop, Hdrop. reflexivity.
    + exact Htr1.
    + exists p'. split; [exact Hp'|]. rewrite <- app_assoc in Htr'. exact Htr'.
Qed.

Lemma tracks_present pos name names :
  tracks pos name names -> (is_Some pos <-> present name names).
Proof.
  destruct pos as [i|]; simpl.
  - intros H. split; [intros _; eapply placed_present; exact H | eauto].
  - intros H. split; [intros [? ?]; discriminate | contradiction].
Qed.

Lemma tracks_precedes a b names i j :
  placed a names i -> placed b names j ->
  (precedes a b names <-> (i < j)%nat).
Proof.
  intros Hi Hj. split.
  - intros (i' & j' & Hi' & Hj' & Hlt).
    rewrite (placed_unique _ _ _ _ Hi Hi'), (placed_unique _ _ _ _ Hj Hj'). exact Hlt.
  - intros Hlt. exists i, j. auto.
Qed.

Lemma checkDependencyOrder_positions p names :
  all_tracked p names ->
  exists b,
    match mwPos p with
    | None => Ok (false, ∅)
    | Some mw =>
        match tPos p, bPos p with
        | Some t, Some b =>
            if bool_decide (mw < t)%nat && bool_decide (t < b)%nat
            then Ok (true, ∅) else Ok (false, ∅)
        | _, Some b =>
            if bool_decide (mw < b)%nat then Ok (true, ∅) else Ok (false, ∅)
        | _, None => Ok (false, ∅)
        end
    end = Ok (b, (∅ : gset Z)) /\ (b = true <-> dependency_order names).
Proof.
  intros [Hmw Ht Hb]. unfold dependency_order.
  pose proof (tracks_present _ _ _ Hmw) as Pmw.
  pose proof (tracks_present _ _ _ Ht) as Pt.
  pose proof (tracks_present _ _ _ Hb) as Pb.
  destruct (mwPos p) as [mw|]; simpl in *.
  2:{ exists false. split; [reflexivity|]. split; [discriminate|].
      intros [Hp _]. apply Pmw in Hp. destruct Hp; discriminate. }
  destruct (tPos p) as [t|], (bPos p) as [b|]; simpl in *.
  - pose proof (tracks_precedes _ _ _ _ _ Hmw Ht) as Q1.
    pose proof (tracks_precedes _ _ _ _ _ Ht Hb) as Q2.
    destruct (bool_decide (mw < t)%nat) eqn:E1; destruct (bool_decide (t < b)%nat) eqn:E2;
      simpl; eexists; (split; [reflexivity|]);
      rewrite ?bool_decide_eq_true, ?bool_decide_eq_false in *.
    + split; [|reflexivity]. intros _. split; [apply Pmw; eauto|]. left.
      repeat split; [apply Pt; eauto | apply Pb; eauto | apply Q1; exact E1 | apply Q2; exact E2].
    + split; [discriminate|]. intros [_ [(_ & _ & _ & H)|(_ & H & _)]].
      * apply Q2 in H. contradiction.
      * exfalso. apply H. apply Pt. eauto.
    + split; [discriminate|]. intros [_ [(_ & _ & H & _)|(_ & H & _)]].
      * apply Q1 in H. contradiction.
      * exfalso. apply H. apply Pt. eauto.
    + split; [discriminate|]. intros [_ [(_ & _ & H & _)|(_ & H & _)]].
      * apply Q1 in H. contradiction.
      * exfalso. apply H. apply Pt. eauto.
  - exists false. split; [reflexivity|]. split; [discriminate|].
    intros [_ [(_ & H & _)|(H & _)]]; apply Pb in H; destruct H; discriminate.
  - pose proof (tracks_precedes _ _ _ _ _ Hmw Hb) as Q1.
    destruct (bool_decide (mw < b)%nat) eqn:E1; eexists; (split; [reflexivity|]);
      rewrite ?bool_decide_eq_true, ?bool_decide_eq_false in *.
    + split; [|reflexivity]. intros _. split; [apply Pmw; eauto|]. right.
      repeat split; [apply Pb; eauto | exact Ht | apply Q1; exact E1].
    + split; [discriminate|]. intros [_ [(H & _)|(_ & _ & H)]].
      * apply Pt in H. destruct H; discriminate.
      * apply Q1 in H. contradiction.
  - exists false. split; [reflexivity|]. split; [discriminate|].
    intros [_ [(_ & H & _)|(H & _)]]; apply Pb in H; destruct H; discriminate.
Qed.

Lemma find_is_header inputData header :
  List.find is_header (elements inputData) = Some header ->
  exists members, header = JObject members.
Proof.
  intros H. apply find_some in H as [_ H].
  unfold is_header in H. destruct header; try discriminate. eauto.
Qed.

Section DependencyOrder.

Variable hasConversionTag : json -> string -> bool.
Variable addConversionTag : json -> string -> ProgramOptions -> option json.
Variable saveJsonToFile : string -> json -> bool.
Variable createBackup : string -> bool.
Variable convertJsonToEsp : string -> string -> bool.
Variable tes3conv : string -> string -> bool.
Variable read_json : string -> read_result.
Variables jsonImportPath_of jsonExportPath_of : string -> string.
Variable what : exn -> string.
Variable db : Database.
Variable customCoordinates : gset (Z * Z).
Variable options : ProgramOptions.

Let document_events :=
  process_document hasConversionTag addConversionTag saveJsonToFile createBackup
    convertJsonToEsp jsonExportPath_of what db customCoordinates options.
Let file_events :=
  process_file hasConversionTag addConversionTag saveJsonToFile createBackup
    convertJsonToEsp tes3conv read_json jsonImportPath_of jsonExportPath_of what
    db customCoordinates options.
Let batch_events :=
  main_loop hasConversionTag addConversionTag saveJsonToFile createBackup
    convertJsonToEsp tes3conv read_json jsonImportPath_of jsonExportPath_of what
    db customCoordinates options.

Lemma log_deleted_no_write_back path :
  existsb is_write_back (log_deleted options path) = false.
Proof. unfold log_deleted. destruct (silentMode options); reflexivity. Qed.

Lemma rejected_no_write_back inputData pluginImportPath jsonImportPath :
  (forall s, checkDependencyOrder inputData <> Ok (true, s)) ->
  existsb is_write_back
    (document_events pluginImportPath jsonImportPath inputData) = false.
Proof.
  intros Hrej. unfold document_events, process_document.
  destruct (hasConversionTag inputData pluginImportPath).
  - simpl. apply log_deleted_no_write_back.
  - destruct (checkDependencyOrder inputData) as [[[|] s]|e].
    + exfalso. exact (Hrej s eq_refl).
    + simpl. apply log_deleted_no_write_back.
    + reflexivity.
Qed.

(** C7. [checkDependencyOrder] on a document whose Header record has a
    masters list accepts exactly the configurations of section 4.7:
    Morrowind.esm present and either Tribunal.esm and Bloodmoon.esm both
    present, in the order Morrowind, Tribunal, Bloodmoon, or Bloodmoon.esm
    present without Tribunal.esm, after Morrowind.esm. Without a Header
    record, or without a masters list in it, the check fails. A document
    the check does not accept is not written back, and the loop goes on
    with the next file. *)
Theorem C7_dependency_order (inputData : json) :
  (forall members entries names,
     List.find is_header (elements inputData) = Some (JObject members) ->
     obj_lookup "masters" members = Some (JArray entries) ->
     Forall2 entry_named entries names ->
     exists accepted,
       checkDependencyOrder inputData = Ok (accepted, ∅) /\
       (accepted = true <-> dependency_order names)) /\
  (List.find is_header (elements inputData) = None \/
   (exists header, List.find is_header (elements inputData) = Some header /\
                   contains header "masters" = false) ->
   checkDependencyOrder inputData = Ok (false, ∅)) /\
  ((forall s, checkDependencyOrder inputData <> Ok (true, s)) ->
   forall pluginImportPath jsonImportPath,
     existsb is_write_back
       (document_events pluginImportPath jsonImportPath inputData) = false) /\
  (forall pluginImportPath rest,
     batch_events (pluginImportPath :: rest) =
     file_events pluginImportPath ++ batch_events rest).
Proof.
  split; [|split; [|split]].
  - intros members entries names Hfind Hmasters Hnamed.
    unfold checkDependencyOrder. rewrite Hfind.
    rewrite (contains_some _ _ _ Hmasters). simpl negb. cbv iota.
    unfold const_at_key. rewrite Hmasters. simpl default. simpl size.
    destruct (scan_masters_tracks entries entries names []
                {| mwPos := None; tPos := None; bPos := None |} Hnamed eq_refl)
      as (p & Hscan & Htracked).
    { split; simpl; unfold present; apply not_elem_of_nil. }
    simpl in Hscan. rewrite Hscan. simpl in Htracked.
    exact (checkDependencyOrder_positions p names Htracked).
  - intros [Hnone | (header & Hfind & Hno)]; unfold checkDependencyOrder.
    + rewrite Hnone. reflexivity.
    + rewrite Hfind, Hno. reflexivity.
  - intros Hrej pluginImportPath jsonImportPath.
    apply rejected_no_write_back. exact Hrej.
  - reflexivity.
Qed.

End DependencyOrder.

Lemma C7_dependency_order_witness :
  exists accepted,
    checkDependencyOrder (JArray [sample_header sample_masters]) = Ok (accepted, ∅) /\
    (accepted = true <->
     dependency_order [Some "Morrowind.esm"; Some "Tribunal.esm"; Some "Bloodmoon.esm"]).
Proof.
  apply (proj1 (C7_dependency_order (fun _ _ => false) (fun d _ _ => Some d)
                  (fun _ _ => true) (fun _ => true) (fun _ _ => true)
                  (fun _ _ => true) (fun _ => CannotOpen)
                  (fun p => p) (fun p => p) (fun _ => EmptyString)
                  (db_of_rows []) ∅ forward_options
                  (JArray [sample_header sample_masters]))
           [("type", JString "Header");
            ("masters", JArray (map (fun name => JArray [JString name; JInt 0])
                                  sample_masters))]
           (map (fun name => JArray [JString name; JInt 0]) sample_masters)
           [Some "Morrowind.esm"; Some "Tribunal.esm"; Some "Bloodmoon.esm"]).
  - reflexivity.
  - reflexivity.
  - repeat constructor.
Defined.

(** The check on some orders of the three masters. *)
Example checkDependencyOrder_samples :
  map (fun masters => checkDependencyOrder (JArray [sample_header masters]))
    [["Morrowind.esm"; "Tribunal.esm"; "Bloodmoon.esm"];
     ["Morrowind.esm"; "Bloodmoon.esm"];
     ["Morrowind.esm"; "Tribunal.esm"];
     ["Morrowind.esm"; "Bloodmoon.esm"; "Tribunal.esm"];
     ["Bloodmoon.esm"; "Morrowind.esm"];
     ["Tribunal.esm"; "Bloodmoon.esm"];
     ["Morrowind.esm"]] =
  [Ok (true, ∅); Ok (true, ∅); Ok (false, ∅); Ok (false, ∅); Ok (false, ∅);
   Ok (false, ∅); Ok (false, ∅)].
Proof. vm_compute. reflexivity. Qed.

(** ** The regular-expression engine *)

Lemma rmatch_suffix {R} (r : regex) :
  forall s caps (k : list ascii -> captures -> option R) x,
    rmatch r s caps k = Some x ->
    exists s' caps', s' `suffix_of` s /\ k s' caps' = Some x.
Proof.
  induction r as [|c|cl|r1 IH1 r2 IH2|r1 IH1 r2 IH2|r1 IH1|n r1 IH1];
    intros s caps k x H; simpl in H.
  - exists s, caps. split; [reflexivity | exact H].
  - destruct s as [|a s']; [discriminate|].
    destruct (Ascii.eqb _ _); [|discriminate].
    exists s', caps. split; [apply suffix_cons_r; reflexivity | exact H].
  - destruct s as [|a s']; [discriminate|].
    destruct (class_mem cl a); [|discriminate].
    exists s', caps. split; [apply suffix_cons_r; reflexivity | exact H].
  - apply IH1 in H as (s1 & caps1 & Hs1 & H).
    apply IH2 in H as (s2 & caps2 & Hs2 & H).
    exists s2, caps2. split; [etrans; eassumption | exact H].
  - destruct (rmatch r1 s caps k) eqn:E1.
    + inversion H; subst. eapply IH1. exact E1.
    + eapply IH2. exact H.
  - remember (length s) as fuel eqn:Hfuel. clear Hfuel.
    revert s caps H. induction fuel as [|fuel IHf]; intros s caps H.
    + exists s, caps. split; [reflexivity | exact H].
    + match type of H with
      | match ?m with _ => _ end = _ => destruct m eqn:E
      end.
      * inversion H; subst.
        apply IH1 in E as (s1 & caps1 & Hs1 & E).
        destruct (bool_decide _); [|discriminate].
        apply IHf in E as (s2 & caps2 & Hs2 & E).
        exists s2, caps2. split; [etrans; eassumption | exact E].
      * exists s, caps. split; [reflexivity | exact H].
  - apply IH1 in H as (s1 & caps1 & Hs1 & H).
    eexists _, _. split; [exact Hs1 | exact H].
Qed.

Lemma rmatch_word {R} w : forall s caps (k : list ascii -> captures -> option R),
  rmatch (RWord w) s caps k =
    match strip_icase w s with
    | Some s' => k s' caps
    | None => None
    end.
Proof.
  induction w as [|c w IH]; intros s caps k; simpl; [reflexivity|].
  destruct s as [|x s']; [reflexivity|].
  destruct (Ascii.eqb _ _); [apply IH | reflexivity].
Qed.

Lemma strip_icase_length w : forall s s',
  strip_icase w s = Some s' -> length s = (length w + length s')%nat.
Proof.
  induction w as [|c w IH]; intros s s' H; simpl in H.
  - inversion H. reflexivity.
  - destruct s as [|x s0]; [discriminate|].
    destruct (Ascii.eqb _ _); [|discriminate].
    simpl. rewrite (IH _ _ H). reflexivity.
Qed.

Lemma match_here_keyword cmd s s' caps :
  match_here (cmd_regex cmd) s = Some (s', caps) ->
  exists s1, strip_icase (keyword_chars cmd) s = Some s1 /\ s' `suffix_of` s1.
Proof.
  unfold match_here, cmd_regex, kwG. simpl. rewrite rmatch_word.
  fold (keyword_chars cmd).
  destruct (strip_icase (keyword_chars cmd) s) as [s1|]; [|discriminate].
  intros H. apply rmatch_suffix in H as (s2 & caps2 & Hs2 & H).
  inversion H; subst. eauto.
Qed.

Lemma suffix_length_take (s s' : list ascii) :
  s' `suffix_of` s -> take (length s - length s') s ++ s' = s.
Proof.
  intros [m ->]. rewrite length_app.
  replace (length m + length s' - length s')%nat with (length m) by lia.
  rewrite take_app_length. reflexivity.
Qed.

Lemma match_here_suffix r s s' caps :
  match_here r s = Some (s', caps) -> s' `suffix_of` s.
Proof.
  unfold match_here. intros H.
  apply rmatch_suffix in H as (s2 & caps2 & Hs2 & H). inversion H; subst. exact Hs2.
Qed.

Lemma regex_search_from_parts r : forall s before m,
  regex_search_from r before s = Some m ->
  m_prefix m ++ m_str m ++ m_suffix m = rev before ++ s /\
  exists here, here `suffix_of` s /\
               match_here r here = Some (m_suffix m, m_caps m).
Proof.
  induction s as [|x s IH]; intros before m H; simpl in H.
  - destruct (match_here r []) as [[s' caps]|] eqn:E; [|discriminate].
    inversion H; subst; simpl. split.
    + f_equal. apply (suffix_length_take [] s'). eapply match_here_suffix. exact E.
    + exists []. split; [reflexivity | exact E].
  - destruct (match_here r (x :: s)) as [[s' caps]|] eqn:E.
    + inversion H; subst; simpl. split.
      * f_equal. apply (suffix_length_take (x :: s) s').
        eapply match_here_suffix. exact E.
      * exists (x :: s). split; [reflexivity | exact E].
    + apply IH in H as [Hparts (here & Hhere & Hm)]. split.
      * rewrite Hparts. simpl. rewrite <- app_assoc. reflexivity.
      * exists here. split; [apply suffix_cons_r; exact Hhere | exact Hm].
Qed.

Lemma regex_search_parts r s m :
  regex_search r s = Some m -> m_prefix m ++ m_str m ++ m_suffix m = s.
Proof. intros H. apply regex_search_from_parts in H as [H _]. exact H. Qed.

(** A match of the pattern of a command leaves less text to search. *)
Lemma regex_search_progress cmd s m :
  regex_search (cmd_regex cmd) s = Some m ->
  (length (m_suffix m) + length (keyword_chars cmd) <= length s)%nat.
Proof.
  intros H. apply regex_search_from_parts in H as [_ (here & Hhere & Hm)].
  apply match_here_keyword in Hm as (s1 & Hs1 & Hsuf).
  apply strip_icase_length in Hs1.
  apply suffix_length in Hsuf. apply suffix_length in Hhere. lia.
Qed.

Lemma regex_search_from_no_keyword cmd : forall s before,
  occurs_icase (keyword_chars cmd) s = false ->
  regex_search_from (cmd_regex cmd) before s = None.
Proof.
  induction s as [|x s IH]; intros before H; simpl in *.
  - destruct (match_here (cmd_regex cmd) []) as [[s' caps]|] eqn:E; [|reflexivity].
    apply match_here_keyword in E as (s1 & Hs1 & _).
    rewrite Hs1 in H. discriminate.
  - destruct (match_here (cmd_regex cmd) (x :: s)) as [[s' caps]|] eqn:E.
    + apply match_here_keyword in E as (s1 & Hs1 & _).
      rewrite Hs1 in H. discriminate.
    + apply IH. destruct (strip_icase (keyword_chars cmd) (x :: s)); [discriminate|exact H].
Qed.

Section Rewriting.

Variables (cmd : command) (db : Database) (offset : GridOffset).
Variables (customCoordinates : gset (Z * Z)) (options : ProgramOptions).

Let rewrite_one := rewrite_match cmd db offset customCoordinates options.
Let loop := rewrite_loop cmd db offset customCoordinates options.

Lemma stod_list_no_fuel l : stod_list l <> Throw out_of_fuel.
Proof.
  unfold stod_list. destruct (split_numeral l) as [[[neg ip] fr]|]; [|discriminate].
  destruct (nearest_double _ _ _); try discriminate.
  - destruct (_ =? _); discriminate.
  - destruct (_ && _); discriminate.
Qed.

Lemma coordinateValid_result gx gy st :
  coordinateValid db gx gy customCoordinates options st =
    (Ok (fst (isCoordinateValid db gx gy customCoordinates options)),
     with_cerr (snd (isCoordinateValid db gx gy customCoordinates options)) st).
Proof.
  unfold coordinateValid.
  destruct (isCoordinateValid db gx gy customCoordinates options) as [v lines].
  reflexivity.
Qed.

(** The ways [rewrite_match] ends. *)
Lemma rewrite_match_cases m st :
  (exists e, e <> out_of_fuel /\ rewrite_one m st = (Throw e, st)) \/
  (exists destX destY destZ after,
     stod_list (sub_str m (cmd_x cmd)) = Ok destX /\
     stod_list (sub_str m (S (cmd_x cmd))) = Ok destY /\
     stod_list (sub_str m (S (S (cmd_x cmd)))) = Ok destZ /\
     tail_fields (cmd_tail cmd) m st = (Ok after, st) /\
     let valid := fst (isCoordinateValid db (cellOf destX) (cellOf destY)
                         customCoordinates options) in
     let lines := snd (isCoordinateValid db (cellOf destX) (cellOf destY)
                         customCoordinates options) in
     rewrite_one m st =
       if valid
       then (Ok (join_fields
                   ([sub_str m 1] ++ map (sub_str m) (cmd_verbatim cmd) ++
                    [fixed_list 3 (translateCoord destX (cellOf destX) (offsetX offset));
                     fixed_list 3 (translateCoord destY (cellOf destY) (offsetY offset));
                     fixed_list 3 destZ] ++ after), true),
             flagged (with_cerr lines st))
       else (Ok (m_str m, false), with_cerr lines st)).
Proof.
  unfold rewrite_one, rewrite_match.
  destruct (stod_list (sub_str m (cmd_x cmd))) as [destX|e] eqn:Ex.
  2:{ left. exists e. split; [intros ->; exact (stod_list_no_fuel _ Ex) | reflexivity]. }
  destruct (stod_list (sub_str m (S (cmd_x cmd)))) as [destY|e] eqn:Ey.
  2:{ left. exists e. split; [intros ->; exact (stod_list_no_fuel _ Ey) | reflexivity]. }
  destruct (stod_list (sub_str m (S (S (cmd_x cmd))))) as [destZ|e] eqn:Ez.
  2:{ left. exists e. split; [intros ->; exact (stod_list_no_fuel _ Ez) | reflexivity]. }
  assert (Htail : (exists e, e <> out_of_fuel /\
                     tail_fields (cmd_tail cmd) m st = (Throw e, st)) \/
                  exists after, tail_fields (cmd_tail cmd) m st = (Ok after, st)).
  { unfold tail_fields. destruct (cmd_tail cmd) as [n|n|n c].
    - right. eexists. reflexivity.
    - destruct (stod_list (sub_str m n)) as [zRot|e] eqn:Er.
      + right. eexists. unfold bind, lift, ret. reflexivity.
      + left. exists e. split; [intros ->; exact (stod_list_no_fuel _ Er) | reflexivity].
    - destruct (stod_list (sub_str m n)) as [zRot|e] eqn:Er.
      + right. eexists. unfold bind, lift, ret. reflexivity.
      + left. exists e. split; [intros ->; exact (stod_list_no_fuel _ Er) | reflexivity]. }
  destruct Htail as [(e & He & Htail)|(after & Htail)].
  - left. exists e. split; [exact He|].
    unfold bind at 1 2 3 4, lift at 1 2 3. rewrite Htail. reflexivity.
  - right. exists destX, destY, destZ, after.
    repeat split; try assumption.
    unfold bind at 1 2 3 4, lift at 1 2 3. rewrite Htail.
    unfold bind at 1. rewrite coordinateValid_result.
    destruct (fst (isCoordinateValid _ _ _ _ _)); reflexivity.
Qed.

Lemma rewrite_match_untranslated m st emitted st' :
  rewrite_one m st = (Ok (emitted, false), st') ->
  emitted = m_str m /\ same_marks st st'.
Proof.
  intros H.
  destruct (rewrite_match_cases m st) as [(e & _ & He)|(x & y & z & after & _ & _ & _ & _ & Hr)].
  - rewrite He in H. discriminate.
  - simpl in Hr. rewrite Hr in H.
    destruct (fst (isCoordinateValid _ _ _ _ _)); inversion H; subst.
    split; [reflexivity | split; reflexivity].
Qed.

Lemma rewrite_match_no_fuel m st st' :
  rewrite_one m st <> (Throw out_of_fuel, st').
Proof.
  intros H.
  destruct (rewrite_match_cases m st) as [(e & Hne & He)|(x & y & z & after & _ & _ & _ & _ & Hr)].
  - rewrite He in H. inversion H. contradiction.
  - simpl in Hr. rewrite Hr in H.
    destruct (fst (isCoordinateValid _ _ _ _ _)); discriminate.
Qed.

Lemma same_marks_refl st : same_marks st st.
Proof. split; reflexivity. Qed.

Lemma same_marks_trans st1 st2 st3 :
  same_marks st1 st2 -> same_marks st2 st3 -> same_marks st1 st3.
Proof. intros [H1 H2] [H3 H4]. split; congruence. Qed.

(** When the loop ends with nothing translated, the text it produced is
    the text it was given. *)
Lemma rewrite_loop_untranslated fuel :
  forall searchStart updatedText st text' st',
    loop fuel searchStart updatedText false st = (Ok (text', false), st') ->
    text' = updatedText ++ searchStart /\ same_marks st st'.
Proof.
  unfold loop.
  induction fuel as [|fuel IH]; intros searchStart updatedText st text' st' H;
    simpl in H; [discriminate|].
  destruct (regex_search (cmd_regex cmd) searchStart) as [m|] eqn:Em.
  - unfold bind in H.
    destruct (rewrite_match cmd db offset customCoordinates options m st)
      as [[[emitted translated]|e] st1] eqn:Er; [|discriminate].
    simpl in H. destruct translated.
    + exfalso. clear IH Er Em. revert H.
      generalize (m_suffix m) (updatedText ++ m_prefix m ++ emitted) st1.
      induction fuel as [|fuel IHf]; intros s u st2 H; simpl in H; [discriminate|].
      destruct (regex_search (cmd_regex cmd) s) as [m'|].
      * unfold bind in H.
        destruct (rewrite_match cmd db offset customCoordinates options m' st2)
          as [[r|e] st3]; [|discriminate].
        simpl in H. eapply IHf. exact H.
      * discriminate.
    + apply rewrite_match_untranslated in Er as [-> Hmarks].
      apply IH in H as [-> Hmarks']. split.
      * rewrite <- !app_assoc. f_equal. exact (regex_search_parts _ _ _ Em).
      * eapply same_marks_trans; eassumption.
  - inversion H; subst. split; [reflexivity | apply same_marks_refl].
Qed.

(** The fuel is enough when the keyword has a letter. *)
Lemma rewrite_loop_fuel fuel :
  keyword_chars cmd <> [] ->
  forall searchStart updatedText scriptUpdated st st',
    (length searchStart < fuel)%nat ->
    loop fuel searchStart updatedText scriptUpdated st <> (Throw out_of_fuel, st').
Proof.
  intros Hkw. unfold loop.
  induction fuel as [|fuel IH]; intros searchStart updatedText scriptUpdated st st' Hlen;
    [lia|]. simpl.
  destruct (regex_search (cmd_regex cmd) searchStart) as [m|] eqn:Em; [|discriminate].
  unfold bind.
  destruct (rewrite_match cmd db offset customCoordinates options m st)
    as [[r|e] st1] eqn:Er.
  - apply IH. apply regex_search_progress in Em.
    destruct (keyword_chars cmd); [contradiction|]. simpl in Em. lia.
  - intros H. inversion H; subst. exact (rewrite_match_no_fuel _ _ _ Er).
Qed.

(** Without the keyword in it, a text is not touched. *)
Lemma rewrite_loop_no_keyword fuel searchStart updatedText scriptUpdated st :
  occurs_icase (keyword_chars cmd) searchStart = false ->
  loop (S fuel) searchStart updatedText scriptUpdated st =
    (Ok (updatedText ++ searchStart, scriptUpdated), st).
Proof.
  intros H. unfold loop. simpl. unfold regex_search.
  rewrite (regex_search_from_no_keyword cmd _ _ H). reflexivity.
Qed.

End Rewriting.

(** ** The rewriting of a text *)

Lemma commands_keywords cmd : cmd ∈ commands -> keyword_chars cmd <> [].
Proof.
  unfold commands. rewrite !elem_of_cons, elem_of_nil.
  intros H. repeat (destruct H as [->|H]; [discriminate|]). contradiction.
Qed.

Lemma bind_inv {A B} (c : M A) (k : A -> M B) st b st' :
  bind c k st = (Ok b, st') ->
  exists a st1, c st = (Ok a, st1) /\ k a st1 = (Ok b, st').
Proof.
  unfold bind. destruct (c st) as [[a|e] st1]; [eauto | discriminate].
Qed.

Lemma lift_inv {A} (o : outcome A) st r st' :
  lift o st = (r, st') -> r = o /\ st' = st.
Proof. unfold lift. intros [= <- <-]. auto. Qed.

Lemma ret_inv {A} (a : A) st r st' :
  ret a st = (r, st') -> r = Ok a /\ st' = st.
Proof. unfold ret. intros [= <- <-]. auto. Qed.

(** Inversion of a run of the monad that ended well. *)
Ltac monad_inv1 H :=
  match type of H with
  | bind _ _ _ = (Ok _, _) =>
      let a := fresh "a" in let st1 := fresh "st" in
      let H1 := fresh "Hrun" in
      apply bind_inv in H as (a & st1 & H1 & H); monad_inv1 H1; monad_inv1 H
  | key _ _ _ = _ => unfold key in H; monad_inv1 H
  | idx _ _ _ = _ => unfold idx in H; monad_inv1 H
  | lift _ _ = _ =>
      let E := fresh "Hout" in let S := fresh "Hst" in
      apply lift_inv in H as [E S]; try subst; try (symmetry in E)
  | ret _ _ = _ =>
      let E := fresh "Hout" in let S := fresh "Hst" in
      apply ret_inv in H as [E S]; try (injection E as E); try subst
  | _ => idtac
  end.

Ltac monad_inv H := monad_inv1 H.

Ltac monad_inv_all :=
  repeat match goal with
         | H : bind _ _ _ = (Ok _, _) |- _ => monad_inv1 H
         | H : lift _ _ = _ |- _ => monad_inv1 H
         | H : ret _ _ = _ |- _ => monad_inv1 H
         | H : key _ _ _ = _ |- _ => monad_inv1 H
         | H : idx _ _ _ = _ |- _ => monad_inv1 H
         | H : Ok _ = Ok _ |- _ => injection H as H; try subst
         end.

Section RewriteText.

Variables (cmd : command) (db : Database) (offset : GridOffset).
Variables (customCoordinates : gset (Z * Z)) (options : ProgramOptions).

Lemma rewrite_text_untranslated scriptText st text' st' :
  rewrite_text cmd db offset customCoordinates options scriptText st =
    (Ok (text', false), st') ->
  text' = scriptText /\ same_marks st st'.
Proof.
  unfold rewrite_text, bind, ret. intros H.
  destruct (rewrite_loop _ _ _ _ _ _ _ _ _ st) as [[[t u]|e] st1] eqn:El;
    [|discriminate].
  simpl in H. inversion H; subst.
  apply rewrite_loop_untranslated in El as [-> Hm]. simpl.
  split; [apply string_of_list_ascii_of_string | exact Hm].
Qed.

Lemma rewrite_text_no_keyword scriptText st :
  occurs_icase (keyword_chars cmd) (list_ascii_of_string scriptText) = false ->
  rewrite_text cmd db offset customCoordinates options scriptText st =
    (Ok (scriptText, false), st).
Proof.
  intros H. unfold rewrite_text, bind, ret.
  rewrite (rewrite_loop_no_keyword cmd db offset customCoordinates options _ _ _ _ _ H).
  simpl. rewrite string_of_list_ascii_of_string. reflexivity.
Qed.

Lemma rewrite_text_fuel scriptText st st' :
  keyword_chars cmd <> [] ->
  rewrite_text cmd db offset customCoordinates options scriptText st <>
    (Throw out_of_fuel, st').
Proof.
  intros Hkw. unfold rewrite_text, bind, ret.
  destruct (rewrite_loop _ _ _ _ _ _ _ _ _ st) as [[[t u]|e] st1] eqn:El;
    [discriminate|].
  intros H. inversion H; subst.
  revert El. apply rewrite_loop_fuel; [exact Hkw | lia].
Qed.

Lemma rewrite_match_invalid m destX destY st emitted translated st' :
  stod_list (sub_str m (cmd_x cmd)) = Ok destX ->
  stod_list (sub_str m (S (cmd_x cmd))) = Ok destY ->
  fst (isCoordinateValid db (cellOf destX) (cellOf destY)
         customCoordinates options) = false ->
  rewrite_match cmd db offset customCoordinates options m st =
    (Ok (emitted, translated), st') ->
  emitted = m_str m /\ translated = false.
Proof.
  intros Hx Hy Hinv H.
  destruct (rewrite_match_cases cmd db offset customCoordinates options m st)
    as [(e & _ & He)|(x & y & z & after & Hx' & Hy' & _ & _ & Hr)].
  - rewrite He in H. discriminate.
  - simpl in Hr. rewrite Hx in Hx'. rewrite Hy in Hy'.
    inversion Hx'; inversion Hy'; subst x y.
    rewrite Hinv in Hr. rewrite Hr in H. inversion H; subst. auto.
Qed.


(** What a step of the loop does to the marks of the state: the script
    ids stay, a raised flag stays raised, and a translation raises it. *)
Lemma rewrite_match_marks m st emitted translated st' :
  rewrite_match cmd db offset customCoordinates options m st =
    (Ok (emitted, translated), st') ->
  updatedScriptIDs st' = updatedScriptIDs st /\
  (replacementsFlag st = 1 -> replacementsFlag st' = 1) /\
  (translated = true -> replacementsFlag st' = 1).
Proof.
  intros H.
  destruct (rewrite_match_cases cmd db offset customCoordinates options m st)
    as [(e & _ & He)|(x & y & z & after & _ & _ & _ & _ & Hr)].
  - rewrite He in H. discriminate.
  - simpl in Hr. rewrite Hr in H.
    destruct (fst (isCoordinateValid _ _ _ _ _)); inversion H; subst; simpl;
      repeat split; auto; discriminate.
Qed.

Lemma rewrite_loop_marks fuel :
  forall searchStart updatedText scriptUpdated st text' updated st',
    rewrite_loop cmd db offset customCoordinates options fuel
      searchStart updatedText scriptUpdated st = (Ok (text', updated), st') ->
    updatedScriptIDs st' = updatedScriptIDs st /\
    (replacementsFlag st = 1 -> replacementsFlag st' = 1) /\
    (updated = true -> scriptUpdated = true \/ replacementsFlag st' = 1).
Proof.
  induction fuel as [|fuel IH];
    intros searchStart updatedText scriptUpdated st text' updated st' H;
    simpl in H; [discriminate|].
  destruct (regex_search (cmd_regex cmd) searchStart) as [m|].
  - unfold bind in H.
    destruct (rewrite_match cmd db offset customCoordinates options m st)
      as [[[emitted translated]|e] st1] eqn:Er; [|discriminate].
    simpl in H. apply rewrite_match_marks in Er as (Hids & Hmono & Htr).
    apply IH in H as (Hids' & Hmono' & Hup).
    split; [congruence|]. split; [auto|].
    intros Hu. destruct (Hup Hu) as [Hb|Hf]; [|right; exact Hf].
    apply orb_true_iff in Hb as [Hb|Hb]; [left; exact Hb | right; auto].
  - inversion H; subst. auto.
Qed.

Lemma rewrite_text_marks scriptText st text' updated st' :
  rewrite_text cmd db offset customCoordinates options scriptText st =
    (Ok (text', updated), st') ->
  updatedScriptIDs st' = updatedScriptIDs st /\
  (replacementsFlag st = 1 -> replacementsFlag st' = 1) /\
  (updated = true -> replacementsFlag st' = 1).
Proof.
  unfold rewrite_text, bind, ret. intros H.
  destruct (rewrite_loop _ _ _ _ _ _ _ _ _ st) as [[[t u]|e] st1] eqn:El;
    [|discriminate].
  simpl in H. inversion H; subst.
  apply rewrite_loop_marks in El as (Hids & Hmono & Hup).
  repeat split; auto. intros Hu. destruct (Hup Hu); [discriminate | assumption].
Qed.

(** A text in which nothing was translated, the flag being down, is as
    it was. *)
Lemma rewrite_text_flag_down scriptText st text' updated st' :
  rewrite_text cmd db offset customCoordinates options scriptText st =
    (Ok (text', updated), st') ->
  replacementsFlag st' = 0 ->
  text' = scriptText /\ updated = false /\ same_marks st st'.
Proof.
  intros H Hflag. destruct updated.
  - apply rewrite_text_marks in H as (_ & _ & Hup).
    rewrite (Hup eq_refl) in Hflag. discriminate.
  - apply rewrite_text_untranslated in H as [-> Hm]. auto.
Qed.

Lemma set_key_same members k v :
  obj_lookup k members = Some v ->
  set_key (JObject members) k v = Ok (JObject members).
Proof. intros H. simpl. rewrite (obj_set_same _ _ _ H). reflexivity. Qed.

Lemma processScript_record_flag_down script st script' st' :
  processScript_record cmd db offset customCoordinates options script st =
    (Ok script', st') ->
  replacementsFlag st' = 0 ->
  script' = script /\ same_marks st st'.
Proof.
  unfold processScript_record. intros H Hflag.
  apply bind_inv in H as (isScript & st1 & Hc & H).
  assert (st1 = st) as ->.
  { destruct (contains script "type"); monad_inv Hc; reflexivity. }
  clear Hc.
  destruct (isScript && contains script "text") eqn:Hcond.
  2:{ monad_inv H. split; [reflexivity | apply same_marks_refl]. }
  apply andb_true_iff in Hcond as [_ Htext].
  destruct script as [| | | | | |members]; try discriminate.
  apply contains_lookup in Htext as [t Ht].
  apply bind_inv in H as (t' & st1 & Hkey & H).
  unfold key, at_key in Hkey. rewrite Ht in Hkey. apply lift_inv in Hkey as [[= ->] ->].
  apply bind_inv in H as (scriptText & st1 & Hget & H).
  apply lift_inv in Hget as [Hget ->].
  destruct t; try discriminate. injection Hget as <-.
  apply bind_inv in H as (scriptID & st1 & Hid & H).
  assert (st1 = st) as ->.
  { destruct (contains _ _) in Hid; monad_inv Hid; reflexivity. }
  clear Hid.
  apply bind_inv in H as ([text' updated] & st1 & Hr & H).
  apply bind_inv in H as (script1 & st2 & Hset & H).
  apply lift_inv in Hset as [Hset ->]. simpl in Hset. injection Hset as ->.
  apply bind_inv in H as ([] & st2 & Hpush & H).
  apply ret_inv in H as [[= ->] ->].
  simpl in Hpush. destruct updated.
  - injection Hpush as <-. simpl in Hflag.
    apply rewrite_text_marks in Hr as (_ & _ & Hup).
    rewrite (Hup eq_refl) in Hflag. discriminate.
  - apply ret_inv in Hpush as [_ ->].
    apply rewrite_text_untranslated in Hr as [-> Hm]. simpl.
    rewrite (obj_set_same _ _ _ Ht). auto.
Qed.

Lemma processDialogue_record_flag_down dialogueInfo st dialogueInfo' st' :
  processDialogue_record cmd db offset customCoordinates options dialogueInfo st =
    (Ok dialogueInfo', st') ->
  replacementsFlag st' = 0 ->
  dialogueInfo' = dialogueInfo /\ same_marks st st'.
Proof.
  unfold processDialogue_record. intros H Hflag.
  apply bind_inv in H as (isDialogue & st1 & Hc & H).
  assert (st1 = st) as ->.
  { destruct (contains dialogueInfo "type"); monad_inv Hc; reflexivity. }
  clear Hc.
  destruct (isDialogue && contains dialogueInfo "script_text") eqn:Hcond.
  2:{ monad_inv H. split; [reflexivity | apply same_marks_refl]. }
  apply andb_true_iff in Hcond as [_ Htext].
  destruct dialogueInfo as [| | | | | |members]; try discriminate.
  apply contains_lookup in Htext as [t Ht].
  apply bind_inv in H as (t' & st1 & Hkey & H).
  unfold key, at_key in Hkey. rewrite Ht in Hkey. apply lift_inv in Hkey as [[= ->] ->].
  apply bind_inv in H as (scriptText & st1 & Hget & H).
  apply lift_inv in Hget as [Hget ->].
  destruct t; try discriminate. injection Hget as <-.
  apply bind_inv in H as ([text' updated] & st1 & Hr & H).
  apply lift_inv in H as [H ->]. simpl in H. injection H as ->.
  apply rewrite_text_flag_down in Hr as (-> & _ & Hm); [|exact Hflag].
  simpl. rewrite (obj_set_same _ _ _ Ht). auto.
Qed.

(** A loop all of whose matches have a cell that is not valid gives
    back the text it was given, and translates nothing. *)
Lemma rewrite_loop_not_valid fuel :
  forall searchStart updatedText scriptUpdated st text' updated st',
    rewrite_loop cmd db offset customCoordinates options fuel
      searchStart updatedText scriptUpdated st = (Ok (text', updated), st') ->
    Forall (cell_not_valid cmd db customCoordinates options)
      (searched cmd fuel searchStart) ->
    text' = updatedText ++ searchStart /\ updated = scriptUpdated /\
    same_marks st st'.
Proof.
  induction fuel as [|fuel IH];
    intros searchStart updatedText scriptUpdated st text' updated st' H Hall;
    simpl in H; [discriminate|].
  cbn [searched] in Hall.
  destruct (regex_search (cmd_regex cmd) searchStart) as [m|] eqn:Em.
  - unfold bind in H.
    destruct (rewrite_match cmd db offset customCoordinates options m st)
      as [[[emitted translated]|e] st1] eqn:Er; [|discriminate].
    inversion Hall as [|m' ms Hm Hrest]; subst m' ms.
    assert (Hinv : emitted = m_str m /\ translated = false).
    { destruct (rewrite_match_cases cmd db offset customCoordinates options m st)
        as [(e & _ & He)|(x & y & z & after & Hx & Hy & _ & _ & _)].
      - rewrite He in Er. discriminate.
      - eapply rewrite_match_invalid; [exact Hx | exact Hy | exact (Hm x y Hx Hy) | exact Er]. }
    destruct Hinv as [-> ->].
    apply rewrite_match_untranslated in Er as [_ Hmarks].
    cbn [fst snd] in H. apply IH in H as (-> & -> & Hmarks'); [|exact Hrest].
    split; [|split].
    + rewrite <- !app_assoc. f_equal. exact (regex_search_parts _ _ _ Em).
    + apply orb_false_r.
    + eapply same_marks_trans; eassumption.
  - inversion H; subst. split; [reflexivity|]. split; [reflexivity|].
    apply same_marks_refl.
Qed.

Lemma rewrite_text_not_valid scriptText st text' updated st' :
  rewrite_text cmd db offset customCoordinates options scriptText st =
    (Ok (text', updated), st') ->
  Forall (cell_not_valid cmd db customCoordinates options)
    (matches_of cmd scriptText) ->
  text' = scriptText /\ updated = false /\ same_marks st st'.
Proof.
  unfold rewrite_text, bind, ret, matches_of. intros H Hall.
  destruct (rewrite_loop _ _ _ _ _ _ _ _ _ st) as [[[t u]|e] st1] eqn:El;
    [|discriminate].
  simpl in H. inversion H; subst.
  apply rewrite_loop_not_valid in El as (-> & -> & Hm); [|exact Hall].
  simpl. split; [apply string_of_list_ascii_of_string|]. split; [reflexivity | exact Hm].
Qed.

Lemma matches_of_no_keyword scriptText :
  occurs_icase (keyword_chars cmd) (list_ascii_of_string scriptText) = false ->
  matches_of cmd scriptText = [].
Proof.
  intros H. unfold matches_of. cbn [searched]. unfold regex_search.
  rewrite (regex_search_from_no_keyword cmd _ _ H). reflexivity.
Qed.

(** The record a pass stores when no command of its text has a valid
    cell, whatever the flag is. *)
Lemma processScript_record_not_valid script st script' st' :
  processScript_record cmd db offset customCoordinates options script st =
    (Ok script', st') ->
  (forall scriptText, stored_text "text" script = Some scriptText ->
     Forall (cell_not_valid cmd db customCoordinates options)
       (matches_of cmd scriptText)) ->
  script' = script /\ same_marks st st'.
Proof.
  unfold processScript_record. intros H Hall.
  apply bind_inv in H as (isScript & st1 & Hc & H).
  assert (st1 = st) as ->.
  { destruct (contains script "type"); monad_inv Hc; reflexivity. }
  clear Hc.
  destruct (isScript && contains script "text") eqn:Hcond.
  2:{ monad_inv H. split; [reflexivity | apply same_marks_refl]. }
  apply andb_true_iff in Hcond as [_ Htext].
  destruct script as [| | | | | |members]; try discriminate.
  apply contains_lookup in Htext as [t Ht].
  apply bind_inv in H as (t' & st1 & Hkey & H).
  unfold key, at_key in Hkey. rewrite Ht in Hkey. apply lift_inv in Hkey as [[= ->] ->].
  apply bind_inv in H as (scriptText & st1 & Hget & H).
  apply lift_inv in Hget as [Hget ->].
  destruct t; try discriminate. injection Hget as <-.
  apply bind_inv in H as (scriptID & st1 & Hid & H).
  assert (st1 = st) as ->.
  { destruct (contains _ _) in Hid; monad_inv Hid; reflexivity. }
  clear Hid.
  apply bind_inv in H as ([text' updated] & st1 & Hr & H).
  apply bind_inv in H as (script1 & st2 & Hset & H).
  apply lift_inv in Hset as [Hset ->]. simpl in Hset. injection Hset as ->.
  apply bind_inv in H as ([] & st2 & Hpush & H).
  apply ret_inv in H as [[= ->] ->].
  apply rewrite_text_not_valid in Hr as (-> & -> & Hm).
  2:{ apply Hall. simpl. rewrite Ht. reflexivity. }
  simpl in Hpush. apply ret_inv in Hpush as [_ ->].
  simpl. rewrite (obj_set_same _ _ _ Ht). auto.
Qed.

Lemma processDialogue_record_not_valid dialogueInfo st dialogueInfo' st' :
  processDialogue_record cmd db offset customCoordinates options dialogueInfo st =
    (Ok dialogueInfo', st') ->
  (forall scriptText, stored_text "script_text" dialogueInfo = Some scriptText ->
     Forall (cell_not_valid cmd db customCoordinates options)
       (matches_of cmd scriptText)) ->
  dialogueInfo' = dialogueInfo /\ same_marks st st'.
Proof.
  unfold processDialogue_record. intros H Hall.
  apply bind_inv in H as (isDialogue & st1 & Hc & H).
  assert (st1 = st) as ->.
  { destruct (contains dialogueInfo "type"); monad_inv Hc; reflexivity. }
  clear Hc.
  destruct (isDialogue && contains dialogueInfo "script_text") eqn:Hcond.
  2:{ monad_inv H. split; [reflexivity | apply same_marks_refl]. }
  apply andb_true_iff in Hcond as [_ Htext].
  destruct dialogueInfo as [| | | | | |members]; try discriminate.
  apply contains_lookup in Htext as [t Ht].
  apply bind_inv in H as (t' & st1 & Hkey & H).
  unfold key, at_key in Hkey. rewrite Ht in Hkey. apply lift_inv in Hkey as [[= ->] ->].
  apply bind_inv in H as (scriptText & st1 & Hget & H).
  apply lift_inv in Hget as [Hget ->].
  destruct t; try discriminate. injection Hget as <-.
  apply bind_inv in H as ([text' updated] & st1 & Hr & H).
  apply lift_inv in H as [H ->]. simpl in H. injection H as ->.
  apply rewrite_text_not_valid in Hr as (-> & _ & Hm).
  2:{ apply Hall. simpl. rewrite Ht. reflexivity. }
  simpl. rewrite (obj_set_same _ _ _ Ht). auto.
Qed.

End RewriteText.

(** C5. For each of the nine commands, and whatever the replacements flag
    is when the pass reaches the text. A text in which the keyword of the
    command does not occur has no match and is returned as it is, with
    nothing else done. A matched command whose cell is not valid is
    re-emitted as the text that matched. A text all of whose matched
    commands have a cell that is not valid is returned as it is, reported
    as not updated, flag and script ids as before. A Script or
    DialogueInfo record whose text has no matched command with a valid
    cell is stored as the record it was. A text reported as not updated
    is the text that was read, and a record on which the pass ends with
    the flag down is the record as it was. The loop over the matches
    ends. *)
Theorem C5_untranslated_text_unchanged
    (cmd : command) (db : Database) (offset : GridOffset)
    (customCoordinates : gset (Z * Z)) (options : ProgramOptions) :
  cmd ∈ commands ->
  (forall scriptText st,
     occurs_icase (keyword_chars cmd) (list_ascii_of_string scriptText) = false ->
     matches_of cmd scriptText = [] /\
     rewrite_text cmd db offset customCoordinates options scriptText st =
       (Ok (scriptText, false), st)) /\
  (forall m destX destY emitted translated st1 st2,
     stod_list (sub_str m (cmd_x cmd)) = Ok destX ->
     stod_list (sub_str m (S (cmd_x cmd))) = Ok destY ->
     fst (isCoordinateValid db (cellOf destX) (cellOf destY)
            customCoordinates options) = false ->
     rewrite_match cmd db offset customCoordinates options m st1 =
       (Ok (emitted, translated), st2) ->
     emitted = m_str m /\ translated = false) /\
  (forall scriptText st text' updated st',
     rewrite_text cmd db offset customCoordinates options scriptText st =
       (Ok (text', updated), st') ->
     Forall (cell_not_valid cmd db customCoordinates options)
       (matches_of cmd scriptText) ->
     text' = scriptText /\ updated = false /\ same_marks st st') /\
  (forall record record' st st',
     processScript_record cmd db offset customCoordinates options record st =
       (Ok record', st') ->
     (forall scriptText, stored_text "text" record = Some scriptText ->
        Forall (cell_not_valid cmd db customCoordinates options)
          (matches_of cmd scriptText)) ->
     record' = record /\ same_marks st st') /\
  (forall record record' st st',
     processDialogue_record cmd db offset customCoordinates options record st =
       (Ok record', st') ->
     (forall scriptText, stored_text "script_text" record = Some scriptText ->
        Forall (cell_not_valid cmd db customCoordinates options)
          (matches_of cmd scriptText)) ->
     record' = record /\ same_marks st st') /\
  (forall scriptText st text' st',
     rewrite_text cmd db offset customCoordinates options scriptText st =
       (Ok (text', false), st') ->
     text' = scriptText) /\
  (forall record record' st st',
     processScript_record cmd db offset customCoordinates options record st =
       (Ok record', st') \/
     processDialogue_record cmd db offset customCoordinates options record st =
       (Ok record', st') ->
     replacementsFlag st' = 0 ->
     record' = record) /\
  (forall scriptText st st',
     rewrite_text cmd db offset customCoordinates options scriptText st <>
       (Throw out_of_fuel, st')).
Proof.
  intros Hcmd. repeat apply conj.
  - intros scriptText st H. split.
    + apply matches_of_no_keyword. exact H.
    + apply rewrite_text_no_keyword. exact H.
  - intros m destX destY emitted translated st1 st2 Hx Hy Hinv H.
    eapply rewrite_match_invalid; eassumption.
  - intros scriptText st text' updated st' H Hall.
    eapply rewrite_text_not_valid; eassumption.
  - intros record record' st st' H Hall.
    eapply processScript_record_not_valid; eassumption.
  - intros record record' st st' H Hall.
    eapply processDialogue_record_not_valid; eassumption.
  - intros scriptText st text' st' H.
    apply rewrite_text_untranslated in H as [H _]. exact H.
  - intros record record' st st' [H|H] Hflag.
    + apply processScript_record_flag_down in H as [H _]; assumption.
    + apply processDialogue_record_flag_down in H as [H _]; assumption.
  - intros scriptText st st'. apply rewrite_text_fuel. apply commands_keywords. exact Hcmd.
Qed.

Lemma cell_not_valid_empty cmd options m :
  cell_not_valid cmd (db_of_rows []) ∅ options m.
Proof.
  intros destX destY _ _.
  rewrite isCoordinateValid_prepared by reflexivity.
  destruct (adjustedGrid options (cellOf destX) (cellOf destY)) as [x y].
  cbn [fst]. apply orb_false_intro.
  - unfold db_of_rows, sqlite_step_is_row. cbn [db_step].
    rewrite bool_decide_eq_false_2 by (apply not_elem_of_nil). reflexivity.
  - apply bool_decide_eq_false. set_solver.
Qed.

Lemma C5_untranslated_text_unchanged_witness :
  AiEscort ∈ commands /\
  (forall record' st',
     processScript_record AiEscort (db_of_rows []) (getGridOffset 1) ∅ forward_options
       sample_escort_script (flagged fresh_state) = (Ok record', st') ->
     record' = sample_escort_script /\ same_marks (flagged fresh_state) st') /\
  rewrite_text AiEscort (db_of_rows [(0, 0)]) (getGridOffset 1) ∅ forward_options
    sample_plain (flagged fresh_state) = (Ok (sample_plain, false), flagged fresh_state).
Proof.
  assert (Hin : AiEscort ∈ commands) by (unfold commands; set_solver).
  split; [exact Hin|]. split.
  - intros record' st' Hrun.
    apply (C5_untranslated_text_unchanged AiEscort (db_of_rows [])
             (getGridOffset 1) ∅ forward_options Hin) in Hrun; [exact Hrun|].
    intros scriptText _. apply Forall_forall. intros m _.
    apply cell_not_valid_empty.
  - apply (C5_untranslated_text_unchanged AiEscort (db_of_rows [(0, 0)])
             (getGridOffset 1) ∅ forward_options Hin).
    vm_compute. reflexivity.
Defined.

(** ** The rewritten command *)





(** ** The batch loop *)

Lemma cerr_no_write_back lines : existsb is_write_back (map Cerr lines) = false.
Proof. induction lines as [|l ls IH]; [reflexivity | exact IH]. Qed.

Section NoReplacements.

Variable hasConversionTag : json -> string -> bool.
Variable addConversionTag : json -> string -> ProgramOptions -> option json.
Variable saveJsonToFile : string -> json -> bool.
Variable createBackup : string -> bool.
Variable convertJsonToEsp : string -> string -> bool.
Variable tes3conv : string -> string -> bool.
Variable read_json : string -> read_result.
Variables jsonImportPath_of jsonExportPath_of : string -> string.
Variable what : exn -> string.
Variable db : Database.
Variable customCoordinates : gset (Z * Z).
Variable options : ProgramOptions.

Let file_events :=
  process_file hasConversionTag addConversionTag saveJsonToFile createBackup
    convertJsonToEsp tes3conv read_json jsonImportPath_of jsonExportPath_of what
    db customCoordinates options.
Let batch_events :=
  main_loop hasConversionTag addConversionTag saveJsonToFile createBackup
    convertJsonToEsp tes3conv read_json jsonImportPath_of jsonExportPath_of what
    db customCoordinates options.

(** C8. When the passes end with the replacements flag at 0, what
    [main] does for the file is: run the external converter, delete the
    temporary file, log that no replacements were found and that the
    conversion is skipped (a line without the ERROR mark of the other
    skips). Nothing is saved, backed up or converted back, and the
    loop goes on with the next file. *)
Theorem C8_no_replacements_no_write_back
    (pluginImportPath : string) (rest : list string)
    (inputData inputData' : json) (masters : gset Z) (st : pass_state) :
  tes3conv pluginImportPath (jsonImportPath_of pluginImportPath) = true ->
  read_json (jsonImportPath_of pluginImportPath) = Parsed inputData ->
  hasConversionTag inputData pluginImportPath = false ->
  checkDependencyOrder inputData = Ok (true, masters) ->
  all_passes db customCoordinates options inputData
    (getGridOffset (conversionType options)) fresh_state = (Ok inputData', st) ->
  replacementsFlag st = 0 ->
  file_events pluginImportPath =
    [Log ("Processing file: " +:+ pluginImportPath);
     RunTes3conv pluginImportPath (jsonImportPath_of pluginImportPath)] ++
    (if silentMode options then []
     else [Log ("Conversion to .JSON successful: "
                  +:+ jsonImportPath_of pluginImportPath)]) ++
    map Cerr (cerr st) ++
    [Remove (jsonImportPath_of pluginImportPath);
     Log (("No replacements found for file: " +:+ pluginImportPath)
            +:+ " - conversion skipped...")] ++
    log_deleted options (jsonImportPath_of pluginImportPath) /\
  existsb is_write_back (file_events pluginImportPath) = false /\
  batch_events (pluginImportPath :: rest) =
    file_events pluginImportPath ++ batch_events rest.
Proof.
  intros Hconv Hread Htag Hdeps Hpasses Hflag.
  assert (Hev : file_events pluginImportPath =
    [Log ("Processing file: " +:+ pluginImportPath);
     RunTes3conv pluginImportPath (jsonImportPath_of pluginImportPath)] ++
    (if silentMode options then []
     else [Log ("Conversion to .JSON successful: "
                  +:+ jsonImportPath_of pluginImportPath)]) ++
    map Cerr (cerr st) ++
    [Remove (jsonImportPath_of pluginImportPath);
     Log (("No replacements found for file: " +:+ pluginImportPath)
            +:+ " - conversion skipped...")] ++
    log_deleted options (jsonImportPath_of pluginImportPath)).
  { unfold file_events, process_file. rewrite Hconv, Hread. simpl negb. cbv iota.
    unfold process_document. rewrite Htag, Hdeps. simpl negb. cbv iota.
    fold fresh_state. rewrite Hpasses, Hflag. simpl. reflexivity. }
  split; [exact Hev|]. split; [|reflexivity].
  rewrite Hev. rewrite !existsb_app.
  rewrite log_deleted_no_write_back.
  rewrite cerr_no_write_back. destruct (silentMode options); reflexivity.
Qed.

End NoReplacements.

Lemma C8_no_replacements_no_write_back_witness :
  sample_batch sample_document (db_of_rows [(10, 4)]) ∅ forward_options
    ["first.esp"; "second.esp"] =
  [Log "Processing file: first.esp";
   RunTes3conv "first.esp" "first.esp.json";
   Remove "first.esp.json";
   Log "No replacements found for file: first.esp - conversion skipped...";
   Log EmptyString] ++
  sample_batch sample_document (db_of_rows [(10, 4)]) ∅ forward_options
    ["second.esp"].
Proof.
  unfold sample_batch.
  destruct
    (C8_no_replacements_no_write_back (fun _ _ => false) (fun d _ _ => Some d)
       (fun _ _ => true) (fun _ => true) (fun _ _ => true) (fun _ _ => true)
       (fun _ => Parsed sample_document)
       (fun p => p +:+ ".json") (fun p => "TEMP_" +:+ p +:+ ".json")
       (fun _ => "exception") (db_of_rows [(10, 4)]) ∅ forward_options
       "first.esp" ["second.esp"] sample_document sample_document ∅ fresh_state
       eq_refl eq_refl eq_refl eq_refl eq_refl eq_refl)
    as (Hevents & _ & Hnext).
  rewrite Hnext, Hevents. reflexivity.
Defined.

(** ** Coordinate translation in binary64 *)

(** Values [z * 2^e] with [|z| < 2^53] are doubles, and on them the
    operations of the translation are exact. *)

Module DoubleFacts.
Import Double.

Lemma digits2_pos_log2 p : Zpos (digits2_pos p) = Z.log2 (Zpos p) + 1.
Proof.
  induction p as [p IH|p IH|]; cbn [digits2_pos].
  - rewrite Pos2Z.inj_succ, IH, (Pos2Z.inj_xI p).
    rewrite Z.log2_succ_double by lia. lia.
  - rewrite Pos2Z.inj_succ, IH, (Pos2Z.inj_xO p).
    rewrite Z.log2_double by lia. lia.
  - reflexivity.
Qed.

Lemma digits2_pos_bounds p :
  2 ^ (Zpos (digits2_pos p) - 1) <= Zpos p < 2 ^ Zpos (digits2_pos p).
Proof.
  rewrite digits2_pos_log2.
  replace (Z.log2 (Zpos p) + 1 - 1) with (Z.log2 (Zpos p)) by lia.
  pose proof (Z.log2_spec (Zpos p) ltac:(lia)) as H.
  replace (Z.succ (Z.log2 (Zpos p))) with (Z.log2 (Zpos p) + 1) in H by lia.
  exact H.
Qed.

(** The number of digits is fixed by the bounds. *)
Lemma digits2_pos_unique p d :
  2 ^ (d - 1) <= Zpos p < 2 ^ d -> Zpos (digits2_pos p) = d.
Proof.
  intros H. rewrite digits2_pos_log2.
  assert (0 < d).
  { destruct (Z.le_gt_cases d 0) as [Hd|Hd]; [|lia].
    assert (2 ^ d <= 2 ^ 0) by (apply Z.pow_le_mono_r; lia). simpl in *. lia. }
  assert (Z.log2 (Zpos p) = d - 1); [|lia].
  apply Z.log2_unique; [lia|]. replace (Z.succ (d - 1)) with d by lia. exact H.
Qed.

Lemma Zpos_iter_xO p k : Zpos (Pos.iter xO p k) = Zpos p * 2 ^ Zpos k.
Proof.
  revert p. induction k using Pos.peano_ind; intros p.
  - simpl. lia.
  - rewrite Pos.iter_succ. rewrite Pos2Z.inj_xO, IHk, Pos2Z.inj_succ.
    rewrite Z.pow_succ_r by lia. lia.
Qed.

Lemma digits2_mul_pow2 p t q :
  0 <= t -> Zpos q = Zpos p * 2 ^ t ->
  Zpos (digits2_pos q) = Zpos (digits2_pos p) + t.
Proof.
  intros Ht Hq. apply digits2_pos_unique.
  pose proof (digits2_pos_bounds p) as [Hlo Hhi].
  rewrite Hq. replace (Zpos (digits2_pos p) + t - 1) with (Zpos (digits2_pos p) - 1 + t) by lia.
  assert (0 < Zpos (digits2_pos p)) by lia.
  rewrite !Z.pow_add_r by lia.
  assert (0 < 2 ^ t) by (apply Z.pow_pos_nonneg; lia).
  split; nia.
Qed.

(** Shifting zeros out is exact. *)
Lemma shr_1_even m :
  shr_1 {| shr_m := 2 * Zpos m; shr_r := false; shr_s := false |} =
    {| shr_m := Zpos m; shr_r := false; shr_s := false |}.
Proof. reflexivity. Qed.

Lemma iter_pos_nat {A} (f : A -> A) p x :
  SpecFloat.iter_pos f p x = Nat.iter (Pos.to_nat p) f x.
Proof.
  revert x. induction p as [p IH|p IH|]; intros x; cbn [SpecFloat.iter_pos].
  - rewrite !IH, Pos2Nat.inj_xI.
    replace (S (2 * Pos.to_nat p)) with (Pos.to_nat p + (Pos.to_nat p + 1))%nat by lia.
    rewrite !Nat.iter_add. reflexivity.
  - rewrite !IH, Pos2Nat.inj_xO.
    replace (2 * Pos.to_nat p)%nat with (Pos.to_nat p + Pos.to_nat p)%nat by lia.
    rewrite Nat.iter_add. reflexivity.
  - reflexivity.
Qed.

Lemma iter_shr_1_exact (n : nat) : forall m,
  Nat.iter n shr_1 {| shr_m := Zpos m * 2 ^ Z.of_nat n; shr_r := false; shr_s := false |} =
    {| shr_m := Zpos m; shr_r := false; shr_s := false |}.
Proof.
  induction n as [|n IH]; intros m.
  - simpl. f_equal. lia.
  - rewrite Nat.iter_succ_r.
    replace (Zpos m * 2 ^ Z.of_nat (S n)) with (Zpos (xO m) * 2 ^ Z.of_nat n).
    2:{ rewrite Nat2Z.inj_succ, Z.pow_succ_r by lia. lia. }
    assert (Hpos : 0 < Zpos m * 2 ^ Z.of_nat n).
    { apply Z.mul_pos_pos; [lia | apply Z.pow_pos_nonneg; lia]. }
    destruct (Zpos m * 2 ^ Z.of_nat n) as [|q|q] eqn:Hq; try lia.
    replace (Zpos m~0 * 2 ^ Z.of_nat n) with (Zpos q~0).
    2:{ rewrite (Pos2Z.inj_xO q), <- Hq, (Pos2Z.inj_xO m). lia. }
    cbn [shr_1 orb]. rewrite <- Hq. apply IH.
Qed.

Lemma shr_exact m n e :
  0 <= n ->
  shr {| shr_m := Zpos m * 2 ^ n; shr_r := false; shr_s := false |} e n =
    ({| shr_m := Zpos m; shr_r := false; shr_s := false |}, e + n).
Proof.
  intros Hn. unfold shr. destruct n as [|p|p]; [|  |lia].
  - f_equal; [f_equal|]; lia.
  - rewrite iter_pos_nat.
    replace (Zpos p) with (Z.of_nat (Pos.to_nat p)) at 1 by lia.
    rewrite iter_shr_1_exact. reflexivity.
Qed.


Lemma Zdigits2_pos_mul m n :
  0 <= n -> Zdigits2 (Zpos m * 2 ^ n) = Zpos (digits2_pos m) + n.
Proof.
  intros Hn.
  assert (Hpos : 0 < Zpos m * 2 ^ n).
  { apply Z.mul_pos_pos; [lia | apply Z.pow_pos_nonneg; lia]. }
  destruct (Zpos m * 2 ^ n) as [|q|q] eqn:Hq; try lia.
  cbn [Zdigits2]. apply (digits2_mul_pow2 m n q Hn). symmetry. exact Hq.
Qed.

Lemma fexp_normal d e :
  -1074 <= d + e - 53 -> fexp prec emax (d + e) = d + e - 53.
Proof. intros H. unfold fexp, emin, prec, emax. lia. Qed.

Lemma binary_round_aux_exact s (M : positive) (n E : Z) :
  Zpos (digits2_pos M) = 53 -> 0 <= n -> -1074 <= E + n <= 971 ->
  binary_round_aux prec emax s (Zpos M * 2 ^ n) E loc_Exact = S754_finite s M (E + n).
Proof.
  intros Hd Hn Hrange. unfold binary_round_aux, shr_fexp.
  rewrite (Zdigits2_pos_mul M n Hn), Hd.
  rewrite (fexp_normal (53 + n) E) by lia.
  replace (53 + n + E - 53 - E) with n by lia.
  cbn [shr_record_of_loc]. rewrite (shr_exact M n E Hn).
  cbn [shr_m loc_of_shr_record round_nearest_even Zdigits2]. rewrite Hd.
  rewrite (fexp_normal 53 (E + n)) by lia.
  replace (53 + (E + n) - 53 - (E + n)) with 0 by lia.
  cbn [shr shr_record_of_loc shr_m].
  replace (E + n <=? emax - prec) with true; [reflexivity|].
  symmetry. apply Z.leb_le. unfold emax, prec. lia.
Qed.

Lemma val_cancel a ea b eb :
  -200 <= eb <= ea -> val a ea = val b eb -> a * 2 ^ (ea - eb) = b.
Proof.
  unfold val. intros H Hv.
  replace (ea + 200) with ((ea - eb) + (eb + 200)) in Hv by lia.
  rewrite Z.pow_add_r in Hv by lia.
  assert (0 < 2 ^ (eb + 200)) by (apply Z.pow_pos_nonneg; lia).
  nia.
Qed.

Lemma binary_round_canon s (m : positive) (e : Z) (M : positive) (E : Z) :
  Zpos (digits2_pos M) = 53 ->
  -200 <= e -> -200 <= E <= 971 ->
  val (Zpos m) e = val (Zpos M) E ->
  binary_round prec emax s m e = S754_finite s M E.
Proof.
  intros Hd He HE Hv. unfold binary_round.
  destruct (Z.le_gt_cases E e) as [Hle|Hgt].
  - (* the mantissa is short: it is shifted left *)
    pose proof (val_cancel _ _ _ _ (conj (proj1 HE) Hle) Hv) as Hm.
    assert (Hdm : Zpos (digits2_pos m) = 53 - (e - E)).
    { pose proof (digits2_mul_pow2 m (e - E) M ltac:(lia) (eq_sym Hm)). lia. }
    rewrite Hdm, (fexp_normal (53 - (e - E)) e) by lia.
    replace (53 - (e - E) + e - 53) with E by lia.
    unfold shl_align.
    destruct (E - e) as [|p|p] eqn:Hp; try lia.
    + assert (E = e) by lia. subst E. rewrite Z.sub_diag, Z.mul_1_r in Hm.
      injection Hm as ->.
      replace (Zpos M) with (Zpos M * 2 ^ 0) by lia.
      rewrite binary_round_aux_exact by lia. f_equal. lia.
    + assert (Hmz : Pos.iter xO m p = M).
      { apply Pos2Z.inj. rewrite Zpos_iter_xO, <- Hm. f_equal. f_equal. lia. }
      rewrite Hmz.
      replace (Zpos M) with (Zpos M * 2 ^ 0) by lia.
      rewrite binary_round_aux_exact by lia. f_equal. lia.
  - (* the mantissa is long: its trailing zeros are shifted out *)
    symmetry in Hv.
    pose proof (val_cancel _ _ _ _ (conj He (Z.lt_le_incl _ _ Hgt)) Hv) as Hm.
    assert (Hdm : Zpos (digits2_pos m) = 53 + (E - e)).
    { pose proof (digits2_mul_pow2 M (E - e) m ltac:(lia) (eq_sym Hm)). lia. }
    rewrite Hdm, (fexp_normal (53 + (E - e)) e) by lia.
    replace (53 + (E - e) + e - 53) with E by lia.
    unfold shl_align.
    destruct (E - e) as [|p|p] eqn:Hp; try lia.
    rewrite <- Hm, <- Hp.
    rewrite binary_round_aux_exact by lia. f_equal. lia.
Qed.



Lemma normal_exists (m : positive) (e : Z) :
  Zpos m < 2 ^ 53 -> -140 <= e <= 900 ->
  exists M E, normal M E /\ E <= e /\ val (Zpos M) E = val (Zpos m) e.
Proof.
  intros Hm He.
  pose proof (digits2_pos_bounds m) as [Hlo Hhi].
  set (d := Zpos (digits2_pos m)) in *.
  assert (Hd : 1 <= d <= 53).
  { split; [unfold d; lia|].
    destruct (Z.le_gt_cases d 53) as [H|H]; [exact H|].
    assert (2 ^ 53 <= 2 ^ (d - 1)) by (apply Z.pow_le_mono_r; lia). lia. }
  assert (Hpos : 0 < Zpos m * 2 ^ (53 - d)).
  { apply Z.mul_pos_pos; [lia | apply Z.pow_pos_nonneg; lia]. }
  destruct (Zpos m * 2 ^ (53 - d)) as [|M|M] eqn:HM; try lia.
  exists M, (e - (53 - d)). split; [split|split].
  - pose proof (digits2_mul_pow2 m (53 - d) M ltac:(lia) (eq_sym HM)). fold d in H. lia.
  - lia.
  - lia.
  - unfold val. rewrite <- HM.
    replace (e + 200) with ((53 - d) + (e - (53 - d) + 200)) by lia.
    rewrite (Z.pow_add_r 2 (53 - d)) by lia. lia.
Qed.

Lemma binary_normalize_pos s (m : positive) e szero :
  binary_normalize prec emax (cond_Zopp s (Zpos m)) e szero =
    binary_round prec emax s m e.
Proof. destruct s; reflexivity. Qed.

Lemma Z_sign_split (z : Z) :
  z = 0 \/ exists m, z = cond_Zopp (z <? 0) (Zpos m) /\ Z.abs z = Zpos m.
Proof.
  destruct z as [|p|p]; [left; reflexivity | right; exists p | right; exists p];
    split; reflexivity.
Qed.

Lemma val_opp z e : val (- z) e = - val z e.
Proof. unfold val. lia. Qed.

Lemma val_add a b e : val (a + b) e = val a e + val b e.
Proof. unfold val. lia. Qed.

Lemma val_zero_iff z e : -200 <= e -> (val z e = 0 <-> z = 0).
Proof.
  intros He. unfold val.
  assert (0 < 2 ^ (e + 200)) by (apply Z.pow_pos_nonneg; lia). nia.
Qed.

Lemma val_neg_iff z e : -200 <= e -> (val z e <? 0) = (z <? 0).
Proof.
  intros He. unfold val.
  assert (0 < 2 ^ (e + 200)) by (apply Z.pow_pos_nonneg; lia).
  destruct (z <? 0) eqn:E; [apply Z.ltb_lt in E; apply Z.ltb_lt | apply Z.ltb_ge in E; apply Z.ltb_ge]; nia.
Qed.

Lemma val_abs z e : -200 <= e -> val (Z.abs z) e = Z.abs (val z e).
Proof.
  intros He. unfold val.
  assert (0 < 2 ^ (e + 200)) by (apply Z.pow_pos_nonneg; lia).
  rewrite Z.abs_mul. rewrite (Z.abs_eq (2 ^ _)) by lia. reflexivity.
Qed.

(** A non-zero value with a normal form is that double. *)
Lemma dbl_normal z e M E :
  normal M E -> -200 <= e ->
  val (Z.abs z) e = val (Zpos M) E ->
  dbl z e = S754_finite (z <? 0) M E.
Proof.
  intros [Hd HE] He Hv. unfold dbl.
  destruct (Z_sign_split z) as [->|(m & Hz & Habs)].
  - exfalso. simpl in Hv. unfold val in Hv.
    assert (0 < 2 ^ (E + 200)) by (apply Z.pow_pos_nonneg; lia). lia.
  - rewrite Hz at 1. rewrite binary_normalize_pos.
    apply binary_round_canon; try assumption. rewrite <- Habs. exact Hv.
Qed.

(** Doubles of the same value are the same double. *)
Lemma dbl_val z1 e1 z2 e2 :
  Z.abs z2 < 2 ^ 53 -> -200 <= e1 -> -140 <= e2 <= 900 ->
  val z1 e1 = val z2 e2 ->
  dbl z1 e1 = dbl z2 e2.
Proof.
  intros Hz2 He1 He2 Hv.
  destruct (Z_sign_split z2) as [->|(m & Hz & Habs)].
  - assert (z1 = 0) as ->; [|reflexivity].
    apply (val_zero_iff z1 e1 He1). rewrite Hv. unfold val. lia.
  - destruct (normal_exists m e2) as (M & E & Hn & HE & HM); [lia | lia |].
    rewrite <- Habs in HM.
    rewrite (dbl_normal z2 e2 M E Hn ltac:(lia) (eq_sym HM)).
    rewrite (dbl_normal z1 e1 M E Hn He1).
    + f_equal. rewrite <- (val_neg_iff z1 e1 He1), Hv. apply val_neg_iff. lia.
    + rewrite HM, !val_abs by lia. f_equal. exact Hv.
Qed.

Lemma dbl_zero e : dbl 0 e = S754_zero false.
Proof. reflexivity. Qed.

(** The normal form of a non-zero double. *)
Lemma dbl_finite z e :
  z <> 0 -> Z.abs z < 2 ^ 53 -> -140 <= e <= 900 ->
  exists M E, normal M E /\ E <= e /\ val (Zpos M) E = val (Z.abs z) e /\
              dbl z e = S754_finite (z <? 0) M E.
Proof.
  intros Hz Hlt He.
  destruct (Z_sign_split z) as [->|(m & Hzm & Habs)]; [contradiction|].
  destruct (normal_exists m e) as (M & E & Hn & HE & HM); [lia | lia |].
  exists M, E. rewrite Habs. repeat split; try apply Hn; try assumption.
  apply dbl_normal; [exact Hn | lia | rewrite Habs; symmetry; exact HM].
Qed.

Lemma val_cond_Zopp s z e : val (cond_Zopp s z) e = cond_Zopp s (val z e).
Proof. destruct s; simpl; [apply val_opp | reflexivity]. Qed.

Lemma cond_Zopp_abs z : cond_Zopp (z <? 0) (Z.abs z) = z.
Proof. destruct z; reflexivity. Qed.

Lemma shl_align_val m e e' :
  -200 <= e' <= e -> val (Zpos (fst (shl_align m e e'))) e' = val (Zpos m) e.
Proof.
  intros Hle. unfold shl_align.
  destruct (e' - e) as [|p|p] eqn:Hp; simpl; try lia.
  - replace e' with e by lia. reflexivity.
  - rewrite Zpos_iter_xO. unfold val.
    replace (e + 200) with (Zpos p + (e' + 200)) by lia.
    rewrite (Z.pow_add_r 2 (Zpos p)) by lia. ring.
Qed.

(** The value of a signed normal form. *)
Lemma val_signed z e M E :
  val (Zpos M) E = val (Z.abs z) e ->
  val (cond_Zopp (z <? 0) (Zpos M)) E = val z e.
Proof.
  intros Hv. rewrite val_cond_Zopp, Hv, <- val_cond_Zopp, cond_Zopp_abs.
  reflexivity.
Qed.

Lemma dbl_opp z e :
  Z.abs z < 2 ^ 53 -> -140 <= e <= 900 ->
  dbl (- z) e = match dbl z e with
                | S754_finite s m x => S754_finite (negb s) m x
                | other => other
                end.
Proof.
  intros Hz He. destruct (Z.eq_dec z 0) as [->|Hne]; [reflexivity|].
  destruct (dbl_finite z e Hne Hz He) as (M & E & Hn & HE & Hv & ->).
  rewrite (dbl_normal (- z) e M E Hn ltac:(lia)).
  - f_equal. destruct z; try reflexivity. contradiction.
  - rewrite Z.abs_opp. symmetry. exact Hv.
Qed.

Lemma dbl_add a b e :
  Z.abs a < 2 ^ 53 -> Z.abs b < 2 ^ 53 -> Z.abs (a + b) < 2 ^ 53 ->
  -140 <= e <= 900 ->
  add (dbl a e) (dbl b e) = dbl (a + b) e.
Proof.
  intros Ha Hb Hab He.
  destruct (Z.eq_dec a 0) as [->|Hane].
  { rewrite dbl_zero, Z.add_0_l.
    destruct (Z.eq_dec b 0) as [->|Hbne]; [reflexivity|].
    destruct (dbl_finite b e Hbne Hb He) as (M & E & _ & _ & _ & ->). reflexivity. }
  destruct (Z.eq_dec b 0) as [->|Hbne].
  { rewrite dbl_zero, Z.add_0_r.
    destruct (dbl_finite a e Hane Ha He) as (M & E & _ & _ & _ & ->). reflexivity. }
  destruct (dbl_finite a e Hane Ha He) as (Ma & Ea & [_ Hna] & HEa & Hva & ->).
  destruct (dbl_finite b e Hbne Hb He) as (Mb & Eb & [_ Hnb] & HEb & Hvb & ->).
  unfold add, SFadd.
  apply dbl_val; [exact Hab | lia | exact He |].
  rewrite val_add, !val_cond_Zopp, !shl_align_val by lia.
  rewrite <- !val_cond_Zopp, (val_signed a e), (val_signed b e) by assumption.
  symmetry. apply val_add.
Qed.

Lemma dbl_sub a b e :
  Z.abs a < 2 ^ 53 -> Z.abs b < 2 ^ 53 -> Z.abs (a - b) < 2 ^ 53 ->
  -140 <= e <= 900 ->
  sub (dbl a e) (dbl b e) = dbl (a - b) e.
Proof.
  intros Ha Hb Hab He.
  destruct (Z.eq_dec b 0) as [->|Hbne].
  { rewrite dbl_zero, Z.sub_0_r.
    destruct (Z.eq_dec a 0) as [->|Hane]; [reflexivity|].
    destruct (dbl_finite a e Hane Ha He) as (M & E & _ & _ & _ & ->). reflexivity. }
  destruct (Z.eq_dec a 0) as [->|Hane].
  { rewrite dbl_zero, Z.sub_0_l, dbl_opp by assumption.
    destruct (dbl_finite b e Hbne Hb He) as (M & E & _ & _ & _ & ->). reflexivity. }
  destruct (dbl_finite a e Hane Ha He) as (Ma & Ea & [_ Hna] & HEa & Hva & ->).
  destruct (dbl_finite b e Hbne Hb He) as (Mb & Eb & [_ Hnb] & HEb & Hvb & ->).
  unfold sub, SFsub.
  apply dbl_val; [exact Hab | lia | exact He |].
  unfold Z.sub at 1.
  rewrite val_add, val_opp, !val_cond_Zopp, !shl_align_val by lia.
  rewrite <- !val_cond_Zopp, (val_signed a e), (val_signed b e) by assumption.
  unfold Z.sub. rewrite val_add, val_opp. reflexivity.
Qed.

Lemma CELL_SIZE_normal : CELL_SIZE = S754_finite false 4503599627370496 (-39).
Proof. vm_compute. reflexivity. Qed.

Lemma val_shift z e t : -200 <= e -> 0 <= t -> val z (e + t) = val z e * 2 ^ t.
Proof.
  intros He Ht. unfold val.
  replace (e + t + 200) with (e + 200 + t) by lia.
  rewrite Z.pow_add_r by lia. ring.
Qed.

Lemma dbl_mul_CELL_SIZE a :
  Z.abs (a * 8192) < 2 ^ 53 ->
  mul (dbl a 0) CELL_SIZE = dbl (a * 8192) 0.
Proof.
  intros Ha. rewrite CELL_SIZE_normal.
  destruct (Z.eq_dec a 0) as [->|Hne]; [reflexivity|].
  destruct (dbl_finite a 0 Hne ltac:(lia) ltac:(lia))
    as (M & E & [Hd HE] & HE0 & Hv & ->).
  unfold mul, SFmul. rewrite xorb_false_r.
  change (Zpos (M * 4503599627370496)) with (Zpos M * 2 ^ 52).
  rewrite binary_round_aux_exact by lia.
  symmetry.
  replace (E + -39 + 52) with (E + 13) by lia.
  rewrite (dbl_normal (a * 8192) 0 M (E + 13)).
  - f_equal. destruct a; reflexivity.
  - split; [exact Hd | lia].
  - lia.
  - rewrite val_shift, Hv by lia. unfold val. rewrite Z.abs_mul.
    change (Z.abs 8192) with (2 ^ 13). ring.
Qed.

Lemma dbl_div_CELL_SIZE a e :
  Z.abs a < 2 ^ 53 -> -100 <= e <= 900 ->
  div (dbl a e) CELL_SIZE = dbl a (e - 13).
Proof.
  intros Ha He. rewrite CELL_SIZE_normal.
  destruct (Z.eq_dec a 0) as [->|Hne]; [reflexivity|].
  destruct (dbl_finite a e Hne Ha ltac:(lia))
    as (M & E & [Hd HE] & HE0 & Hv & ->).
  assert (HEr : -152 <= E).
  { (* the normal form of a value below 2^53 shifts by at most 52 places *)
    destruct (Z.le_gt_cases (-152) E) as [H|H]; [exact H|exfalso].
    pose proof (digits2_pos_bounds M) as [_ Hhi]. rewrite Hd in Hhi.
    symmetry in Hv.
    pose proof (val_cancel _ _ _ _ (conj (proj1 HE) HE0) Hv) as Hm.
    assert (2 ^ 53 <= 2 ^ (e - E)) by (apply Z.pow_le_mono_r; lia).
    assert (1 <= Z.abs a) by lia. nia. }
  unfold div, SFdiv, SFdiv_core_binary.
  rewrite xorb_false_r.
  change (Zdigits2 (Zpos M)) with (Zpos (digits2_pos M)). rewrite Hd.
  change (Zdigits2 4503599627370496) with 53.
  replace (53 + E - (53 + -39)) with (E + 39) by lia.
  assert (Hfexp : fexp prec emax (E + 39) = E - 14).
  { unfold fexp, emin, prec, emax. lia. }
  rewrite Hfexp.
  replace (Z.min (E - 14) (E - -39)) with (E - 14) by lia.
  replace (E - -39 - (E - 14)) with 53 by lia.
  cbv beta iota zeta.
  rewrite Z.shiftl_mul_pow2 by lia.
  assert (Hq : Z.div_eucl (Zpos M * 2 ^ 53) 4503599627370496 = (Zpos M * 2 ^ 1, 0)).
  { pose proof (Z.div_eucl_eq (Zpos M * 2 ^ 53) 4503599627370496 ltac:(lia)) as Heq.
    pose proof (Z.mod_pos_bound (Zpos M * 2 ^ 53) 4503599627370496 ltac:(lia)) as Hb.
    unfold Z.modulo in Hb.
    destruct (Z.div_eucl (Zpos M * 2 ^ 53) 4503599627370496) as [q r].
    change (2 ^ 53) with (2 * 4503599627370496) in Heq.
    change (2 ^ 1) with 2.
    assert (q = Zpos M * 2) by nia. subst q. f_equal. lia. }
  rewrite Hq. cbv beta iota.
  change (new_location 4503599627370496 0) with loc_Exact.
  rewrite binary_round_aux_exact by lia.
  symmetry.
  replace (E - 14 + 1) with (E - 13) by lia.
  apply dbl_normal.
  - split; [exact Hd | lia].
  - lia.
  - replace e with ((e - 13) + 13) in Hv by lia.
    replace E with ((E - 13) + 13) in Hv by lia.
    rewrite !val_shift in Hv by lia. 
    assert (0 < 2 ^ 13) by lia. nia.
Qed.

(** The normal form of [z * 2^e] is [z] shifted left. *)
Lemma normal_mantissa z e M E :
  -200 <= E <= e -> val (Zpos M) E = val (Z.abs z) e ->
  cond_Zopp (z <? 0) (Zpos M) = z * 2 ^ (e - E).
Proof.
  intros HE Hv. symmetry in Hv.
  pose proof (val_cancel _ _ _ _ HE Hv) as Hm. rewrite <- Hm.
  destruct z; simpl; lia.
Qed.

Lemma dbl_floor a e :
  Z.abs a < 2 ^ 53 -> -100 <= e <= 0 ->
  floor (dbl a e) = dbl (a / 2 ^ (- e)) 0.
Proof.
  intros Ha He.
  destruct (Z.eq_dec a 0) as [->|Hne].
  { rewrite Z.div_0_l by (apply Z.pow_nonzero; lia). reflexivity. }
  destruct (dbl_finite a e Hne Ha ltac:(lia))
    as (M & E & [Hd HE] & HE0 & Hv & ->).
  unfold floor.
  rewrite (normal_mantissa a e M E) by (try assumption; lia).
  assert (Hq : Z.shiftl (a * 2 ^ (e - E)) E = a / 2 ^ (- e)).
  { rewrite <- (Z.opp_involutive E) at 2.
    rewrite Z.shiftl_opp_r by lia. rewrite Z.shiftr_div_pow2 by lia.
    replace (- E) with (- e + (e - E)) by lia.
    rewrite Z.pow_add_r by lia.
    apply Z.div_mul_cancel_r; apply Z.pow_nonzero; lia. }
  rewrite Hq.
  assert (Hpow : 0 < 2 ^ (- e)) by (apply Z.pow_pos_nonneg; lia).
  destruct (a / 2 ^ (- e)) as [|q|q] eqn:Hdiv; try reflexivity.
  simpl. 
  assert (0 <= a); [|destruct a; try reflexivity; lia].
  pose proof (Z.mul_div_le a (2 ^ (- e)) Hpow).
  pose proof (Z.mod_pos_bound a (2 ^ (- e)) Hpow).
  pose proof (Z.div_mod a (2 ^ (- e)) ltac:(lia)). rewrite Hdiv in *. lia.
Qed.

Lemma dbl_to_int q :
  Int32.min_int <= q <= Int32.max_int ->
  to_int (dbl q 0) = q.
Proof.
  intros Hq. unfold Int32.min_int, Int32.max_int in Hq.
  destruct (Z.eq_dec q 0) as [->|Hne]; [reflexivity|].
  destruct (dbl_finite q 0 Hne ltac:(lia) ltac:(lia))
    as (M & E & [Hd HE] & HE0 & Hv & ->).
  unfold to_int, trunc_Z.
  assert (Hm : Z.shiftl (Zpos M) E = Z.abs q).
  { symmetry in Hv.
    pose proof (val_cancel _ _ _ _ (conj (proj1 HE) HE0) Hv) as Hm.
    rewrite <- (Z.opp_involutive E) at 1.
    rewrite Z.shiftl_opp_r, Z.shiftr_div_pow2 by lia.
    rewrite <- Hm. replace (0 - E) with (- E) by lia.
    apply Z.div_mul. apply Z.pow_nonzero; lia. }
  rewrite Hm, cond_Zopp_abs.
  unfold Int32.min_int, Int32.max_int.
  replace (_ <=? q) with true by (symmetry; apply Z.leb_le; lia).
  replace (q <=? _) with true by (symmetry; apply Z.leb_le; lia).
  reflexivity.
Qed.

End DoubleFacts.

Import DoubleFacts.

Lemma pow2_cell K :
  0 <= K <= 20 ->
  2 ^ (31 + K) = 2 ^ 18 * 2 ^ (13 + K) /\ 2 ^ (32 + K) = 2 ^ 19 * 2 ^ (13 + K) /\
  0 < 2 ^ (13 + K) <= 2 ^ 33.
Proof.
  intros HK.
  replace (31 + K) with (18 + (13 + K)) by lia.
  replace (32 + K) with (19 + (13 + K)) by lia.
  rewrite !Z.pow_add_r by lia. repeat split.
  - apply Z.mul_pos_pos; [lia | apply Z.pow_pos_nonneg; lia].
  - rewrite <- Z.pow_add_r by lia. apply Z.pow_le_mono_r; lia.
Qed.

Lemma cellOf_dbl n K :
  0 <= K <= 20 -> Z.abs n < 2 ^ (32 + K) ->
  cellOf (dbl n (- K)) = n / 2 ^ (13 + K).
Proof.
  intros HK Hn. destruct (pow2_cell K HK) as (_ & H32 & HP).
  set (P := 2 ^ (13 + K)) in *.
  assert (Hc : - 2 ^ 19 <= n / P < 2 ^ 19).
  { split.
    - apply Z.div_le_lower_bound; lia.
    - apply Z.div_lt_upper_bound; lia. }
  unfold cellOf.
  rewrite dbl_div_CELL_SIZE by lia.
  rewrite dbl_floor by lia.
  replace (- (- K - 13)) with (13 + K) by lia. fold P.
  apply dbl_to_int. unfold Int32.min_int, Int32.max_int. lia.
Qed.

Lemma val_cells c K :
  0 <= K <= 20 -> val (c * 8192) 0 = val (c * 2 ^ (13 + K)) (- K).
Proof.
  intros HK. unfold val.
  rewrite <- !Z.mul_assoc, <- Z.pow_add_r by lia.
  replace (13 + K + (- K + 200)) with (13 + (0 + 200)) by lia.
  rewrite (Z.pow_add_r 2 13) by lia. reflexivity.
Qed.

Lemma cells_dbl c K :
  0 <= K <= 20 -> Z.abs c <= 2 ^ 19 ->
  Double.mul (Double.of_Z c) CELL_SIZE = dbl (c * 2 ^ (13 + K)) (- K).
Proof.
  intros HK Hc. destruct (pow2_cell K HK) as (_ & _ & HP).
  unfold Double.of_Z. fold (dbl c 0).
  rewrite dbl_mul_CELL_SIZE by lia.
  apply dbl_val; [nia | lia | lia | apply val_cells; exact HK].
Qed.

Lemma remainder_dbl n K c :
  0 <= K <= 20 -> Z.abs n < 2 ^ (32 + K) -> Z.abs c <= 2 ^ 19 ->
  remainder (dbl n (- K)) c = dbl (n - c * 2 ^ (13 + K)) (- K).
Proof.
  intros HK Hn Hc. destruct (pow2_cell K HK) as (_ & H32 & HP).
  unfold remainder. rewrite (cells_dbl c K) by assumption.
  apply dbl_sub; try lia; nia.
Qed.

Lemma translateCoord_dbl n K c o :
  0 <= K <= 20 -> Z.abs n < 2 ^ (32 + K) ->
  Z.abs c <= 2 ^ 19 -> Z.abs (c + o) <= 2 ^ 19 ->
  Z.abs (n - c * 2 ^ (13 + K)) <= 2 ^ (13 + K) ->
  translateCoord (dbl n (- K)) c o = dbl (n + o * 2 ^ (13 + K)) (- K).
Proof.
  intros HK Hn Hc Hco Hr. destruct (pow2_cell K HK) as (_ & H32 & HP).
  unfold translateCoord.
  rewrite Int32Facts.add_exact by (unfold Int32.in_range, Int32.min_int, Int32.max_int; lia).
  fold (remainder (dbl n (- K)) c).
  rewrite remainder_dbl, (cells_dbl (c + o) K) by assumption.
  rewrite dbl_add; try lia; try nia.
  f_equal. ring.
Qed.

Lemma cell_bounds n K :
  0 <= K <= 20 -> Z.abs n < 2 ^ (31 + K) ->
  - 2 ^ 18 <= n / 2 ^ (13 + K) < 2 ^ 18 /\
  0 <= n - n / 2 ^ (13 + K) * 2 ^ (13 + K) < 2 ^ (13 + K).
Proof.
  intros HK Hn. destruct (pow2_cell K HK) as (H31 & _ & HP).
  set (P := 2 ^ (13 + K)) in *.
  pose proof (Z.div_mod n P ltac:(lia)).
  pose proof (Z.mod_pos_bound n P ltac:(lia)).
  repeat split; try lia.
  - apply Z.div_le_lower_bound; lia.
  - apply Z.div_lt_upper_bound; lia.
Qed.

(** On a coordinate with at most twenty binary places and magnitude
    below [2^31], [x = n / 2^K], and an offset of fewer than [2^18]
    cells, every step of the translation is exact in binary64. *)
Lemma round_trip_dyadic (n K o : Z) :
  0 <= K <= 20 -> Z.abs n < 2 ^ (31 + K) -> Z.abs o < 2 ^ 18 ->
  let x := dbl n (- K) in
  let x' := translateCoord x (cellOf x) o in
  cellOf x = n / 2 ^ (13 + K) /\
  cellOf x' = cellOf x + o /\
  remainder x' (cellOf x') = remainder x (cellOf x) /\
  round_trip x o = x /\
  cellOf (round_trip x o) = cellOf x.
Proof.
  intros HK Hn Ho x x'.
  destruct (pow2_cell K HK) as (H31 & H32 & HP).
  destruct (cell_bounds n K HK Hn) as (Hc & Hr).
  set (P := 2 ^ (13 + K)) in *.
  assert (Hx : cellOf x = n / P) by (apply cellOf_dbl; lia).
  assert (Hx' : x' = dbl (n + o * P) (- K)).
  { unfold x'. rewrite Hx. apply translateCoord_dbl; fold P; lia. }
  assert (Hn' : Z.abs (n + o * P) < 2 ^ (32 + K)) by nia.
  assert (Hc' : cellOf x' = n / P + o).
  { rewrite Hx', cellOf_dbl by assumption. fold P. apply Z.div_add. lia. }
  assert (Hback : round_trip x o = x).
  { unfold round_trip. fold x'. rewrite Hc', Hx'.
    rewrite translateCoord_dbl; fold P; try lia.
    unfold x. f_equal. ring. }
  repeat split.
  - exact Hx.
  - rewrite Hc', Hx. reflexivity.
  - rewrite Hc', Hx, Hx'. unfold x.
    rewrite !remainder_dbl by lia. fold P. f_equal. ring.
  - exact Hback.
  - rewrite Hback. reflexivity.
Qed.

(** ** Rounding in binary64 *)

Module Rounding.
Import Double.

(** *** Shifting right *)

Lemma shr_1_m mrs : 0 <= shr_m mrs -> shr_m (shr_1 mrs) = shr_m mrs / 2.
Proof.
  destruct mrs as [m r s]. cbn [shr_m]. intros Hm.
  destruct m as [|[p|p|]|p]; cbn [shr_1 shr_m].
  - reflexivity.
  - apply Z.div_unique with 1; lia.
  - apply Z.div_unique with 0; lia.
  - reflexivity.
  - lia.
Qed.

Lemma shr_iter_m (n : nat) mrs :
  0 <= shr_m mrs -> shr_m (Nat.iter n shr_1 mrs) = shr_m mrs / 2 ^ Z.of_nat n.
Proof.
  intros Hm. induction n as [|n IH].
  - simpl. rewrite Z.div_1_r. reflexivity.
  - change (Nat.iter (S n) shr_1 mrs) with (shr_1 (Nat.iter n shr_1 mrs)).
    rewrite shr_1_m.
    + rewrite IH, Nat2Z.inj_succ, Z.pow_succ_r by lia.
      rewrite Z.div_div by lia. f_equal. lia.
    + rewrite IH. apply Z.div_pos; lia.
Qed.

(** The mantissa and the exponent after [shr]. *)
Lemma shr_m_e mrs e n :
  0 <= shr_m mrs ->
  shr_m (fst (shr mrs e n)) = shr_m mrs / 2 ^ Z.max 0 n /\
  snd (shr mrs e n) = e + Z.max 0 n.
Proof.
  intros Hm. unfold shr. destruct n as [|p|p]; cbn [fst snd].
  - rewrite Z.div_1_r. lia.
  - rewrite iter_pos_nat, shr_iter_m by assumption.
    rewrite positive_nat_Z. replace (Z.max 0 (Zpos p)) with (Zpos p) by lia. lia.
  - replace (Z.max 0 (Zneg p)) with 0 by lia. rewrite Z.div_1_r. lia.
Qed.

Lemma round_nearest_even_cases q l :
  (round_nearest_even q l = q \/ round_nearest_even q l = q + 1) /\
  (l = loc_Exact -> round_nearest_even q l = q).
Proof.
  destruct l as [|[| |]]; cbn [round_nearest_even].
  - auto.
  - destruct (Z.even q); split; auto; discriminate.
  - split; [auto | discriminate].
  - split; [auto | discriminate].
Qed.

(** *** Digits *)

Lemma Zdigits2_bounds z :
  0 < z -> 2 ^ (Zdigits2 z - 1) <= z < 2 ^ Zdigits2 z.
Proof.
  destruct z as [|p|p]; try lia. intros _. apply digits2_pos_bounds.
Qed.

Lemma Zdigits2_unique z d :
  0 < z -> 2 ^ (d - 1) <= z < 2 ^ d -> Zdigits2 z = d.
Proof.
  destruct z as [|p|p]; try lia. intros _. apply digits2_pos_unique.
Qed.

Lemma Zdigits2_nonneg z : 0 <= Zdigits2 z.
Proof. destruct z; simpl; lia. Qed.

Lemma Zdigits2_le z d : 0 <= z < 2 ^ d -> 0 <= d -> Zdigits2 z <= d.
Proof.
  intros [Hz Hlt] Hd. destruct (Z.eq_dec z 0) as [->|Hne]; [simpl; lia|].
  pose proof (Zdigits2_bounds z ltac:(lia)) as [Hlo _].
  destruct (Z.le_gt_cases (Zdigits2 z) d) as [H|H]; [exact H|].
  assert (2 ^ d <= 2 ^ (Zdigits2 z - 1)) by (apply Z.pow_le_mono_r; lia). lia.
Qed.


(** *** The rounding of a mantissa *)

Lemma fexp_eq e : fexp prec emax e = Z.max (e - 53) (-1074).
Proof. reflexivity. Qed.

Lemma shr_nonpos mrs e n : n <= 0 -> shr mrs e n = (mrs, e).
Proof. destruct n; try reflexivity. lia. Qed.

Lemma shr_record_of_loc_m m l : shr_m (shr_record_of_loc m l) = m.
Proof. destruct l as [|[| |]]; reflexivity. Qed.

Lemma iter_shr_1_zero (n : nat) :
  Nat.iter n shr_1 {| shr_m := 0; shr_r := false; shr_s := false |} =
    {| shr_m := 0; shr_r := false; shr_s := false |}.
Proof. induction n as [|n IH]; [reflexivity|]. simpl. rewrite IH. reflexivity. Qed.

(** Shifting zeros out is exact. *)
Lemma shr_exact_gen q n e :
  0 <= q -> 0 <= n ->
  shr {| shr_m := q * 2 ^ n; shr_r := false; shr_s := false |} e n =
    ({| shr_m := q; shr_r := false; shr_s := false |}, e + n).
Proof.
  intros Hq Hn. destruct q as [|q|q]; [|apply shr_exact; exact Hn|lia].
  rewrite Z.mul_0_l. unfold shr. destruct n as [|p|p]; [|  |lia].
  - f_equal. lia.
  - rewrite iter_pos_nat, iter_shr_1_zero. reflexivity.
Qed.

(** The second shift of [binary_round_aux] moves at most one place, and
    keeps the value. *)
Lemma shr_fexp_second m1 e' :
  0 <= m1 <= 2 ^ 53 -> -1074 <= e' ->
  exists M2 e2,
    shr_fexp prec emax m1 e' loc_Exact =
      ({| shr_m := M2; shr_r := false; shr_s := false |}, e2) /\
    (m1 < 2 ^ 53 -> M2 = m1 /\ e2 = e') /\
    (m1 = 2 ^ 53 -> M2 = 2 ^ 52 /\ e2 = e' + 1).
Proof.
  intros Hm He. unfold shr_fexp. cbn [shr_record_of_loc].
  destruct (Z.eq_dec m1 (2 ^ 53)) as [->|Hne].
  - change (Zdigits2 (2 ^ 53)) with 54. rewrite fexp_eq.
    replace (Z.max (54 + e' - 53) (-1074) - e') with 1 by lia.
    eexists _, _. split; [reflexivity|]. split; [lia|]. intros _. split; reflexivity.
  - assert (Hd : Zdigits2 m1 <= 53) by (apply Zdigits2_le; lia).
    rewrite fexp_eq, shr_nonpos by lia.
    eexists _, _. split; [reflexivity|]. split; [auto | lia].
Qed.

Lemma cond_Zopp_mul s a b : cond_Zopp s a * b = cond_Zopp s (a * b).
Proof. destruct s; simpl; lia. Qed.

(** What [binary_round_aux] returns for a mantissa [mx] at the exponent
    [ex]: with [k] the number of places the format takes away, the
    mantissa [mx / 2^k] or the next one, at the exponent [ex + k]. *)
Lemma binary_round_aux_value s mx ex lx :
  0 <= mx -> Zdigits2 mx + ex <= 900 -> ex <= 900 ->
  let f := fexp prec emax (Zdigits2 mx + ex) in
  let k := Z.max 0 (f - ex) in
  let r := binary_round_aux prec emax s mx ex lx in
  exists m1,
    (m1 = mx / 2 ^ k \/ m1 = mx / 2 ^ k + 1) /\
    (lx = loc_Exact -> mx mod 2 ^ k = 0 -> m1 = mx / 2 ^ k) /\
    is_finite r = true /\
    scaled r = cond_Zopp s m1 * 2 ^ (ex + k + 1100) /\
    (r = S754_zero s \/ exists m e, r = S754_finite s m e) /\
    (ex <= f -> valid_binary prec emax r = true).
Proof.
  intros Hmx Hd Hex f k r.
  pose proof (Zdigits2_nonneg mx) as Hd0.
  assert (Hf : f = Z.max (Zdigits2 mx + ex - 53) (-1074)) by reflexivity.
  assert (Hk0 : 0 <= k) by lia.
  assert (Hpk : 0 < 2 ^ k) by (apply Z.pow_pos_nonneg; lia).
  set (q := mx / 2 ^ k).
  assert (Hq : 0 <= q < 2 ^ 53).
  { split; [apply Z.div_pos; lia|].
    apply Z.div_lt_upper_bound; [lia|].
    destruct (Z.eq_dec mx 0) as [->|Hne]; [lia|].
    pose proof (Zdigits2_bounds mx ltac:(lia)) as [_ Hhi].
    rewrite <- Z.pow_add_r by lia.
    eapply Z.lt_le_trans; [exact Hhi|]. apply Z.pow_le_mono_r; lia. }
  (* the first shift *)
  destruct (shr_m_e (shr_record_of_loc mx lx) ex (f - ex)) as [Hm1 He1].
  { rewrite shr_record_of_loc_m. exact Hmx. }
  rewrite shr_record_of_loc_m in Hm1. fold k in Hm1, He1. fold q in Hm1.
  assert (Hexact : lx = loc_Exact -> mx mod 2 ^ k = 0 ->
                   loc_of_shr_record
                     (fst (shr (shr_record_of_loc mx lx) ex (f - ex))) = loc_Exact).
  { intros -> Hmod. cbn [shr_record_of_loc].
    destruct (Z.le_gt_cases (f - ex) 0) as [Hle|Hgt].
    - rewrite shr_nonpos by exact Hle. reflexivity.
    - assert (Hkk : k = f - ex) by lia.
      assert (Hmq : mx = q * 2 ^ (f - ex)).
      { rewrite <- Hkk. pose proof (Z.div_mod mx (2 ^ k) ltac:(lia)). unfold q. lia. }
      rewrite Hmq at 1. rewrite shr_exact_gen by lia. reflexivity. }
  unfold r, binary_round_aux, shr_fexp. fold f.
  destruct (shr (shr_record_of_loc mx lx) ex (f - ex)) as [mrs' e'] eqn:Eshr.
  cbn [fst snd] in Hm1, He1, Hexact.
  set (m1 := round_nearest_even (shr_m mrs') (loc_of_shr_record mrs')).
  destruct (round_nearest_even_cases (shr_m mrs') (loc_of_shr_record mrs'))
    as [Hcases Hex1].
  fold m1 in Hcases, Hex1. rewrite Hm1 in Hcases.
  assert (Hm1b : 0 <= m1 <= 2 ^ 53) by (destruct Hcases as [-> | ->]; lia).
  assert (He' : -1074 <= e') by lia.
  destruct (shr_fexp_second m1 e' Hm1b He') as (M2 & e2 & Hsecond & Hlt & Heq).
  unfold shr_fexp in Hsecond. rewrite Hsecond. cbn [shr_m].
  assert (Hval : M2 * 2 ^ (e2 + 1100) = m1 * 2 ^ (e' + 1100) /\ 0 <= M2 /\
                 e' <= e2 <= e' + 1).
  { destruct (Z.eq_dec m1 (2 ^ 53)) as [E|Hne].
    - destruct (Heq E) as [-> ->]. rewrite E.
      replace (e' + 1 + 1100) with (1 + (e' + 1100)) by lia.
      rewrite Z.pow_add_r by lia. lia.
    - destruct (Hlt ltac:(lia)) as [-> ->]. lia. }
  destruct Hval as (Hval & HM2 & He2).
  exists m1. split; [exact Hcases|]. split.
  { intros Hl Hmod. unfold m1. rewrite (Hexact Hl Hmod). cbn [round_nearest_even].
    exact Hm1. }
  assert (Hscaled : forall m, M2 = Zpos m ->
            cond_Zopp s (Zpos m) * 2 ^ (e2 + 1100) =
            cond_Zopp s m1 * 2 ^ (ex + k + 1100)).
  { intros m Hm. rewrite !cond_Zopp_mul, <- Hm, Hval, He1. reflexivity. }
  destruct M2 as [|m|m]; [| |lia].
  - (* zero *)
    assert (m1 = 0).
    { assert (0 < 2 ^ (e' + 1100)) by (apply Z.pow_pos_nonneg; lia). nia. }
    subst m1. split; [reflexivity|]. split.
    + cbn [scaled]. rewrite H. destruct s; reflexivity.
    + split; [left; reflexivity | reflexivity].
  - assert (Hle : (e2 <=? emax - prec) = true).
    { apply Z.leb_le. unfold emax, prec. lia. }
    rewrite Hle. split; [reflexivity|]. split; [exact (Hscaled m eq_refl)|].
    split; [right; eauto|].
    intros Hexf. cbn [valid_binary]. unfold bounded. rewrite Hle, andb_true_r.
    unfold canonical_mantissa. apply Z.eqb_eq. rewrite fexp_eq.
    assert (Hkf : k = f - ex) by lia.
    assert (He'f : e' = f) by lia.
    destruct (Z.eq_dec m1 (2 ^ 53)) as [E|Hne].
    + destruct (Heq E) as [HM ->]. injection HM as ->. change (Zpos (digits2_pos _)) with 53.
      lia.
    + destruct (Hlt ltac:(lia)) as [HM ->].
      change (Zpos (digits2_pos m)) with (Zdigits2 (Zpos m)). rewrite HM.
      assert (Hm1pos : 0 < m1) by lia.
      assert (HD : Zdigits2 m1 <= 53) by (apply Zdigits2_le; lia).
      destruct (Z.le_gt_cases (Zdigits2 mx + ex - 53) (-1074)) as [Hsub|Hnorm].
      * lia.
      * (* the normal range: the mantissa has 53 digits *)
        assert (Hk53 : k = Zdigits2 mx - 53) by lia.
        assert (Hmxpos : 0 < mx).
        { destruct (Z.eq_dec mx 0) as [E0|]; [|lia]. rewrite E0 in *. simpl in *. lia. }
        pose proof (Zdigits2_bounds mx Hmxpos) as [Hlo _].
        assert (Hq52 : 2 ^ 52 <= q).
        { unfold q. apply Z.div_le_lower_bound; [lia|].
          rewrite <- Z.pow_add_r by lia.
          replace (k + 52) with (Zdigits2 mx - 1) by lia. exact Hlo. }
        assert (Zdigits2 m1 = 53).
        { apply Zdigits2_unique; [lia|]. change (2 ^ (53 - 1)) with (2 ^ 52).
          destruct Hcases as [-> | ->]; lia. }
        lia.
Qed.


(** *** The rounding of a value *)

Lemma pow_digits_le z e :
  0 < z -> -1100 <= e -> z * 2 ^ (e + 1100) < 2 ^ 1900 -> Zdigits2 z + e <= 800.
Proof.
  intros Hz He Hv.
  pose proof (Zdigits2_bounds z Hz) as [Hlo _].
  pose proof (Zdigits2_nonneg z).
  destruct (Z.le_gt_cases (Zdigits2 z + e) 800) as [H1|H1]; [exact H1|exfalso].
  assert (H2 : 2 ^ 1900 <= 2 ^ (Zdigits2 z - 1 + (e + 1100)))
    by (apply Z.pow_le_mono_r; lia).
  assert (0 < Zdigits2 z).
  { destruct z; simpl in *; lia. }
  rewrite Z.pow_add_r in H2 by lia.
  assert (0 < 2 ^ (e + 1100)) by (apply Z.pow_pos_nonneg; lia).
  nia.
Qed.

(** [binary_round]: the result is a binary64 number whose value differs
    from [m * 2^e] by at most the unit of the format at that value, and
    not at all if the mantissa has at most 53 digits and the exponent
    is in range. *)
Lemma binary_round_value s m e :
  -1100 <= e <= 900 -> Zpos m * 2 ^ (e + 1100) < 2 ^ 1900 ->
  let f := fexp prec emax (Zpos (digits2_pos m) + e) in
  let r := binary_round prec emax s m e in
  exists V,
    binary64 r /\ scaled r = cond_Zopp s V /\ 0 <= V /\
    (r = S754_zero s \/ exists m' e', r = S754_finite s m' e') /\
    Z.abs (V - Zpos m * 2 ^ (e + 1100)) <= 2 ^ (f + 1100) /\
    (f <= e -> V = Zpos m * 2 ^ (e + 1100)).
Proof.
  intros He Hv f r.
  pose proof (pow_digits_le (Zpos m) e ltac:(lia) ltac:(lia) Hv) as Hd.
  change (Zdigits2 (Zpos m)) with (Zpos (digits2_pos m)) in Hd.
  assert (Hf : f = Z.max (Zpos (digits2_pos m) + e - 53) (-1074)) by reflexivity.
  unfold r, binary_round. fold f. unfold shl_align.
  destruct (f - e) as [|p|p] eqn:Hfe.
  - (* aligned already *)
    destruct (binary_round_aux_value s (Zpos m) e loc_Exact ltac:(lia) ltac:(simpl; lia)
                ltac:(lia)) as (m1 & _ & Hex & Hfin & Hsc & Hshape & Hvalid).
    change (Zdigits2 (Zpos m)) with (Zpos (digits2_pos m)) in *. fold f in Hex, Hsc, Hvalid.
    replace (Z.max 0 (f - e)) with 0 in * by lia.
    rewrite Z.div_1_r in Hex. specialize (Hex eq_refl (Z.mod_1_r _)). subst m1.
    rewrite Z.add_0_r in Hsc.
    exists (Zpos m * 2 ^ (e + 1100)).
    split; [split; [exact Hfin | apply Hvalid; lia]|].
    split; [rewrite Hsc; apply cond_Zopp_mul|].
    split; [lia|]. split; [exact Hshape|].
    split; [|reflexivity].
    rewrite Z.sub_diag. simpl Z.abs. apply Z.pow_nonneg. lia.
  - (* the format takes places away *)
    destruct (binary_round_aux_value s (Zpos m) e loc_Exact ltac:(lia) ltac:(simpl; lia)
                ltac:(lia)) as (m1 & Hcases & _ & Hfin & Hsc & Hshape & Hvalid).
    change (Zdigits2 (Zpos m)) with (Zpos (digits2_pos m)) in *. fold f in Hcases, Hsc, Hvalid.
    replace (Z.max 0 (f - e)) with (Zpos p) in * by lia.
    assert (Hp : 0 < 2 ^ Zpos p) by (apply Z.pow_pos_nonneg; lia).
    pose proof (Z.div_mod (Zpos m) (2 ^ Zpos p) ltac:(lia)) as Hdm.
    pose proof (Z.mod_pos_bound (Zpos m) (2 ^ Zpos p) Hp) as Hmod.
    assert (Hq0 : 0 <= Zpos m / 2 ^ Zpos p) by (apply Z.div_pos; lia).
    exists (m1 * 2 ^ (e + Zpos p + 1100)).
    split; [split; [exact Hfin | apply Hvalid; lia]|].
    split; [rewrite Hsc; apply cond_Zopp_mul|].
    assert (Hpe : 0 < 2 ^ (e + 1100)) by (apply Z.pow_pos_nonneg; lia).
    replace (e + Zpos p + 1100) with (Zpos p + (e + 1100)) by lia.
    rewrite Z.pow_add_r by lia.
    replace (f + 1100) with (Zpos p + (e + 1100)) by lia.
    rewrite (Z.pow_add_r 2 (Zpos p)) by lia.
    split; [destruct Hcases as [-> | ->]; nia|].
    split; [exact Hshape|].
    split; [|lia].
    destruct Hcases as [-> | ->]; nia.
  - (* the mantissa is shifted left first *)
    assert (Hmz : Zpos (Pos.iter xO m p) = Zpos m * 2 ^ Zpos p) by apply Zpos_iter_xO.
    assert (Hdz : Zdigits2 (Zpos (Pos.iter xO m p)) = Zpos (digits2_pos m) + Zpos p).
    { cbn [Zdigits2]. apply (digits2_mul_pow2 m (Zpos p)); [lia | exact Hmz]. }
    cbn [fst snd].
    destruct (binary_round_aux_value s (Zpos (Pos.iter xO m p)) f loc_Exact
                ltac:(lia) ltac:(rewrite Hdz; lia) ltac:(lia))
      as (m1 & _ & Hex & Hfin & Hsc & Hshape & Hvalid).
    rewrite Hdz in Hex, Hsc, Hvalid.
    replace (Zpos (digits2_pos m) + Zpos p + f) with (Zpos (digits2_pos m) + e) in * by lia.
    fold f in Hex, Hsc, Hvalid.
    replace (Z.max 0 (f - f)) with 0 in * by lia.
    rewrite Z.div_1_r in Hex. specialize (Hex eq_refl (Z.mod_1_r _)). subst m1.
    rewrite Z.add_0_r in Hsc.
    assert (Hsame : Zpos (Pos.iter xO m p) * 2 ^ (f + 1100) = Zpos m * 2 ^ (e + 1100)).
    { rewrite Hmz. replace (e + 1100) with (Zpos p + (f + 1100)) by lia.
      rewrite (Z.pow_add_r 2 (Zpos p)) by lia. ring. }
    exists (Zpos m * 2 ^ (e + 1100)).
    split; [split; [exact Hfin | apply Hvalid; lia]|].
    split; [rewrite Hsc, cond_Zopp_mul, Hsame; reflexivity|].
    split; [lia|]. split; [exact Hshape|].
    split; [|reflexivity].
    rewrite Z.sub_diag. simpl Z.abs. apply Z.pow_nonneg. lia.
Qed.

(** The unit of the format is at most [2^-52] of the value, or the
    smallest positive number. *)
Lemma unit_bound m e :
  -1100 <= e ->
  2 ^ (fexp prec emax (Zpos (digits2_pos m) + e) + 1100) * 2 ^ 52 <=
    Zpos m * 2 ^ (e + 1100) + 2 ^ 78.
Proof.
  intros He. rewrite fexp_eq.
  pose proof (digits2_pos_bounds m) as [Hlo _].
  assert (Hpe : 0 < 2 ^ (e + 1100)) by (apply Z.pow_pos_nonneg; lia).
  destruct (Z.le_gt_cases (Zpos (digits2_pos m) + e - 53) (-1074)) as [H|H].
  - replace (Z.max _ _) with (-1074) by lia.
    change (2 ^ (-1074 + 1100) * 2 ^ 52) with (2 ^ 78). nia.
  - replace (Z.max _ _) with (Zpos (digits2_pos m) + e - 53) by lia.
    rewrite <- Z.pow_add_r by lia.
    replace (Zpos (digits2_pos m) + e - 53 + 1100 + 52)
      with ((Zpos (digits2_pos m) - 1) + (e + 1100)) by lia.
    rewrite Z.pow_add_r by lia. nia.
Qed.

(** [binary_normalize]: the value of the result is the value given, up
    to one part in [2^52] of it, or the smallest positive number. *)
Lemma normalize_error z e szero :
  -1100 <= e <= 900 -> Z.abs z * 2 ^ (e + 1100) < 2 ^ 1900 ->
  let r := binary_normalize prec emax z e szero in
  binary64 r /\
  Z.abs (scaled r - z * 2 ^ (e + 1100)) * 2 ^ 52 <=
    Z.abs z * 2 ^ (e + 1100) + 2 ^ 78 /\
  (Z.abs z < 2 ^ 53 -> -1074 <= e -> scaled r = z * 2 ^ (e + 1100)).
Proof.
  intros He Hv r. unfold r.
  assert (Hpe : 0 < 2 ^ (e + 1100)) by (apply Z.pow_pos_nonneg; lia).
  destruct z as [|m|m]; cbn [binary_normalize].
  - split; [split; reflexivity|]. split; [simpl; lia | reflexivity].
  - destruct (binary_round_value false m e He Hv) as (V & Hb & Hs & HV & _ & Herr & Hex).
    cbn [cond_Zopp] in Hs. rewrite Hs.
    pose proof (unit_bound m e ltac:(lia)) as Hu.
    split; [exact Hb|]. split.
    + replace (Z.abs (Zpos m)) with (Zpos m) by lia. nia.
    + intros Hz He'. apply Hex. rewrite fexp_eq.
      assert (Zpos (digits2_pos m) <= 53).
      { change (Zpos (digits2_pos m)) with (Zdigits2 (Zpos m)).
        apply Zdigits2_le; lia. }
      lia.
  - destruct (binary_round_value true m e He Hv) as (V & Hb & Hs & HV & _ & Herr & Hex).
    cbn [cond_Zopp] in Hs. rewrite Hs.
    pose proof (unit_bound m e ltac:(lia)) as Hu.
    split; [exact Hb|]. split.
    + replace (Z.abs (Zneg m)) with (Zpos m) by lia.
      replace (- V - Zneg m * 2 ^ (e + 1100)) with (- (V - Zpos m * 2 ^ (e + 1100))) by lia.
      rewrite Z.abs_opp. nia.
    + intros Hz He'. rewrite Hex; [lia|]. rewrite fexp_eq.
      assert (Zpos (digits2_pos m) <= 53).
      { change (Zpos (digits2_pos m)) with (Zdigits2 (Zpos m)).
        apply Zdigits2_le; lia. }
      lia.
Qed.


(** *** Sums and differences *)

Lemma valid_finite s m e :
  valid_binary prec emax (S754_finite s m e) = true ->
  -1074 <= e <= 971 /\ Zpos (digits2_pos m) <= 53 /\
  (-1074 < e -> Zpos (digits2_pos m) = 53).
Proof.
  cbn [valid_binary]. unfold bounded, canonical_mantissa. intros H.
  apply andb_prop in H as [Hc He]. apply Z.eqb_eq in Hc. apply Z.leb_le in He.
  rewrite fexp_eq in Hc. unfold emax, prec in He. lia.
Qed.

Lemma shl_align_scaled m e ez :
  -1100 <= ez <= e ->
  Zpos (fst (shl_align m e ez)) * 2 ^ (ez + 1100) = Zpos m * 2 ^ (e + 1100).
Proof.
  intros Hle. unfold shl_align.
  destruct (ez - e) as [|p|p] eqn:Hp; cbn [fst]; try lia.
  - replace ez with e by lia. reflexivity.
  - rewrite Zpos_iter_xO.
    replace (e + 1100) with (Zpos p + (ez + 1100)) by lia.
    rewrite (Z.pow_add_r 2 (Zpos p)) by lia. ring.
Qed.

Lemma scaled_finite s m e :
  scaled (S754_finite s m e) = cond_Zopp s (Zpos m * 2 ^ (e + 1100)).
Proof. cbn [scaled]. apply cond_Zopp_mul. Qed.

Lemma scaled_exponent s m e :
  -1100 <= e -> Z.abs (scaled (S754_finite s m e)) < 2 ^ 1890 -> e < 790.
Proof.
  intros He H. rewrite scaled_finite in H.
  assert (Hpe : 0 < 2 ^ (e + 1100)) by (apply Z.pow_pos_nonneg; lia).
  assert (Hx : 2 ^ (e + 1100) < 2 ^ 1890) by (destruct s; simpl in H; nia).
  destruct (Z.lt_ge_cases e 790) as [Hlt|Hge]; [exact Hlt|exfalso].
  assert (2 ^ 1890 <= 2 ^ (e + 1100)) by (apply Z.pow_le_mono_r; lia). lia.
Qed.

Lemma add_error x y :
  binary64 x -> binary64 y ->
  Z.abs (scaled x) < 2 ^ 1890 -> Z.abs (scaled y) < 2 ^ 1890 ->
  binary64 (add x y) /\
  Z.abs (scaled (add x y) - (scaled x + scaled y)) * 2 ^ 52 <=
    Z.abs (scaled x + scaled y) + 2 ^ 78.
Proof.
  intros [Hfx Hvx] [Hfy Hvy] Hbx Hby.
  destruct x as [sx|sx| |sx mx ex]; try discriminate;
    destruct y as [sy|sy| |sy my ey]; try discriminate.
  - unfold add, SFadd. destruct sx, sy; (split; [split; reflexivity | simpl; lia]).
  - unfold add, SFadd. split; [split; assumption|].
    replace (scaled (S754_zero sx)) with 0 by reflexivity.
    rewrite Z.add_0_l, Z.sub_diag. simpl Z.abs. lia.
  - unfold add, SFadd. split; [split; assumption|].
    replace (scaled (S754_zero sy)) with 0 by reflexivity.
    rewrite Z.add_0_r, Z.sub_diag. simpl Z.abs. lia.
  - destruct (valid_finite _ _ _ Hvx) as (Hex & _).
    destruct (valid_finite _ _ _ Hvy) as (Hey & _).
    pose proof (scaled_exponent sx mx ex ltac:(lia) Hbx) as Hex'.
    pose proof (scaled_exponent sy my ey ltac:(lia) Hby) as Hey'.
    unfold add, SFadd. cbv zeta.
    set (ez := Z.min ex ey).
    set (z := cond_Zopp sx (Zpos (fst (shl_align mx ex ez))) +
              cond_Zopp sy (Zpos (fst (shl_align my ey ez)))).
    assert (Hz : z * 2 ^ (ez + 1100) =
                 scaled (S754_finite sx mx ex) + scaled (S754_finite sy my ey)).
    { unfold z. rewrite Z.mul_add_distr_r, !cond_Zopp_mul.
      rewrite !shl_align_scaled by (unfold ez; lia).
      rewrite !scaled_finite. reflexivity. }
    assert (Hpe : 0 < 2 ^ (ez + 1100)) by (apply Z.pow_pos_nonneg; unfold ez; lia).
    assert (Habs : Z.abs z * 2 ^ (ez + 1100) =
                   Z.abs (scaled (S754_finite sx mx ex) + scaled (S754_finite sy my ey))).
    { rewrite <- Hz, Z.abs_mul. rewrite (Z.abs_eq (2 ^ _)) by lia. reflexivity. }
    destruct (normalize_error z ez false) as (Hb & Herr & _).
    { unfold ez. lia. }
    { rewrite Habs. change (2 ^ 1900) with (2 ^ 1890 * 1024). lia. }
    split; [exact Hb|]. rewrite <- Hz. rewrite Habs, Hz in Herr. rewrite Hz. exact Herr.
Qed.

Lemma sub_error x y :
  binary64 x -> binary64 y ->
  Z.abs (scaled x) < 2 ^ 1890 -> Z.abs (scaled y) < 2 ^ 1890 ->
  binary64 (sub x y) /\
  Z.abs (scaled (sub x y) - (scaled x - scaled y)) * 2 ^ 52 <=
    Z.abs (scaled x - scaled y) + 2 ^ 78.
Proof.
  intros [Hfx Hvx] [Hfy Hvy] Hbx Hby.
  destruct x as [sx|sx| |sx mx ex]; try discriminate;
    destruct y as [sy|sy| |sy my ey]; try discriminate.
  - unfold sub, SFsub. destruct sx, sy; (split; [split; reflexivity | simpl; lia]).
  - unfold sub, SFsub. split; [split; [reflexivity | exact Hvy]|].
    replace (scaled (S754_zero sx)) with 0 by reflexivity.
    rewrite !scaled_finite.
    replace (cond_Zopp (negb sy) (Zpos my * 2 ^ (ey + 1100)) -
             (0 - cond_Zopp sy (Zpos my * 2 ^ (ey + 1100)))) with 0
      by (destruct sy; simpl; lia).
    simpl Z.abs at 1. lia.
  - unfold sub, SFsub. split; [split; assumption|].
    replace (scaled (S754_zero sy)) with 0 by reflexivity.
    rewrite Z.sub_0_r, Z.sub_diag. simpl Z.abs. lia.
  - destruct (valid_finite _ _ _ Hvx) as (Hex & _).
    destruct (valid_finite _ _ _ Hvy) as (Hey & _).
    pose proof (scaled_exponent sx mx ex ltac:(lia) Hbx) as Hex'.
    pose proof (scaled_exponent sy my ey ltac:(lia) Hby) as Hey'.
    unfold sub, SFsub. cbv zeta.
    set (ez := Z.min ex ey).
    set (z := cond_Zopp sx (Zpos (fst (shl_align mx ex ez))) -
              cond_Zopp sy (Zpos (fst (shl_align my ey ez)))).
    assert (Hz : z * 2 ^ (ez + 1100) =
                 scaled (S754_finite sx mx ex) - scaled (S754_finite sy my ey)).
    { unfold z. rewrite Z.mul_sub_distr_r, !cond_Zopp_mul.
      rewrite !shl_align_scaled by (unfold ez; lia).
      rewrite !scaled_finite. reflexivity. }
    assert (Hpe : 0 < 2 ^ (ez + 1100)) by (apply Z.pow_pos_nonneg; unfold ez; lia).
    assert (Habs : Z.abs z * 2 ^ (ez + 1100) =
                   Z.abs (scaled (S754_finite sx mx ex) - scaled (S754_finite sy my ey))).
    { rewrite <- Hz, Z.abs_mul. rewrite (Z.abs_eq (2 ^ _)) by lia. reflexivity. }
    destruct (normalize_error z ez false) as (Hb & Herr & _).
    { unfold ez. lia. }
    { rewrite Habs. change (2 ^ 1900) with (2 ^ 1890 * 1024). lia. }
    split; [exact Hb|]. rewrite <- Hz. rewrite Habs, Hz in Herr. rewrite Hz. exact Herr.
Qed.


(** *** The cell of a coordinate *)

Lemma grid_value a :
  Z.abs a < 2 ^ 39 ->
  binary64 (mul (of_Z a) CELL_SIZE) /\ scaled (mul (of_Z a) CELL_SIZE) = a * CELL.
Proof.
  intros Ha. change (of_Z a) with (dbl a 0).
  rewrite dbl_mul_CELL_SIZE by lia. unfold dbl.
  destruct (normalize_error (a * 8192) 0 false) as (Hb & _ & Hex).
  - lia.
  - change (2 ^ (0 + 1100)) with (2 ^ 1100).
    change (2 ^ 1900) with (2 ^ 800 * 2 ^ 1100).
    apply Z.mul_lt_mono_pos_r; lia.
  - split; [exact Hb|]. rewrite Hex by lia. unfold CELL.
    change (2 ^ (0 + 1100)) with (2 ^ 1100). ring.
Qed.

Lemma shiftl_scaled z e :
  -1100 <= e -> Z.shiftl z e = (z * 2 ^ (e + 1100)) / 2 ^ 1100.
Proof.
  intros He. destruct (Z.le_gt_cases 0 e) as [Hpos|Hneg].
  - rewrite Z.shiftl_mul_pow2 by lia.
    rewrite Z.pow_add_r by lia. rewrite Z.mul_assoc.
    symmetry. apply Z.div_mul. lia.
  - rewrite <- (Z.opp_involutive e) at 1.
    rewrite Z.shiftl_opp_r, Z.shiftr_div_pow2 by lia.
    replace (2 ^ 1100) with (2 ^ (- e) * 2 ^ (e + 1100)).
    2:{ rewrite <- Z.pow_add_r by lia. f_equal. lia. }
    symmetry. apply Z.div_mul_cancel_r; apply Z.pow_nonzero; lia.
Qed.

(** [static_cast<int>(std::floor(y))] is the whole part of [y],
    rounded down. *)
Lemma floor_to_int y :
  binary64 y -> Z.abs (scaled y) < 2 ^ 31 * ONE ->
  to_int (floor y) = scaled y / ONE.
Proof.
  intros [Hf Hv] Hb. unfold ONE in *.
  destruct y as [sy|sy| |sy my ey]; try discriminate.
  - reflexivity.
  - destruct (valid_finite _ _ _ Hv) as (He & _).
    unfold floor. rewrite shiftl_scaled by lia.
    cbn [scaled] in Hb |- *.
    set (c0 := (cond_Zopp sy (Zpos my) * 2 ^ (ey + 1100)) / 2 ^ 1100).
    assert (Hc0 : Int32.min_int <= c0 <= Int32.max_int).
    { unfold Int32.min_int, Int32.max_int, c0.
      rewrite cond_Zopp_mul in Hb. rewrite cond_Zopp_mul.
      split.
      - apply Z.div_le_lower_bound; lia.
      - assert (cond_Zopp sy (Zpos my * 2 ^ (ey + 1100)) / 2 ^ 1100 < 2 ^ 31); [|lia].
        apply Z.div_lt_upper_bound; lia. }
    destruct (Z.eq_dec c0 0) as [E|Hne].
    + rewrite E. reflexivity.
    + replace (binary_normalize prec emax c0 0 sy) with (dbl c0 0)
        by (unfold dbl; destruct c0; try reflexivity; contradiction).
      apply dbl_to_int. exact Hc0.
Qed.


Lemma div_eucl_div a b : Z.div_eucl a b = (a / b, a mod b).
Proof. unfold Z.div, Z.modulo. destruct (Z.div_eucl a b); reflexivity. Qed.

(** Dividing by the cell size is exact, except on numbers so small
    that the quotient leaves the normal range. *)
Lemma div_CELL_SIZE_value x :
  binary64 x -> Z.abs (scaled x) < 2 ^ 1890 ->
  let q := div x CELL_SIZE in
  binary64 q /\
  (scaled q * 8192 = scaled x \/
   Z.abs (scaled x) < 2 ^ 93 /\ Z.abs (scaled q) <= 2 ^ 80 /\
   (0 <= scaled x -> 0 <= scaled q) /\ (scaled x <= 0 -> scaled q <= 0)).
Proof.
  intros [Hf Hv] Hbound q. unfold q. rewrite CELL_SIZE_normal.
  destruct x as [sx|sx| |sx M E]; try discriminate.
  - split; [split; reflexivity|]. left. reflexivity.
  - destruct (valid_finite _ _ _ Hv) as (HE & HD & _).
    pose proof (scaled_exponent sx M E ltac:(lia) Hbound) as HE'.
    pose proof (digits2_pos_bounds M) as [HMlo HMhi].
    set (D := Zpos (digits2_pos M)) in *.
    assert (HD1 : 1 <= D) by (unfold D; lia).
    unfold div, SFdiv, SFdiv_core_binary. rewrite xorb_false_r.
    change (Zdigits2 (Zpos M)) with D.
    change (Zdigits2 4503599627370496) with 53.
    assert (He' : Z.min (fexp prec emax (D + E - (53 + -39))) (E - -39) =
                  Z.max (D + E - 67) (-1074)) by (rewrite fexp_eq; lia).
    rewrite He'. cbv zeta.
    destruct (Z.le_gt_cases (-1074) (D + E - 67)) as [HA|HB].
    + (* the quotient is in the normal range *)
      replace (Z.max (D + E - 67) (-1074)) with (D + E - 67) by lia.
      replace (E - -39 - (D + E - 67)) with (106 - D) by lia.
      destruct (106 - D) as [|p|p] eqn:Hp; try lia.
      rewrite <- Hp. rewrite Z.shiftl_mul_pow2 by lia.
      assert (Hsplit : Zpos M * 2 ^ (106 - D) = Zpos M * 2 ^ (54 - D) * 2 ^ 52).
      { rewrite <- Z.mul_assoc, <- Z.pow_add_r by lia. do 2 f_equal. lia. }
      rewrite div_eucl_div, Hsplit.
      change 4503599627370496 with (2 ^ 52).
      rewrite Z.div_mul, Z.mod_mul by lia.
      change (new_location (2 ^ 52) 0) with loc_Exact.
      assert (Hq : Zdigits2 (Zpos M * 2 ^ (54 - D)) = 54).
      { rewrite Zdigits2_pos_mul by lia. fold D. lia. }
      assert (Hqpos : 0 < Zpos M * 2 ^ (54 - D)).
      { apply Z.mul_pos_pos; [lia | apply Z.pow_pos_nonneg; lia]. }
      destruct (binary_round_aux_value sx (Zpos M * 2 ^ (54 - D)) (D + E - 67) loc_Exact
                  ltac:(lia) ltac:(rewrite Hq; lia) ltac:(lia))
        as (m1 & _ & Hex & Hfin & Hsc & _ & Hvalid).
      rewrite Hq in Hex, Hsc, Hvalid. rewrite fexp_eq in Hex, Hsc, Hvalid.
      replace (Z.max 0 (Z.max (54 + (D + E - 67) - 53) (-1074) - (D + E - 67)))
        with 1 in * by lia.
      assert (Hhalf : Zpos M * 2 ^ (54 - D) = Zpos M * 2 ^ (53 - D) * 2 ^ 1).
      { rewrite <- Z.mul_assoc, <- Z.pow_add_r by lia. do 2 f_equal. lia. }
      rewrite Hhalf in Hex. rewrite Z.div_mul, Z.mod_mul in Hex by lia.
      specialize (Hex eq_refl eq_refl). subst m1.
      split; [split; [exact Hfin | apply Hvalid; lia]|].
      left. rewrite Hsc, scaled_finite, !cond_Zopp_mul. f_equal.
      change 8192 with (2 ^ 13).
      rewrite <- !Z.mul_assoc, <- !Z.pow_add_r by lia. do 2 f_equal. lia.
    + (* the quotient is below the normal range *)
      replace (Z.max (D + E - 67) (-1074)) with (-1074) by lia.
      replace (E - -39 - -1074) with (E + 1113) by lia.
      destruct (E + 1113) as [|p|p] eqn:Hp; try lia.
      rewrite <- Hp. rewrite Z.shiftl_mul_pow2 by lia.
      rewrite div_eucl_div.
      change 4503599627370496 with (2 ^ 52).
      set (q0 := Zpos M * 2 ^ (E + 1113) / 2 ^ 52).
      set (l0 := new_location (2 ^ 52) ((Zpos M * 2 ^ (E + 1113)) mod 2 ^ 52)).
      assert (Hq0 : 0 <= q0 < 2 ^ 53).
      { split.
        - apply Z.div_pos; [|lia].
          apply Z.mul_nonneg_nonneg; [lia | apply Z.pow_nonneg; lia].
        - apply Z.div_lt_upper_bound; [lia|].
          assert (2 ^ D * 2 ^ (E + 1113) <= 2 ^ 52 * 2 ^ 53).
          { rewrite <- !Z.pow_add_r by lia. apply Z.pow_le_mono_r; lia. }
          assert (0 < 2 ^ (E + 1113)) by (apply Z.pow_pos_nonneg; lia).
          nia. }
      assert (Hdq : Zdigits2 q0 <= 53) by (apply Zdigits2_le; lia).
      pose proof (Zdigits2_nonneg q0) as Hdq0.
      destruct (binary_round_aux_value sx q0 (-1074) l0
                  ltac:(lia) ltac:(lia) ltac:(lia))
        as (m1 & Hcases & _ & Hfin & Hsc & _ & Hvalid).
      rewrite fexp_eq in Hcases, Hsc, Hvalid.
      replace (Z.max 0 (Z.max (Zdigits2 q0 + -1074 - 53) (-1074) - -1074))
        with 0 in * by lia.
      rewrite Z.div_1_r in Hcases.
      change (2 ^ (-1074 + 0 + 1100)) with (2 ^ 26) in Hsc.
      split; [split; [exact Hfin | apply Hvalid; lia]|].
      right. rewrite Hsc, scaled_finite.
      assert (Hx : Zpos M * 2 ^ (E + 1100) < 2 ^ 93).
      { assert (2 ^ D * 2 ^ (E + 1100) <= 2 ^ 93).
        { rewrite <- Z.pow_add_r by lia. apply Z.pow_le_mono_r; lia. }
        assert (0 < 2 ^ (E + 1100)) by (apply Z.pow_pos_nonneg; lia).
        nia. }
      assert (Hxpos : 0 < Zpos M * 2 ^ (E + 1100)).
      { apply Z.mul_pos_pos; [lia | apply Z.pow_pos_nonneg; lia]. }
      assert (Hm1 : 0 <= m1 * 2 ^ 26 <= 2 ^ 80) by (destruct Hcases as [-> | ->]; lia).
      rewrite cond_Zopp_mul.
      destruct sx; cbn [cond_Zopp]; repeat split; lia.
Qed.

(** The cell of a coordinate is the whole part of the coordinate
    divided by the cell size, rounded down, except that a negative
    number next to zero can be put in cell 0. *)
Lemma cellOf_spec x :
  binary64 x -> Z.abs (scaled x) < 2 ^ 31 * CELL ->
  cellOf x = scaled x / CELL \/
  (cellOf x = 0 /\ - 2 ^ 93 < scaled x < 0).
Proof.
  intros Hb Hx. unfold cellOf.
  unfold CELL in *.
  destruct (div_CELL_SIZE_value x Hb) as (Hq & Hcases).
  { eapply Z.lt_trans; [exact Hx|]. reflexivity. }
  destruct Hcases as [Hexact | (Hsmall & Hqs & Hpos & Hneg)].
  - rewrite floor_to_int; [|exact Hq|].
    + left. unfold ONE. rewrite <- Hexact.
      rewrite <- Z.div_div by lia. rewrite Z.div_mul by lia. reflexivity.
    + unfold ONE. lia.
  - rewrite floor_to_int; [|exact Hq | unfold ONE; lia].
    unfold ONE.
    destruct (Z.le_gt_cases 0 (scaled x)) as [Hge|Hlt].
    + left. specialize (Hpos Hge).
      rewrite (Z.div_small (scaled (div x CELL_SIZE))) by lia.
      rewrite Z.div_small by lia. reflexivity.
    + specialize (Hneg ltac:(lia)).
      destruct (Z.eq_dec (scaled (div x CELL_SIZE)) 0) as [E|Hne].
      * right. rewrite E. split; [reflexivity | lia].
      * left.
        assert (H1 : scaled (div x CELL_SIZE) / 2 ^ 1100 = -1).
        { symmetry. apply Z.div_unique with (scaled (div x CELL_SIZE) + 2 ^ 1100); lia. }
        assert (H2 : scaled x / (8192 * 2 ^ 1100) = -1).
        { symmetry. apply Z.div_unique with (scaled x + 8192 * 2 ^ 1100); lia. }
        rewrite H1, H2. reflexivity.
Qed.


(** *** One translation *)

(** The translated coordinate is the coordinate moved by [o] cells, up
    to the rounding of the remainder and of the sum. *)
Lemma translate_error x g o :
  binary64 x -> Z.abs g < 2 ^ 30 -> Z.abs o < 2 ^ 30 ->
  Z.abs (scaled x) < 2 ^ 40 * CELL ->
  binary64 (translateCoord x g o) /\
  Z.abs (scaled (translateCoord x g o) - (scaled x + o * CELL)) * 2 ^ 52 <=
    Z.abs (scaled x + o * CELL) + 2 * Z.abs (scaled x - g * CELL) + 2 ^ 80.
Proof.
  intros Hb Hg Ho Hx. unfold translateCoord.
  assert (Hadd : Int32.add g o = g + o).
  { apply Int32Facts.wrap_id. unfold Int32.in_range, Int32.min_int, Int32.max_int. lia. }
  rewrite Hadd.
  destruct (grid_value g ltac:(lia)) as (Hbg & Hsg).
  destruct (grid_value (g + o) ltac:(lia)) as (Hbn & Hsn).
  unfold CELL in *.
  destruct (sub_error x (mul (of_Z g) CELL_SIZE) Hb Hbg) as (Hbf & Hef).
  { lia. }
  { rewrite Hsg. lia. }
  rewrite Hsg in Hef.
  set (F := scaled (sub x (mul (of_Z g) CELL_SIZE))) in *.
  destruct (add_error (mul (of_Z (g + o)) CELL_SIZE) (sub x (mul (of_Z g) CELL_SIZE))
              Hbn Hbf) as (Hbr & Her).
  { rewrite Hsn. lia. }
  { fold F. lia. }
  rewrite Hsn in Her. fold F in Her.
  split; [exact Hbr|].
  set (R := scaled (add (mul (of_Z (g + o)) CELL_SIZE) (sub x (mul (of_Z g) CELL_SIZE)))) in *.
  lia.
Qed.

Lemma remainder_error x c :
  binary64 x -> Z.abs c < 2 ^ 30 -> Z.abs (scaled x) < 2 ^ 40 * CELL ->
  binary64 (remainder x c) /\
  Z.abs (scaled (remainder x c) - (scaled x - c * CELL)) * 2 ^ 52 <=
    Z.abs (scaled x - c * CELL) + 2 ^ 78.
Proof.
  intros Hb Hc Hx. unfold remainder.
  destruct (grid_value c ltac:(lia)) as (Hbc & Hsc).
  unfold CELL in *.
  destruct (sub_error x (mul (of_Z c) CELL_SIZE) Hb Hbc) as (Hbf & Hef).
  { lia. }
  { rewrite Hsc. lia. }
  rewrite Hsc in Hef. split; [exact Hbf | exact Hef].
Qed.

Lemma dbl_scaled n K :
  0 <= K <= 20 -> Z.abs n < 2 ^ (31 + K) ->
  binary64 (dbl n (- K)) /\ scaled (dbl n (- K)) * 2 ^ K = n * ONE.
Proof.
  intros HK Hn. unfold dbl.
  assert (Hn53 : Z.abs n < 2 ^ 53).
  { apply Z.lt_le_trans with (1 := Hn). apply Z.pow_le_mono_r; lia. }
  destruct (normalize_error n (- K) false) as (Hb & _ & Hex).
  - lia.
  - apply Z.lt_le_trans with (2 ^ 53 * 2 ^ (- K + 1100)).
    + apply Z.mul_lt_mono_pos_r; [apply Z.pow_pos_nonneg; lia | exact Hn53].
    + rewrite <- Z.pow_add_r by lia. apply Z.pow_le_mono_r; lia.
  - split; [exact Hb|]. rewrite Hex by lia.
    rewrite <- Z.mul_assoc, <- Z.pow_add_r by lia.
    replace (- K + 1100 + K) with 1100 by lia. reflexivity.
Qed.

End Rounding.

Import Rounding.

Lemma ONE_large : 2 ^ 200 <= ONE.
Proof. unfold ONE. apply Z.pow_le_mono_r; lia. Qed.

Lemma CELL_ONE : CELL = 8192 * ONE.
Proof. reflexivity. Qed.

(** The arithmetic of the error bounds, on the values alone. *)
Lemma arith_forward (P C : Z) (HP : 2 ^ 200 <= P) (HC : C = 8192 * P) (X X1 oC cC : Z) :
  Z.abs X < 2 ^ 31 * P -> Z.abs oC < 2 ^ 18 * C -> Z.abs (X - cC) <= C ->
  Z.abs (X1 - (X + oC)) * 2 ^ 52 <= Z.abs (X + oC) + 2 * Z.abs (X - cC) + 2 ^ 80 ->
  Z.abs (X1 - (X + oC)) * 2 ^ 52 <= 2 ^ 32 * P + 2 ^ 15 * P.
Proof. intros. lia. Qed.

Lemma arith_back (P C : Z) (HP : 2 ^ 200 <= P) (HC : C = 8192 * P) (X X1 X2 oC c1C : Z) :
  Z.abs X < 2 ^ 31 * P -> Z.abs oC < 2 ^ 18 * C ->
  Z.abs (X1 - (X + oC)) * 2 ^ 52 <= 2 ^ 32 * P + 2 ^ 15 * P ->
  Z.abs (X1 - c1C) <= C ->
  Z.abs (X2 - (X1 - oC)) * 2 ^ 52 <=
    Z.abs (X1 - oC) + 2 * Z.abs (X1 - c1C) + 2 ^ 80 ->
  Z.abs (X2 - X) * 2 ^ 52 <= 2 ^ 32 * P + 2 ^ 31 * P + 2 ^ 17 * P.
Proof. intros. lia. Qed.

Lemma arith_tolerance (P C : Z) (HP : 2 ^ 200 <= P) (HC : C = 8192 * P) (D : Z) :
  D * 2 ^ 52 <= 2 ^ 32 * P + 2 ^ 31 * P + 2 ^ 17 * P -> D * 2 ^ 19 < P.
Proof. intros. lia. Qed.

Lemma arith_tolerance_forward (P C : Z) (HP : 2 ^ 200 <= P) (HC : C = 8192 * P) (D : Z) :
  D * 2 ^ 52 <= 2 ^ 32 * P + 2 ^ 15 * P -> D * 2 ^ 19 < P.
Proof. intros. lia. Qed.

Lemma arith_magnitude (P C : Z) (HP : 2 ^ 200 <= P) (HC : C = 8192 * P) (X X1 oC : Z) :
  Z.abs X < 2 ^ 31 * P -> Z.abs oC < 2 ^ 18 * C ->
  Z.abs (X1 - (X + oC)) * 2 ^ 52 <= 2 ^ 32 * P + 2 ^ 15 * P ->
  Z.abs X1 < 2 ^ 20 * C.
Proof. intros. lia. Qed.

(** Away from the borders of its cell, a value stays in the cell
    under an error below the tolerance. *)
Lemma arith_inside (P C : Z) (HP : 2 ^ 200 <= P) (HC : C = 8192 * P) (rho delta : Z) :
  P <= 2 ^ 19 * rho <= 2 ^ 19 * C - P -> Z.abs delta * 2 ^ 19 < P ->
  0 <= rho + delta < C.
Proof. intros. lia. Qed.

Lemma arith_inside_far (P C : Z) (HP : 2 ^ 200 <= P) (HC : C = 8192 * P) (rho delta : Z) :
  P <= 2 ^ 19 * rho <= 2 ^ 19 * C - P ->
  Z.abs delta * 2 ^ 52 <= 2 ^ 32 * P + 2 ^ 31 * P + 2 ^ 17 * P ->
  2 ^ 93 < rho + delta < C - 2 ^ 93.
Proof. intros. lia. Qed.

Lemma arith_remainder (P C : Z) (HP : 2 ^ 200 <= P) (HC : C = 8192 * P)
  (rho delta r0 r1 : Z) :
  P <= 2 ^ 19 * rho <= 2 ^ 19 * C - P ->
  Z.abs delta * 2 ^ 52 <= 2 ^ 32 * P + 2 ^ 31 * P + 2 ^ 17 * P ->
  Z.abs (r0 - rho) * 2 ^ 52 <= Z.abs rho + 2 ^ 78 ->
  Z.abs (r1 - (rho + delta)) * 2 ^ 52 <= Z.abs (rho + delta) + 2 ^ 78 ->
  Z.abs (r1 - r0) * 2 ^ 19 < P.
Proof. intros. lia. Qed.

Lemma exact_remainder X : X - X / CELL * CELL = X mod CELL.
Proof.
  pose proof ONE_large. pose proof CELL_ONE.
  rewrite Z.mod_eq by lia. ring.
Qed.

Lemma cell_of_value X :
  Z.abs X < 2 ^ 31 * ONE ->
  X = CELL * (X / CELL) + X mod CELL /\ 0 <= X mod CELL < CELL /\
  - 2 ^ 18 <= X / CELL < 2 ^ 18.
Proof.
  intros HX. pose proof ONE_large as HP. pose proof CELL_ONE as HC.
  assert (HCpos : 0 < CELL) by lia.
  pose proof (Z.div_mod X CELL ltac:(lia)) as Hdm.
  pose proof (Z.mod_pos_bound X CELL HCpos) as Hmod.
  split; [exact Hdm|]. split; [exact Hmod|].
  split.
  - apply Z.div_le_lower_bound; lia.
  - apply Z.div_lt_upper_bound; lia.
Qed.

Lemma offset_cells o : Z.abs o < 2 ^ 18 -> Z.abs (o * CELL) < 2 ^ 18 * CELL.
Proof.
  intros Ho. pose proof ONE_large as HP. pose proof CELL_ONE as HC.
  rewrite Z.abs_mul. rewrite (Z.abs_eq CELL) by lia.
  apply Z.mul_lt_mono_pos_r; lia.
Qed.

(** The cell the program computes for a value, and how far the value is
    from the start of that cell. *)
Lemma cellOf_near x :
  binary64 x -> Z.abs (scaled x) < 2 ^ 20 * CELL ->
  Z.abs (cellOf x) < 2 ^ 21 /\ Z.abs (scaled x - cellOf x * CELL) <= CELL /\
  (2 ^ 93 < scaled x mod CELL < CELL - 2 ^ 93 -> cellOf x = scaled x / CELL).
Proof.
  intros Hb HX. pose proof ONE_large as HP. pose proof CELL_ONE as HC.
  assert (HCpos : 0 < CELL) by lia.
  pose proof (Z.div_mod (scaled x) CELL ltac:(lia)) as Hdm.
  pose proof (Z.mod_pos_bound (scaled x) CELL HCpos) as Hmod.
  assert (Hdiv : - 2 ^ 20 <= scaled x / CELL < 2 ^ 20).
  { split; [apply Z.div_le_lower_bound | apply Z.div_lt_upper_bound]; lia. }
  destruct (cellOf_spec x Hb ltac:(lia)) as [E | [E Hs]].
  - rewrite E. split; [lia|]. split; [lia | reflexivity].
  - rewrite E. split; [lia|]. split; [lia|].
    intros Hfar. exfalso.
    assert (Hq : scaled x / CELL = -1).
    { symmetry. apply Z.div_unique with (scaled x + CELL); lia. }
    rewrite Hq in Hdm. lia.
Qed.

(** The round trip of a coordinate, step by step. *)
Lemma round_trip_steps (x x' x'' : double) (o : Z) :
  x' = translateCoord x (cellOf x) o ->
  x'' = translateCoord x' (cellOf x') (- o) ->
  binary64 x -> Z.abs (scaled x) < 2 ^ 31 * ONE -> Z.abs o < 2 ^ 18 ->
  binary64 x' /\ binary64 x'' /\
  Z.abs (scaled x' - (scaled x + o * CELL)) * 2 ^ 19 < ONE /\
  Z.abs (scaled x'' - scaled x) * 2 ^ 19 < ONE /\
  (ONE <= 2 ^ 19 * (scaled x mod CELL) <= 2 ^ 19 * CELL - ONE ->
   cellOf x = scaled x / CELL /\
   cellOf x' = cellOf x + o /\
   cellOf x'' = cellOf x /\
   Z.abs (scaled x' mod CELL - scaled x mod CELL) * 2 ^ 19 < ONE /\
   Z.abs (scaled x'' mod CELL - scaled x mod CELL) * 2 ^ 19 < ONE /\
   Z.abs (scaled (remainder x' (cellOf x')) - scaled (remainder x (cellOf x))) * 2 ^ 19
     < ONE /\
   Z.abs (scaled (remainder x'' (cellOf x'')) - scaled (remainder x (cellOf x))) * 2 ^ 19
     < ONE).
Proof.
  intros Ex' Ex'' Hb HX Ho.
  pose proof ONE_large as HP. pose proof CELL_ONE as HC.
  assert (HCpos : 0 < CELL) by lia.
  pose proof (offset_cells o Ho) as HoC.
  (* the cell of x *)
  destruct (cellOf_near x Hb ltac:(lia)) as (Hcb & Hcr & Hcfar).
  (* forward *)
  destruct (translate_error x (cellOf x) o Hb ltac:(lia) ltac:(lia) ltac:(lia))
    as (Hb1 & He1).
  rewrite <- Ex' in Hb1, He1.
  pose proof (arith_forward ONE CELL HP HC _ _ _ _ HX HoC Hcr He1) as Hfwd.
  pose proof (arith_magnitude ONE CELL HP HC _ _ _ HX HoC Hfwd) as HX1.
  (* the cell of x' *)
  destruct (cellOf_near x' Hb1 HX1) as (Hc1b & Hc1r & Hc1far).
  (* back *)
  assert (Hc1b' : Z.abs (cellOf x') < 2 ^ 30) by (clear - Hc1b; lia).
  assert (Ho' : Z.abs (- o) < 2 ^ 30) by (clear - Ho; lia).
  assert (HX1' : Z.abs (scaled x') < 2 ^ 40 * CELL) by (clear - HX1 HCpos; lia).
  destruct (translate_error x' (cellOf x') (- o) Hb1 Hc1b' Ho' HX1') as (Hb2 & He2).
  rewrite <- Ex'' in Hb2, He2.
  rewrite Z.mul_opp_l in He2.
  replace (scaled x' + - (o * CELL)) with (scaled x' - o * CELL) in He2 by ring.
  pose proof (arith_back ONE CELL HP HC _ _ _ _ _ HX HoC Hfwd Hc1r He2) as Htotal.
  split; [exact Hb1|]. split; [exact Hb2|].
  split; [exact (arith_tolerance_forward ONE CELL HP HC _ Hfwd)|].
  split; [exact (arith_tolerance ONE CELL HP HC _ Htotal)|].
  intros Hrho.
  destruct (cell_of_value (scaled x) HX) as (Hdm & Hmod & Hdiv).
  assert (Ec : cellOf x = scaled x / CELL).
  { apply Hcfar. clear - Hrho HP HC. revert Hrho.
    generalize (scaled x mod CELL). intros rho Hrho. lia. }
  (* the cell of x' *)
  assert (Hin1 : 2 ^ 93 < scaled x mod CELL + (scaled x' - (scaled x + o * CELL))
                 < CELL - 2 ^ 93).
  { apply (arith_inside_far ONE CELL HP HC); [exact Hrho|].
    clear - Hfwd HP. lia. }
  assert (Ediv1 : scaled x' / CELL = scaled x / CELL + o).
  { symmetry.
    apply Z.div_unique
      with (scaled x mod CELL + (scaled x' - (scaled x + o * CELL)));
      [clear - Hin1; lia|].
    clear - Hdm. revert Hdm.
    generalize (scaled x / CELL) (scaled x mod CELL). intros q r Hdm. lia. }
  assert (Emod1 : scaled x' mod CELL =
                  scaled x mod CELL + (scaled x' - (scaled x + o * CELL))).
  { symmetry.
    apply Z.mod_unique with (scaled x / CELL + o); [clear - Hin1; lia|].
    clear - Hdm. revert Hdm.
    generalize (scaled x / CELL) (scaled x mod CELL). intros q r Hdm. lia. }
  assert (Ec1 : cellOf x' = cellOf x + o).
  { rewrite Ec, <- Ediv1. apply Hc1far. rewrite Emod1. exact Hin1. }
  (* the cell of x'' *)
  assert (Hin2 : 2 ^ 93 < scaled x mod CELL + (scaled x'' - scaled x) < CELL - 2 ^ 93).
  { apply (arith_inside_far ONE CELL HP HC); [exact Hrho | exact Htotal]. }
  assert (Ediv2 : scaled x'' / CELL = scaled x / CELL).
  { symmetry.
    apply Z.div_unique with (scaled x mod CELL + (scaled x'' - scaled x));
      [clear - Hin2; lia|].
    clear - Hdm. revert Hdm.
    generalize (scaled x / CELL) (scaled x mod CELL). intros q r Hdm. lia. }
  assert (Emod2 : scaled x'' mod CELL = scaled x mod CELL + (scaled x'' - scaled x)).
  { symmetry.
    apply Z.mod_unique with (scaled x / CELL); [clear - Hin2; lia|].
    clear - Hdm. revert Hdm.
    generalize (scaled x / CELL) (scaled x mod CELL). intros q r Hdm. lia. }
  assert (HX2 : Z.abs (scaled x'') < 2 ^ 20 * CELL).
  { pose proof (arith_tolerance ONE CELL HP HC _ Htotal) as Htol.
    clear - Htol HX HP HC. lia. }
  destruct (cellOf_near x'' Hb2 HX2) as (_ & _ & Hc2far).
  assert (Ec2 : cellOf x'' = cellOf x).
  { rewrite Ec, <- Ediv2. apply Hc2far. rewrite Emod2. exact Hin2. }
  (* the remainders the program computes *)
  assert (Hcb' : Z.abs (cellOf x) < 2 ^ 30) by (clear - Hcb; lia).
  assert (HX' : Z.abs (scaled x) < 2 ^ 40 * CELL) by (clear - HX HP HC; lia).
  destruct (remainder_error x (cellOf x) Hb Hcb' HX') as (_ & Hr0).
  rewrite Ec, exact_remainder in Hr0. rewrite <- Ec in Hr0.
  destruct (remainder_error x' (cellOf x') Hb1 Hc1b' HX1') as (_ & Hr1).
  rewrite Ec1, Ec, <- Ediv1, exact_remainder, Emod1 in Hr1.
  rewrite Ediv1, <- Ec, <- Ec1 in Hr1.
  assert (Hc2b' : Z.abs (cellOf x'') < 2 ^ 30) by (rewrite Ec2; exact Hcb').
  assert (HX2' : Z.abs (scaled x'') < 2 ^ 40 * CELL) by (clear - HX2 HCpos; lia).
  destruct (remainder_error x'' (cellOf x'') Hb2 Hc2b' HX2') as (_ & Hr2).
  rewrite Ec2, Ec, <- Ediv2, exact_remainder, Emod2 in Hr2.
  rewrite Ediv2, <- Ec, <- Ec2 in Hr2.
  assert (Hfwd' : Z.abs (scaled x' - (scaled x + o * CELL)) * 2 ^ 52 <=
                  2 ^ 32 * ONE + 2 ^ 31 * ONE + 2 ^ 17 * ONE)
    by (clear - Hfwd HP; lia).
  pose proof (arith_remainder ONE CELL HP HC _ _ _ _ Hrho Hfwd' Hr0 Hr1) as Hrem1.
  pose proof (arith_remainder ONE CELL HP HC _ _ _ _ Hrho Htotal Hr0 Hr2) as Hrem2.
  split; [exact Ec|]. split; [exact Ec1|]. split; [exact Ec2|].
  rewrite Emod1, Emod2.
  split; [|split; [|split; [exact Hrem1 | exact Hrem2]]].
  - replace (scaled x mod CELL + (scaled x' - (scaled x + o * CELL)) - scaled x mod CELL)
      with (scaled x' - (scaled x + o * CELL)) by ring.
    exact (arith_tolerance_forward ONE CELL HP HC _ Hfwd).
  - replace (scaled x mod CELL + (scaled x'' - scaled x) - scaled x mod CELL)
      with (scaled x'' - scaled x) by ring.
    exact (arith_tolerance ONE CELL HP HC _ Htotal).
Qed.

(** C2, as amended. For an offset [o] of fewer than [2^18] cells and a
    coordinate [x], with [x'] the translated coordinate and [x''] the one
    translated back from the cell [x'] landed in:

    - for every finite binary64 [x] of magnitude below [2^31], [x'] and
      [x''] are finite, [x'] is within [2^-19] of [x + o * 8192] and [x'']
      is within [2^-19] of [x]; and if the remainder of [x] within its
      cell is at least [2^-19] away from both borders of the cell, then
      the cell of [x] is [floor (x / 8192)], [x'] lies in the cell
      [c + o], [x''] lies in the cell [c] again, and the remainders of
      [x'] and [x''] within their cells, the exact ones and the ones the
      program computes, are within [2^-19] of that of [x];

    - for [x = n / 2^K] with at most twenty binary places and magnitude
      below [2^31], every step is exact: [x'] lies in the cell [c + o] and
      has the remainder of [x] within its cell, and [x''] is [x] again,
      bit for bit, hence in the original cell.

    Values are compared through [scaled], in units of [2^-1100], in which
    [ONE] is 1 and [CELL] is 8192. *)
Theorem C2_round_trip (x : double) (o : Z) :
  Z.abs o < 2 ^ 18 ->
  let x' := translateCoord x (cellOf x) o in
  let x'' := round_trip x o in
  (binary64 x -> Z.abs (scaled x) < 2 ^ 31 * ONE ->
   binary64 x' /\ binary64 x'' /\
   Z.abs (scaled x' - (scaled x + o * CELL)) * 2 ^ 19 < ONE /\
   Z.abs (scaled x'' - scaled x) * 2 ^ 19 < ONE /\
   (ONE <= 2 ^ 19 * (scaled x mod CELL) <= 2 ^ 19 * CELL - ONE ->
    cellOf x = scaled x / CELL /\
    cellOf x' = cellOf x + o /\
    cellOf x'' = cellOf x /\
    Z.abs (scaled x' mod CELL - scaled x mod CELL) * 2 ^ 19 < ONE /\
    Z.abs (scaled x'' mod CELL - scaled x mod CELL) * 2 ^ 19 < ONE /\
    Z.abs (scaled (remainder x' (cellOf x')) - scaled (remainder x (cellOf x))) * 2 ^ 19
      < ONE /\
    Z.abs (scaled (remainder x'' (cellOf x'')) - scaled (remainder x (cellOf x))) * 2 ^ 19
      < ONE)) /\
  (forall n K : Z,
     0 <= K <= 20 -> Z.abs n < 2 ^ (31 + K) -> x = dbl n (- K) ->
     cellOf x = n / 2 ^ (13 + K) /\
     cellOf x' = cellOf x + o /\
     remainder x' (cellOf x') = remainder x (cellOf x) /\
     x'' = x /\
     cellOf x'' = cellOf x).
Proof.
  intros Ho x' x''. split.
  - intros Hb HX.
    apply (round_trip_steps x x' x'' o); [reflexivity | reflexivity | assumption ..].
  - intros n K HK Hn Ex. unfold x'', x'. rewrite Ex.
    exact (round_trip_dyadic n K o HK Hn Ho).
Qed.

Lemma C2_round_trip_witness :
  Z.abs 7 < 2 ^ 18 /\
  binary64 sample_decimal /\
  Z.abs (scaled sample_decimal) < 2 ^ 31 * ONE /\
  ONE <= 2 ^ 19 * (scaled sample_decimal mod CELL) <= 2 ^ 19 * CELL - ONE /\
  round_trip sample_decimal 7 = S754_finite false 8796972631510208 (-43) /\
  Z.abs (scaled (round_trip sample_decimal 7) - scaled sample_decimal) * 2 ^ 19 < ONE /\
  cellOf (round_trip sample_decimal 7) = cellOf sample_decimal /\
  round_trip sample_coordinate 7 = sample_coordinate.
Proof.
  assert (Ho : Z.abs 7 < 2 ^ 18) by reflexivity.
  assert (Hb : binary64 sample_decimal) by (split; reflexivity).
  assert (HX : Z.abs (scaled sample_decimal) < 2 ^ 31 * ONE) by (vm_compute; reflexivity).
  assert (Hin : ONE <= 2 ^ 19 * (scaled sample_decimal mod CELL) <= 2 ^ 19 * CELL - ONE)
    by (vm_compute; split; discriminate).
  destruct (C2_round_trip sample_decimal 7 Ho) as [Hgen _].
  destruct (Hgen Hb HX) as (_ & _ & _ & Hback & Hcells).
  destruct (Hcells Hin) as (_ & _ & Hc & _).
  destruct (C2_round_trip sample_coordinate 7 Ho) as [_ Hdyadic].
  destruct (Hdyadic 84992517 10) as (_ & _ & _ & Hexact & _);
    [split; discriminate | reflexivity | reflexivity |].
  repeat split; try assumption; vm_compute; discriminate.
Defined.

(** C2 as stated fails next to a cell border: [- 2^-70] lies in cell [-1];
    moved by seven cells the sum rounds to [57344 = 7 * 8192], which lies
    in cell 7 and not in cell 6; moved back from there it is [0], in cell
    0. The remainder within the cell went from (nearly) a whole cell to
    nothing. *)
Lemma C2_counterexample :
  cellOf tiny = -1 /\
  translateCoord tiny (cellOf tiny) 7 = Double.of_Z 57344 /\
  cellOf (translateCoord tiny (cellOf tiny) 7) = 7 /\
  round_trip tiny 7 = Double.of_Z 0 /\
  cellOf (round_trip tiny 7) <> cellOf tiny /\
  remainder tiny (cellOf tiny) = CELL_SIZE /\
  remainder (round_trip tiny 7) (cellOf (round_trip tiny 7)) = Double.of_Z 0.
Proof. vm_compute. repeat split; discriminate. Qed.

(** * Further properties of the code *)

(** ** What the passes leave alone *)

Lemma same_marks_with_cerr lines st : same_marks st (with_cerr lines st).
Proof. split; reflexivity. Qed.

Lemma same_marks_sym st st' : same_marks st st' -> same_marks st' st.
Proof. intros [H1 H2]. split; congruence. Qed.

Lemma valid_prepared db gx gy customCoordinates options :
  fst (isCoordinateValid db gx gy customCoordinates options) = true ->
  db_prepare db = SQLITE_OK.
Proof.
  intros H. destruct (db_prepare db) eqn:Hp; [reflexivity|].
  rewrite isCoordinateValid_failed in H by congruence. discriminate.
Qed.

Lemma coordinateValid_quiet db gx gy customCoordinates options st v st' :
  coordinateValid db gx gy customCoordinates options st = (Ok v, st') ->
  same_marks st st' /\ (v = true -> db_prepare db = SQLITE_OK).
Proof.
  rewrite coordinateValid_result. intros [= <- <-]. split.
  - apply same_marks_with_cerr.
  - apply valid_prepared.
Qed.

Section Quiet.

Variable db : Database.

Lemma uof_refl {A} (x : A) st : unchanged_or_flagged db x x st st.
Proof. left. split; [reflexivity | apply same_marks_refl]. Qed.

Lemma uof_marks {A} (x : A) st st' :
  same_marks st st' -> unchanged_or_flagged db x x st st'.
Proof. intros H. left. auto. Qed.

Lemma uof_trans {A} (x y z : A) st st1 st2 :
  unchanged_or_flagged db x y st st1 ->
  unchanged_or_flagged db y z st1 st2 ->
  unchanged_or_flagged db x z st st2.
Proof.
  intros [[-> H1]|[H1 Hp]] [[-> H2]|[H2 Hq]].
  - left. split; [reflexivity | eapply same_marks_trans; eassumption].
  - right. auto.
  - right. split; [|exact Hp]. destruct H2 as [H2 _]. congruence.
  - right. auto.
Qed.

(** Two steps in a row, on two parts of a value. *)
Lemma uof_both {A B C} (f : A -> B -> C) (x y : A) (u v : B) st st1 st2 :
  unchanged_or_flagged db x y st st1 ->
  unchanged_or_flagged db u v st1 st2 ->
  unchanged_or_flagged db (f x u) (f y v) st st2.
Proof.
  intros [[-> H1]|[H1 Hp]] [[-> H2]|[H2 Hq]].
  - left. split; [reflexivity | eapply same_marks_trans; eassumption].
  - right. auto.
  - right. split; [|exact Hp]. destruct H2 as [H2 _]. congruence.
  - right. auto.
Qed.

(** A step on a part of a value, put back where it was read. *)
Lemma uof_inside {A B} (g : B -> A) (x : A) (u v : B) st st' :
  g u = x ->
  unchanged_or_flagged db u v st st' ->
  unchanged_or_flagged db x (g v) st st'.
Proof.
  intros <- [[-> H]|H]; [left | right]; auto.
Qed.

Lemma mapM_quiet {A} (f : A -> M A) (l : list A) :
  (forall x st y st', x ∈ l -> f x st = (Ok y, st') ->
                      unchanged_or_flagged db x y st st') ->
  forall st l' st', mapM f l st = (Ok l', st') ->
                    unchanged_or_flagged db l l' st st'.
Proof.
  induction l as [|x l IH]; intros Hf st l' st' H; simpl in H.
  - apply ret_inv in H as [[= ->] ->]. apply uof_refl.
  - apply bind_inv in H as (y & st1 & Hx & H).
    apply bind_inv in H as (ys & st2 & Hl & H).
    apply ret_inv in H as [[= ->] ->].
    apply (uof_both cons x y l ys st st1 st2).
    + apply Hf; [left | exact Hx].
    + apply IH; [|exact Hl]. intros z s z' s' Hz. apply Hf. right. exact Hz.
Qed.

Lemma for_each_quiet (f : json -> M json) (j : json) :
  (forall x st y st', f x st = (Ok y, st') -> unchanged_or_flagged db x y st st') ->
  forall st j' st', for_each f j st = (Ok j', st') ->
                    unchanged_or_flagged db j j' st st'.
Proof.
  intros Hf st j' st' H. destruct j as [| | | | |elems|members]; simpl in H;
    try (apply Hf; exact H).
  - apply ret_inv in H as [[= ->] ->]. apply uof_refl.
  - apply bind_inv in H as (elems' & st1 & Hm & H).
    apply ret_inv in H as [[= ->] ->].
    apply (uof_inside JArray (JArray elems) elems elems'); [reflexivity|].
    apply (mapM_quiet f elems); [|exact Hm]. intros; eauto.
  - apply bind_inv in H as (members' & st1 & Hm & H).
    apply ret_inv in H as [[= ->] ->].
    apply (uof_inside JObject (JObject members) members members'); [reflexivity|].
    apply (mapM_quiet _ members) in Hm; [exact Hm|].
    intros [k v] s [k' v'] s' _ Hkv. simpl in Hkv.
    apply bind_inv in Hkv as (w & s1 & Hw & Hkv).
    apply ret_inv in Hkv as [[= -> ->] ->].
    apply (uof_inside (pair k) (k, v) v w); [reflexivity|]. eauto.
Qed.

End Quiet.

(** One step of a run that ended well, on a computation that leaves the
    state alone. *)
Ltac pure_step H x E :=
  let s := fresh "s" in
  apply bind_inv in H as (x & s & E & H);
  unfold key, idx in E; apply lift_inv in E as [E ->].

(** The guard [j.contains(k) && p(j[k])]. *)
Lemma guard_inv (j : json) (k : string) (p : json -> bool) st b st' :
  (if contains j k then (x <- key j k ;; ret (p x)) else ret false) st = (Ok b, st') ->
  st' = st /\
  (b = true -> exists members v,
     j = JObject members /\ obj_lookup k members = Some v /\ p v = true).
Proof.
  destruct (contains j k) eqn:Hc; intros H.
  - destruct j as [| | | | | |members]; try discriminate.
    apply contains_lookup in Hc as [v Hv].
    pure_step H x E. simpl in E. rewrite Hv in E. injection E as ->.
    apply ret_inv in H as [[= ->] ->]. split; [reflexivity|]. intros Hp. eauto.
  - apply ret_inv in H as [[= ->] ->]. split; [reflexivity | discriminate].
Qed.

Section QuietPasses.

Variables (db : Database) (offset : GridOffset).
Variables (customCoordinates : gset (Z * Z)) (options : ProgramOptions).

Lemma translate_pair_quiet translation st translation' st' :
  translate_pair db offset customCoordinates options translation st =
    (Ok translation', st') ->
  unchanged_or_flagged db translation translation' st st'.
Proof.
  unfold translate_pair. intros H.
  pure_step H x0 E0. pure_step H destX Ex. pure_step H y0 E1. pure_step H destY Ey.
  apply bind_inv in H as (valid & s1 & Hv & H).
  apply coordinateValid_quiet in Hv as [Hm Hp].
  destruct valid.
  - right. split; [|auto].
    apply bind_inv in H as ([] & s2 & Hset & H).
    rewrite set_replacementsFlag_flagged in Hset. injection Hset as <-.
    pure_step H t1 Et. apply lift_inv in H as [_ ->]. reflexivity.
  - apply ret_inv in H as [[= ->] ->]. apply uof_marks. exact Hm.
Qed.

(** A value read under a key that is there, changed and put back. *)
Lemma uof_set_key members k v v' j' st st' :
  obj_lookup k members = Some v ->
  unchanged_or_flagged db v v' st st' ->
  Ok j' = set_key (JObject members) k v' ->
  unchanged_or_flagged db (JObject members) j' st st'.
Proof.
  intros Hk [[-> Hm]|Hf] Hset; [left | right; exact Hf].
  rewrite (set_key_same _ _ _ Hk) in Hset. injection Hset as ->. auto.
Qed.

Lemma processInteriorDoors_reference_quiet reference st reference' st' :
  processInteriorDoors_reference db offset customCoordinates options reference st =
    (Ok reference', st') ->
  unchanged_or_flagged db reference reference' st st'.
Proof.
  unfold processInteriorDoors_reference. intros H.
  apply bind_inv in H as (door & s1 & Hd & H).
  assert (s1 = st /\
          (door = true -> exists members d dm dt,
             reference = JObject members /\
             obj_lookup "destination" members = Some d /\
             d = JObject dm /\ obj_lookup "translation" dm = Some dt)) as [-> Hdoor].
  { destruct (contains reference "translation") eqn:Ht.
    2:{ apply ret_inv in Hd as [[= ->] ->]. split; [reflexivity | discriminate]. }
    pure_step Hd t Et.
    destruct (is_array t && contains reference "destination") eqn:Hc.
    2:{ apply ret_inv in Hd as [[= ->] ->]. split; [reflexivity | discriminate]. }
    apply andb_true_iff in Hc as [_ Hc].
    destruct reference as [| | | | | |members]; try discriminate.
    apply contains_lookup in Hc as [d Hdst].
    pure_step Hd d' Ed. simpl in Ed. rewrite Hdst in Ed. injection Ed as ->.
    destruct (contains d "translation") eqn:Hdt.
    2:{ apply ret_inv in Hd as [[= ->] ->]. split; [reflexivity | discriminate]. }
    destruct d as [| | | | | |dm]; try discriminate.
    apply contains_lookup in Hdt as [dt Hdt].
    pure_step Hd dt' Edt. apply ret_inv in Hd as [_ ->].
    split; [reflexivity|]. intros _. exists members, (JObject dm), dm, dt. auto. }
  clear Hd. destruct door.
  2:{ apply ret_inv in H as [[= ->] ->]. apply uof_refl. }
  destruct (Hdoor eq_refl) as (members & d & dm & dt & -> & Hdst & -> & Hdt).
  pure_step H d' Ed. simpl in Ed. rewrite Hdst in Ed. injection Ed as ->.
  pure_step H dt' Edt. simpl in Edt. rewrite Hdt in Edt. injection Edt as ->.
  apply bind_inv in H as (dt1 & s1 & Hpair & H).
  apply translate_pair_quiet in Hpair.
  pure_step H d1 Ed1. apply lift_inv in H as [H ->].
  eapply (uof_set_key members "destination" (JObject dm) d1); [exact Hdst | | exact H].
  eapply (uof_set_key dm "translation" dt dt1); [exact Hdt | exact Hpair | exact Ed1].
Qed.


Lemma processInteriorDoors_cell_quiet cell st cell' st' :
  processInteriorDoors_cell db offset customCoordinates options cell st =
    (Ok cell', st') ->
  unchanged_or_flagged db cell cell' st st'.
Proof.
  unfold processInteriorDoors_cell. intros H.
  apply bind_inv in H as (isCell & s1 & Hc & H).
  apply guard_inv in Hc as [-> _].
  destruct isCell; simpl in H.
  2:{ apply ret_inv in H as [[= ->] ->]. apply uof_refl. }
  apply bind_inv in H as (interior & s1 & Hi & H).
  assert (s1 = st) as ->.
  { destruct (contains cell "data").
    - pure_step Hi d Ed. destruct (contains d "flags").
      + pure_step Hi f Ef. pure_step Hi flags Eflags.
        apply ret_inv in Hi as [_ ->]. reflexivity.
      + apply ret_inv in Hi as [_ ->]. reflexivity.
    - apply ret_inv in Hi as [_ ->]. reflexivity. }
  clear Hi. destruct interior; simpl in H.
  2:{ apply ret_inv in H as [[= ->] ->]. apply uof_refl. }
  apply bind_inv in H as (hasRefs & s1 & Hr & H).
  apply guard_inv in Hr as [-> Hrefs].
  destruct hasRefs; simpl in H.
  2:{ apply ret_inv in H as [[= ->] ->]. apply uof_refl. }
  destruct (Hrefs eq_refl) as (members & refs & -> & Hlook & _).
  pure_step H references E. simpl in E. rewrite Hlook in E. injection E as ->.
  apply bind_inv in H as (references' & s1 & Hfor & H).
  apply lift_inv in H as [H ->].
  eapply (uof_set_key members "references" refs references'); [exact Hlook | | exact H].
  eapply for_each_quiet; [|exact Hfor].
  intros x s y s'. apply processInteriorDoors_reference_quiet.
Qed.

Lemma processNpcTravel_destination_quiet destination st destination' st' :
  processNpcTravel_destination db offset customCoordinates options destination st =
    (Ok destination', st') ->
  unchanged_or_flagged db destination destination' st st'.
Proof.
  unfold processNpcTravel_destination. intros H.
  apply bind_inv in H as (hasTranslation & s1 & Hc & H).
  apply guard_inv in Hc as [-> Ht].
  destruct hasTranslation.
  2:{ apply ret_inv in H as [[= ->] ->]. apply uof_refl. }
  destruct (Ht eq_refl) as (members & t & -> & Hlook & _).
  pure_step H t0 E. simpl in E. rewrite Hlook in E. injection E as ->.
  apply bind_inv in H as (t' & s1 & Hpair & H).
  apply lift_inv in H as [H ->].
  eapply (uof_set_key members "translation" t t'); [exact Hlook | | exact H].
  eapply translate_pair_quiet. exact Hpair.
Qed.

Lemma processNpcTravel_npc_quiet npc st npc' st' :
  processNpcTravel_npc db offset customCoordinates options npc st = (Ok npc', st') ->
  unchanged_or_flagged db npc npc' st st'.
Proof.
  unfold processNpcTravel_npc. intros H.
  apply bind_inv in H as (isNpc & s1 & Hc & H).
  apply guard_inv in Hc as [-> _].
  destruct isNpc; simpl in H.
  2:{ apply ret_inv in H as [[= ->] ->]. apply uof_refl. }
  apply bind_inv in H as (hasDestinations & s1 & Hd & H).
  apply guard_inv in Hd as [-> Hdest].
  destruct hasDestinations; simpl in H.
  2:{ apply ret_inv in H as [[= ->] ->]. apply uof_refl. }
  destruct (Hdest eq_refl) as (members & ds & -> & Hlook & _).
  pure_step H destinations E. simpl in E. rewrite Hlook in E. injection E as ->.
  apply bind_inv in H as (destinations' & s1 & Hfor & H).
  apply lift_inv in H as [H ->].
  eapply (uof_set_key members "travel_destinations" ds destinations');
    [exact Hlook | | exact H].
  eapply for_each_quiet; [|exact Hfor].
  intros x s y s'. apply processNpcTravel_destination_quiet.
Qed.

End QuietPasses.

Lemma state_kept_ret {A} (a : A) : state_kept (ret a).
Proof. intros st r st' [= _ <-]. reflexivity. Qed.

Lemma state_kept_lift {A} (o : outcome A) : state_kept (lift o).
Proof. intros st r st' [= _ <-]. reflexivity. Qed.

Lemma state_kept_key j k : state_kept (key j k).
Proof. apply state_kept_lift. Qed.

Lemma state_kept_idx j i : state_kept (idx j i).
Proof. apply state_kept_lift. Qed.

Lemma state_kept_bind {A B} (c : M A) (k : A -> M B) :
  state_kept c -> (forall a, state_kept (k a)) -> state_kept (bind c k).
Proof.
  intros Hc Hk st r st' H. unfold bind in H.
  destruct (c st) as [[a|e] s1] eqn:E.
  - apply Hc in E as ->. eapply Hk. exact H.
  - injection H as _ <-. eapply Hc. exact E.
Qed.

Lemma state_kept_elim {A} (c : M A) st r st' :
  state_kept c -> c st = (r, st') -> st' = st.
Proof. intros H. apply H. Qed.

Ltac solve_kept :=
  repeat first
    [ apply state_kept_ret | apply state_kept_lift | apply state_kept_key
    | apply state_kept_idx
    | apply state_kept_bind; [|intros ?]
    | match goal with |- state_kept (if ?b then _ else _) => destruct b end
    | match goal with |- state_kept (log_reference_id _ _) => unfold log_reference_id end ].

(** One step of a run that ended well, on a computation that keeps the
    state. *)
Ltac kept_step H x E :=
  let s := fresh "s" in
  apply bind_inv in H as (x & s & E & H);
  let K := fresh "K" in
  assert (K : s = _) by (eapply state_kept_elim; [|exact E]; solve_kept);
  subst s.

Section QuietRecords.

Variables (db : Database) (offset : GridOffset).
Variables (customCoordinates : gset (Z * Z)) (options : ProgramOptions).

Lemma processGridValues_item_quiet item st item' st' :
  processGridValues_item db offset customCoordinates options item st =
    (Ok item', st') ->
  unchanged_or_flagged db item item' st st'.
Proof.
  unfold processGridValues_item. intros H.
  kept_step H supported Es.
  destruct supported; simpl in H.
  2:{ apply ret_inv in H as [[= ->] ->]. apply uof_refl. }
  kept_step H t Et. kept_step H typeName En.
  kept_step H hasTopLevelGrid Etop. kept_step H hasDataGrid Edata.
  destruct (negb hasTopLevelGrid && negb hasDataGrid).
  { apply ret_inv in H as [[= ->] ->]. apply uof_refl. }
  kept_step H grid Eg. kept_step H g0 E0. kept_step H gridX Ex.
  kept_step H g1 E1. kept_step H gridY Ey.
  apply bind_inv in H as (valid & s1 & Hv & H).
  apply coordinateValid_quiet in Hv as [Hm Hp].
  destruct valid.
  - right. split; [|auto].
    apply bind_inv in H as (grid1 & s2 & _ & H).
    apply bind_inv in H as (grid2 & s3 & _ & H).
    apply bind_inv in H as (item1 & s4 & _ & H).
    apply bind_inv in H as (item2 & s5 & _ & H).
    apply bind_inv in H as ([] & s6 & Hset & H).
    rewrite set_replacementsFlag_flagged in Hset. injection Hset as <-.
    apply ret_inv in H as [_ ->]. reflexivity.
  - apply ret_inv in H as [[= ->] ->]. apply uof_marks. exact Hm.
Qed.


Variable cmd : command.

Lemma rewrite_match_prepared m st emitted st' :
  rewrite_match cmd db offset customCoordinates options m st =
    (Ok (emitted, true), st') ->
  db_prepare db = SQLITE_OK.
Proof.
  intros H.
  destruct (rewrite_match_cases cmd db offset customCoordinates options m st)
    as [(e & _ & He)|(x & y & z & after & _ & _ & _ & _ & Hr)].
  - rewrite He in H. discriminate.
  - simpl in Hr. rewrite Hr in H.
    destruct (fst (isCoordinateValid _ _ _ _ _)) eqn:Hv; [|discriminate].
    eapply valid_prepared. exact Hv.
Qed.

Lemma rewrite_loop_prepared fuel :
  forall searchStart updatedText scriptUpdated st text' st',
    rewrite_loop cmd db offset customCoordinates options fuel
      searchStart updatedText scriptUpdated st = (Ok (text', true), st') ->
    scriptUpdated = true \/ db_prepare db = SQLITE_OK.
Proof.
  induction fuel as [|fuel IH];
    intros searchStart updatedText scriptUpdated st text' st' H;
    simpl in H; [discriminate|].
  destruct (regex_search (cmd_regex cmd) searchStart) as [m|].
  - apply bind_inv in H as ([emitted translated] & st1 & Hm & H).
    apply IH in H as [H|H]; [|right; exact H]. simpl in H.
    destruct scriptUpdated; [left; reflexivity|]. simpl in H. subst translated.
    right. eapply rewrite_match_prepared. exact Hm.
  - apply ret_inv in H as [[= _ <-] _]. left. reflexivity.
Qed.

Lemma rewrite_text_quiet scriptText st text' updated st' :
  rewrite_text cmd db offset customCoordinates options scriptText st =
    (Ok (text', updated), st') ->
  (updated = false /\ text' = scriptText /\ same_marks st st') \/
  (updated = true /\ replacementsFlag st' = 1 /\ db_prepare db = SQLITE_OK /\
   updatedScriptIDs st' = updatedScriptIDs st).
Proof.
  intros H. destruct updated.
  - right. split; [reflexivity|].
    pose proof (rewrite_text_marks _ _ _ _ _ _ _ _ _ _ H) as (Hids & _ & Hup).
    split; [auto|]. split; [|exact Hids].
    unfold rewrite_text in H.
    apply bind_inv in H as ([t u] & st1 & Hl & H).
    apply ret_inv in H as [H _]. injection H as _ Hu. simpl in Hu. subst u.
    apply rewrite_loop_prepared in Hl as [Hl|Hl]; [discriminate | exact Hl].
  - left. split; [reflexivity|].
    eapply rewrite_text_untranslated. exact H.
Qed.

Lemma processScript_record_quiet script st script' st' :
  processScript_record cmd db offset customCoordinates options script st =
    (Ok script', st') ->
  unchanged_or_flagged db script script' st st'.
Proof.
  unfold processScript_record. intros H.
  apply bind_inv in H as (isScript & s1 & Hc & H).
  apply guard_inv in Hc as [-> _].
  destruct (isScript && contains script "text") eqn:Hcond.
  2:{ apply ret_inv in H as [[= ->] ->]. apply uof_refl. }
  apply andb_true_iff in Hcond as [_ Htext].
  destruct script as [| | | | | |members]; try discriminate.
  apply contains_lookup in Htext as [t Ht].
  pure_step H t' Et. simpl in Et. rewrite Ht in Et. injection Et as ->.
  pure_step H scriptText Eg. destruct t; try discriminate. injection Eg as ->.
  kept_step H scriptID Eid.
  apply bind_inv in H as ([text' updated] & s1 & Hr & H).
  pure_step H script1 Eset. simpl in Eset. injection Eset as ->.
  apply bind_inv in H as ([] & s2 & Hpush & H).
  apply ret_inv in H as [[= ->] ->].
  apply rewrite_text_quiet in Hr as [(-> & -> & Hm)|(-> & Hflag & Hp & _)];
    simpl in Hpush.
  - apply ret_inv in Hpush as [_ ->]. left.
    rewrite (obj_set_same _ _ _ Ht). auto.
  - injection Hpush as <-. right. auto.
Qed.

Lemma processDialogue_record_quiet dialogueInfo st dialogueInfo' st' :
  processDialogue_record cmd db offset customCoordinates options dialogueInfo st =
    (Ok dialogueInfo', st') ->
  unchanged_or_flagged db dialogueInfo dialogueInfo' st st'.
Proof.
  unfold processDialogue_record. intros H.
  apply bind_inv in H as (isDialogue & s1 & Hc & H).
  apply guard_inv in Hc as [-> _].
  destruct (isDialogue && contains dialogueInfo "script_text") eqn:Hcond.
  2:{ apply ret_inv in H as [[= ->] ->]. apply uof_refl. }
  apply andb_true_iff in Hcond as [_ Htext].
  destruct dialogueInfo as [| | | | | |members]; try discriminate.
  apply contains_lookup in Htext as [t Ht].
  pure_step H t' Et. simpl in Et. rewrite Ht in Et. injection Et as ->.
  pure_step H scriptText Eg. destruct t; try discriminate. injection Eg as ->.
  apply bind_inv in H as ([text' updated] & s1 & Hr & H).
  apply lift_inv in H as [H ->]. simpl in H. injection H as ->.
  apply rewrite_text_quiet in Hr as [(-> & -> & Hm)|(-> & Hflag & Hp & _)].
  - left. simpl. rewrite (obj_set_same _ _ _ Ht). auto.
  - right. auto.
Qed.

End QuietRecords.

Section QuietDocument.

Variables (db : Database) (offset : GridOffset).
Variables (customCoordinates : gset (Z * Z)) (options : ProgramOptions).

Lemma processGridValues_quiet inputData st inputData' st' :
  processGridValues db inputData offset customCoordinates options st =
    (Ok inputData', st') ->
  unchanged_or_flagged db inputData inputData' st st'.
Proof.
  apply for_each_quiet. intros x s y s'. apply processGridValues_item_quiet.
Qed.

Lemma processInteriorDoorsTranslation_quiet inputData st inputData' st' :
  processInteriorDoorsTranslation db inputData offset customCoordinates options st =
    (Ok inputData', st') ->
  unchanged_or_flagged db inputData inputData' st st'.
Proof.
  apply for_each_quiet. intros x s y s'. apply processInteriorDoors_cell_quiet.
Qed.

Lemma processNpcTravelDestinations_quiet inputData st inputData' st' :
  processNpcTravelDestinations db inputData offset customCoordinates options st =
    (Ok inputData', st') ->
  unchanged_or_flagged db inputData inputData' st st'.
Proof.
  apply for_each_quiet. intros x s y s'. apply processNpcTravel_npc_quiet.
Qed.

Lemma processScript_quiet cmd inputData st inputData' st' :
  processScript cmd db inputData offset customCoordinates options st =
    (Ok inputData', st') ->
  unchanged_or_flagged db inputData inputData' st st'.
Proof.
  apply for_each_quiet. intros x s y s'. apply processScript_record_quiet.
Qed.

Lemma processDialogue_quiet cmd inputData st inputData' st' :
  processDialogue cmd db inputData offset customCoordinates options st =
    (Ok inputData', st') ->
  unchanged_or_flagged db inputData inputData' st st'.
Proof.
  apply for_each_quiet. intros x s y s'. apply processDialogue_record_quiet.
Qed.

Lemma all_passes_quiet inputData st inputData' st' :
  all_passes db customCoordinates options inputData offset st = (Ok inputData', st') ->
  unchanged_or_flagged db inputData inputData' st st'.
Proof.
  unfold all_passes. intros H.
  unfold processScriptAiEscortTranslation, processScriptAiEscortCellTranslation,
    processScriptAiFollowTranslation, processScriptAiFollowCellTranslation,
    processScriptAiTravelTranslation, processScriptPositionTranslation,
    processScriptPositionCellTranslation, processScriptPlaceItemTranslation,
    processScriptPlaceItemCellTranslation,
    processDialogueAiEscortTranslation, processDialogueAiEscortCellTranslation,
    processDialogueAiFollowTranslation, processDialogueAiFollowCellTranslation,
    processDialogueAiTravelTranslation, processDialoguePositionTranslation,
    processDialoguePositionCellTranslation, processDialoguePlaceItemTranslation,
    processDialoguePlaceItemCellTranslation in H.
  apply bind_inv in H as (d & s & Hstep & H).
  apply processGridValues_quiet in Hstep. eapply uof_trans; [exact Hstep|].
  clear Hstep. revert H. generalize d s. clear d s. intros d s H.
  apply bind_inv in H as (d1 & s1 & Hstep & H).
  apply processInteriorDoorsTranslation_quiet in Hstep.
  eapply uof_trans; [exact Hstep|]. clear Hstep d s.
  apply bind_inv in H as (d & s & Hstep & H).
  apply processNpcTravelDestinations_quiet in Hstep.
  eapply uof_trans; [exact Hstep|]. clear Hstep d1 s1.
  do 9 (let d' := fresh "d" in let s' := fresh "s" in
        apply bind_inv in H as (d' & s' & Hstep & H);
        apply processScript_quiet in Hstep;
        eapply uof_trans; [exact Hstep|]; clear Hstep).
  do 8 (let d' := fresh "d" in let s' := fresh "s" in
        apply bind_inv in H as (d' & s' & Hstep & H);
        apply processDialogue_quiet in Hstep;
        eapply uof_trans; [exact Hstep|]; clear Hstep).
  eapply processDialogue_quiet. exact H.
Qed.

End QuietDocument.

(** X1. If the passes end with the replacements flag at 0, the document
    is the document that was read, and no script id was noted: skipping
    the file on that flag loses nothing. *)
Theorem X1_flag_down_document_unchanged
    (db : Database) (customCoordinates : gset (Z * Z)) (options : ProgramOptions)
    (inputData : json) (offset : GridOffset) (st : pass_state)
    (inputData' : json) (st' : pass_state) :
  all_passes db customCoordinates options inputData offset st = (Ok inputData', st') ->
  replacementsFlag st' = 0 ->
  inputData' = inputData /\ replacementsFlag st = 0 /\
  updatedScriptIDs st' = updatedScriptIDs st.
Proof.
  intros H Hflag. apply all_passes_quiet in H as [[-> [Hf Hids]]|[Hf _]].
  - split; [reflexivity|]. split; congruence.
  - congruence.
Qed.

Lemma X1_flag_down_document_unchanged_witness :
  all_passes (db_of_rows [(10, 4)]) ∅ forward_options sample_document
    (getGridOffset 1) fresh_state = (Ok sample_document, fresh_state) /\
  sample_document = sample_document.
Proof.
  split; [vm_compute; reflexivity|].
  apply (X1_flag_down_document_unchanged (db_of_rows [(10, 4)]) ∅ forward_options
           sample_document (getGridOffset 1) fresh_state sample_document fresh_state);
    [vm_compute; reflexivity | reflexivity].
Defined.

Section MainSafety.

Variable hasConversionTag : json -> string -> bool.
Variable addConversionTag : json -> string -> ProgramOptions -> option json.
Variable saveJsonToFile : string -> json -> bool.
Variable createBackup : string -> bool.
Variable convertJsonToEsp : string -> string -> bool.
Variable tes3conv : string -> string -> bool.
Variable read_json : string -> read_result.
Variables jsonImportPath_of jsonExportPath_of : string -> string.
Variable what : exn -> string.
Variable db : Database.
Variable customCoordinates : gset (Z * Z).
Variable options : ProgramOptions.

Let written :=
  write_back addConversionTag saveJsonToFile createBackup convertJsonToEsp
    jsonExportPath_of options.
Let document_events :=
  process_document hasConversionTag addConversionTag saveJsonToFile createBackup
    convertJsonToEsp jsonExportPath_of what db customCoordinates options.
Let file_events :=
  process_file hasConversionTag addConversionTag saveJsonToFile createBackup
    convertJsonToEsp tes3conv read_json jsonImportPath_of jsonExportPath_of what
    db customCoordinates options.
Let batch_events :=
  main_loop hasConversionTag addConversionTag saveJsonToFile createBackup
    convertJsonToEsp tes3conv read_json jsonImportPath_of jsonExportPath_of what
    db customCoordinates options.

Lemma caught_no_write_back path e :
  existsb is_write_back (caught what path e) = false.
Proof. reflexivity. Qed.

(** X2. With a database on which the query cannot be prepared, the
    passes change nothing in any document, and [main] saves, backs up
    and converts back nothing, whatever the input files hold. *)
Theorem X2_broken_database_writes_nothing :
  db_prepare db <> SQLITE_OK ->
  (forall inputData offset st inputData' st',
     all_passes db customCoordinates options inputData offset st =
       (Ok inputData', st') ->
     inputData' = inputData /\ same_marks st st') /\
  (forall inputPaths, existsb is_write_back (batch_events inputPaths) = false).
Proof.
  intros Hbroken.
  assert (Hpasses : forall inputData offset st inputData' st',
            all_passes db customCoordinates options inputData offset st =
              (Ok inputData', st') ->
            inputData' = inputData /\ same_marks st st').
  { intros inputData offset st inputData' st' H.
    apply all_passes_quiet in H as [H|[_ H]]; [exact H | contradiction]. }
  split; [exact Hpasses|].
  induction inputPaths as [|p rest IH]; [reflexivity|].
  unfold batch_events in *. simpl. rewrite existsb_app, IH, orb_false_r.
  unfold process_file. simpl.
  destruct (tes3conv p (jsonImportPath_of p)); [|reflexivity]. simpl.
  rewrite existsb_app.
  replace (existsb is_write_back
             (if silentMode options then []
              else [Log ("Conversion to .JSON successful: " +:+ jsonImportPath_of p)]))
    with false by (destruct (silentMode options); reflexivity).
  simpl. destruct (read_json (jsonImportPath_of p)) as [| | |inputData];
    try reflexivity.
  unfold process_document.
  destruct (hasConversionTag inputData p).
  { simpl. apply log_deleted_no_write_back. }
  destruct (checkDependencyOrder inputData) as [[[|] s]|e]; simpl.
  - destruct (all_passes _ _ _ _ _ _) as [[inputData'|e] st] eqn:Hrun.
    + rewrite existsb_app, cerr_no_write_back. simpl.
      apply Hpasses in Hrun as [_ [Hflag _]]. simpl in Hflag. rewrite Hflag.
      simpl. apply log_deleted_no_write_back.
    + rewrite existsb_app, cerr_no_write_back. reflexivity.
  - apply log_deleted_no_write_back.
  - reflexivity.
Qed.


Lemma in_log_deleted ev path :
  In ev (log_deleted options path) -> exists message, ev = Log message.
Proof.
  unfold log_deleted. destruct (silentMode options); simpl;
    intros [<-|[]]; eauto.
Qed.

(** What an event of the write-back can be. *)
Lemma in_write_back ev pluginImportPath jsonImportPath inputData ids :
  In ev (written pluginImportPath jsonImportPath inputData ids) ->
  (exists message, ev = Log message) \/
  (ev = Remove jsonImportPath) \/
  exists tagged,
    addConversionTag inputData
      (if conversionType options =? 1 then "BM->AB" else "AB->BM") options =
      Some tagged /\
    (ev = SaveJson (jsonExportPath_of pluginImportPath) tagged \/
     saveJsonToFile (jsonExportPath_of pluginImportPath) tagged = true /\
     (ev = Backup pluginImportPath \/
      createBackup pluginImportPath = true /\
      (ev = JsonToEsp (jsonExportPath_of pluginImportPath) pluginImportPath \/
       convertJsonToEsp (jsonExportPath_of pluginImportPath) pluginImportPath = true /\
       ev = Remove (jsonExportPath_of pluginImportPath)))).
Proof.
  unfold written, write_back. rewrite in_app_iff, in_map_iff.
  intros [(message & <- & _)|H]; [left; eauto|].
  destruct (addConversionTag _ _ _) as [tagged|].
  2:{ destruct H as [<-|[]]. left. eauto. }
  destruct H as [<-|H]; [right; right; exists tagged; auto 10|].
  destruct (saveJsonToFile _ _) eqn:Hsave; simpl in H.
  2:{ destruct H as [<-|[]]. left. eauto. }
  destruct H as [<-|H]; [right; right; exists tagged; auto 10|].
  destruct (createBackup _) eqn:Hbackup; simpl in H.
  2:{ destruct H as [<-|H]; [right; left; reflexivity|].
      destruct (silentMode options); simpl in H; [destruct H|].
      destruct H as [<-|[]]. left. eauto. }
  destruct H as [<-|H]; [right; right; exists tagged; auto 10|].
  destruct (convertJsonToEsp _ _) eqn:Hconvert; simpl in H.
  2:{ destruct H as [<-|[]]. left. eauto. }
  destruct H as [<-|[<-|H]]; [right; left; reflexivity | |].
  - right. right. exists tagged. auto 10.
  - destruct (silentMode options); simpl in H; [destruct H|].
    destruct H as [<-|[]]. left. eauto.
Qed.

(** What an event of the loop body can be, once the file was read. *)
Lemma in_process_document ev pluginImportPath jsonImportPath inputData :
  In ev (document_events pluginImportPath jsonImportPath inputData) ->
  (exists message, ev = Log message) \/ (exists line, ev = Cerr line) \/
  (ev = Remove jsonImportPath) \/
  exists masters inputData' st,
    hasConversionTag inputData pluginImportPath = false /\
    checkDependencyOrder inputData = Ok (true, masters) /\
    all_passes db customCoordinates options inputData
      (getGridOffset (conversionType options)) fresh_state = (Ok inputData', st) /\
    replacementsFlag st <> 0 /\
    In ev (written pluginImportPath jsonImportPath inputData' (updatedScriptIDs st)).
Proof.
  unfold document_events, process_document. fold fresh_state.
  destruct (hasConversionTag inputData pluginImportPath).
  { intros [<-|[<-|H]]; [auto | left; eauto | left; eapply in_log_deleted; eauto]. }
  destruct (checkDependencyOrder inputData) as [[[|] masters]|e]; simpl negb; cbv iota.
  - destruct (all_passes _ _ _ _ _ _) as [[inputData'|e] st] eqn:Hrun;
      rewrite in_app_iff, in_map_iff.
    + intros [(line & <- & _)|H]; [right; left; eauto|].
      destruct (replacementsFlag st =? 0) eqn:Hflag.
      * destruct H as [<-|[<-|H]];
          [auto | left; eauto | left; eapply in_log_deleted; eauto].
      * right. right. right. exists masters, inputData', st.
        apply Z.eqb_neq in Hflag. auto.
    + intros [(line & <- & _)|[<-|[]]]; [right; left; eauto | left; eauto].
  - intros [<-|[<-|H]]; [auto | left; eauto | left; eapply in_log_deleted; eauto].
  - intros [<-|[]]. left. eauto.
Qed.

(** What an event of the loop body can be. *)
Lemma in_process_file ev pluginImportPath :
  In ev (file_events pluginImportPath) ->
  (exists message, ev = Log message) \/
  ev = RunTes3conv pluginImportPath (jsonImportPath_of pluginImportPath) \/
  tes3conv pluginImportPath (jsonImportPath_of pluginImportPath) = true /\
  exists inputData,
    read_json (jsonImportPath_of pluginImportPath) = Parsed inputData /\
    In ev (document_events pluginImportPath (jsonImportPath_of pluginImportPath)
             inputData).
Proof.
  unfold file_events, process_file.
  intros [<-|[<-|H]]; [left; eauto | auto |].
  destruct (tes3conv _ _); simpl negb in H; cbv iota in H.
  2:{ destruct H as [<-|[]]. left. eauto. }
  apply in_app_iff in H as [H|H].
  { destruct (silentMode options); simpl in H; [destruct H|].
    destruct H as [<-|[]]. left. eauto. }
  destruct (read_json _) as [| | |inputData];
    try (destruct H as [<-|[]]; left; eauto).
  right. right. split; [reflexivity|]. exists inputData. auto.
Qed.


(** X3. The plugin is converted back, and so overwritten, only at the
    end of this chain: the converter ran, the file was read, carried no
    conversion tag and passed the dependency check, the passes ended
    without an exception and with the flag raised, the tag was added,
    the tagged document was saved and the plugin was backed up, both
    with success, in this order and right before the conversion. *)
Theorem X3_overwrite_only_after_backup
    (pluginImportPath jsonPath espPath : string) :
  In (JsonToEsp jsonPath espPath) (file_events pluginImportPath) ->
  espPath = pluginImportPath /\
  jsonPath = jsonExportPath_of pluginImportPath /\
  tes3conv pluginImportPath (jsonImportPath_of pluginImportPath) = true /\
  exists inputData masters inputData' st tagged,
    read_json (jsonImportPath_of pluginImportPath) = Parsed inputData /\
    hasConversionTag inputData pluginImportPath = false /\
    checkDependencyOrder inputData = Ok (true, masters) /\
    all_passes db customCoordinates options inputData
      (getGridOffset (conversionType options)) fresh_state = (Ok inputData', st) /\
    replacementsFlag st <> 0 /\
    addConversionTag inputData'
      (if conversionType options =? 1 then "BM->AB" else "AB->BM") options =
      Some tagged /\
    saveJsonToFile jsonPath tagged = true /\
    createBackup pluginImportPath = true /\
    exists before after,
      file_events pluginImportPath =
        before ++ SaveJson jsonPath tagged :: Backup pluginImportPath ::
                  JsonToEsp jsonPath pluginImportPath :: after.
Proof.
  intros H.
  apply in_process_file in H as [(message & H)|[H|(Hconv & inputData & Hread & H)]];
    try discriminate.
  apply in_process_document in H
    as [(message & H)|[(line & H)|[H|(masters & inputData' & st & Htag & Hdeps &
                                        Hrun & Hflag & H)]]];
    try discriminate.
  apply in_write_back in H
    as [(message & H)|[H|(tagged & Hadd & [H|(Hsave & [H|(Hbackup & [H|[_ H]])])])]];
    try discriminate.
  injection H as -> ->.
  repeat split; try assumption.
  exists inputData, masters, inputData', st, tagged.
  repeat split; try assumption.
  unfold file_events, process_file. rewrite Hconv, Hread. simpl negb. cbv iota.
  unfold process_document. rewrite Htag, Hdeps. simpl negb. cbv iota.
  fold fresh_state. rewrite Hrun.
  apply Z.eqb_neq in Hflag. rewrite Hflag.
  unfold write_back. rewrite Hadd, Hsave, Hbackup. simpl negb. cbv iota.
  exists (Log ("Processing file: " +:+ pluginImportPath) ::
          RunTes3conv pluginImportPath (jsonImportPath_of pluginImportPath) ::
          (if silentMode options then []
           else [Log ("Conversion to .JSON successful: "
                        +:+ jsonImportPath_of pluginImportPath)]) ++
          map Cerr (cerr st) ++
          map Log (logUpdatedScriptIDs (updatedScriptIDs st))).
  eexists. simpl. do 2 f_equal.
  rewrite <- !app_assoc. do 3 f_equal.
Qed.

(** The loop removes nothing but the two temporary files of the plugin
    at hand: the converted copy, and, once the conversion back has
    succeeded, the saved copy. *)
Lemma in_removed_paths (pluginImportPath path : string) :
  In (Remove path) (file_events pluginImportPath) ->
  path = jsonImportPath_of pluginImportPath \/
  path = jsonExportPath_of pluginImportPath /\
  createBackup pluginImportPath = true /\
  convertJsonToEsp (jsonExportPath_of pluginImportPath) pluginImportPath = true.
Proof.
  intros H.
  apply in_process_file in H as [(message & H)|[H|(Hconv & inputData & Hread & H)]];
    try discriminate.
  apply in_process_document in H
    as [(message & H)|[(line & H)|[H|(masters & inputData' & st & Htag & Hdeps &
                                        Hrun & Hflag & H)]]];
    try discriminate.
  { injection H as ->. left. reflexivity. }
  apply in_write_back in H
    as [(message & H)|[H|(tagged & Hadd & [H|(Hsave & [H|(Hbackup & [H|[Hc H]])])])]];
    try discriminate.
  - injection H as ->. left. reflexivity.
  - injection H as ->. right. auto.
Qed.

End MainSafety.

(** ** The validator in both directions *)

Lemma add_back a b c :
  Int32.in_range a -> b + c = 0 -> Int32.add (Int32.add a b) c = a.
Proof.
  unfold Int32.in_range, Int32.add, Int32.wrap, Int32.min_int, Int32.max_int.
  intros Ha Hbc.
  replace ((a + b + 2 ^ 31) mod 2 ^ 32 - 2 ^ 31 + c + 2 ^ 31)
    with ((a + b + 2 ^ 31) mod 2 ^ 32 - b) by lia.
  rewrite Zminus_mod_idemp_l.
  replace (a + b + 2 ^ 31 - b) with (a + 2 ^ 31) by lia.
  rewrite Z.mod_small by lia. lia.
Qed.

(** X5. A cell the database holds is valid in the forward direction, and
    the cell it is moved to is valid in the reverse direction, whatever
    the override sets hold and even where the move wraps around: what was
    converted on the strength of the database can be converted back. *)
Theorem X5_database_cell_valid_both_ways
    (db : Database) (forwardCustom reverseCustom : gset (Z * Z))
    (forwardOptions reverseOptions : ProgramOptions) (gridX gridY : Z) :
  db_prepare db = SQLITE_OK ->
  db_step db gridX gridY = SQLITE_ROW ->
  Int32.in_range gridX -> Int32.in_range gridY ->
  conversionType forwardOptions = 1 ->
  conversionType reverseOptions = 2 ->
  let forward := getGridOffset (conversionType forwardOptions) in
  fst (isCoordinateValid db gridX gridY forwardCustom forwardOptions) = true /\
  fst (isCoordinateValid db (Int32.add gridX (offsetX forward))
         (Int32.add gridY (offsetY forward)) reverseCustom reverseOptions) = true.
Proof.
  intros Hok Hrow Hx Hy Hf Hr forward. unfold forward.
  rewrite !isCoordinateValid_prepared by assumption.
  unfold adjustedGrid. rewrite Hf, Hr. simpl.
  rewrite (add_back gridX 7 (-7) Hx eq_refl), (add_back gridY 6 (-6) Hy eq_refl).
  rewrite Hrow. auto.
Qed.

Lemma X5_database_cell_valid_both_ways_witness :
  fst (isCoordinateValid (db_of_rows [(10, 4)]) 10 4 ∅ forward_options) = true /\
  fst (isCoordinateValid (db_of_rows [(10, 4)]) 17 10 ∅ reverse_options) = true.
Proof.
  apply (X5_database_cell_valid_both_ways (db_of_rows [(10, 4)]) ∅ ∅
           forward_options reverse_options 10 4);
    try reflexivity; split; discriminate.
Defined.

(** ** The list of updated scripts *)

Lemma uniqueIDs_elem seenIDs ids id :
  id ∈ uniqueIDs seenIDs ids <-> id ∈ ids /\ id ∉ seenIDs.
Proof.
  revert seenIDs. induction ids as [|x ids IH]; intros seenIDs; simpl.
  - rewrite !elem_of_nil. tauto.
  - destruct (bool_decide (x ∈ seenIDs)) eqn:Hx.
    + apply bool_decide_eq_true in Hx. rewrite IH, elem_of_cons.
      split; [tauto|]. intros [[->|H] Hn]; tauto.
    + apply bool_decide_eq_false in Hx. rewrite !elem_of_cons, IH.
      split.
      * intros [->|[H Hn]]; [tauto|]. split; [tauto|]. set_solver.
      * intros [[->|H] Hn]; [tauto|].
        destruct (decide (id = x)) as [->|Hne]; [tauto|]. right. split; [exact H|].
        set_solver.
Qed.

Lemma uniqueIDs_NoDup seenIDs ids : NoDup (uniqueIDs seenIDs ids).
Proof.
  revert seenIDs. induction ids as [|x ids IH]; intros seenIDs; simpl.
  - constructor.
  - destruct (bool_decide (x ∈ seenIDs)); [apply IH|].
    constructor; [|apply IH]. rewrite uniqueIDs_elem. set_solver.
Qed.

Lemma uniqueIDs_sublist seenIDs ids : uniqueIDs seenIDs ids `sublist_of` ids.
Proof.
  revert seenIDs. induction ids as [|x ids IH]; intros seenIDs; simpl.
  - constructor.
  - destruct (bool_decide (x ∈ seenIDs)).
    + apply sublist_cons. apply IH.
    + apply sublist_skip. apply IH.
Qed.

(** X6. Of a list of updated scripts that is not empty,
    [logUpdatedScriptIDs] logs a heading and one line for each script,
    each once, in the order in which the scripts were first noted; of an
    empty list it logs that no script was updated. *)
Theorem X6_updated_scripts_listed_once (updatedScriptIDs : list string) :
  (updatedScriptIDs = [] ->
   logUpdatedScriptIDs updatedScriptIDs = ["No scripts were updated..."]) /\
  (updatedScriptIDs <> [] ->
   exists listed,
     logUpdatedScriptIDs updatedScriptIDs =
       "Updated scripts list:" :: map (fun id => "- Script ID: " +:+ id) listed /\
     NoDup listed /\
     (forall id, id ∈ listed <-> id ∈ updatedScriptIDs) /\
     listed `sublist_of` updatedScriptIDs /\
     (forall id before after,
        updatedScriptIDs = before ++ id :: after -> id ∉ before ->
        exists earlier later,
          listed = earlier ++ id :: later /\
          (forall x, x ∈ earlier <-> x ∈ before))).
Proof.
  split; [intros ->; reflexivity|]. intros Hne.
  exists (uniqueIDs ∅ updatedScriptIDs). split.
  { destruct updatedScriptIDs; [contradiction | reflexivity]. }
  split; [apply uniqueIDs_NoDup|]. split.
  { intros id. rewrite uniqueIDs_elem. set_solver. }
  split; [apply uniqueIDs_sublist|].
  intros id before after -> Hid.
  assert (Hsplit : forall seenIDs l1 l2,
            id ∉ l1 -> id ∉ seenIDs ->
            uniqueIDs seenIDs (l1 ++ id :: l2) =
              uniqueIDs seenIDs l1 ++
              id :: uniqueIDs ({[id]} ∪ (list_to_set l1 ∪ seenIDs)) l2).
  { intros seenIDs l1. revert seenIDs.
    induction l1 as [|x l1 IH]; intros seenIDs l2 Hl1 Hseen; simpl.
    - rewrite bool_decide_eq_false_2 by exact Hseen.
      replace ({[id]} ∪ (∅ ∪ seenIDs)) with ({[id]} ∪ seenIDs) by set_solver.
      reflexivity.
    - apply not_elem_of_cons in Hl1 as [Hne1 Hl1].
      destruct (bool_decide (x ∈ seenIDs)) eqn:Hx.
      + apply bool_decide_eq_true in Hx. rewrite IH by assumption.
        replace ({[id]} ∪ ({[x]} ∪ list_to_set l1 ∪ seenIDs))
          with ({[id]} ∪ (list_to_set l1 ∪ seenIDs)) by set_solver.
        reflexivity.
      + apply bool_decide_eq_false in Hx. rewrite IH by set_solver. simpl.
        replace ({[id]} ∪ ({[x]} ∪ list_to_set l1 ∪ seenIDs))
          with ({[id]} ∪ (list_to_set l1 ∪ ({[x]} ∪ seenIDs))) by set_solver.
        reflexivity. }
  rewrite Hsplit by set_solver.
  eexists _, _. split; [reflexivity|].
  intros x. rewrite uniqueIDs_elem. set_solver.
Qed.

Lemma X2_broken_database_writes_nothing_witness :
  db_prepare (db_broken "no such table") <> SQLITE_OK /\
  existsb is_write_back
    (sample_batch sample_world (db_broken "no such table") {[ (10, 4) ]}
       forward_options ["first.esp"; "second.esp"]) = false.
Proof.
  split; [discriminate|].
  apply (X2_broken_database_writes_nothing (fun _ _ => false) (fun d _ _ => Some d)
           (fun _ _ => true) (fun _ => true) (fun _ _ => true) (fun _ _ => true)
           (fun _ => Parsed sample_world)
           (fun p => p +:+ ".json") (fun p => "TEMP_" +:+ p +:+ ".json")
           (fun _ => "exception") (db_broken "no such table") {[ (10, 4) ]}
           forward_options).
  discriminate.
Defined.

Lemma X3_overwrite_only_after_backup_witness :
  In (JsonToEsp "TEMP_first.esp.json" "first.esp")
     (sample_file sample_world (db_of_rows [(10, 4)]) ∅ forward_options "first.esp") /\
  exists tagged before after,
    sample_file sample_world (db_of_rows [(10, 4)]) ∅ forward_options "first.esp" =
      before ++ SaveJson "TEMP_first.esp.json" tagged :: Backup "first.esp" ::
                JsonToEsp "TEMP_first.esp.json" "first.esp" :: after.
Proof.
  assert (H : In (JsonToEsp "TEMP_first.esp.json" "first.esp")
                (sample_file sample_world (db_of_rows [(10, 4)]) ∅ forward_options
                   "first.esp")).
  { vm_compute. do 5 right. left. reflexivity. }
  split; [exact H|].
  destruct (X3_overwrite_only_after_backup (fun _ _ => false) (fun d _ _ => Some d)
              (fun _ _ => true) (fun _ => true) (fun _ _ => true) (fun _ _ => true)
              (fun _ => Parsed sample_world)
              (fun p => p +:+ ".json") (fun p => "TEMP_" +:+ p +:+ ".json")
              (fun _ => "exception") (db_of_rows [(10, 4)]) ∅ forward_options
              "first.esp" "TEMP_first.esp.json" "first.esp" H)
    as (_ & _ & _ & inputData & masters & inputData' & st & tagged & _ & _ & _ & _ &
        _ & _ & _ & _ & before & after & Hevents).
  exists tagged, before, after. exact Hevents.
Defined.

Lemma X6_updated_scripts_listed_once_witness :
  exists listed,
    logUpdatedScriptIDs ["idle"; "guard"; "idle"] =
      "Updated scripts list:" :: map (fun id => "- Script ID: " +:+ id) listed /\
    NoDup listed.
Proof.
  destruct (proj2 (X6_updated_scripts_listed_once ["idle"; "guard"; "idle"]))
    as (listed & Hlog & Hnodup & _); [discriminate|].
  exists listed. split; assumption.
Defined.

(** ** There and back *)

Lemma obj_set_set key v w members :
  obj_set key w (obj_set key v members) = obj_set key w members.
Proof.
  induction members as [|[k u] members IH]; simpl.
  - rewrite String.eqb_refl. reflexivity.
  - destruct (String.eqb k key) eqn:E; simpl; rewrite E; [reflexivity|].
    rewrite IH. reflexivity.
Qed.

Lemma obj_set_back key v w members :
  obj_lookup key members = Some v ->
  obj_set key v (obj_set key w members) = members.
Proof. intros H. rewrite obj_set_set. apply obj_set_same. exact H. Qed.

Lemma obj_set_comm k1 k2 v1 v2 members :
  k1 <> k2 ->
  is_Some (obj_lookup k1 members) -> is_Some (obj_lookup k2 members) ->
  obj_set k1 v1 (obj_set k2 v2 members) = obj_set k2 v2 (obj_set k1 v1 members).
Proof.
  intros Hne. induction members as [|[k u] members IH]; simpl.
  - intros [? [=]].
  - destruct (String.eqb k k1) eqn:E1, (String.eqb k k2) eqn:E2; simpl;
      rewrite ?E1, ?E2; try reflexivity.
    + apply String.eqb_eq in E1, E2. congruence.
    + intros H1 H2. rewrite IH by assumption. reflexivity.
Qed.

Lemma with_cerr_nil st : with_cerr [] st = st.
Proof. destruct st. unfold with_cerr. simpl. rewrite app_nil_r. reflexivity. Qed.

Lemma valid_no_lines db gx gy customCoordinates options :
  fst (isCoordinateValid db gx gy customCoordinates options) = true ->
  snd (isCoordinateValid db gx gy customCoordinates options) = [].
Proof.
  intros H. pose proof (valid_prepared _ _ _ _ _ H) as Hp.
  rewrite isCoordinateValid_prepared by exact Hp.
  destruct (adjustedGrid options gx gy). reflexivity.
Qed.

(** *** Coordinates of references *)

Lemma cells_of_Z c K :
  0 <= K <= 20 -> Z.abs c <= 2 ^ 17 ->
  Double.of_Z (Int32.mul c 8192) = dbl (c * 2 ^ (13 + K)) (- K).
Proof.
  intros HK Hc. destruct (pow2_cell K HK) as (_ & _ & HP).
  rewrite Int32Facts.mul_exact
    by (unfold Int32.in_range, Int32.min_int, Int32.max_int; lia).
  unfold Double.of_Z. fold (dbl (c * 8192) 0).
  apply dbl_val; [nia | lia | lia | apply val_cells; exact HK].
Qed.

Lemma shift_there_and_back n K c c' :
  0 <= K <= 20 -> Z.abs n < 2 ^ (31 + K) -> Z.abs c <= 2 ^ 17 -> c + c' = 0 ->
  Double.add (Double.add (dbl n (- K)) (Double.of_Z (Int32.mul c 8192)))
             (Double.of_Z (Int32.mul c' 8192)) = dbl n (- K).
Proof.
  intros HK Hn Hc Hcc. destruct (pow2_cell K HK) as (H31 & _ & HP).
  rewrite (cells_of_Z c K), (cells_of_Z c' K) by lia.
  set (P := 2 ^ (13 + K)) in *.
  rewrite dbl_add by (try lia; nia).
  rewrite dbl_add by (try lia; nia).
  f_equal. nia.
Qed.

Lemma marked_deleted_set_translation members t :
  marked_deleted (JObject (obj_set "translation" t members)) =
    marked_deleted (JObject members).
Proof. simpl. rewrite obj_lookup_set_ne by discriminate. reflexivity. Qed.

Lemma shifted_there_and_back K reference :
  0 <= K <= 20 ->
  exact_reference K reference ->
  shifted_reference (getGridOffset 2) (shifted_reference (getGridOffset 1) reference) =
    reference.
Proof.
  intros HK Hexact. unfold shifted_reference at 2.
  destruct (marked_deleted reference) eqn:Hdel.
  { unfold shifted_reference. rewrite Hdel. reflexivity. }
  destruct reference as [| | | | | |members];
    try (unfold shifted_reference; rewrite Hdel; reflexivity).
  destruct (movable_translation (JObject members)) as [[[dx dy] rest]|] eqn:Hmov.
  2:{ unfold shifted_reference. rewrite Hdel, Hmov. reflexivity. }
  simpl in Hmov.
  destruct (obj_lookup "temporary" members) as [tm|] eqn:Htm; [|discriminate].
  destruct (obj_lookup "translation" members) as [[| | | | |[|x [|y rest']]|]|] eqn:Htr;
    try discriminate.
  destruct (Hexact members x y rest' eq_refl Hdel ltac:(eauto) Htr)
    as [(n & Hn & ->) (m & Hm & ->)].
  simpl in Hmov. injection Hmov as <- <- <-.
  unfold shifted_reference. rewrite marked_deleted_set_translation, Hdel.
  simpl movable_translation.
  rewrite obj_lookup_set_ne by discriminate. rewrite Htm.
  rewrite obj_lookup_set_eq. simpl.
  rewrite obj_set_set.
  change (binary_round Double.prec Double.emax false 57344 0)
    with (Double.of_Z (Int32.mul 7 8192)).
  change (binary_round Double.prec Double.emax true 57344 0)
    with (Double.of_Z (Int32.mul (-7) 8192)).
  change (binary_round Double.prec Double.emax false 49152 0)
    with (Double.of_Z (Int32.mul 6 8192)).
  change (binary_round Double.prec Double.emax true 49152 0)
    with (Double.of_Z (Int32.mul (-6) 8192)).
  rewrite (shift_there_and_back n K 7 (-7)), (shift_there_and_back m K 6 (-6))
    by (assumption || (simpl; lia)).
  rewrite (obj_set_same _ _ _ Htr). reflexivity.
Qed.

Lemma shifted_reference_ok options offset reference :
  reference_ok options reference = true ->
  reference_ok options (shifted_reference offset reference) = true /\
  moved (shifted_reference offset reference) = moved reference.
Proof.
  intros Hok. unfold shifted_reference.
  destruct (marked_deleted reference) eqn:Hdel; [auto|].
  destruct reference as [| | | | | |members]; auto.
  destruct (movable_translation (JObject members)) as [[[dx dy] rest]|] eqn:Hmov; auto.
  unfold moved. rewrite marked_deleted_set_translation, Hdel, Hmov.
  unfold reference_ok, movable_translation, marked_deleted in *.
  rewrite !obj_lookup_set_ne by discriminate. rewrite obj_lookup_set_eq.
  destruct (obj_lookup "temporary" members) as [tm|]; [|discriminate].
  destruct (obj_lookup "translation" members) as [[| | | | |[|x [|y rest']]|]|];
    try discriminate.
  rewrite (obj_lookup_set_ne "translation" "id") by discriminate.
  simpl get_double. simpl is_number. cbv iota.
  split; [|reflexivity].
  destruct (obj_lookup "deleted" members) as [[|[|]| | | | |]|];
    try discriminate; try reflexivity.
  - apply andb_true_iff in Hok as [_ Hok]. exact Hok.
  - apply andb_true_iff in Hok as [_ Hok]. exact Hok.
Qed.

Lemma processTranslation_maps offset options members references st :
  obj_lookup "references" members = Some (JArray references) ->
  Forall (fun r => reference_ok options r = true) references ->
  processTranslation (JObject members) offset options st =
    (Ok (JObject (obj_set "references"
                    (JArray (map (shifted_reference offset) references)) members)),
     if existsb moved references then flagged st else st).
Proof.
  intros Hrefs Hok. unfold processTranslation.
  rewrite (contains_some _ _ _ Hrefs).
  unfold key, at_key. rewrite Hrefs. simpl default. unfold for_each.
  assert (Hmap : mapM (processTranslation_reference offset options) references st =
            (Ok (map (shifted_reference offset) references),
             if existsb moved references then flagged st else st)).
  { apply (mapM_ok (processTranslation_reference offset options)
                 (shifted_reference offset) moved flagged references flagged_idem).
    intros x st' Hx. apply processTranslation_reference_ok.
    rewrite Forall_forall in Hok. apply Hok. exact Hx. }
  unfold bind, lift, ret. simpl. rewrite Hmap. reflexivity.
Qed.

Lemma processTranslation_no_references offset options members st :
  (forall references, obj_lookup "references" members <> Some (JArray references)) ->
  processTranslation (JObject members) offset options st = (Ok (JObject members), st).
Proof.
  intros Hno. unfold processTranslation.
  destruct (obj_lookup "references" members) as [r|] eqn:Hr.
  - rewrite (contains_some _ _ _ Hr). unfold key, at_key. rewrite Hr. simpl default.
    destruct r; try reflexivity. exfalso. eapply Hno. reflexivity.
  - rewrite (contains_none _ _ Hr). reflexivity.
Qed.

(** The second guard of [processGridValues] reads, and ends well. *)
Lemma hasDataGrid_total (item : json) st :
  exists b,
    (if contains item "data"
     then d <- key item "data" ;;
          if contains d "grid"
          then g <- key d "grid" ;; ret (is_array g)
          else ret false
     else ret false) st = (Ok b, st).
Proof.
  destruct (contains item "data") eqn:Hc; [|eexists; reflexivity].
  destruct item as [| | | | | |members]; try discriminate.
  apply contains_lookup in Hc as [d Hd].
  unfold key, at_key, bind, lift. rewrite Hd.
  change (default JNull (Some d)) with d.
  destruct (contains d "grid") eqn:Hg; [|eexists; reflexivity].
  destruct d as [| | | | | |dm]; try discriminate.
  eexists. reflexivity.
Qed.

(** [processGridValues] on a record whose cell, read from the top-level
    grid, is valid. *)
Lemma processGridValues_item_valid db offset customCoordinates options
    members typeName gx gy rest st :
  obj_lookup "type" members = Some (JString typeName) ->
  typeName ∈ typeNames ->
  obj_lookup "grid" members = Some (JArray (JInt gx :: JInt gy :: rest)) ->
  Int32.in_range gx -> Int32.in_range gy ->
  fst (isCoordinateValid db gx gy customCoordinates options) = true ->
  processGridValues_item db offset customCoordinates options (JObject members) st =
    let item1 :=
      JObject (obj_set "grid"
                 (JArray (JInt (Int32.add gx (offsetX offset)) ::
                          JInt (Int32.add gy (offsetY offset)) :: rest)) members) in
    match (if String.eqb typeName "Cell"
           then processTranslation item1 offset options
           else ret item1) st with
    | (Ok item2, st2) => (Ok item2, flagged st2)
    | (Throw e, st2) => (Throw e, st2)
    end.
Proof.
  intros Htype Hsup Hgrid Hx Hy Hvalid.
  unfold processGridValues_item.
  rewrite (contains_some _ _ _ Htype), (contains_some _ _ _ Hgrid).
  rewrite (bind_ok _ _ st true st).
  2:{ unfold key, at_key, bind, lift, ret. rewrite Htype. simpl.
      rewrite (bool_decide_eq_true_2 _ Hsup). reflexivity. }
  cbv beta. cbn [negb andb].
  rewrite (bind_ok _ _ st (JString typeName) st)
    by (unfold key, at_key, lift; rewrite Htype; reflexivity).
  cbv beta.
  rewrite (bind_ok _ _ st typeName st) by reflexivity.
  cbv beta.
  rewrite (bind_ok _ _ st true st)
    by (unfold key, at_key, bind, lift, ret; rewrite Hgrid; reflexivity).
  cbv beta.
  destruct (hasDataGrid_total (JObject members) st) as [b Hb].
  rewrite (bind_ok _ _ st b st) by exact Hb.
  cbv beta.
  cbn [negb andb].
  rewrite (bind_ok _ _ st (JArray (JInt gx :: JInt gy :: rest)) st)
    by (unfold key, at_key, lift; rewrite Hgrid; reflexivity).
  cbv beta.
  rewrite (bind_ok _ _ st (JInt gx) st) by reflexivity.
  cbv beta.
  rewrite (bind_ok _ _ st gx st)
    by (unfold lift; simpl; rewrite Int32Facts.wrap_id by assumption; reflexivity).
  cbv beta.
  rewrite (bind_ok _ _ st (JInt gy) st) by reflexivity.
  cbv beta.
  rewrite (bind_ok _ _ st gy st)
    by (unfold lift; simpl; rewrite Int32Facts.wrap_id by assumption; reflexivity).
  cbv beta.
  rewrite (bind_ok _ _ st true st).
  2:{ rewrite coordinateValid_result, Hvalid, (valid_no_lines _ _ _ _ _ Hvalid),
        with_cerr_nil. reflexivity. }
  cbv beta iota zeta.
  rewrite (bind_ok _ _ st
             (JArray (JInt (Int32.add gx (offsetX offset)) :: JInt gy :: rest)) st)
    by reflexivity.
  cbv beta.
  rewrite (bind_ok _ _ st
             (JArray (JInt (Int32.add gx (offsetX offset)) ::
                      JInt (Int32.add gy (offsetY offset)) :: rest)) st)
    by reflexivity.
  cbv beta.
  rewrite (bind_ok _ _ st
             (JObject (obj_set "grid"
                (JArray (JInt (Int32.add gx (offsetX offset)) ::
                         JInt (Int32.add gy (offsetY offset)) :: rest)) members)) st)
    by reflexivity.
  cbv beta.
  unfold bind.
  destruct (String.eqb typeName "Cell").
  - destruct (processTranslation _ _ _ st) as [[item2|e] st2]; reflexivity.
  - reflexivity.
Qed.

Lemma classic_array (j : json) :
  (exists elems, j = JArray elems) \/ (forall elems, j <> JArray elems).
Proof. destruct j; try (right; discriminate). left. eauto. Qed.

Lemma add_in_range a b : Int32.in_range (Int32.add a b).
Proof. apply Int32Facts.wrap_in_range. Qed.

Lemma map_there_and_back K references :
  0 <= K <= 20 ->
  Forall (exact_reference K) references ->
  map (shifted_reference (getGridOffset 2))
    (map (shifted_reference (getGridOffset 1)) references) = references.
Proof.
  intros HK. induction 1 as [|r rs Hr _ IH]; simpl; [reflexivity|].
  rewrite (shifted_there_and_back K r HK Hr), IH. reflexivity.
Qed.

(** X7. A Cell, Landscape or PathGrid record whose cell, given as two
    integers in a top-level grid, is in the database, converted forward
    and then in reverse, is the record it was: the grid is moved by
    (7, 6) and back, also where the move wraps around, and the
    coordinates of the references of a Cell, when they are floats with at
    most twenty binary places and below [2^31], are moved by the same
    number of cells and back without a rounding. *)
Theorem X7_record_there_and_back
    (db : Database) (forwardCustom reverseCustom : gset (Z * Z))
    (forwardOptions reverseOptions : ProgramOptions)
    (members : list (string * json)) (typeName : string)
    (gridX gridY : Z) (rest : list json) (K : Z) (st : pass_state) :
  db_prepare db = SQLITE_OK ->
  db_step db gridX gridY = SQLITE_ROW ->
  Int32.in_range gridX -> Int32.in_range gridY ->
  conversionType forwardOptions = 1 ->
  conversionType reverseOptions = 2 ->
  obj_lookup "type" members = Some (JString typeName) ->
  typeName ∈ typeNames ->
  obj_lookup "grid" members = Some (JArray (JInt gridX :: JInt gridY :: rest)) ->
  0 <= K <= 20 ->
  (typeName = "Cell" ->
   Forall (fun r => reference_ok forwardOptions r = true /\
                    reference_ok reverseOptions r = true /\
                    exact_reference K r) (references_of members)) ->
  exists moved,
    processGridValues_item db (getGridOffset (conversionType forwardOptions))
      forwardCustom forwardOptions (JObject members) st = (Ok moved, flagged st) /\
    const_at_key moved "grid" =
      JArray (JInt (Int32.add gridX 7) :: JInt (Int32.add gridY 6) :: rest) /\
    processGridValues_item db (getGridOffset (conversionType reverseOptions))
      reverseCustom reverseOptions moved (flagged st) = (Ok (JObject members), flagged st).
Proof.
  intros Hok Hrow Hx Hy Hf Hr Htype Hsup Hgrid HK Hrefs.
  assert (Hvf : fst (isCoordinateValid db gridX gridY forwardCustom forwardOptions) = true).
  { rewrite isCoordinateValid_prepared by assumption.
    unfold adjustedGrid. rewrite Hf. simpl. rewrite Hrow. reflexivity. }
  assert (Hvr : fst (isCoordinateValid db (Int32.add gridX 7) (Int32.add gridY 6)
                       reverseCustom reverseOptions) = true).
  { rewrite isCoordinateValid_prepared by assumption.
    unfold adjustedGrid. rewrite Hr. simpl.
    rewrite (add_back gridX 7 (-7) Hx eq_refl), (add_back gridY 6 (-6) Hy eq_refl), Hrow.
    reflexivity. }
  rewrite Hf, Hr.
  rewrite (processGridValues_item_valid db (getGridOffset 1) forwardCustom forwardOptions
             members typeName gridX gridY rest st) by assumption.
  cbv zeta. change (offsetX (getGridOffset 1)) with 7.
  change (offsetY (getGridOffset 1)) with 6.
  set (grid := JArray (JInt gridX :: JInt gridY :: rest)) in *.
  set (moved_grid := JArray (JInt (Int32.add gridX 7) :: JInt (Int32.add gridY 6) :: rest)).
  assert (Hback : forall inner s,
            obj_lookup "type" inner = Some (JString typeName) ->
            obj_lookup "grid" inner = Some moved_grid ->
            processGridValues_item db (getGridOffset 2) reverseCustom reverseOptions
              (JObject inner) s =
            match (if String.eqb typeName "Cell"
                   then processTranslation (JObject (obj_set "grid" grid inner))
                          (getGridOffset 2) reverseOptions
                   else ret (JObject (obj_set "grid" grid inner))) s with
            | (Ok item2, st2) => (Ok item2, flagged st2)
            | (Throw e, st2) => (Throw e, st2)
            end).
  { intros inner s Hit Hig.
    rewrite (processGridValues_item_valid db (getGridOffset 2) reverseCustom
               reverseOptions inner typeName (Int32.add gridX 7) (Int32.add gridY 6) rest);
      try assumption; try apply add_in_range.
    cbv zeta. change (offsetX (getGridOffset 2)) with (-7).
    change (offsetY (getGridOffset 2)) with (-6).
    rewrite (add_back gridX 7 (-7) Hx eq_refl), (add_back gridY 6 (-6) Hy eq_refl).
    reflexivity. }
  destruct (String.eqb typeName "Cell") eqn:Hcell.
  - apply String.eqb_eq in Hcell. specialize (Hrefs Hcell).
    destruct (obj_lookup "references" members) as [r|] eqn:Hlook.
    2:{ (* no references at all *)
      rewrite processTranslation_no_references
        by (intros refs; rewrite obj_lookup_set_ne by discriminate; congruence).
      eexists. split; [reflexivity|]. split.
      { simpl. rewrite obj_lookup_set_eq. reflexivity. }
      rewrite Hback.
      2:{ rewrite obj_lookup_set_ne by discriminate. exact Htype. }
      2:{ apply obj_lookup_set_eq. }
      rewrite (obj_set_back _ _ _ _ Hgrid).
      rewrite processTranslation_no_references by (intros refs; congruence).
      reflexivity. }
    destruct (classic_array r) as [[references ->]|Hnot].
    2:{ (* references that are no array *)
      rewrite processTranslation_no_references
        by (intros refs; rewrite obj_lookup_set_ne by discriminate;
            rewrite Hlook; intros [= ->]; apply (Hnot refs); reflexivity).
      eexists. split; [reflexivity|]. split.
      { simpl. rewrite obj_lookup_set_eq. reflexivity. }
      rewrite Hback.
      2:{ rewrite obj_lookup_set_ne by discriminate. exact Htype. }
      2:{ apply obj_lookup_set_eq. }
      rewrite (obj_set_back _ _ _ _ Hgrid).
      rewrite processTranslation_no_references
        by (intros refs; rewrite Hlook; intros [= ->]; apply (Hnot refs); reflexivity).
      reflexivity. }
    unfold references_of in Hrefs. rewrite Hlook in Hrefs.
    rewrite (processTranslation_maps (getGridOffset 1) forwardOptions _ references).
    2:{ rewrite obj_lookup_set_ne by discriminate. exact Hlook. }
    2:{ eapply Forall_impl; [exact Hrefs|]. intros x (H & _). exact H. }
    set (moved_refs := JArray (map (shifted_reference (getGridOffset 1)) references)).
    eexists. split.
    { destruct (existsb moved references); reflexivity. }
    split.
    { simpl. rewrite obj_lookup_set_ne by discriminate.
      rewrite obj_lookup_set_eq. reflexivity. }
    rewrite Hback.
    2:{ rewrite !obj_lookup_set_ne by discriminate. exact Htype. }
    2:{ rewrite obj_lookup_set_ne by discriminate. apply obj_lookup_set_eq. }
    rewrite (obj_set_comm "grid" "references")
      by (try discriminate; rewrite ?obj_lookup_set_eq,
            ?obj_lookup_set_ne by discriminate; eauto).
    rewrite (obj_set_back _ _ _ _ Hgrid).
    rewrite (processTranslation_maps (getGridOffset 2) reverseOptions _
               (map (shifted_reference (getGridOffset 1)) references)).
    2:{ apply obj_lookup_set_eq. }
    2:{ apply Forall_map. eapply Forall_impl; [exact Hrefs|].
        intros x (_ & H & _). simpl. apply shifted_reference_ok. exact H. }
    rewrite obj_set_set.
    rewrite (map_there_and_back K)
      by first [assumption
               | eapply Forall_impl; [exact Hrefs|]; intros x (_ & _ & H); exact H].
    rewrite (obj_set_same _ _ _ Hlook).
    destruct (existsb moved _); reflexivity.
  - eexists. split; [reflexivity|]. split.
    { simpl. rewrite obj_lookup_set_eq. reflexivity. }
    rewrite Hback.
    2:{ rewrite obj_lookup_set_ne by discriminate. exact Htype. }
    2:{ apply obj_lookup_set_eq. }
    rewrite (obj_set_back _ _ _ _ Hgrid). reflexivity.
Qed.

Lemma X7_record_there_and_back_witness :
  exists moved,
    processGridValues_item (db_of_rows [(10, 4)]) (getGridOffset 1) ∅ forward_options
      (JObject sample_exact_cell_members) fresh_state = (Ok moved, flagged fresh_state) /\
    const_at_key moved "grid" = JArray [JInt (Int32.add 10 7); JInt (Int32.add 4 6)] /\
    processGridValues_item (db_of_rows [(10, 4)]) (getGridOffset 2) ∅ reverse_options
      moved (flagged fresh_state) =
      (Ok (JObject sample_exact_cell_members), flagged fresh_state).
Proof.
  apply (X7_record_there_and_back (db_of_rows [(10, 4)]) ∅ ∅ forward_options
           reverse_options sample_exact_cell_members "Cell" 10 4 [] 10 fresh_state);
    try reflexivity; try (split; discriminate); try lia.
  - unfold typeNames. set_solver.
  - intros _. apply Forall_cons. split; [|apply Forall_nil; exact I].
    split; [reflexivity|]. split; [reflexivity|].
    intros ms a b more [= <-] _ _ [= <- <- <-].
    split; [exists 84992517 | exists 34304000]; split; reflexivity.
Defined.

(** ** Translations in a row *)

(** X8. On a coordinate with at most twenty binary places and below
    [2^31], translating by [o1] cells and then, from the cell reached, by
    [o2] cells is translating by [o1 + o2] cells at once, bit for bit,
    and the cell reached is the cell of the coordinate plus [o1 + o2]. *)
Theorem X8_translations_compose (n K o1 o2 : Z) :
  0 <= K <= 20 -> Z.abs n < 2 ^ (31 + K) ->
  Z.abs o1 < 2 ^ 17 -> Z.abs o2 < 2 ^ 17 ->
  let x := dbl n (- K) in
  let x1 := translateCoord x (cellOf x) o1 in
  let x2 := translateCoord x1 (cellOf x1) o2 in
  x2 = translateCoord x (cellOf x) (o1 + o2) /\
  cellOf x2 = cellOf x + (o1 + o2).
Proof.
  intros HK Hn Ho1 Ho2 x x1 x2.
  destruct (pow2_cell K HK) as (H31 & H32 & HP).
  destruct (cell_bounds n K HK Hn) as (Hc & Hr).
  set (P := 2 ^ (13 + K)) in *.
  assert (Hx : cellOf x = n / P) by (apply cellOf_dbl; lia).
  assert (Hx1 : x1 = dbl (n + o1 * P) (- K)).
  { unfold x1. rewrite Hx. apply translateCoord_dbl; fold P; lia. }
  assert (Hn1 : Z.abs (n + o1 * P) < 2 ^ (32 + K)) by nia.
  assert (Hc1 : cellOf x1 = n / P + o1).
  { rewrite Hx1, cellOf_dbl by assumption. fold P. apply Z.div_add. lia. }
  assert (Hx2 : x2 = dbl (n + (o1 + o2) * P) (- K)).
  { unfold x2. rewrite Hc1, Hx1. rewrite translateCoord_dbl; fold P; try lia.
    f_equal. ring. }
  assert (Hn2 : Z.abs (n + (o1 + o2) * P) < 2 ^ (32 + K)) by nia.
  split.
  - rewrite Hx2, Hx. symmetry. apply translateCoord_dbl; fold P; lia.
  - rewrite Hx2, cellOf_dbl by assumption. fold P. rewrite Hx. apply Z.div_add. lia.
Qed.

Lemma X8_translations_compose_witness :
  translateCoord (translateCoord sample_coordinate (cellOf sample_coordinate) 7)
    (cellOf (translateCoord sample_coordinate (cellOf sample_coordinate) 7)) (-3) =
  translateCoord sample_coordinate (cellOf sample_coordinate) (7 + -3).
Proof.
  apply (X8_translations_compose 84992517 10 7 (-3)); try reflexivity.
  split; discriminate.
Defined.

(** ** Malformed records *)

Lemma translate_pair_throws db offset customCoordinates options elems st :
  ~ starts_with_two_numbers elems ->
  translate_pair db offset customCoordinates options (JArray elems) st =
    (Throw (json_type_error 302), st).
Proof.
  intros Hbad. unfold translate_pair, idx, at_idx, bind, lift. simpl.
  destruct elems as [|x [|y rest]]; simpl.
  - reflexivity.
  - destruct x; reflexivity.
  - destruct x; try reflexivity; destruct y; try reflexivity;
      exfalso; apply Hbad; eexists _, _, _; eauto.
Qed.

(** X9. A travel destination, or the destination of a door of an
    interior cell, whose translation array does not start with two
    numbers (an empty array, one number, a string) makes the pass raise
    the type error 302 of the JSON library, before the database is asked
    and whether or not anything is to be translated. *)
Theorem X9_malformed_translation_throws
    (db : Database) (offset : GridOffset) (customCoordinates : gset (Z * Z))
    (options : ProgramOptions) (members : list (string * json))
    (elems : list json) (st : pass_state) :
  ~ starts_with_two_numbers elems ->
  (obj_lookup "translation" members = Some (JArray elems) ->
   processNpcTravel_destination db offset customCoordinates options
     (JObject members) st = (Throw (json_type_error 302), st)) /\
  (forall own dm,
     obj_lookup "translation" members = Some (JArray own) ->
     obj_lookup "destination" members = Some (JObject dm) ->
     obj_lookup "translation" dm = Some (JArray elems) ->
     processInteriorDoors_reference db offset customCoordinates options
       (JObject members) st = (Throw (json_type_error 302), st)).
Proof.
  intros Hbad. split.
  - intros Ht. unfold processNpcTravel_destination.
    rewrite (contains_some _ _ _ Ht).
    unfold key, at_key, bind, lift, ret. rewrite Ht.
    cbn [from_option id is_array].
    rewrite (translate_pair_throws _ _ _ _ _ _ Hbad). reflexivity.
  - intros own dm Hown Hdest Hdt. unfold processInteriorDoors_reference.
    rewrite (contains_some _ _ _ Hown), (contains_some _ _ _ Hdest).
    unfold key, at_key, bind, lift, ret. rewrite Hown, Hdest.
    cbn [from_option id is_array andb].
    rewrite (contains_some _ _ _ Hdt), Hdt.
    cbn [from_option id is_array andb].
    rewrite (translate_pair_throws _ _ _ _ _ _ Hbad). reflexivity.
Qed.

Lemma X9_malformed_translation_throws_witness :
  processNpcTravel_destination (db_of_rows [(10, 4)]) (getGridOffset 1) ∅
    forward_options (JObject [("translation", JArray [JInt 5])]) fresh_state =
    (Throw (json_type_error 302), fresh_state).
Proof.
  apply (X9_malformed_translation_throws (db_of_rows [(10, 4)]) (getGridOffset 1) ∅
           forward_options [("translation", JArray [JInt 5])] [JInt 5] fresh_state).
  - intros (x & y & rest & H & _). discriminate.
  - reflexivity.
Defined.

Section Exceptions.

Variable hasConversionTag : json -> string -> bool.
Variable addConversionTag : json -> string -> ProgramOptions -> option json.
Variable saveJsonToFile : string -> json -> bool.
Variable createBackup : string -> bool.
Variable convertJsonToEsp : string -> string -> bool.
Variable tes3conv : string -> string -> bool.
Variable read_json : string -> read_result.
Variables jsonImportPath_of jsonExportPath_of : string -> string.
Variable what : exn -> string.
Variable db : Database.
Variable customCoordinates : gset (Z * Z).
Variable options : ProgramOptions.

Let file_events :=
  process_file hasConversionTag addConversionTag saveJsonToFile createBackup
    convertJsonToEsp tes3conv read_json jsonImportPath_of jsonExportPath_of what
    db customCoordinates options.

Lemma removed_app l1 l2 : removed (l1 ++ l2) = removed l1 ++ removed l2.
Proof. unfold removed. apply omap_app. Qed.

Lemma removed_cerr lines : removed (map Cerr lines) = [].
Proof. induction lines as [|l ls IH]; [reflexivity | exact IH]. Qed.

(** X10. When the dependency check or a pass raises an exception, what
    [main] does for the file is: log the failure with the text of the
    exception, and go on. Nothing is saved, backed up or converted
    back, and the temporary JSON file is not removed. *)
Theorem X10_exception_abandons_file
    (pluginImportPath : string) (inputData : json) (e : exn) (st : pass_state) :
  tes3conv pluginImportPath (jsonImportPath_of pluginImportPath) = true ->
  read_json (jsonImportPath_of pluginImportPath) = Parsed inputData ->
  hasConversionTag inputData pluginImportPath = false ->
  (checkDependencyOrder inputData = Throw e /\ st = fresh_state) \/
  (exists masters,
     checkDependencyOrder inputData = Ok (true, masters) /\
     all_passes db customCoordinates options inputData
       (getGridOffset (conversionType options)) fresh_state = (Throw e, st)) ->
  file_events pluginImportPath =
    [Log ("Processing file: " +:+ pluginImportPath);
     RunTes3conv pluginImportPath (jsonImportPath_of pluginImportPath)] ++
    (if silentMode options then []
     else [Log ("Conversion to .JSON successful: "
                  +:+ jsonImportPath_of pluginImportPath)]) ++
    map Cerr (cerr st) ++
    [Log (((("ERROR - failed to process file " +:+ pluginImportPath) +:+ ": ")
             +:+ what e) +:+ newline)] /\
  existsb is_write_back (file_events pluginImportPath) = false /\
  removed (file_events pluginImportPath) = [].
Proof.
  intros Hconv Hread Htag Hthrow.
  assert (Hev : file_events pluginImportPath =
    [Log ("Processing file: " +:+ pluginImportPath);
     RunTes3conv pluginImportPath (jsonImportPath_of pluginImportPath)] ++
    (if silentMode options then []
     else [Log ("Conversion to .JSON successful: "
                  +:+ jsonImportPath_of pluginImportPath)]) ++
    map Cerr (cerr st) ++
    [Log (((("ERROR - failed to process file " +:+ pluginImportPath) +:+ ": ")
             +:+ what e) +:+ newline)]).
  { unfold file_events, process_file. rewrite Hconv, Hread. cbn [negb].
    unfold process_document. rewrite Htag.
    destruct Hthrow as [[Hdeps ->]|(masters & Hdeps & Hrun)]; rewrite Hdeps.
    - reflexivity.
    - cbn [negb]. fold fresh_state. rewrite Hrun. reflexivity. }
  split; [exact Hev|]. rewrite Hev. split.
  - rewrite !existsb_app, cerr_no_write_back.
    destruct (silentMode options); reflexivity.
  - rewrite !removed_app, removed_cerr.
    destruct (silentMode options); reflexivity.
Qed.

End Exceptions.

Lemma X10_exception_abandons_file_witness :
  sample_file sample_stranded (db_of_rows [(10, 4)]) ∅ forward_options "first.esp" =
    [Log "Processing file: first.esp";
     RunTes3conv "first.esp" "first.esp.json";
     Log ("ERROR - failed to process file first.esp: exception" +:+ newline)].
Proof.
  destruct
    (X10_exception_abandons_file (fun _ _ => false) (fun d _ _ => Some d)
       (fun _ _ => true) (fun _ => true) (fun _ _ => true) (fun _ _ => true)
       (fun _ => Parsed sample_stranded)
       (fun p => p +:+ ".json") (fun p => "TEMP_" +:+ p +:+ ".json")
       (fun _ => "exception") (db_of_rows [(10, 4)]) ∅ forward_options
       "first.esp" sample_stranded (json_type_error 302) fresh_state
       eq_refl eq_refl eq_refl)
    as (Hevents & _ & _).
  - right. exists ∅. split; vm_compute; reflexivity.
  - unfold sample_file. rewrite Hevents. reflexivity.
Defined.

(** ** The command line *)

Lemma parseArguments_loop_step arg rest options :
  parseArguments_loop (arg :: rest) options =
    if is_batch arg then
      parseArguments_loop rest
        {| batchMode := true; silentMode := silentMode options;
           inputFiles := inputFiles options;
           conversionType := conversionType options |}
    else if is_silent arg then
      parseArguments_loop rest
        {| batchMode := batchMode options; silentMode := true;
           inputFiles := inputFiles options;
           conversionType := conversionType options |}
    else if is_forward arg then
      parseArguments_loop rest
        {| batchMode := batchMode options; silentMode := silentMode options;
           inputFiles := inputFiles options; conversionType := 1 |}
    else if is_reverse arg then
      parseArguments_loop rest
        {| batchMode := batchMode options; silentMode := silentMode options;
           inputFiles := inputFiles options; conversionType := 2 |}
    else if is_help arg then HelpExit
    else
      parseArguments_loop rest
        {| batchMode := batchMode options; silentMode := silentMode options;
           inputFiles := inputFiles options ++ [arg];
           conversionType := conversionType options |}.
Proof. reflexivity. Qed.

(** An argument is one flag at most. *)
Lemma is_flag_other long short long' short' arg :
  is_flag long short arg = true ->
  String.eqb long long' = false -> String.eqb long short' = false ->
  String.eqb short long' = false -> String.eqb short short' = false ->
  is_flag long' short' arg = false.
Proof.
  unfold is_flag. intros H H1 H2 H3 H4.
  apply orb_true_iff in H as [H|H]; apply String.eqb_eq in H; rewrite H;
    rewrite ?H1, ?H2, ?H3, ?H4; reflexivity.
Qed.

Lemma parseArguments_loop_options args :
  forall options,
    existsb is_help args = false ->
    parseArguments_loop args options =
      Options {| batchMode := batchMode options || existsb is_batch args;
                 silentMode := silentMode options || existsb is_silent args;
                 inputFiles := inputFiles options ++ List.filter is_file args;
                 conversionType := last_conversion (conversionType options) args |}.
Proof.
  induction args as [|arg rest IH]; intros options Hhelp.
  - simpl. rewrite !orb_false_r, app_nil_r. destruct options; reflexivity.
  - simpl in Hhelp. apply orb_false_iff in Hhelp as [Hh Hrest].
    rewrite parseArguments_loop_step.
    cbn [existsb List.filter last_conversion]. unfold is_file.
    destruct (is_batch arg) eqn:Hb.
    { rewrite IH by exact Hrest.
      assert (is_silent arg = false) as ->
        by (exact (is_flag_other _ _ "--silent" "-s" _ Hb eq_refl eq_refl eq_refl eq_refl)).
      assert (is_forward arg = false) as ->
        by (exact (is_flag_other _ _ "--bm-to-ab" "-1" _ Hb eq_refl eq_refl eq_refl eq_refl)).
      assert (is_reverse arg = false) as ->
        by (exact (is_flag_other _ _ "--ab-to-bm" "-2" _ Hb eq_refl eq_refl eq_refl eq_refl)).
      cbn [batchMode silentMode inputFiles conversionType orb negb].
      rewrite ?orb_true_r. reflexivity. }
    destruct (is_silent arg) eqn:Hs.
    { rewrite IH by exact Hrest.
      assert (is_forward arg = false) as ->
        by (exact (is_flag_other _ _ "--bm-to-ab" "-1" _ Hs eq_refl eq_refl eq_refl eq_refl)).
      assert (is_reverse arg = false) as ->
        by (exact (is_flag_other _ _ "--ab-to-bm" "-2" _ Hs eq_refl eq_refl eq_refl eq_refl)).
      cbn [batchMode silentMode inputFiles conversionType orb negb].
      rewrite ?orb_true_r. reflexivity. }
    destruct (is_forward arg) eqn:Hf.
    { rewrite IH by exact Hrest.
      cbn [batchMode silentMode inputFiles conversionType orb negb]. reflexivity. }
    destruct (is_reverse arg) eqn:Hr.
    { rewrite IH by exact Hrest.
      cbn [batchMode silentMode inputFiles conversionType orb negb]. reflexivity. }
    rewrite Hh. rewrite IH by exact Hrest.
    cbn [batchMode silentMode inputFiles conversionType orb negb].
    rewrite <- app_assoc. reflexivity.
Qed.

Lemma parseArguments_loop_help args :
  forall options, existsb is_help args = true ->
                  parseArguments_loop args options = HelpExit.
Proof.
  induction args as [|arg rest IH]; intros options Hhelp; [discriminate|].
  simpl in Hhelp. rewrite parseArguments_loop_step.
  destruct (is_help arg) eqn:Hh.
  - assert (is_batch arg = false) as ->
      by (exact (is_flag_other _ _ "--batch" "-b" _ Hh eq_refl eq_refl eq_refl eq_refl)).
    assert (is_silent arg = false) as ->
      by (exact (is_flag_other _ _ "--silent" "-s" _ Hh eq_refl eq_refl eq_refl eq_refl)).
    assert (is_forward arg = false) as ->
      by (exact (is_flag_other _ _ "--bm-to-ab" "-1" _ Hh eq_refl eq_refl eq_refl eq_refl)).
    assert (is_reverse arg = false) as ->
      by (exact (is_flag_other _ _ "--ab-to-bm" "-2" _ Hh eq_refl eq_refl eq_refl eq_refl)).
    reflexivity.
  - simpl in Hhelp.
    destruct (is_batch arg), (is_silent arg), (is_forward arg), (is_reverse arg);
      apply IH; exact Hhelp.
Qed.

(** X11. Unless an argument asks for help, [parseArguments] returns:
    batch and silent mode on exactly when some argument is their flag;
    the conversion type of the last direction flag, 0 if there is none;
    and as input files the arguments that are no flags, in their order
    and spelling. Flags are recognised in any letter case and at any
    position; the first string of [argv] is not looked at. *)
Theorem X11_parseArguments_options (program : string) (args : list string) :
  existsb is_help args = false ->
  parseArguments (program :: args) =
    Options {| batchMode := existsb is_batch args;
               silentMode := existsb is_silent args;
               inputFiles := List.filter is_file args;
               conversionType := last_conversion 0 args |}.
Proof.
  intros Hhelp. unfold parseArguments. simpl List.tl.
  rewrite parseArguments_loop_options by exact Hhelp. reflexivity.
Qed.

Lemma X11_parseArguments_options_witness :
  parseArguments ["tes3_ab_converter"; "-1"; "My Mod.ESP"; "--SILENT"; "-2"; "b.esm"] =
    Options {| batchMode := false; silentMode := true;
               inputFiles := ["My Mod.ESP"; "b.esm"]; conversionType := 2 |}.
Proof.
  apply (X11_parseArguments_options "tes3_ab_converter"
           ["-1"; "My Mod.ESP"; "--SILENT"; "-2"; "b.esm"]).
  reflexivity.
Defined.

(** X12. As soon as one argument is [--help] or [-h], in any letter
    case, [parseArguments] ends the program after the help text: no
    options are returned, whatever the other arguments are. *)
Theorem X12_parseArguments_help (program : string) (before after : list string)
    (arg : string) :
  is_help arg = true ->
  parseArguments (program :: before ++ arg :: after) = HelpExit.
Proof.
  intros Hhelp. unfold parseArguments. simpl List.tl.
  apply parseArguments_loop_help.
  rewrite existsb_app. simpl. rewrite Hhelp. apply orb_true_r.
Qed.

Lemma X12_parseArguments_help_witness :
  parseArguments ["tes3_ab_converter"; "-b"; "a.esp"; "--Help"; "-1"] = HelpExit.
Proof.
  apply (X12_parseArguments_help "tes3_ab_converter" ["-b"; "a.esp"] ["-1"] "--Help").
  reflexivity.
Defined.

(** ** Custom grid coordinates *)

Lemma code_digit_char d : 0 <= d < 10 -> code (digit_char d) = (Z.to_nat d + 48)%nat.
Proof.
  intros Hd. unfold code, digit_char. apply nat_ascii_embedding. lia.
Qed.

Lemma isdigit_digit_char d : 0 <= d < 10 -> isdigit (digit_char d) = true.
Proof.
  intros Hd. unfold isdigit. rewrite code_digit_char by assumption.
  apply andb_true_intro. split; apply Nat.leb_le; lia.
Qed.

Lemma digit_val_digit_char d : 0 <= d < 10 -> digit_val (digit_char d) = d.
Proof.
  intros Hd. unfold digit_val. rewrite code_digit_char by assumption. lia.
Qed.

Lemma digits_val_app a ds es :
  digits_val a (ds ++ es) = digits_val (digits_val a ds) es.
Proof. revert a. induction ds as [|d ds IH]; intros a; simpl; [reflexivity | apply IH]. Qed.

Lemma dec_go_spec fuel n acc :
  0 <= n < 2 ^ Z.of_nat (S fuel) ->
  exists ds,
    dec_go (S fuel) n acc = ds ++ acc /\ ds <> [] /\ forallb isdigit ds = true /\
    forall a, digits_val a ds = a * 10 ^ Z.of_nat (length ds) + n.
Proof.
  revert n acc. induction fuel as [|fuel IH]; intros n acc Hn.
  - assert (Hm : 0 <= n mod 10 < 10) by (apply Z.mod_pos_bound; lia).
    change (2 ^ Z.of_nat 1) with 2 in Hn.
    exists [digit_char (n mod 10)]. repeat split.
    + simpl. destruct (Z.ltb_spec n 10); [reflexivity | lia].
    + discriminate.
    + simpl. rewrite isdigit_digit_char by assumption. reflexivity.
    + intros a. simpl. rewrite digit_val_digit_char by assumption.
      rewrite Z.mod_small by lia. lia.
  - assert (Hm : 0 <= n mod 10 < 10) by (apply Z.mod_pos_bound; lia).
    change (dec_go (S (S fuel)) n acc) with
      (if n <? 10 then digit_char (n mod 10) :: acc
       else dec_go (S fuel) (n / 10) (digit_char (n mod 10) :: acc)).
    destruct (Z.ltb_spec n 10) as [Hlt | Hge].
    + exists [digit_char (n mod 10)]. repeat split.
      * discriminate.
      * simpl. rewrite isdigit_digit_char by assumption. reflexivity.
      * intros a. simpl. rewrite digit_val_digit_char by assumption.
        rewrite Z.mod_small by lia. lia.
    + destruct (IH (n / 10) (digit_char (n mod 10) :: acc)) as (ds & E & Hne & Hd & Hv).
      { split; [apply Z.div_pos; lia|].
        apply Z.div_lt_upper_bound; [lia|].
        rewrite (Nat2Z.inj_succ (S fuel)), Z.pow_succ_r in Hn by lia. lia. }
      exists (ds ++ [digit_char (n mod 10)]). repeat split.
      * rewrite E, <- app_assoc. reflexivity.
      * destruct ds; discriminate.
      * rewrite forallb_app, Hd. simpl.
        rewrite isdigit_digit_char by assumption. reflexivity.
      * intros a. rewrite digits_val_app, Hv. simpl.
        rewrite digit_val_digit_char by assumption.
        rewrite length_app. simpl length. rewrite Nat2Z.inj_add. simpl Z.of_nat.
        rewrite Z.pow_add_r by lia. pose proof (Z.div_mod n 10). lia.
Qed.

Lemma dec_spec n :
  0 <= n ->
  dec n <> [] /\ forallb isdigit (dec n) = true /\ digits_val 0 (dec n) = n.
Proof.
  intros Hn. unfold dec.
  destruct (dec_go_spec (Z.to_nat (Z.log2 n)) n []) as (ds & E & Hne & Hd & Hv).
  { split; [assumption|]. rewrite Nat2Z.inj_succ, Z2Nat.id by apply Z.log2_nonneg.
    destruct (Z.eq_dec n 0) as [-> | Hz]; [reflexivity|].
    apply Z.log2_spec. lia. }
  rewrite E, app_nil_r. repeat split; try assumption. rewrite Hv. lia.
Qed.

Lemma isdigit_not_sign c :
  isdigit c = true ->
  Ascii.eqb c "-" = false /\ Ascii.eqb c "+" = false /\ Ascii.eqb c "," = false /\
  isspace c = false /\ is_blank c = false /\ Ascii.eqb c LF = false.
Proof.
  destruct c as [[] [] [] [] [] [] [] []]; intros H; try discriminate H;
    repeat split; reflexivity.
Qed.

Lemma span_digits_app ds rest :
  forallb isdigit ds = true -> no_digit_ahead rest ->
  span_digits (ds ++ rest) = (ds, rest).
Proof.
  intros Hd Hr. induction ds as [|d ds IH].
  - destruct rest as [|c r]; [reflexivity|]. unfold no_digit_ahead in Hr.
    cbn [app span_digits]. rewrite Hr. reflexivity.
  - cbn [forallb] in Hd. apply andb_prop in Hd as [H1 H2].
    cbn [app span_digits]. rewrite H1, (IH H2). reflexivity.
Qed.

Lemma skip_while_app p ws s :
  forallb p ws = true ->
  skip_while p (ws ++ s) = skip_while p s.
Proof.
  induction ws as [|w ws IH]; simpl; [reflexivity|].
  intros H. apply andb_prop in H as [H1 H2]. rewrite H1. auto.
Qed.

Lemma skip_while_stop p c s : p c = false -> skip_while p (c :: s) = c :: s.
Proof. intros H. simpl. rewrite H. reflexivity. Qed.

(** The text of an [int] is read back by the extraction, after any white
    space and up to the first character that is no digit. *)
Lemma extract_int_to_string ws x rest :
  forallb isspace ws = true -> Int32.in_range x -> no_digit_ahead rest ->
  extract_int (ws ++ to_string x ++ rest) = Some (x, rest).
Proof.
  intros Hws Hx Hrest. unfold extract_int.
  rewrite skip_while_app by assumption.
  unfold Int32.in_range, Int32.min_int, Int32.max_int in Hx.
  unfold to_string. destruct (Z.ltb_spec x 0) as [Hneg | Hpos].
  - destruct (dec_spec (- x)) as (Hne & Hd & Hv); [lia|].
    rewrite <- app_comm_cons, skip_while_stop by reflexivity.
    change (Ascii.eqb "-" "-") with true. cbv iota.
    rewrite span_digits_app by assumption.
    destruct (dec (- x)) as [|d ds] eqn:E; [congruence|]. rewrite Hv.
    unfold Int32.min_int, Int32.max_int.
    destruct (Z.leb_spec (- 2 ^ 31) (- - x)); [|lia].
    destruct (Z.leb_spec (- - x) (2 ^ 31 - 1)); [|lia].
    simpl. f_equal. f_equal. lia.
  - destruct (dec_spec x) as (Hne & Hd & Hv); [lia|].
    destruct (dec x) as [|d ds] eqn:E; [congruence|].
    pose proof Hd as Hd'. simpl in Hd'. apply andb_prop in Hd' as [Hd1 _].
    destruct (isdigit_not_sign d Hd1) as (Hm & Hp & _ & Hs & _).
    rewrite <- app_comm_cons, skip_while_stop by assumption.
    rewrite Hm, Hp. rewrite app_comm_cons, span_digits_app by assumption.
    rewrite Hv. unfold Int32.min_int, Int32.max_int.
    destruct (Z.leb_spec (- 2 ^ 31) x); [|lia].
    destruct (Z.leb_spec x (2 ^ 31 - 1)); [|lia].
    reflexivity.
Qed.

Lemma isspace_not_digit c :
  isspace c = true ->
  isdigit c = false /\ Ascii.eqb c "," = false /\ Ascii.eqb c "/" = false /\
  Ascii.eqb c "-" = false.
Proof.
  destruct c as [[] [] [] [] [] [] [] []]; intros H; try discriminate H;
    repeat split; reflexivity.
Qed.

Lemma is_blank_isspace c : is_blank c = true -> isspace c = true.
Proof.
  destruct c as [[] [] [] [] [] [] [] []]; intros H; try discriminate H; reflexivity.
Qed.

(** The text of an [int]: a first character that is a minus sign or a
    digit, and a last one that is a digit. *)
Lemma to_string_shape x :
  exists c body,
    to_string x = c :: body /\
    (isdigit c = true \/ c = "-"%char) /\
    forallb (fun a => isdigit a || Ascii.eqb a "-") (to_string x) = true /\
    exists front l, to_string x = front ++ [l] /\ isdigit l = true.
Proof.
  unfold to_string. destruct (Z.ltb_spec x 0) as [Hneg | Hpos].
  - destruct (dec_spec (- x)) as (Hne & Hd & _); [lia|].
    exists "-"%char, (dec (- x)). repeat split.
    + right. reflexivity.
    + simpl. apply forallb_forall. intros a Ha.
      rewrite forallb_forall in Hd. rewrite (Hd a Ha). reflexivity.
    + destruct (exists_last Hne) as (front & l & E).
      exists ("-"%char :: front), l. rewrite E. split; [reflexivity|].
      rewrite E, forallb_app in Hd. apply andb_prop in Hd as [_ Hl].
      simpl in Hl. rewrite andb_true_r in Hl. exact Hl.
  - destruct (dec_spec x) as (Hne & Hd & _); [lia|].
    destruct (dec x) as [|c body] eqn:E; [congruence|].
    exists c, body. repeat split.
    + left. simpl in Hd. apply andb_prop in Hd as [H _]. exact H.
    + apply forallb_forall. intros a Ha.
      rewrite forallb_forall in Hd. rewrite (Hd a Ha). reflexivity.
    + assert (Hne' : c :: body <> []) by discriminate.
      destruct (exists_last Hne') as (front & l & E').
      exists front, l. split; [exact E'|].
      rewrite E', forallb_app in Hd. apply andb_prop in Hd as [_ Hl].
      simpl in Hl. rewrite andb_true_r in Hl. exact Hl.
Qed.

Lemma sign_or_digit_solid c :
  isdigit c = true \/ c = "-"%char ->
  isspace c = false /\ is_blank c = false /\ Ascii.eqb c LF = false /\
  Ascii.eqb c "/" = false.
Proof.
  intros [H | ->]; [|repeat split; reflexivity].
  revert H. destruct c as [[] [] [] [] [] [] [] []]; intros H; try discriminate H;
    repeat split; reflexivity.
Qed.

(** *** Trimming *)

Lemma skip_while_app_stop p u c v :
  p c = false -> skip_while p (u ++ c :: v) = skip_while p u ++ c :: v.
Proof.
  intros Hc. induction u as [|a u IH]; simpl.
  - rewrite Hc. reflexivity.
  - destruct (p a); [exact IH | reflexivity].
Qed.

Lemma skip_while_suffix p l : exists u, l = u ++ skip_while p l.
Proof.
  induction l as [|a l [u IH]]; simpl.
  - exists []. reflexivity.
  - destruct (p a).
    + exists (a :: u). simpl. f_equal. exact IH.
    + exists []. reflexivity.
Qed.

Lemma trim_end_app a c b :
  is_blank c = false -> trim_end (a ++ c :: b) = a ++ c :: trim_end b.
Proof.
  intros Hc. unfold trim_end.
  rewrite rev_app_distr. simpl rev. rewrite <- app_assoc. simpl app.
  rewrite skip_while_app_stop by assumption.
  rewrite rev_app_distr. simpl rev. rewrite rev_involutive.
  rewrite <- app_assoc. reflexivity.
Qed.

Lemma trim_end_prefix l : exists u, l = trim_end l ++ u.
Proof.
  unfold trim_end. destruct (skip_while_suffix is_blank (rev l)) as [u E].
  exists (rev u). rewrite <- rev_app_distr, <- E, rev_involutive. reflexivity.
Qed.

Lemma trim_end_no_digit_ahead l : no_digit_ahead l -> no_digit_ahead (trim_end l).
Proof.
  intros H. destruct (trim_end_prefix l) as [u E].
  destruct (trim_end l) as [|c r]; [exact I|].
  rewrite E in H. exact H.
Qed.

(** Leading white space: what the trimming leaves of it is white space
    still. *)
Lemma skip_blank_lead ws c s :
  forallb isspace ws = true -> is_blank c = false ->
  exists ws', skip_while is_blank (ws ++ c :: s) = ws' ++ c :: s /\
              forallb isspace ws' = true.
Proof.
  intros Hws Hc. induction ws as [|w ws IH].
  - exists []. split; [|reflexivity]. simpl. rewrite Hc. reflexivity.
  - cbn [forallb] in Hws. apply andb_prop in Hws as [H1 H2].
    simpl. destruct (is_blank w).
    + exact (IH H2).
    + exists (w :: ws). split; [reflexivity|]. simpl. rewrite H1. exact H2.
Qed.

Lemma no_digit_ahead_space ws c r :
  forallb isspace ws = true -> isdigit c = false -> no_digit_ahead (ws ++ c :: r).
Proof.
  intros Hws Hc. destruct ws as [|w ws]; simpl; [exact Hc|].
  simpl in Hws. apply andb_prop in Hws as [H _].
  apply (isspace_not_digit w H).
Qed.

(** *** A line with a coordinate *)

Lemma parse_coordinate_text ws1 x ws2 ws3 y rest :
  Int32.in_range x -> Int32.in_range y ->
  forallb isspace ws1 = true -> forallb isspace ws2 = true ->
  forallb isspace ws3 = true -> no_digit_ahead rest ->
  parse_coordinate (ws1 ++ to_string x ++ ws2 ++ ","%char :: ws3 ++ to_string y ++ rest)
    = Some (x, y).
Proof.
  intros Hx Hy H1 H2 H3 Hr. unfold parse_coordinate.
  rewrite extract_int_to_string;
    [|assumption|assumption|apply no_digit_ahead_space; [assumption|reflexivity]].
  unfold extract_char. rewrite skip_while_app by assumption.
  rewrite skip_while_stop by reflexivity.
  rewrite extract_int_to_string by assumption.
  reflexivity.
Qed.

Lemma trim_blank_coordinate ws1 x middle y trailer :
  forallb isspace ws1 = true ->
  exists ws1',
    forallb isspace ws1' = true /\
    trim_blank (ws1 ++ to_string x ++ middle ++ to_string y ++ trailer) =
      ws1' ++ to_string x ++ middle ++ to_string y ++ trim_end trailer.
Proof.
  intros H1. unfold trim_blank.
  destruct (to_string_shape x) as (c & body & E & Hc & _).
  destruct (to_string_shape y) as (? & ? & _ & _ & _ & front & l & E' & Hl).
  destruct (sign_or_digit_solid c Hc) as (_ & Hb & _).
  rewrite E, <- !app_comm_cons.
  destruct (skip_blank_lead ws1 c
              (body ++ middle ++ to_string y ++ trailer) H1 Hb) as (ws1' & Es & Hs).
  rewrite Es. exists ws1'. split; [assumption|].
  fold (trim_end (ws1' ++ c :: body ++ middle ++ to_string y ++ trailer)).
  rewrite E'.
  replace (ws1' ++ c :: body ++ middle ++ (front ++ [l]) ++ trailer)
    with ((ws1' ++ c :: body ++ middle ++ front) ++ l :: trailer)
    by (rewrite <- !app_assoc; simpl; rewrite <- !app_assoc; reflexivity).
  rewrite trim_end_app by (apply (isdigit_not_sign l Hl)).
  rewrite <- !app_assoc. simpl. rewrite <- !app_assoc. reflexivity.
Qed.

Lemma is_comment_head c r : Ascii.eqb c "/" = false -> is_comment (c :: r) = false.
Proof. intros H. destruct r; simpl; [reflexivity|]. rewrite H. reflexivity. Qed.

Lemma string_of_list_ascii_app a b :
  string_of_list_ascii (a ++ b) = string_of_list_ascii a +:+ string_of_list_ascii b.
Proof. induction a as [|c a IH]; simpl; [reflexivity|]. rewrite IH. reflexivity. Qed.

Lemma load_line_coordinate st ws1 x ws2 ws3 y trailer :
  Int32.in_range x -> Int32.in_range y ->
  forallb isspace ws1 = true -> forallb isspace ws2 = true ->
  forallb isspace ws3 = true -> no_digit_ahead trailer ->
  load_line st (ws1 ++ to_string x ++ ws2 ++ ","%char :: ws3 ++ to_string y ++ trailer) =
    {| loaded := {[ (x, y) ]} ∪ loaded st;
       messages := header_added st ++ [coordinate_message (x, y)];
       hasAnyParsableLines := true |}.
Proof.
  intros Hx Hy H1 H2 H3 Hr. unfold load_line.
  destruct (trim_blank_coordinate ws1 x (ws2 ++ ","%char :: ws3) y trailer H1)
    as (ws1' & H1' & E).
  rewrite <- !app_assoc, <- !app_comm_cons in E. rewrite E. clear E.
  destruct (to_string_shape x) as (c & body & E & Hc & _).
  assert (Hne : bool_decide
            (ws1' ++ to_string x ++ ws2 ++ ","%char :: ws3 ++ to_string y ++
               trim_end trailer = []) = false).
  { apply bool_decide_eq_false. rewrite E. destruct ws1'; discriminate. }
  assert (Hcm : is_comment
            (ws1' ++ to_string x ++ ws2 ++ ","%char :: ws3 ++ to_string y ++
               trim_end trailer) = false).
  { rewrite E. destruct ws1' as [|w ws]; simpl app.
    - apply is_comment_head. apply (sign_or_digit_solid c Hc).
    - apply is_comment_head. simpl in H1'. apply andb_prop in H1' as [Hw _].
      apply (isspace_not_digit w Hw). }
  rewrite Hne, Hcm. cbn [orb].
  rewrite parse_coordinate_text
    by (try assumption; apply trim_end_no_digit_ahead; assumption).
  unfold header_added, coordinate_message, coordinate_text. cbn [fst snd].
  rewrite string_of_list_ascii_app. reflexivity.
Qed.

(** *** Lines *)

Lemma getline_all_nil_inv delim l : getline_all delim l = [] -> l = [].
Proof.
  destruct l as [|c l]; [reflexivity|]. simpl.
  destruct (Ascii.eqb c delim); [discriminate|].
  destruct (getline_all delim l); discriminate.
Qed.

Lemma getline_all_first delim line rest :
  forallb (fun c => negb (Ascii.eqb c delim)) line = true ->
  getline_all delim (line ++ delim :: rest) = line :: getline_all delim rest.
Proof.
  induction line as [|c line IH]; intros H.
  - simpl. rewrite Ascii.eqb_refl. reflexivity.
  - cbn [forallb] in H. apply andb_prop in H as [Hc Hl].
    apply negb_true_iff in Hc. cbn [app getline_all]. rewrite Hc, (IH Hl). reflexivity.
Qed.

Lemma getline_all_app delim before rest :
  getline_all delim ((before ++ [delim]) ++ rest) =
    getline_all delim (before ++ [delim]) ++ getline_all delim rest.
Proof.
  induction before as [|c b IH].
  - simpl. rewrite Ascii.eqb_refl. reflexivity.
  - cbn [app getline_all]. destruct (Ascii.eqb c delim).
    + rewrite IH. reflexivity.
    + rewrite IH. destruct (getline_all delim (b ++ [delim])) as [|l ls] eqn:E.
      * apply getline_all_nil_inv in E. destruct b; discriminate.
      * reflexivity.
Qed.

Lemma getlines_line line rest :
  forallb (fun c => negb (Ascii.eqb c LF)) line = true ->
  getlines (line ++ LF :: rest) = line :: getlines rest.
Proof. apply getline_all_first. Qed.

Lemma getlines_app before rest :
  getlines ((before ++ [LF]) ++ rest) = getlines (before ++ [LF]) ++ getlines rest.
Proof. apply getline_all_app. Qed.

Lemma solid_no_LF l :
  forallb (fun a => isdigit a || Ascii.eqb a "-") l = true ->
  forallb (fun c => negb (Ascii.eqb c LF)) l = true.
Proof.
  intros H. apply forallb_forall. intros a Ha.
  rewrite forallb_forall in H. specialize (H a Ha).
  apply negb_true_iff. apply orb_prop in H as [H | H].
  - apply (isdigit_not_sign a H).
  - apply Ascii.eqb_eq in H. subst a. reflexivity.
Qed.

Lemma coordinate_text_no_LF c :
  forallb (fun a => negb (Ascii.eqb a LF)) (coordinate_text c) = true.
Proof.
  unfold coordinate_text. rewrite forallb_app. cbn [forallb].
  destruct (to_string_shape (fst c)) as (_ & _ & _ & _ & H1 & _).
  destruct (to_string_shape (snd c)) as (_ & _ & _ & _ & H2 & _).
  rewrite (solid_no_LF _ H1), (solid_no_LF _ H2). reflexivity.
Qed.

Lemma getlines_coordinate_file cs :
  getlines (concat (map (fun c => coordinate_text c ++ [LF]) cs)) =
    map coordinate_text cs.
Proof.
  induction cs as [|c cs IH]; [reflexivity|].
  cbn [map concat]. rewrite <- app_assoc. cbn [app].
  rewrite getlines_line by apply coordinate_text_no_LF.
  rewrite IH. reflexivity.
Qed.

Lemma load_line_coordinate_text st c :
  in_int_range c ->
  load_line st (coordinate_text c) =
    {| loaded := {[ c ]} ∪ loaded st;
       messages := header_added st ++ [coordinate_message c];
       hasAnyParsableLines := true |}.
Proof.
  intros [Hx Hy]. destruct c as [x y]. cbn [fst snd] in *.
  pose proof (load_line_coordinate st [] x [] [] y [] Hx Hy
                eq_refl eq_refl eq_refl I) as H.
  cbn [app] in H. rewrite app_nil_r in H. exact H.
Qed.

Lemma load_coordinate_lines cs st :
  Forall in_int_range cs -> hasAnyParsableLines st = true ->
  fold_left load_line (map coordinate_text cs) st =
    {| loaded := list_to_set cs ∪ loaded st;
       messages := messages st ++ map coordinate_message cs;
       hasAnyParsableLines := true |}.
Proof.
  intros Hcs. revert st. induction Hcs as [|c cs Hc _ IH]; intros st Hst.
  - destruct st as [s m h]. simpl in *. subst h. rewrite app_nil_r.
    f_equal. set_solver.
  - cbn [map fold_left]. rewrite load_line_coordinate_text by assumption.
    rewrite IH by reflexivity. cbn [loaded messages].
    unfold header_added. rewrite Hst, <- app_assoc. f_equal.
    cbn [list_to_set]. set_solver.
Qed.

(** X13. The coordinates the function logs are in the format it reads: a
    file with one line [x,y] per coordinate, written as the log writes
    them, loads exactly these coordinates into the set, after the header
    one message per coordinate and in their order. *)
Theorem X13_logged_coordinates_load_back
    (filePath : string) (cs : list (Z * Z)) (customCoordinates : gset (Z * Z)) :
  Forall in_int_range cs -> cs <> [] ->
  loadCustomGridCoordinates filePath (Some (coordinate_file cs)) customCoordinates =
    (list_to_set cs ∪ customCoordinates,
     "Loading custom grid coordinates:" :: map coordinate_message cs).
Proof.
  intros Hcs Hne. unfold loadCustomGridCoordinates, coordinate_file.
  rewrite list_ascii_of_string_of_list_ascii, getlines_coordinate_file.
  destruct Hcs as [|c cs Hc Hcs]; [congruence|].
  cbn [map fold_left]. rewrite load_line_coordinate_text by assumption.
  rewrite load_coordinate_lines by (assumption || reflexivity).
  cbn [loaded messages header_added hasAnyParsableLines app]. f_equal.
  cbn [list_to_set]. set_solver.
Qed.

Lemma X13_logged_coordinates_load_back_witness :
  loadCustomGridCoordinates "tes3_ab_custom_cell_x-y_data.txt"
    (Some (coordinate_file [(-3, 12); (2147483647, -2147483648)])) {[ (0, 0) ]} =
    (list_to_set [(-3, 12); (2147483647, -2147483648)] ∪ {[ (0, 0) ]},
     "Loading custom grid coordinates:" ::
       map coordinate_message [(-3, 12); (2147483647, -2147483648)]).
Proof.
  apply X13_logged_coordinates_load_back; [|discriminate].
  repeat constructor; vm_compute; discriminate.
Defined.

(** X14. A line is read as the coordinate [(x, y)] whatever white space
    stands before the numbers and around the comma, and whatever follows
    the second number, as long as it is no digit: the pair is added to
    the set and logged in the plain form [x,y]. *)
Theorem X14_lenient_coordinate_line
    (st : load_state) (x y : Z) (ws1 ws2 ws3 trailer : list ascii) :
  Int32.in_range x -> Int32.in_range y ->
  forallb isspace ws1 = true -> forallb isspace ws2 = true ->
  forallb isspace ws3 = true -> no_digit_ahead trailer ->
  load_line st (ws1 ++ to_string x ++ ws2 ++ ","%char :: ws3 ++ to_string y ++ trailer) =
    {| loaded := {[ (x, y) ]} ∪ loaded st;
       messages := header_added st ++ [coordinate_message (x, y)];
       hasAnyParsableLines := true |}.
Proof. apply load_line_coordinate. Qed.

Lemma X14_lenient_coordinate_line_witness :
  load_line {| loaded := ∅; messages := []; hasAnyParsableLines := false |}
    ([TAB; " "%char] ++ to_string 10 ++ [" "%char] ++ ","%char :: [" "%char; " "%char] ++
       to_string (-4) ++ list_ascii_of_string " // Solstheim" ++ [CR]) =
    {| loaded := {[ (10, -4) ]} ∪ ∅;
       messages := ["Loading custom grid coordinates:"; "- Coordinate: 10,-4"];
       hasAnyParsableLines := true |}.
Proof.
  apply (X14_lenient_coordinate_line
           {| loaded := ∅; messages := []; hasAnyParsableLines := false |}
           10 (-4) [TAB; " "%char] [" "%char] [" "%char; " "%char]
           (list_ascii_of_string " // Solstheim" ++ [CR]));
    solve [vm_compute; try split; try reflexivity; discriminate].
Defined.

(** *** Lines that are skipped or refused *)

Lemma ignored_not_parsed line :
  bool_decide (line = []) || is_comment line = true ->
  parse_coordinate line = None.
Proof.
  intros H. apply orb_prop in H as [H | H].
  - apply bool_decide_eq_true in H. subst line. reflexivity.
  - destruct line as [|c1 [|c2 r]]; try discriminate H.
    simpl in H. apply andb_prop in H as [H1 _].
    apply Ascii.eqb_eq in H1. subst c1. reflexivity.
Qed.

Lemma load_line_ignored st raw : ignored_line raw = true -> load_line st raw = st.
Proof. intros H. unfold load_line. unfold ignored_line in H. rewrite H. reflexivity. Qed.

Lemma load_line_loaded st raw :
  loaded (load_line st raw) =
    match parse_coordinate (trim_blank raw) with
    | Some c => {[ c ]} ∪ loaded st
    | None => loaded st
    end.
Proof.
  unfold load_line.
  destruct (bool_decide (trim_blank raw = []) || is_comment (trim_blank raw)) eqn:E.
  - rewrite (ignored_not_parsed _ E). reflexivity.
  - destruct (parse_coordinate (trim_blank raw)) as [[x y]|]; reflexivity.
Qed.

Lemma omap_step {A B} (f : A -> option B) x l :
  omap f (x :: l) = match f x with Some y => y :: omap f l | None => omap f l end.
Proof. reflexivity. Qed.

Lemma fold_load_line_loaded ls st :
  loaded (fold_left load_line ls st) =
    loaded st ∪ list_to_set (omap (fun raw => parse_coordinate (trim_blank raw)) ls).
Proof.
  revert st. induction ls as [|l ls IH]; intros st.
  - simpl. set_solver.
  - cbn [fold_left]. rewrite omap_step, IH, load_line_loaded.
    destruct (parse_coordinate (trim_blank l)) as [c|]; [|reflexivity].
    cbn [list_to_set].
    generalize (list_to_set (C := gset (Z * Z))
                  (omap (fun raw => parse_coordinate (trim_blank raw)) ls)).
    intros others. set_solver.
Qed.

Lemma extract_int_in_range s z r : extract_int s = Some (z, r) -> Int32.in_range z.
Proof.
  unfold extract_int. intros H.
  repeat case_match; simplify_eq;
    match goal with
    | E : _ && _ = true |- _ => apply andb_prop in E as [E1 E2]
    end;
    apply Z.leb_le in E1, E2; split; assumption.
Qed.

Lemma parse_coordinate_in_range line c :
  parse_coordinate line = Some c -> in_int_range c.
Proof.
  unfold parse_coordinate. intros H.
  repeat case_match; simplify_eq.
  split; eapply extract_int_in_range; eassumption.
Qed.

(** X15. A blank line or a comment line between the lines of the file
    changes nothing: the set and the messages are those of the file
    without it. *)
Theorem X15_ignored_line_changes_nothing
    (filePath : string) (before line after : list ascii)
    (customCoordinates : gset (Z * Z)) :
  before = [] \/ (exists b, before = b ++ [LF]) ->
  no_line_feed line = true ->
  ignored_line line = true ->
  loadCustomGridCoordinates filePath
    (Some (string_of_list_ascii (before ++ line ++ LF :: after))) customCoordinates =
  loadCustomGridCoordinates filePath
    (Some (string_of_list_ascii (before ++ after))) customCoordinates.
Proof.
  intros Hb Hl Hi. unfold loadCustomGridCoordinates.
  rewrite !list_ascii_of_string_of_list_ascii.
  assert (E : forall st,
    fold_left load_line (getlines (before ++ line ++ LF :: after)) st =
    fold_left load_line (getlines (before ++ after)) st).
  { intros st. destruct Hb as [-> | [b ->]].
    - cbn [app]. rewrite getlines_line by assumption.
      cbn [fold_left]. rewrite load_line_ignored by assumption. reflexivity.
    - rewrite !getlines_app, !fold_left_app, getlines_line by assumption.
      cbn [fold_left]. rewrite load_line_ignored by assumption. reflexivity. }
  rewrite E. reflexivity.
Qed.

Lemma X15_ignored_line_changes_nothing_witness :
  loadCustomGridCoordinates "custom.txt"
    (Some (string_of_list_ascii
             ((list_ascii_of_string "1,2" ++ [LF]) ++
              list_ascii_of_string "  // the cells of the mod" ++
              LF :: list_ascii_of_string "3,4"))) ∅ =
  loadCustomGridCoordinates "custom.txt"
    (Some (string_of_list_ascii
             ((list_ascii_of_string "1,2" ++ [LF]) ++ list_ascii_of_string "3,4"))) ∅.
Proof.
  apply X15_ignored_line_changes_nothing.
  - right. exists (list_ascii_of_string "1,2"). reflexivity.
  - reflexivity.
  - reflexivity.
Defined.

(** X16. The set after the call is the set before it together with the
    coordinates of all lines that can be read, each with both numbers in
    the range of [int]: it does not depend on the order of the lines or
    on a line being repeated, the skipping of blank lines and comments
    matters to the messages only, and loading the same file again adds
    nothing. *)
Theorem X16_loaded_set (filePath : string) (text : string)
    (customCoordinates : gset (Z * Z)) :
  let result := fst (loadCustomGridCoordinates filePath (Some text) customCoordinates) in
  result = customCoordinates ∪ list_to_set (parsed_lines text) /\
  Forall in_int_range (parsed_lines text) /\
  fst (loadCustomGridCoordinates filePath (Some text) result) = result.
Proof.
  cbn zeta. unfold loadCustomGridCoordinates, parsed_lines. cbn [fst].
  rewrite !fold_load_line_loaded. cbn [loaded].
  split; [reflexivity|]. split.
  2: { generalize (list_to_set (C := gset (Z * Z))
                     (omap (fun raw => parse_coordinate (trim_blank raw))
                        (getlines (list_ascii_of_string text)))).
       intros others. set_solver. }
  induction (getlines (list_ascii_of_string text)) as [|l ls IH]; [constructor|].
  rewrite omap_step. destruct (parse_coordinate (trim_blank l)) as [c|] eqn:E; [|exact IH].
  constructor; [|exact IH]. exact (parse_coordinate_in_range _ _ E).
Qed.

Lemma skip_while_app_found p a u c r :
  skip_while p a = c :: r -> skip_while p (a ++ u) = c :: r ++ u.
Proof.
  induction a as [|x a IH]; simpl; [discriminate|].
  destruct (p x); [exact IH|]. intros [= -> ->]. reflexivity.
Qed.

Lemma trim_blank_number ws1 x rest :
  forallb isspace ws1 = true ->
  exists ws1',
    forallb isspace ws1' = true /\
    trim_blank (ws1 ++ to_string x ++ rest) = ws1' ++ to_string x ++ trim_end rest.
Proof.
  intros H1. unfold trim_blank.
  destruct (to_string_shape x) as (c & body & E & Hc & _ & front & l & E' & Hl).
  destruct (sign_or_digit_solid c Hc) as (_ & Hb & _).
  destruct (skip_blank_lead ws1 c (body ++ rest) H1 Hb) as (ws1' & Es & Hs).
  rewrite app_comm_cons, <- E in Es.
  rewrite Es. exists ws1'. split; [assumption|].
  fold (trim_end (ws1' ++ to_string x ++ rest)).
  rewrite E'.
  replace (ws1' ++ (front ++ [l]) ++ rest) with ((ws1' ++ front) ++ l :: rest)
    by (rewrite <- !app_assoc; reflexivity).
  rewrite trim_end_app by (apply (isdigit_not_sign l Hl)).
  rewrite <- !app_assoc. reflexivity.
Qed.

Lemma number_line_not_ignored ws x rest :
  forallb isspace ws = true ->
  bool_decide (ws ++ to_string x ++ rest = []) || is_comment (ws ++ to_string x ++ rest)
    = false.
Proof.
  intros Hws. destruct (to_string_shape x) as (c & body & E & Hc & _).
  rewrite E. apply orb_false_intro.
  - apply bool_decide_eq_false. destruct ws; discriminate.
  - destruct ws as [|w ws]; cbn [app].
    + apply is_comment_head. apply (sign_or_digit_solid c Hc).
    + apply is_comment_head. simpl in Hws. apply andb_prop in Hws as [Hw _].
      apply (isspace_not_digit w Hw).
Qed.

(** X17. Only a comma separates the two numbers: a line whose first
    number is followed, after any white space, by another character or by
    nothing is refused. The set is left as it was and the warning quotes
    the trimmed line. *)
Theorem X17_only_a_comma_separates
    (st : load_state) (ws1 : list ascii) (x : Z) (rest : list ascii) :
  Int32.in_range x -> forallb isspace ws1 = true -> no_digit_ahead rest ->
  (forall r, skip_while isspace rest <> ","%char :: r) ->
  load_line st (ws1 ++ to_string x ++ rest) =
    {| loaded := loaded st;
       messages := header_added st ++
         ["WARNING - invalid coordinate format: " +:+
            string_of_list_ascii (trim_blank (ws1 ++ to_string x ++ rest))];
       hasAnyParsableLines := true |}.
Proof.
  intros Hx H1 Hr Hsep. unfold load_line.
  destruct (trim_blank_number ws1 x rest H1) as (ws1' & H1' & E).
  rewrite E. rewrite number_line_not_ignored by assumption.
  assert (Hp : parse_coordinate (ws1' ++ to_string x ++ trim_end rest) = None).
  { unfold parse_coordinate.
    rewrite extract_int_to_string
      by (try assumption; apply trim_end_no_digit_ahead; assumption).
    unfold extract_char.
    destruct (skip_while isspace (trim_end rest)) as [|c r] eqn:Es; [reflexivity|].
    destruct (trim_end_prefix rest) as [u Eu].
    assert (Hc : Ascii.eqb c "," = false).
    { apply Ascii.eqb_neq. intros ->.
      apply (Hsep (r ++ u)). rewrite Eu at 1.
      apply skip_while_app_found. exact Es. }
    rewrite Hc. destruct (extract_int r) as [[y r']|]; reflexivity. }
  rewrite Hp. reflexivity.
Qed.

Lemma X17_only_a_comma_separates_witness :
  load_line {| loaded := {[ (1, 1) ]}; messages := ["Loading custom grid coordinates:"];
               hasAnyParsableLines := true |}
    ([" "%char] ++ to_string 10 ++ list_ascii_of_string " ; -4 ") =
    {| loaded := {[ (1, 1) ]};
       messages := ["Loading custom grid coordinates:";
                    "WARNING - invalid coordinate format: 10 ; -4"];
       hasAnyParsableLines := true |}.
Proof.
  rewrite (X17_only_a_comma_separates
             {| loaded := {[ (1, 1) ]}; messages := ["Loading custom grid coordinates:"];
                hasAnyParsableLines := true |}
             [" "%char] 10 (list_ascii_of_string " ; -4 ")).
  - cbn [loaded]. f_equal.
  - vm_compute. split; discriminate.
  - reflexivity.
  - reflexivity.
  - intros r. vm_compute. discriminate.
Defined.

(** ** The prompts *)

Lemma until_LF_line line rest :
  no_line_feed line = true -> until_LF (line ++ LF :: rest) = (line, Some rest).
Proof.
  unfold no_line_feed. induction line as [|c line IH]; intros H.
  - reflexivity.
  - cbn [forallb] in H. apply andb_prop in H as [Hc Hl].
    apply negb_true_iff in Hc. cbn [app until_LF]. rewrite Hc, (IH Hl). reflexivity.
Qed.

Lemma until_LF_getlines text :
  match until_LF text with
  | (line, Some rest) => getlines text = line :: getlines rest
  | (line, None) => getlines text = if bool_decide (line = []) then [] else [line]
  end.
Proof.
  unfold getlines. induction text as [|c text IH]; [reflexivity|].
  cbn [until_LF getline_all]. destruct (Ascii.eqb c LF); [reflexivity|].
  destruct (until_LF text) as [line [rest|]].
  - rewrite IH. reflexivity.
  - rewrite IH. destruct line; reflexivity.
Qed.

Lemma choice_of_none line :
  choice_of line = None ->
  bool_decide (string_of_list_ascii line ∈ ({[ "1"; "2" ]} : gset string)) = false.
Proof.
  unfold choice_of. intros H. apply bool_decide_eq_false.
  destruct (String.eqb_spec (string_of_list_ascii line) "1") as [|H1]; [discriminate|].
  destruct (String.eqb_spec (string_of_list_ascii line) "2") as [|H2]; [discriminate|].
  set_solver.
Qed.

Lemma choice_of_some line choice :
  choice_of line = Some choice ->
  bool_decide (string_of_list_ascii line ∈ ({[ "1"; "2" ]} : gset string)) = true /\
  stoi line = Ok choice /\ (choice = 1 \/ choice = 2).
Proof.
  unfold choice_of. intros H.
  destruct (String.eqb_spec (string_of_list_ascii line) "1") as [E|H1].
  - injection H as <-.
    apply (f_equal list_ascii_of_string) in E.
    rewrite list_ascii_of_string_of_list_ascii in E. subst line.
    split; [apply bool_decide_eq_true; set_solver|]. split; [reflexivity | left; reflexivity].
  - destruct (String.eqb_spec (string_of_list_ascii line) "2") as [E|H2]; [|discriminate].
    injection H as <-.
    apply (f_equal list_ascii_of_string) in E.
    rewrite list_ascii_of_string_of_list_ascii in E. subst line.
    split; [apply bool_decide_eq_true; set_solver|]. split; [reflexivity | right; reflexivity].
Qed.

Lemma choice_rounds before line after choice input :
  Forall (fun l => no_line_feed l = true /\ choice_of l = None) before ->
  no_line_feed line = true ->
  choice_of line = Some choice ->
  rounds (getUserChoice_round {[ "1"; "2" ]}) (S (length before))
    ({| buffer := lines_text before ++ line ++ LF :: after; good := true |}, input) =
    inr (Ok choice, {| buffer := after; good := true |}) /\
  forall n, (n <= length before)%nat ->
    exists st, rounds (getUserChoice_round {[ "1"; "2" ]}) n
      ({| buffer := lines_text before ++ line ++ LF :: after; good := true |}, input) =
      inl st.
Proof.
  intros Hb Hl Hc. revert input. induction Hb as [|l ls [Hl1 Hl2] _ IH]; intros input.
  - split.
    + cbn [length rounds lines_text map concat app].
      unfold getUserChoice_round, getline. cbn [fst snd good buffer].
      rewrite until_LF_line by assumption.
      destruct (choice_of_some _ _ Hc) as (-> & -> & _). reflexivity.
    + intros n Hn. assert (n = 0)%nat as -> by (simpl in Hn; lia).
      eexists. reflexivity.
  - assert (Hstep : getUserChoice_round {[ "1"; "2" ]}
              ({| buffer := lines_text (l :: ls) ++ line ++ LF :: after; good := true |},
               input) =
              inl ({| buffer := lines_text ls ++ line ++ LF :: after; good := true |}, l)).
    { unfold getUserChoice_round, getline. cbn [fst snd good buffer].
      unfold lines_text. cbn [map concat]. rewrite <- !app_assoc. cbn [app].
      rewrite until_LF_line by assumption.
      rewrite (choice_of_none _ Hl2). reflexivity. }
    split.
    + change (length (l :: ls)) with (S (length ls)).
      change (rounds ?b (S (S ?n)) ?st) with
        (match b st with inl st' => rounds b (S n) st' | inr r => inr r end).
      rewrite Hstep. apply IH.
    + intros [|n] Hn; [eexists; reflexivity|].
      cbn [rounds]. rewrite Hstep. apply IH. simpl in Hn. lia.
Qed.

(** X18. The conversion prompt returns the first line of the input that
    is exactly [1] or [2], as the number 1 or 2: the lines before it are
    refused one round each, the loop needs one round more than there are
    such lines, and the stream is left after the line of the answer. *)
Theorem X18_first_valid_line_is_the_choice
    (before : list (list ascii)) (line after : list ascii) (choice : Z) :
  Forall (fun l => no_line_feed l = true /\ choice_of l = None) before ->
  choice_of line = Some choice ->
  let cin := {| buffer := lines_text before ++ line ++ LF :: after; good := true |} in
  getUserConversionChoice cin (S (length before)) =
    inr (Ok choice, {| buffer := after; good := true |}) /\
  (choice = 1 \/ choice = 2) /\
  forall n, (n <= length before)%nat -> exists st, getUserConversionChoice cin n = inl st.
Proof.
  intros Hb Hc cin.
  destruct (choice_of_some _ _ Hc) as (_ & _ & H12).
  assert (Hl : no_line_feed line = true).
  { unfold choice_of in Hc.
    destruct (String.eqb_spec (string_of_list_ascii line) "1") as [E|_];
      [|destruct (String.eqb_spec (string_of_list_ascii line) "2") as [E|_];
        [|discriminate]];
      apply (f_equal list_ascii_of_string) in E;
      rewrite list_ascii_of_string_of_list_ascii in E; subst line; reflexivity. }
  destruct (choice_rounds before line after choice [] Hb Hl Hc) as [H1 H2].
  split; [exact H1|]. split; [exact H12 | exact H2].
Qed.

Lemma X18_first_valid_line_is_the_choice_witness :
  getUserConversionChoice
    {| buffer := lines_text [list_ascii_of_string "3"; list_ascii_of_string " 1"; []] ++
                 list_ascii_of_string "2" ++ LF :: list_ascii_of_string "mod.esp";
       good := true |} 4 =
    inr (Ok 2, {| buffer := list_ascii_of_string "mod.esp"; good := true |}).
Proof.
  apply (X18_first_valid_line_is_the_choice
           [list_ascii_of_string "3"; list_ascii_of_string " 1"; []]
           (list_ascii_of_string "2") (list_ascii_of_string "mod.esp") 2).
  - repeat constructor.
  - reflexivity.
Defined.

Lemma getline_refused cin input :
  choice_of input = None ->
  Forall (fun l => choice_of l = None) (getlines (buffer cin)) ->
  choice_of (snd (getline cin input)) = None /\
  Forall (fun l => choice_of l = None) (getlines (buffer (fst (getline cin input)))).
Proof.
  intros Hi Hl. unfold getline. destruct (good cin); [|split; assumption].
  pose proof (until_LF_getlines (buffer cin)) as H.
  destruct (until_LF (buffer cin)) as [line [rest|]]; cbn [fst snd buffer].
  - rewrite H in Hl. inversion Hl; subst. split; assumption.
  - split; [|constructor]. rewrite H in Hl.
    destruct line as [|c line]; [reflexivity|].
    inversion Hl; subst. assumption.
Qed.

Lemma refused_rounds n cin input :
  choice_of input = None ->
  Forall (fun l => choice_of l = None) (getlines (buffer cin)) ->
  exists st, rounds (getUserChoice_round {[ "1"; "2" ]}) n (cin, input) = inl st.
Proof.
  revert cin input. induction n as [|n IH]; intros cin input Hi Hl.
  - eexists. reflexivity.
  - cbn [rounds]. unfold getUserChoice_round. cbn [fst snd].
    destruct (getline_refused cin input Hi Hl) as [H1 H2].
    destruct (getline cin input) as [cin' input']. cbn [fst snd] in H1, H2.
    rewrite (choice_of_none _ H1). apply IH; assumption.
Qed.

(** X19. The conversion prompt never gives up: on an input none of whose
    lines is exactly [1] or [2], and so at the end of the input, the loop
    is still prompting after any number of rounds. It neither returns nor
    throws. *)
Theorem X19_prompt_never_gives_up (cin : istream) (n : nat) :
  Forall (fun l => choice_of l = None) (getlines (buffer cin)) ->
  exists st, getUserConversionChoice cin n = inl st.
Proof. intros H. apply refused_rounds; [reflexivity | exact H]. Qed.

Lemma X19_prompt_never_gives_up_witness :
  exists st,
    getUserConversionChoice
      {| buffer := list_ascii_of_string "one" ++ LF :: list_ascii_of_string "1 ";
         good := true |} 1000 = inl st.
Proof.
  apply X19_prompt_never_gives_up. repeat constructor.
Defined.

Lemma rounds_choice n st r cin' :
  rounds (getUserChoice_round {[ "1"; "2" ]}) n st = inr (r, cin') ->
  r = Ok 1 \/ r = Ok 2.
Proof.
  revert st. induction n as [|n IH]; intros st H; [discriminate|].
  cbn [rounds] in H.
  destruct (getUserChoice_round {[ "1"; "2" ]} st) as [st'|[r' c]] eqn:E.
  - exact (IH _ H).
  - injection H as -> ->. unfold getUserChoice_round in E.
    destruct (getline (fst st) (snd st)) as [c input].
    destruct (choice_of input) as [choice|] eqn:Ec.
    + destruct (choice_of_some _ _ Ec) as (Hin & Hs & H12).
      rewrite Hin in E. injection E as <- _. rewrite Hs.
      destruct H12 as [-> | ->]; [left | right]; reflexivity.
    + rewrite (choice_of_none _ Ec) in E. discriminate.
Qed.

Lemma last_conversion_range start args :
  (start = 0 \/ start = 1 \/ start = 2) ->
  last_conversion start args = 0 \/ last_conversion start args = 1 \/
  last_conversion start args = 2.
Proof.
  revert start. induction args as [|a args IH]; intros start Hs; [exact Hs|].
  simpl. destruct (is_forward a); [apply IH; auto|].
  destruct (is_reverse a); apply IH; auto.
Qed.

Lemma parseArguments_conversionType argv options :
  parseArguments argv = Options options ->
  conversionType options = 0 \/ conversionType options = 1 \/ conversionType options = 2.
Proof.
  unfold parseArguments. intros H.
  destruct (existsb is_help (List.tl argv)) eqn:Eh.
  - rewrite parseArguments_loop_help in H by assumption. discriminate.
  - rewrite parseArguments_loop_options in H by assumption.
    injection H as <-. cbn [conversionType].
    apply last_conversion_range. left. reflexivity.
Qed.

(** X20. Whatever the arguments and the input are, the options [main]
    goes on with after the conversion choice have conversion type 1 or 2:
    the arguments give 0, 1 or 2, and for 0 the prompt returns 1 or 2 and
    never throws. The other options are those of the arguments, and the
    input is not read when the arguments gave the type. *)
Theorem X20_conversion_type_settled
    (argv : list string) (options : ProgramOptions) (cin cin' : istream) (n : nat)
    (r : outcome ProgramOptions) :
  parseArguments argv = Options options ->
  conversion_choice options cin n = inr (r, cin') ->
  exists options',
    r = Ok options' /\
    (conversionType options' = 1 \/ conversionType options' = 2) /\
    batchMode options' = batchMode options /\
    silentMode options' = silentMode options /\
    inputFiles options' = inputFiles options /\
    (conversionType options <> 0 -> options' = options /\ cin' = cin).
Proof.
  intros Hargs Hc. unfold conversion_choice in Hc.
  pose proof (parseArguments_conversionType _ _ Hargs) as Ht.
  destruct (Z.eqb_spec (conversionType options) 0) as [E0 | Hn0].
  - unfold getUserConversionChoice, getUserChoice in Hc.
    destruct (rounds (getUserChoice_round {[ "1"; "2" ]}) n (cin, []))
      as [st|[choice c]] eqn:Er; [discriminate|].
    destruct (rounds_choice _ _ _ _ Er) as [-> | ->]; injection Hc as <- <-;
      eexists; (split; [reflexivity|]); cbn; repeat split; auto; congruence.
  - injection Hc as <- <-. exists options. repeat split; auto. lia.
Qed.

Lemma X20_conversion_type_settled_witness :
  exists options',
    Ok {| batchMode := true; silentMode := false; inputFiles := [];
          conversionType := 2 |} = Ok options' /\
    (conversionType options' = 1 \/ conversionType options' = 2) /\
    batchMode options' = true /\
    silentMode options' = false /\
    inputFiles options' = [] /\
    ((0 : Z) <> 0 ->
     options' = {| batchMode := true; silentMode := false; inputFiles := [];
                   conversionType := 0 |} /\
     {| buffer := []; good := true |} =
       {| buffer := list_ascii_of_string "2" ++ [LF]; good := true |}).
Proof.
  exact (X20_conversion_type_settled ["tes3_ab_converter"; "-B"]
           {| batchMode := true; silentMode := false; inputFiles := [];
              conversionType := 0 |}
           {| buffer := list_ascii_of_string "2" ++ [LF]; good := true |}
           {| buffer := []; good := true |} 1
           (Ok {| batchMode := true; silentMode := false; inputFiles := [];
                  conversionType := 2 |})
           eq_refl eq_refl).
Defined.

(** *** The path strings *)

Lemma getline_all_no_delim delim text :
  Forall (Forall (fun c => c <> delim)) (getline_all delim text).
Proof.
  induction text as [|c text IH]; [constructor|].
  cbn [getline_all]. destruct (Ascii.eqb_spec c delim) as [->|Hc].
  - constructor; [constructor | exact IH].
  - destruct (getline_all delim text) as [|l ls].
    + repeat constructor. exact Hc.
    + inversion IH; subst. constructor; [constructor; assumption | assumption].
Qed.

Lemma skip_while_head p l c r : skip_while p l = c :: r -> p c = false.
Proof.
  induction l as [|a l IH]; simpl; [discriminate|].
  destruct (p a) eqn:E; [exact IH|]. intros [= <- _]. exact E.
Qed.

Lemma Forall_skip_while (P : ascii -> Prop) p l :
  Forall P l -> Forall P (skip_while p l).
Proof.
  intros H. destruct (skip_while_suffix p l) as [u E].
  rewrite E in H. apply Forall_app in H. apply H.
Qed.

Lemma Forall_rev_list (P : ascii -> Prop) l : Forall P l -> Forall P (rev l).
Proof.
  intros H. apply List.Forall_forall. intros x Hx.
  apply in_rev in Hx. rewrite List.Forall_forall in H. auto.
Qed.

Lemma last_rev_head (l : list ascii) : last (rev l) = head l.
Proof. destruct l as [|a l]; [reflexivity|]. simpl rev. apply last_snoc. Qed.

Lemma normalizePathStr_clean (P : ascii -> Prop) pathStr :
  Forall P pathStr ->
  let p := normalizePathStr pathStr in
  Forall (fun c => c <> dquote /\ P c) p /\
  (forall c, head p = Some c -> is_space_or_tab c = false) /\
  (p <> [] -> forall c, last p = Some c -> is_space_or_tab c = false).
Proof.
  intros HP p. unfold normalizePathStr in p.
  set (unquoted := List.filter (fun c => negb (Ascii.eqb c dquote)) pathStr) in *.
  set (trimmed := rev (skip_while is_space_or_tab (rev unquoted))) in *.
  assert (Hu : Forall (fun c => c <> dquote /\ P c) unquoted).
  { apply List.Forall_forall. intros c Hc. apply filter_In in Hc as [Hin Hq].
    apply negb_true_iff, Ascii.eqb_neq in Hq. split; [exact Hq|].
    rewrite List.Forall_forall in HP. auto. }
  assert (Ht : Forall (fun c => c <> dquote /\ P c) trimmed).
  { apply Forall_rev_list, Forall_skip_while, Forall_rev_list, Hu. }
  split; [apply Forall_skip_while, Ht|]. split.
  - intros c Hc. subst p. destruct (skip_while is_space_or_tab trimmed) as [|a r] eqn:E;
      [discriminate|]. injection Hc as ->. exact (skip_while_head _ _ _ _ E).
  - intros Hne c Hc. subst p.
    destruct (skip_while_suffix is_space_or_tab trimmed) as [u E].
    assert (Hl : last trimmed = Some c).
    { rewrite E, last_app, Hc. reflexivity. }
    unfold trimmed in Hl. rewrite last_rev_head in Hl.
    destruct (skip_while is_space_or_tab (rev unquoted)) as [|a r] eqn:E';
      [discriminate|]. injection Hl as ->. exact (skip_while_head _ _ _ _ E').
Qed.

(** X21. Every path string [parseUserInput] hands on is not empty, holds
    neither a double quote nor a semicolon, and neither starts nor ends
    with a space or a tab. So a semicolon always separates, also between
    double quotes. *)
Theorem X21_parseUserInput_clean (input : list ascii) :
  Forall clean_path (parseUserInput input).
Proof.
  unfold parseUserInput. apply List.Forall_forall. intros p Hp.
  apply filter_In in Hp as [Hin Hne].
  apply negb_true_iff, bool_decide_eq_false in Hne.
  apply in_map_iff in Hin as (piece & <- & Hpiece).
  pose proof (getline_all_no_delim ";" input) as Hd.
  rewrite List.Forall_forall in Hd. specialize (Hd piece Hpiece).
  destruct (normalizePathStr_clean _ piece Hd) as (H1 & H2 & H3).
  split; [exact Hne|]. split; [exact H1|]. split; [exact H2 | exact (H3 Hne)].
Qed.

Lemma getline_all_closed delim a :
  exists e, getline_all delim (a ++ [delim]) = getline_all delim a ++ e /\
            (e = [] \/ e = [[]]).
Proof.
  induction a as [|c a (e & IH & He)].
  - exists [[]]. split; [|right; reflexivity]. simpl. rewrite Ascii.eqb_refl. reflexivity.
  - cbn [app getline_all]. destruct (Ascii.eqb c delim).
    + exists e. split; [rewrite IH; reflexivity | exact He].
    + rewrite IH. destruct (getline_all delim a) as [|l ls] eqn:Ea.
      * apply getline_all_nil_inv in Ea. subst a.
        simpl in IH. rewrite Ascii.eqb_refl in IH. subst e.
        exists []. split; [reflexivity | left; reflexivity].
      * exists e. split; [reflexivity | exact He].
Qed.

(** X22. A semicolon joins two inputs into the input of both lists of
    paths: what [parseUserInput] reads from [a;b] is what it reads from
    [a] followed by what it reads from [b], wherever the semicolon
    stands. *)
Theorem X22_parseUserInput_semicolon (a b : list ascii) :
  parseUserInput (a ++ ";"%char :: b) = parseUserInput a ++ parseUserInput b.
Proof.
  unfold parseUserInput.
  replace (a ++ ";"%char :: b) with ((a ++ [";"%char]) ++ b)
    by (rewrite <- app_assoc; reflexivity).
  rewrite getline_all_app.
  destruct (getline_all_closed ";" a) as (e & -> & He).
  rewrite !map_app, !List.filter_app.
  destruct He as [-> | ->]; cbn; rewrite app_nil_r; reflexivity.
Qed.

(** *** The input files *)

Lemma rounds_left {S R : Type} (body : S -> S + R) n st r :
  rounds body n st = inr r -> exists st', body st' = inr r.
Proof.
  revert st. induction n as [|n IH]; intros st H; [discriminate|].
  cbn [rounds] in H. destruct (body st) as [st'|r'] eqn:E.
  - exact (IH _ H).
  - injection H as ->. exists st. exact E.
Qed.

Section InputFilesFacts.

Variable extension : string -> string.
Variable fs_exists : string -> fs_answer bool.
Variable fs_is_directory : string -> fs_answer bool.
Variable fs_walk : string -> list (string * bool) * option string.

Let valid (path : string) : Prop := isValidModFile extension path = true.

Lemma tryAddFile_valid options path st :
  Forall valid (fst st) ->
  Forall valid
    (fst (tryAddFile extension fs_exists fs_is_directory fs_walk options path st)).
Proof.
  destruct st as [result log]. cbn [fst]. intros H. unfold tryAddFile.
  destruct (fs_exists path) as [[|]|what]; cbn [fst]; try assumption.
  - destruct (fs_is_directory path) as [[|]|what]; cbn [fst]; try assumption.
    + destruct (fs_walk path) as [entries failure].
      assert (Hw : Forall valid
                (result ++ map fst
                   (List.filter
                      (fun entry => snd entry && isValidModFile extension (fst entry))
                      entries))).
      { apply Forall_app. split; [assumption|].
        apply List.Forall_forall. intros p Hp.
        apply in_map_iff in Hp as (entry & <- & He).
        apply filter_In in He as [_ He]. apply andb_prop in He as [_ He]. exact He. }
      destruct failure; exact Hw.
    + destruct (isValidModFile extension path) eqn:E; cbn [fst].
      * apply Forall_app. split; [assumption|]. repeat constructor. exact E.
      * destruct (negb (silentMode options)); assumption.
  - destruct (negb (silentMode options)); assumption.
Qed.

Lemma fold_tryAddFile_valid {A} options (f : A -> string) paths st :
  Forall valid (fst st) ->
  Forall valid
    (fst (fold_left
            (fun acc p =>
               tryAddFile extension fs_exists fs_is_directory fs_walk options (f p) acc)
            paths st)).
Proof.
  revert st. induction paths as [|p paths IH]; intros st H; [exact H|].
  cbn [fold_left]. apply IH. apply tryAddFile_valid. exact H.
Qed.

(** X23. Every path [getInputFilePaths] returns has the extension
    [.esp] or [.esm], in any letter case. Without files on the command
    line the result is never empty: the batch loop goes on until a
    path is found, and the single-file loop returns exactly one path,
    which exists. With files on the command line the input is not
    read, and the result can be empty. *)
Theorem X23_only_mod_files_returned
    (options : ProgramOptions) (cin cin' : istream) (log log' : list string)
    (n : nat) (result : list string) :
  getInputFilePaths extension fs_exists fs_is_directory fs_walk options cin log n =
    inr (Answer result, log', cin') ->
  Forall (fun path => isValidModFile extension path = true) result /\
  (inputFiles options = [] -> result <> []) /\
  (inputFiles options = [] -> batchMode options = false ->
   exists path, result = [path] /\ fs_exists path = Answer true) /\
  (inputFiles options <> [] -> cin' = cin).
Proof.
  unfold getInputFilePaths. intros H.
  destruct (inputFiles options) as [|file files] eqn:Ef.
  - cbn [negb bool_decide] in H.
    rewrite bool_decide_eq_true_2 in H by reflexivity. cbn [negb] in H.
    destruct (batchMode options) eqn:Eb.
    + apply rounds_left in H as [[c l] H]. unfold batch_round in H. cbn [fst snd] in H.
      destruct (getline c []) as [c1 input].
      pose proof (fold_tryAddFile_valid options string_of_list_ascii
                    (parseUserInput input) ([], l) (Forall_nil_2 _)) as Hv.
      destruct (fold_left _ (parseUserInput input) ([], l)) as [res lg].
      cbn [fst] in Hv.
      destruct (bool_decide (res = [])) eqn:Ee; [discriminate|].
      apply bool_decide_eq_false in Ee. injection H as <- _ _.
      split; [exact Hv|]. split; [intros _; exact Ee|].
      split; [discriminate|]. intros Hne. contradiction.
    + apply rounds_left in H as [[c l] H]. unfold single_round in H. cbn [fst snd] in H.
      destruct (getline c []) as [c1 input].
      destruct (fs_exists (string_of_list_ascii (normalizePathStr input)))
        as [found|what] eqn:Ex; [|discriminate].
      destruct (found && isValidModFile extension _) eqn:Ev; [|discriminate].
      apply andb_prop in Ev as [-> Ev]. injection H as <- _ _.
      split; [repeat constructor; exact Ev|]. split; [discriminate|].
      split; [|intros Hne; contradiction].
      intros _ _. eexists. split; [reflexivity | exact Ex].
  - rewrite bool_decide_eq_false_2 in H by discriminate. cbn [negb] in H.
    pose proof (fold_tryAddFile_valid options (fun p => p) (file :: files)
                  ([], log ++ [newline +:+ "Using files from command line arguments"])
                  (Forall_nil_2 _)) as Hv.
    destruct (fold_left _ (file :: files) _) as [res lg]. cbn [fst] in Hv.
    injection H as <- _ <-.
    split; [exact Hv|]. split; [discriminate|]. split; [discriminate|].
    reflexivity.
Qed.

End InputFilesFacts.

Lemma X23_only_mod_files_returned_witness :
  Forall (fun path => isValidModFile sample_extension path = true)
    ["Data Files/a.esp"; "b.ESM"].
Proof.
  refine (proj1 (X23_only_mod_files_returned sample_extension sample_exists
                   sample_is_directory sample_walk (sample_batch_options false)
                   sample_cin _ [] _ 2 ["Data Files/a.esp"; "b.ESM"] _)).
  vm_compute. reflexivity.
Defined.

Section SilentMode.

Variable extension : string -> string.
Variable fs_exists : string -> fs_answer bool.
Variable fs_is_directory : string -> fs_answer bool.
Variable fs_walk : string -> list (string * bool) * option string.

Variables options1 options2 : ProgramOptions.

Lemma tryAddFile_result path result log1 log2 :
  fst (tryAddFile extension fs_exists fs_is_directory fs_walk options1 path
         (result, log1)) =
  fst (tryAddFile extension fs_exists fs_is_directory fs_walk options2 path
         (result, log2)).
Proof.
  unfold tryAddFile.
  destruct (fs_exists path) as [[|]|what]; cbn [fst]; try reflexivity.
  - destruct (fs_is_directory path) as [[|]|what]; cbn [fst]; try reflexivity.
    + destruct (fs_walk path) as [entries [what|]]; reflexivity.
    + destruct (isValidModFile extension path); [reflexivity|].
      destruct (negb (silentMode options1)), (negb (silentMode options2)); reflexivity.
  - destruct (negb (silentMode options1)), (negb (silentMode options2)); reflexivity.
Qed.

Lemma fold_tryAddFile_result {A} (f : A -> string) paths st1 st2 :
  fst st1 = fst st2 ->
  fst (fold_left
         (fun acc p =>
            tryAddFile extension fs_exists fs_is_directory fs_walk options1 (f p) acc)
         paths st1) =
  fst (fold_left
         (fun acc p =>
            tryAddFile extension fs_exists fs_is_directory fs_walk options2 (f p) acc)
         paths st2).
Proof.
  revert st1 st2. induction paths as [|p paths IH]; intros st1 st2 H; [exact H|].
  cbn [fold_left]. apply IH.
  destruct st1 as [r1 l1], st2 as [r2 l2]. cbn [fst] in H. subst r2.
  apply tryAddFile_result.
Qed.

Lemma batch_rounds_result n cin log1 log2 :
  without_log (rounds (batch_round extension fs_exists fs_is_directory fs_walk options1)
                 n (cin, log1)) =
  without_log (rounds (batch_round extension fs_exists fs_is_directory fs_walk options2)
                 n (cin, log2)).
Proof.
  revert cin log1 log2. induction n as [|n IH]; intros cin log1 log2; [reflexivity|].
  cbn [rounds]. unfold batch_round. cbn [fst snd].
  destruct (getline cin []) as [cin' input].
  pose proof (fold_tryAddFile_result string_of_list_ascii (parseUserInput input)
                ([], log1) ([], log2) eq_refl) as H.
  destruct (fold_left _ (parseUserInput input) ([], log1)) as [r1 l1].
  destruct (fold_left _ (parseUserInput input) ([], log2)) as [r2 l2].
  cbn [fst] in H. subst r2.
  destruct (bool_decide (r1 = [])); cbn [negb]; [apply IH | reflexivity].
Qed.

Lemma single_rounds_result n cin log1 log2 :
  without_log (rounds (single_round extension fs_exists) n (cin, log1)) =
  without_log (rounds (single_round extension fs_exists) n (cin, log2)).
Proof.
  revert cin log1 log2. induction n as [|n IH]; intros cin log1 log2; [reflexivity|].
  cbn [rounds]. unfold single_round. cbn [fst snd].
  destruct (getline cin []) as [cin' input].
  destruct (fs_exists (string_of_list_ascii (normalizePathStr input)))
    as [found|what]; [|reflexivity].
  destruct (found && isValidModFile extension _); [reflexivity | apply IH].
Qed.

(** X24. The silent mode and the messages logged so far change nothing
    but the log: with the same files on the command line and the same
    batch mode, [getInputFilePaths] reads the same input and returns
    the same paths, or the same exception, or is at the same point of
    its loop after the same number of rounds. *)
Theorem X24_silent_mode_finds_the_same_files
    (cin : istream) (log1 log2 : list string) (n : nat) :
  batchMode options1 = batchMode options2 ->
  inputFiles options1 = inputFiles options2 ->
  without_log (getInputFilePaths extension fs_exists fs_is_directory fs_walk
                 options1 cin log1 n) =
  without_log (getInputFilePaths extension fs_exists fs_is_directory fs_walk
                 options2 cin log2 n).
Proof.
  intros Hb Hf. unfold getInputFilePaths. rewrite <- Hb, <- Hf.
  destruct (bool_decide (inputFiles options1 = [])); cbn [negb].
  - destruct (batchMode options1);
      [apply batch_rounds_result | apply single_rounds_result].
  - pose proof (fold_tryAddFile_result (fun p => p) (inputFiles options1)
                  ([], log1 ++ [newline +:+ "Using files from command line arguments"])
                  ([], log2 ++ [newline +:+ "Using files from command line arguments"])
                  eq_refl) as H.
    destruct (fold_left _ (inputFiles options1) ([], log1 ++ _)) as [r1 l1].
    destruct (fold_left _ (inputFiles options1) ([], log2 ++ _)) as [r2 l2].
    cbn [fst] in H. subst r2. reflexivity.
Qed.

End SilentMode.

Lemma X24_silent_mode_finds_the_same_files_witness :
  without_log (getInputFilePaths sample_extension sample_exists sample_is_directory
                 sample_walk (sample_batch_options false) sample_cin [] 2) =
  without_log (getInputFilePaths sample_extension sample_exists sample_is_directory
                 sample_walk (sample_batch_options true) sample_cin ["Log file cleared..."] 2).
Proof.
  apply X24_silent_mode_finds_the_same_files; reflexivity.
Defined.

(** ** The custom coordinates and the validity check *)

(** X25. For a cell the database does not hold (the query prepared), the
    check is decided by the custom file: the cell is valid exactly when
    it was in the set before the file was loaded or some line of the file
    reads as this cell. The line gives the cell as it is in the plugin,
    in both directions of the conversion. *)
Theorem X25_custom_file_decides
    (db : Database) (options : ProgramOptions) (filePath text : string)
    (customCoordinates : gset (Z * Z)) (gridX gridY : Z) :
  db_prepare db = SQLITE_OK ->
  sqlite_step_is_row
    (db_step db (fst (adjustedGrid options gridX gridY))
       (snd (adjustedGrid options gridX gridY))) = false ->
  fst (isCoordinateValid db gridX gridY
         (fst (loadCustomGridCoordinates filePath (Some text) customCoordinates))
         options) = true <->
  ((gridX, gridY) ∈ customCoordinates \/ In (gridX, gridY) (parsed_lines text)).
Proof.
  intros Hok Hrow. rewrite isCoordinateValid_prepared by assumption.
  destruct (adjustedGrid options gridX gridY) as [x y]. cbn [fst snd] in *.
  rewrite Hrow. cbn [orb].
  unfold loadCustomGridCoordinates. cbn [fst].
  rewrite fold_load_line_loaded. cbn [loaded]. fold (parsed_lines text).
  rewrite bool_decide_eq_true, elem_of_union, elem_of_list_to_set, list_elem_of_In.
  reflexivity.
Qed.

Lemma X25_custom_file_decides_witness :
  fst (isCoordinateValid (db_of_rows [(10, 4)]) 3 (-3)
         (fst (loadCustomGridCoordinates "custom.txt"
                 (Some (coordinate_file [(3, -3)])) ∅))
         forward_options) = true.
Proof.
  apply (X25_custom_file_decides (db_of_rows [(10, 4)]) forward_options
           "custom.txt" (coordinate_file [(3, -3)]) ∅ 3 (-3) eq_refl eq_refl).
  right. vm_compute. left. reflexivity.
Defined.

(** ** The paths of the temporary files *)

Lemma split_last_some sep p before after :
  Path.split_last sep p = Some (before, after) ->
  p = before ++ sep :: after /\ ~ In sep after.
Proof.
  revert before after. induction p as [|c r IH]; intros before after H; [discriminate|].
  cbn [Path.split_last] in H.
  destruct (Path.split_last sep r) as [[b a]|] eqn:E.
  - injection H as <- <-. destruct (IH b a eq_refl) as [-> Hn]. auto.
  - destruct (Ascii.eqb_spec c sep) as [->|Hc]; [|discriminate].
    injection H as <- <-. split; [reflexivity|].
    clear IH. revert E. induction r as [|x r IHr]; intros E; [auto|].
    cbn [Path.split_last] in E.
    destruct (Path.split_last sep r) as [[b a]|]; [discriminate|].
    destruct (Ascii.eqb_spec x sep) as [->|Hx]; [discriminate|].
    intros [Hin|Hin]; [congruence | exact (IHr eq_refl Hin)].
Qed.

Lemma split_last_none sep p : Path.split_last sep p = None -> ~ In sep p.
Proof.
  induction p as [|x r IHr]; intros E; [auto|].
  cbn [Path.split_last] in E.
  destruct (Path.split_last sep r) as [[b a]|]; [discriminate|].
  destruct (Ascii.eqb_spec x sep) as [->|Hx]; [discriminate|].
  intros [Hin|Hin]; [congruence | exact (IHr eq_refl Hin)].
Qed.

Lemma split_last_not_in sep p : ~ In sep p -> Path.split_last sep p = None.
Proof.
  induction p as [|x r IH]; intros H; [reflexivity|].
  cbn [Path.split_last]. rewrite IH by (intros Hin; apply H; right; exact Hin).
  destruct (Ascii.eqb_spec x sep) as [->|Hx]; [|reflexivity].
  exfalso. apply H. left. reflexivity.
Qed.

Lemma split_last_app sep before after :
  ~ In sep after ->
  Path.split_last sep (before ++ sep :: after) = Some (before, after).
Proof.
  intros H. induction before as [|c b IH].
  - cbn [app Path.split_last]. rewrite (split_last_not_in _ _ H), Ascii.eqb_refl.
    reflexivity.
  - cbn [app Path.split_last]. rewrite IH. reflexivity.
Qed.

Lemma filename_no_separator p : ~ In "/"%char (Path.filename p).
Proof.
  unfold Path.filename. destruct (Path.split_last "/" p) as [[b a]|] eqn:E.
  - apply (split_last_some _ _ _ _ E).
  - apply (split_last_none _ _ E).
Qed.

Lemma filename_plain name : ~ In "/"%char name -> Path.filename name = name.
Proof. intros H. unfold Path.filename. rewrite (split_last_not_in _ _ H). reflexivity. Qed.

Lemma filename_after dir name :
  ~ In "/"%char name -> Path.filename (dir ++ "/"%char :: name) = name.
Proof. intros H. unfold Path.filename. rewrite (split_last_app _ _ _ H). reflexivity. Qed.

Lemma filename_empty_inv p :
  Path.filename p = [] -> p = [] \/ exists dir, p = dir ++ ["/"%char].
Proof.
  unfold Path.filename. destruct (Path.split_last "/" p) as [[b a]|] eqn:E.
  - intros ->. right. exists b. apply (split_last_some _ _ _ _ E).
  - intros ->. left. reflexivity.
Qed.

(** The file name of [dir / name] is [name]. *)
Lemma filename_append dir name :
  name <> [] -> ~ In "/"%char name ->
  Path.filename (Path.append dir name) = name.
Proof.
  intros Hne Hn. unfold Path.append.
  destruct name as [|c name']; [contradiction|].
  destruct (Ascii.eqb_spec c "/") as [->|Hc]; [exfalso; apply Hn; left; reflexivity|].
  destruct (Path.filename dir) as [|x f] eqn:Ef.
  - destruct (filename_empty_inv _ Ef) as [->|[d ->]].
    + apply filename_plain. exact Hn.
    + rewrite <- app_assoc. apply filename_after. exact Hn.
  - apply filename_after. exact Hn.
Qed.

(** A file name is its stem followed by its extension, which is empty or
    a period followed by a text without a period. *)
Lemma split_extension_spec name :
  name = fst (Path.split_extension name) ++ snd (Path.split_extension name) /\
  (snd (Path.split_extension name) = [] \/
   exists after, snd (Path.split_extension name) = "."%char :: after /\
                 ~ In "."%char after).
Proof.
  unfold Path.split_extension. destruct name as [|first rest]; [auto|].
  destruct ((length (first :: rest) <=? 2)%nat && Ascii.eqb first ".").
  { cbn [fst snd]. rewrite app_nil_r. auto. }
  destruct (Path.split_last "." (first :: rest)) as [[[|b0 b] a]|] eqn:E;
    cbn [fst snd]; try (rewrite app_nil_r; auto).
  destruct (split_last_some _ _ _ _ E) as [Hp Hn].
  split; [exact Hp|]. right. exists a. auto.
Qed.

Lemma filename_stem_extension p :
  Path.filename p = Path.stem p ++ Path.extension p.
Proof. apply split_extension_spec. Qed.

Lemma extension_shape p :
  Path.extension p = [] \/
  exists after, Path.extension p = "."%char :: after /\ ~ In "."%char after.
Proof. apply split_extension_spec. Qed.

Lemma stem_no_separator p : ~ In "/"%char (Path.stem p).
Proof.
  intros H. apply (filename_no_separator p).
  rewrite filename_stem_extension. apply in_or_app. left. exact H.
Qed.

Lemma jsonImportPath_filename p :
  Path.filename (list_ascii_of_string (jsonImportPath p)) =
    Path.stem (list_ascii_of_string p) ++ dot_json.
Proof.
  unfold jsonImportPath. rewrite list_ascii_of_string_of_list_ascii.
  apply filename_append.
  - destruct (Path.stem _); discriminate.
  - intros H. apply in_app_or in H as [H|H].
    + exact (stem_no_separator _ H).
    + simpl in H. intuition discriminate.
Qed.

Lemma jsonExportPath_filename p :
  Path.filename (list_ascii_of_string (jsonExportPath p)) =
    temp_prefix ++ Path.stem (list_ascii_of_string p) ++ dot_json.
Proof.
  unfold jsonExportPath. rewrite list_ascii_of_string_of_list_ascii.
  apply filename_append.
  - discriminate.
  - intros H. apply in_app_or in H as [H|H].
    + simpl in H. intuition discriminate.
    + apply in_app_or in H as [H|H].
      * exact (stem_no_separator _ H).
      * simpl in H. intuition discriminate.
Qed.

(** A name that ends with [.json] is not the name of a plugin whose
    extension is another one. *)
Lemma json_name_import stem0 ext :
  stem0 ++ dot_json = stem0 ++ ext -> ext = dot_json.
Proof. intros H. apply app_inv_head in H. auto. Qed.

Lemma json_name_export stem0 ext :
  (ext = [] \/ exists after, ext = "."%char :: after /\ ~ In "."%char after) ->
  temp_prefix ++ stem0 ++ dot_json <> stem0 ++ ext.
Proof.
  intros Hshape H.
  assert (Hlen : length ext = 10%nat).
  { apply (f_equal (@length ascii)) in H. rewrite !length_app in H.
    change (length temp_prefix) with 5%nat in H.
    change (length dot_json) with 5%nat in H. lia. }
  destruct Hshape as [->|(after & -> & Hn)]; [discriminate|].
  apply (f_equal (@rev ascii)) in H.
  rewrite !rev_app_distr in H.
  change (rev dot_json) with (list_ascii_of_string "nosj.") in H.
  cbn [rev] in H. rewrite <- !app_assoc in H. cbn [list_ascii_of_string app] in H.
  assert (Hl : length (rev after) = 9%nat) by (rewrite length_rev; simpl in Hlen; lia).
  destruct (rev after) as [|a1 [|a2 [|a3 [|a4 [|a5 r]]]]] eqn:Er;
    try (simpl in Hl; lia).
  cbn [app] in H. injection H as _ _ _ _ H5 _.
  apply Hn. apply in_rev. rewrite Er. subst a5. do 4 right. left. reflexivity.
Qed.

Lemma length_list_ascii_of_string s :
  length (list_ascii_of_string s) = String.length s.
Proof. induction s as [|c s IH]; simpl; [reflexivity | rewrite IH; reflexivity]. Qed.

Lemma lowercase_length s : String.length (lowercase s) = String.length s.
Proof.
  unfold lowercase.
  rewrite <- length_list_ascii_of_string, list_ascii_of_string_of_list_ascii.
  rewrite length_map. apply length_list_ascii_of_string.
Qed.

(** The extension of a mod file: a period and three characters. *)
Lemma valid_mod_extension q :
  isValidModFile path_extension q = true ->
  exists a b c, Path.extension (list_ascii_of_string q) = ["."%char; a; b; c] /\
                Path.extension (list_ascii_of_string q) <> dot_json.
Proof.
  unfold isValidModFile, path_extension. intros H.
  assert (Hlen : length (Path.extension (list_ascii_of_string q)) = 4%nat).
  { assert (Hs : String.length
                   (lowercase (string_of_list_ascii
                                 (Path.extension (list_ascii_of_string q)))) = 4%nat).
    { apply orb_prop in H as [H|H]; apply String.eqb_eq in H; rewrite H; reflexivity. }
    rewrite lowercase_length, <- length_list_ascii_of_string in Hs.
    rewrite list_ascii_of_string_of_list_ascii in Hs. exact Hs. }
  destruct (extension_shape (list_ascii_of_string q)) as [E|(after & E & _)];
    rewrite E in Hlen; [discriminate|].
  destruct after as [|a [|b [|c [|d r]]]]; try discriminate.
  exists a, b, c. split; [exact E|]. rewrite E. discriminate.
Qed.

(** A file name that ends with [.json] is not the file name of a mod
    file. *)
Lemma json_name_not_mod pre q :
  isValidModFile path_extension q = true ->
  pre ++ dot_json <> Path.filename (list_ascii_of_string q).
Proof.
  intros Hv H. destruct (valid_mod_extension q Hv) as (a & b & c & E & _).
  rewrite filename_stem_extension, E in H.
  apply (f_equal (@rev ascii)) in H. rewrite !rev_app_distr in H.
  cbn in H. discriminate.
Qed.

Section RemovedPaths.

Variable hasConversionTag : json -> string -> bool.
Variable addConversionTag : json -> string -> ProgramOptions -> option json.
Variable saveJsonToFile : string -> json -> bool.
Variable createBackup : string -> bool.
Variable convertJsonToEsp : string -> string -> bool.
Variable tes3conv : string -> string -> bool.
Variable read_json : string -> read_result.
Variable what : exn -> string.
Variable db : Database.
Variable customCoordinates : gset (Z * Z).
Variable options : ProgramOptions.

Let batch_events :=
  main_loop hasConversionTag addConversionTag saveJsonToFile createBackup
    convertJsonToEsp tes3conv read_json jsonImportPath jsonExportPath what
    db customCoordinates options.

Lemma in_main_loop event paths :
  In event (batch_events paths) ->
  exists pluginImportPath,
    In pluginImportPath paths /\
    In event
      (process_file hasConversionTag addConversionTag saveJsonToFile createBackup
         convertJsonToEsp tes3conv read_json jsonImportPath jsonExportPath what
         db customCoordinates options pluginImportPath).
Proof.
  unfold batch_events. induction paths as [|p paths IH]; [intros []|].
  cbn [main_loop]. intros H. apply in_app_or in H as [H|H].
  - exists p. split; [left; reflexivity | exact H].
  - destruct (IH H) as (q & Hq & He). exists q. split; [right; exact Hq | exact He].
Qed.

(** X4. With the paths of the temporary files as [main] derives them
    from the path of the plugin, whatever the loop removes is one of
    the two temporary files of a plugin of the batch: the converted copy
    [stem.json] beside the plugin, or, once the backup and the
    conversion back have succeeded, the saved copy [TEMP_stem.json].
    Its file name differs from the file name of that plugin, unless the
    extension of the plugin is [.json], and from the file name of every
    mod file: no file with the extension [.esp] or [.esm], in any
    letter case, is removed. *)
Theorem X4_only_temporary_files_removed (paths : list string) (path : string) :
  In (Remove path) (batch_events paths) ->
  (exists pluginImportPath,
     In pluginImportPath paths /\
     (path = jsonImportPath pluginImportPath \/
      path = jsonExportPath pluginImportPath /\
      createBackup pluginImportPath = true /\
      convertJsonToEsp (jsonExportPath pluginImportPath) pluginImportPath = true) /\
     (Path.extension (list_ascii_of_string pluginImportPath) <> dot_json ->
      Path.filename (list_ascii_of_string path) <>
        Path.filename (list_ascii_of_string pluginImportPath) /\
      path <> pluginImportPath)) /\
  (forall modFile,
     isValidModFile path_extension modFile = true ->
     Path.filename (list_ascii_of_string path) <>
       Path.filename (list_ascii_of_string modFile) /\
     path <> modFile).
Proof.
  intros H. apply in_main_loop in H as (p & Hp & H).
  apply in_removed_paths in H.
  assert (Hname :
    Path.filename (list_ascii_of_string path) =
      Path.stem (list_ascii_of_string p) ++ dot_json \/
    Path.filename (list_ascii_of_string path) =
      temp_prefix ++ Path.stem (list_ascii_of_string p) ++ dot_json).
  { destruct H as [->|(-> & _)];
      [left; apply jsonImportPath_filename | right; apply jsonExportPath_filename]. }
  split.
  - exists p. split; [exact Hp|]. split; [exact H|].
    intros Hext.
    assert (Hf : Path.filename (list_ascii_of_string path) <>
                 Path.filename (list_ascii_of_string p)).
    { rewrite (filename_stem_extension (list_ascii_of_string p)).
      destruct Hname as [-> | ->].
      - intros E. apply json_name_import in E. congruence.
      - apply json_name_export. apply extension_shape. }
    split; [exact Hf|]. intros ->. apply Hf. reflexivity.
  - intros modFile Hv.
    assert (Hf : Path.filename (list_ascii_of_string path) <>
                 Path.filename (list_ascii_of_string modFile)).
    { destruct Hname as [-> | ->].
      - apply json_name_not_mod. exact Hv.
      - rewrite app_assoc. apply json_name_not_mod. exact Hv. }
    split; [exact Hf|]. intros ->. apply Hf. reflexivity.
Qed.

End RemovedPaths.

Lemma X4_only_temporary_files_removed_witness :
  In (Remove "Data Files/TEMP_first.json") (sample_paths_run "Data Files/first.ESP") /\
  "Data Files/TEMP_first.json" <> "Data Files/first.ESP".
Proof.
  assert (H : In (Remove "Data Files/TEMP_first.json")
                (sample_paths_run "Data Files/first.ESP")).
  { vm_compute. tauto. }
  split; [exact H|].
  destruct (X4_only_temporary_files_removed (fun _ _ => false) (fun d _ _ => Some d)
              (fun _ _ => true) (fun _ => true) (fun _ _ => true) (fun _ _ => true)
              (fun _ => Parsed sample_world) (fun _ => "exception")
              (db_of_rows [(10, 4)]) ∅ forward_options
              ["Data Files/first.ESP"] "Data Files/TEMP_first.json" H)
    as [_ Hmod].
  apply (Hmod "Data Files/first.ESP"). reflexivity.
Defined.
